(* ===== verification/_CoqProject ===== *)
-Q . S2P
Prelude.v
Bytes.v
Strings.v
Logger.v
Platform.v
ObjectPool.v
Packet.v
RecvBuffer.v
Protobuf.v
PbRuntimeDemo.v
PacketPb.v
Session.v
MemoryPool.v
PacketTraits.v
TestClient.v
Lock.v
Closing.v
JobQueue.v
Config.v
AuthService.v
AuthPool.v
HttpClient.v
GameRoom.v
PacketManager.v
SessionManager.v
RoomManager.v
Logic.v
TrafficPolicy.v
ServerCore.v
Reports.v
HealthServer.v
Lifecycle.v
ServerConn.v
ServerSafety.v
Accounts.v
Sockets.v
RoomSpec.v
Requests.v
Clients.v
Presence.v
Frames.v
Lifetime.v
Authentication.v
Admission.v
Ranges.v
RoomRaces.v
Scenarios.v
