(* ===== verification/Prelude.v ===== *)
(** * A verification library for the realtime game server

    The program (C++ under [src/]) is a game server on Windows I/O completion
    ports.  Worker threads take completions from the port: a new connection, bytes
    received, a send that is done.  Bytes are framed into packets, packets are
    dispatched to handlers, and handlers answer, ask a pool of threads to validate
    a login token, or queue a job in a game room.  One thread ticks the rooms,
    running the queued jobs and broadcasting; one disconnects silent sessions and
    collects empty rooms; one reports to a control plane and pulls a connection
    policy from it.  This library models these parts as functions and step
    relations and proves what they promise.

    ** The model

    - Effects are explicit state passing.  [Session.Net] is what sessions share:
      the session objects by identity (a [shared_ptr] is such an identity), the
      pool of I/O contexts, the counters, and the history of what was handed to
      the kernel.  [Logic.World] adds the rooms, the registry of sessions, the
      queued validations and the configuration; [ServerCore.Server] adds the
      accept side and the policy.
    - [option] is undefined behaviour: [None] is an access through the pointer of
      a destroyed room (room addresses are never reused in the model, so that it
      can be seen), a null receive context, or lack of fuel.
    - The environment is a class: [Platform.Platform] has the clocks, the outcome
      of every send and receive, and the iteration order of unordered containers;
      all theorems hold for every instance.  [Protobuf.PbRuntime] is the part of
      the protobuf runtime the generated code calls, with its documented laws in
      [PbRuntimeLaws].  [DemoPlatform] and [DemoPb] are executable instances, on
      which examples and witnesses evaluate.  HTTP answers are arguments.
    - Machine integers are [Z] with their wrap-around ([u16], [i32], ...) where the
      code converts or can overflow; signed overflow is taken to wrap.  Bytes are
      [byte], texts [string]; a 32-bit float is its bit pattern.
    - Fuel occurs in three kinds of loop, always with a theorem that it suffices:
      those that take packets apart ([RecvBuffer.frames], [ServerCore.recv_loop],
      [TestClient.packets_from]; every packet has four header bytes,
      [frames_unfold], [recv_loop_serve], [packets_from_frames]), the field loop of
      the protobuf parser in [Protobuf] (every field consumes a tag), and the
      variable-length integers of [PbRuntimeDemo] (at most ten bytes).

    ** The files

    - [Prelude], [Bytes] (bytes, little endian, memory blocks), [Strings] (search,
      decimal numbers), [Platform].
    - [ObjectPool]: [Utils/ObjectPool.h]; [MemoryPool]: [Memory/memoryPool.h], the
      pool it replaced.  [Packet]: [PacketHeader.h], [PacketID.h].
      [RecvBuffer]: [Packet/RecvBuffer.cpp], with the framing as specification.
    - [Protobuf], [PbRuntimeDemo], [PacketPb]: the wire format, and the messages of
      [Packet/Logic/Packet.pb.cc]; [PacketTraits]: message types and their ids.
    - [Session]: [Core/ServerSession.cpp], and the counters of
      [Utils/ServerStats.h].  Sending, the token bucket, disconnecting.
      [TestClient]: [TestClient.cpp], the other end of the wire.
    - [Lock], [JobQueue], [Logger]: [Utils/Lock.h], [Utils/JobQueue.h],
      [Utils/Logger.h]; their operations, and their interleaving by any number of
      threads as step relations.  [Closing]: the threads that disconnect, send and
      receive on one session at the same time, in the same way.
    - [Config]: [Utils/Config.h].  [AuthService], [HttpClient], [HealthServer]: the
      files of these names in [Utils].  [AuthPool]: the queue and the threads of
      [Utils/AuthService.cpp], with their interleaving like [Logger].  [TrafficPolicy]: the policy functions of
      [Core/ServerCore.cpp].
    - [GameRoom]: [Game/GameRoom.h]; [RoomSpec]: what a room promises, without
      containers and sockets.  [RoomManager], [SessionManager]: the two
      registries.  [PacketManager], [Logic]: dispatch and the packet handlers.
    - [ServerCore]: [Core/ServerCore.cpp]; [handle_event] reacts to one event.
      [Reports]: the texts in which it reports its numbers.  [Lifecycle]: its
      initialisation, its threads, its end, and [main.cpp].
    - About the whole server: [ServerConn] has the invariant of connections, and
      what happens to received bytes; [ServerSafety] the invariant of the server;
      [Accounts] what it refers to and counts; [Sockets] where its sockets are;
      [Requests] what the packets of a client ask of the rooms; [Clients] the
      server in terms of typed requests, with bytes, framing and dispatch gone;
      [Presence] silence, login and coming back; [Frames] what its functions leave
      alone, for any relation in the class [Frame]; [Lifetime] what keeps a session
      alive; [Authentication] who gets into the rooms; [Admission] how many
      connections are let in; [Ranges] the integers of the packet rate limit.
    - [RoomRaces]: the workers, the tick thread and the heartbeat interleaved step
      by step on the rooms.
    - [Scenarios]: concrete runs, witnesses, and the behaviours found.

    ** The theorems

    - The whole server: [server_never_stuck] (no reachable state has an event that
      touches a destroyed room; rooms, sessions and outstanding receives are
      consistent), by rule induction over [server_step] from [server_wf].
      [connections_counted] (the reported number of connections is the size of
      the registry), [sockets_conserved] (no socket is leaked or closed twice),
      [inflight_untouched] (the memory of a send is not touched before its
      completion), [outstanding_held] (nor is a session destroyed under a receive or
      a send), [refused_send_leaks] (what a refused send leaves behind),
      [members_authenticated] (only sessions and accounts the control plane has
      vouched for are in the rooms), by induction over [logged], the runs with the
      log of the logins.
    - From bytes to games: [feed_frames] (framing), [HandleRecv_serves] (the
      receive loop serves exactly the frames of the stream), [HandleRecv_performs]
      (that is, it performs exactly the requests of the client),
      [HandleRecv_requests] (rooms get exactly the jobs the packets ask for),
      [rooms_follow_clients] (with the next tick they take the abstract room
      through these), [readies_start_game] (the readies of the last players, as
      bytes, and one tick start the game), [chats_are_heard] (what is said is sent
      to every member).
    - Coming and going: [Heartbeat_sweeps] (exactly the silent are disconnected),
      [login_answered], [reconnect_restores] (a player who lost the connection
      during a game is taken back).
    - Rooms: [Tick_refines] (a tick follows the abstract room), [room_invariant],
      [shared_account_waits] (two sessions with one account keep a game from starting),
      [run_job_state], [BroadcastPendingMoves_delivery] and
      [BroadcastRoomState_delivery]; [RemoveIdleRooms_safe].
    - Messages and sending: [any_roundtrip], for all messages at once;
      [Send_received] (what is sent is one frame that the client reads back);
      [RecvLoop_frames] (how the client takes a stream apart); a context in
      flight is owned by nobody else ([net_wf], on the pool's [pool_wf]).
    - Connections: [HandleDisconnect_first]; [closing_once] for any interleaving
      of threads; [bucket_limit] for a session, and [limiter_in_range] (in every
      reachable state its limiter is the one of unbounded integers, as long as the
      product of rate and uptime is below 10^12); [connection_limit] for the bucket of
      the server, [connections_policed] for any period of any run of it, pulls of
      the policy included, and [RefreshTrafficPolicy_applies].
    - Concurrency: [SpinLock_exclusion], [JobQueue_fifo],
      [AuthService_exactly_once] (every validation once, and what [Stop] waits for),
      [AuthService_lost_stop], [Logger_order], [Logger_drains],
      [Logger_lost_wakeup]; [calm_rooms_alive] (rooms are safe to share as long as
      collections do not overlap with ticks and look-ups; [RoomRaces] also has the
      runs in which they do and a destroyed room is used).
    - Start and end: [Init_releases], [Stop_completes] (the two ways a stop can end),
      [Stop_can_terminate] (a run to the bad one), [server_never_stops].
    - Texts and services: [Load_roundtrip], [validate_sound],
      [DoRequest_complete] (with [broken_off_is_ok]), [HealthServer_run], [answer_readable],
      [reports_readable], [Handle_C_PING_echo], [room_list_roundtrip].

    The invariants build on each other: [rb_wf] (buffer), [pool_wf] and [net_wf]
    (contexts), [room_wf] (one room), [rm_wf] and [linked] (rooms and the pointers
    of sessions), [sm_wf] (registry), [world_wf], [conn_wf], [server_wf].  What an
    operation leaves alone is stated by frames that compose: [sends], [posts],
    [closes], [plays], [effect], [handles], [quiet], [stays], [acct], [settled],
    [same_place], [elsewhere], [fixed], [metered], [keeps], [vouches].

    ** What is not modelled

    - Events of [ServerCore] are atomic: handlers of different threads do not
      overlap.  The queue, the locks, the logger, the validations, the start and
      the end of the threads, the closing of a session, and what the threads do to
      the rooms are modelled with their interleavings ([TickAll_alone] and
      [RemoveIdleRooms_alone] tie [RoomRaces] to the atomic operations); the
      unprotected members of a room that workers read in [FindReconnect] are read
      in one step there too.
    - Single accesses to members without a lock: the account of a session, which a
      login sets while rooms read it, and the members of a room.  A race on these
      is undefined in C++; in the model they are read and written in one step.
    - Of the generated protobuf code, the descriptor tables, arenas and
      reflection, and the message [C_ROOM_LEAVE], which has no fields and whose
      code is in the runtime.
    - [AuthService::Start] makes its threads in one step, and is called once, as by
      the server; so is the making of the threads in [ServerCore::Start] not
      interleaved with a [Stop].
    - Of [Memory/memoryPool.h], which no file includes and which names a member
      that [IOContext] does not have, only that member and the type of a context.
    - Console output and the options set on sockets; the time stamps of log lines
      are arguments.  [main] has a handler for exceptions; the model throws none. *)
From stdpp Require Export relations functions prelude strings gmap list pretty.
From Stdlib Require Export ZArith Lia Sorting.Sorted.

#[export] Set Default Goal Selector "!".

(** ** Machine integers

    A w-bit unsigned value is a [Z] in [0, 2^w); a conversion wraps.  A w-bit
    signed value is a [Z] in [-2^(w-1), 2^(w-1)). *)
Definition wrapU (w z : Z) : Z := z `mod` 2 ^ w.
Definition wrapS (w z : Z) : Z := (z + 2 ^ (w - 1)) `mod` 2 ^ w - 2 ^ (w - 1).

Definition u16 (z : Z) : Z := wrapU 16 z.
Definition u64 (z : Z) : Z := wrapU 64 z.
Definition i32 (z : Z) : Z := wrapS 32 z.
Definition i64 (z : Z) : Z := wrapS 64 z.

Lemma wrapU_id w z : (0 ≤ z < 2 ^ w)%Z → wrapU w z = z.
Proof. intros H. apply Z.mod_small. lia. Qed.

Lemma wrapU_range w z : (0 ≤ w)%Z → (0 ≤ wrapU w z < 2 ^ w)%Z.
Proof. intros Hw. apply Z.mod_pos_bound. apply Z.pow_pos_nonneg; lia. Qed.

Lemma wrapS_id w z : (1 ≤ w)%Z → (- 2 ^ (w - 1) ≤ z < 2 ^ (w - 1))%Z → wrapS w z = z.
Proof.
  intros Hw Hz. unfold wrapS. rewrite Z.mod_small; [lia|].
  replace (2 ^ w)%Z with (2 * 2 ^ (w - 1))%Z; [lia|].
  rewrite <- Z.pow_succ_r by lia. f_equal. lia.
Qed.

Lemma u16_id z : (0 ≤ z < 65536)%Z → u16 z = z.
Proof. intros H. apply wrapU_id. simpl. lia. Qed.

Lemma u16_range z : (0 ≤ u16 z < 65536)%Z.
Proof. apply (wrapU_range 16). lia. Qed.

Lemma i32_id z : (- 2147483648 ≤ z < 2147483648)%Z → i32 z = z.
Proof. intros H. apply wrapS_id; simpl; lia. Qed.

Lemma i32_range z : (- 2147483648 ≤ i32 z ≤ 2147483647)%Z.
Proof. unfold i32, wrapS. pose proof (Z.mod_pos_bound (z + 2 ^ (32 - 1)) (2 ^ 32)). lia. Qed.

Lemma i64_id z : (- 2 ^ 63 ≤ z < 2 ^ 63)%Z → i64 z = z.
Proof. intros H. apply wrapS_id; simpl in *; lia. Qed.

Create Rewrite HintDb bytes.
Create HintDb server.

(** ** Tactics *)

(** Split every conjunction and existential among the hypotheses. *)
Ltac destruct_all :=
  repeat match goal with
  | H : _ ∧ _ |- _ => destruct H
  | H : ∃ _, _ |- _ => destruct H
  end.

(** Expose the branches of a definition: one case per [match] or [if]. *)
Ltac cases :=
  repeat (case_match || case_decide); simplify_eq/=.

(** Evaluate an equation, but not its type. *)
Ltac vm_equal := match goal with |- _ = ?r => vm_cast_no_check (eq_refl r) end.

(** ** Lists *)
Section list_facts.
Context {A : Type}.
Implicit Types (l k : list A).

Lemma take_app_exact l k n : n = length l → take n (l ++ k) = l.
Proof. intros ->. apply take_app_length. Qed.

Lemma drop_app_exact l k n : n = length l → drop n (l ++ k) = k.
Proof. intros ->. apply drop_app_length. Qed.

(** The sum of a list after one element has changed. *)
Lemma sum_list_insert (f : A → nat) l (i : nat) x y :
  l !! i = Some x → (sum_list_with f (<[i := y]> l) + f x = sum_list_with f l + f y)%nat.
Proof.
  revert i. induction l as [|z l IH]; intros i Hk; [done|]. destruct i as [|i]; simpl in *.
  - injection Hk as ->. lia.
  - specialize (IH i Hk). lia.
Qed.

Lemma take_drop_split l n : l = take n l ++ drop n l.
Proof. symmetry. apply take_drop. Qed.
End list_facts.

(** ** Transition systems *)

(** Rule induction: what holds initially and is kept by every step holds in
    every reachable state. *)
Lemma rtc_invariant {A} (R : relation A) (P : A → Prop) x y :
  P x → (∀ a b, P a → R a b → P b) → rtc R x y → P y.
Proof. intros Hx Hs Hr. revert Hx. induction Hr; eauto. Qed.

(** ** Mutual exclusion

    A mutex is the party that has it, if any; [holds] says of a position whether
    its party is in a critical section.  The three ways a step can affect them. *)
Section mutex.
Context {P : Type} `{EqDecision P}.
Implicit Types (holds : P → Prop) (m : option P) (p : P).

Definition owned holds m : Prop := ∀ p, holds p ↔ m = Some p.

Lemma owned_keep holds holds' m :
  (∀ p, holds' p ↔ holds p) → owned holds m → owned holds' m.
Proof. intros Hh Hm p. by rewrite Hh. Qed.

Lemma owned_take p holds holds' :
  (∀ q, q ≠ p → holds' q ↔ holds q) → holds' p → owned holds None → owned holds' (Some p).
Proof.
  intros Hh Hp Hm q. split; [|by intros [= <-]]. intros Hq.
  destruct (decide (q = p)) as [->|Hn]; [done|]. by apply Hh, Hm in Hq.
Qed.

Lemma owned_release p holds holds' m :
  holds p → (∀ q, q ≠ p → holds' q ↔ holds q) → ¬ holds' p → owned holds m → owned holds' None.
Proof.
  intros Hp Hh Hn Hm q. split; [|done]. intros Hq.
  destruct (decide (q = p)) as [->|Hne]; [done|]. apply Hh, Hm in Hq; [|done].
  apply Hm in Hp. congruence.
Qed.

(** Nobody else is inside. *)
Lemma owned_unique holds m p q : owned holds m → holds p → holds q → p = q.
Proof. intros Hm Hp%Hm Hq%Hm. congruence. Qed.
End mutex.
