(* ===== verification/Bytes.v ===== *)
(** * Bytes, little-endian integers and flat memory

    The server targets little-endian machines: [PacketHeader] is read and
    written through a [reinterpret_cast], so its fields are little-endian in
    the buffers.  A buffer is a [list byte]; [mem_read] and [mem_write] are the
    [memcpy]-like accesses the code performs on it. *)
From S2P Require Import Prelude.
From Stdlib Require Export Strings.Byte.
Local Open Scope Z_scope.

Abbreviation byte := Byte.byte.
#[export] Instance byte_eq_dec : EqDecision byte := Byte.byte_eq_dec.

Definition byte_val (b : byte) : Z := Z.of_N (Byte.to_N b).

(** [static_cast<uint8_t>(z)]. *)
Definition byte_of_Z (z : Z) : byte :=
  default Byte.x00 (Byte.of_N (Z.to_N (z `mod` 256))).

Lemma byte_val_range b : 0 ≤ byte_val b < 256.
Proof. unfold byte_val. pose proof (Byte.to_N_bounded b). lia. Qed.

Lemma byte_val_of_Z z : byte_val (byte_of_Z z) = z `mod` 256.
Proof.
  unfold byte_val, byte_of_Z. pose proof (Z.mod_pos_bound z 256 ltac:(lia)).
  destruct (Byte.of_N (Z.to_N (z `mod` 256))) as [b|] eqn:E; simpl.
  - apply Byte.to_of_N in E. rewrite E. lia.
  - apply Byte.of_N_None_iff in E. lia.
Qed.

Lemma byte_of_Z_val b : byte_of_Z (byte_val b) = b.
Proof.
  unfold byte_of_Z, byte_val. pose proof (Byte.to_N_bounded b).
  rewrite Z.mod_small by lia. rewrite N2Z.id, Byte.of_to_N. done.
Qed.

(** ** Little-endian integers *)

(** The value of a little-endian byte string. *)
Fixpoint le_val (bs : list byte) : Z :=
  match bs with
  | [] => 0
  | b :: bs => byte_val b + 256 * le_val bs
  end.

(** The [n] low bytes of [z]. *)
Fixpoint le_bytes (n : nat) (z : Z) : list byte :=
  match n with
  | O => []
  | S n => byte_of_Z z :: le_bytes n (z / 256)
  end.

Lemma length_le_bytes n z : length (le_bytes n z) = n.
Proof. revert z. induction n; simpl; auto. Qed.

Lemma le_val_range bs : 0 ≤ le_val bs < 256 ^ Z.of_nat (length bs).
Proof.
  induction bs as [|b bs IH]; simpl length; [simpl; lia|].
  rewrite Nat2Z.inj_succ, Z.pow_succ_r by lia. simpl.
  pose proof (byte_val_range b). lia.
Qed.

Lemma le_val_bytes n z : le_val (le_bytes n z) = z `mod` 256 ^ Z.of_nat n.
Proof.
  revert z. induction n as [|n IH]; intros z.
  - simpl. rewrite Z.mod_1_r. done.
  - rewrite Nat2Z.inj_succ, Z.pow_succ_r by lia. simpl.
    rewrite IH, byte_val_of_Z.
    rewrite Z.rem_mul_r by (try apply Z.pow_pos_nonneg; lia). lia.
Qed.

Lemma le_bytes_val bs n : n = length bs → le_bytes n (le_val bs) = bs.
Proof.
  intros ->. induction bs as [|b bs IH]; simpl; [done|].
  pose proof (byte_val_range b). f_equal.
  - rewrite <- (byte_of_Z_val b) at 2. unfold byte_of_Z. do 3 f_equal.
    rewrite (Z.mod_small (byte_val b)) by lia.
    rewrite (Z.mul_comm 256), Z_mod_plus_full. apply Z.mod_small. lia.
  - transitivity (le_bytes (length bs) (le_val bs)); [|exact IH]. f_equal.
    rewrite (Z.mul_comm 256), Z.div_add by lia. rewrite Z.div_small; lia.
Qed.

Lemma le_val_bytes_small n z : 0 ≤ z < 256 ^ Z.of_nat n → le_val (le_bytes n z) = z.
Proof. intros H. rewrite le_val_bytes. apply Z.mod_small. lia. Qed.

(** [data.push_back(v & 0xFF); data.push_back((v >> 8) & 0xFF)], the idiom of
    the raw packets, is the two low bytes of [v]. *)
Lemma le_bytes_2_masks v :
  le_bytes 2 v = [byte_of_Z (Z.land v 255); byte_of_Z (Z.land (Z.shiftr v 8) 255)].
Proof.
  assert (H : ∀ z, byte_of_Z (Z.land z 255) = byte_of_Z z).
  { intros z. change 255 with (Z.ones 8). rewrite Z.land_ones by lia.
    unfold byte_of_Z. change (2 ^ 8) with 256. rewrite Zmod_mod. done. }
  rewrite !H, Z.shiftr_div_pow2 by lia. done.
Qed.

(** ** Flat memory *)

(** [len] bytes from offset [off]. *)
Definition mem_read (off len : Z) (mem : list byte) : list byte :=
  take (Z.to_nat len) (drop (Z.to_nat off) mem).

(** Overwrite [mem] from offset [off] with [bs]; bytes past the end of [mem]
    are not part of the object and are dropped. *)
Definition mem_write (off : Z) (bs mem : list byte) : list byte :=
  take (length mem) (take (Z.to_nat off) mem ++ bs ++ drop (Z.to_nat off + length bs) mem).

(** A read or write of [len] bytes at [off] stays inside the object. *)
Definition in_range (off len : Z) (mem : list byte) : Prop :=
  0 ≤ off ∧ 0 ≤ len ∧ off + len ≤ Z.of_nat (length mem).

Lemma length_mem_write off bs mem : length (mem_write off bs mem) = length mem.
Proof.
  unfold mem_write. rewrite !length_take, !length_app, length_take, length_drop. lia.
Qed.

Lemma length_mem_read off len mem :
  in_range off len mem → length (mem_read off len mem) = Z.to_nat len.
Proof.
  intros (?&?&?). unfold mem_read. rewrite length_take, length_drop. lia.
Qed.

Lemma mem_write_split off bs mem :
  in_range off (Z.of_nat (length bs)) mem →
  mem_write off bs mem
  = take (Z.to_nat off) mem ++ bs ++ drop (Z.to_nat off + length bs) mem.
Proof.
  intros (?&?&?). unfold mem_write. apply take_ge.
  rewrite !length_app, length_take, length_drop. lia.
Qed.

Lemma mem_write_nil off mem : 0 ≤ off → mem_write off [] mem = mem.
Proof.
  intros. unfold mem_write. simpl. rewrite Nat.add_0_r, take_drop. by apply take_ge.
Qed.

Lemma mem_read_write_same off bs mem :
  in_range off (Z.of_nat (length bs)) mem →
  mem_read off (Z.of_nat (length bs)) (mem_write off bs mem) = bs.
Proof.
  intros H. rewrite mem_write_split by done. destruct H as (?&?&?).
  unfold mem_read. rewrite drop_app_exact by (rewrite length_take; lia).
  apply take_app_exact. lia.
Qed.

(** A read that ends before the written range is not affected. *)
Lemma mem_read_write_before off len o bs mem :
  in_range o (Z.of_nat (length bs)) mem → 0 ≤ off → 0 ≤ len → off + len ≤ o →
  mem_read off len (mem_write o bs mem) = mem_read off len mem.
Proof.
  intros H ???. rewrite mem_write_split by done. destruct H as (?&?&?).
  unfold mem_read. rewrite drop_app_le by (rewrite length_take; lia).
  rewrite take_app_le by (rewrite length_drop, length_take; lia).
  rewrite <- (take_drop (Z.to_nat o) mem) at 2.
  rewrite drop_app_le by (rewrite length_take; lia).
  rewrite take_app_le by (rewrite length_drop, length_take; lia). done.
Qed.

(** Adjacent reads concatenate. *)
Lemma mem_read_app off n m mem :
  0 ≤ off → 0 ≤ n → 0 ≤ m →
  mem_read off (n + m) mem = mem_read off n mem ++ mem_read (off + n) m mem.
Proof.
  intros. unfold mem_read.
  replace (Z.to_nat (n + m)) with (Z.to_nat n + Z.to_nat m)%nat by lia.
  replace (Z.to_nat (off + n)) with (Z.to_nat off + Z.to_nat n)%nat by lia.
  rewrite <- drop_drop, take_take_drop. done.
Qed.

Lemma mem_read_take off n m mem :
  0 ≤ m ≤ n → take (Z.to_nat m) (mem_read off n mem) = mem_read off m mem.
Proof. intros. unfold mem_read. rewrite take_take. f_equal. lia. Qed.

Lemma mem_read_drop off n m mem :
  0 ≤ off → 0 ≤ m ≤ n →
  drop (Z.to_nat m) (mem_read off n mem) = mem_read (off + m) (n - m) mem.
Proof.
  intros. unfold mem_read. rewrite skipn_firstn_comm, drop_drop. f_equal; [|f_equal]; lia.
Qed.

Lemma mem_read_0 off mem : mem_read off 0 mem = [].
Proof. done. Qed.

Lemma mem_read_all mem : mem_read 0 (Z.of_nat (length mem)) mem = mem.
Proof. unfold mem_read. rewrite drop_0. apply take_ge. lia. Qed.

(** ** Strings as bytes

    A [std::string] is a [string]; its bytes are its characters. *)
Definition str_bytes (s : string) : list byte := String.list_byte_of_string s.
Definition bytes_str (bs : list byte) : string := String.string_of_list_byte bs.

Lemma bytes_str_bytes s : bytes_str (str_bytes s) = s.
Proof. apply String.string_of_list_byte_of_string. Qed.

Lemma str_bytes_str bs : str_bytes (bytes_str bs) = bs.
Proof. apply String.list_byte_of_string_of_list_byte. Qed.

Lemma length_str_bytes s : length (str_bytes s) = String.length s.
Proof. induction s; simpl; [done|]. f_equal. done. Qed.

#[export] Hint Rewrite length_le_bytes length_mem_write byte_val_of_Z byte_of_Z_val
  length_str_bytes : bytes.
