(* ===== verification/Strings.v ===== *)
(** * String handling

    The [std::string] operations the configuration loader and the small JSON and
    HTTP parsers use, and reading decimal numbers, with the round trip of
    [std::to_string]. *)
From Stdlib Require Import Ascii.
From S2P Require Import Prelude.
Local Open Scope Z_scope.

(** ** Substrings *)

(** [s.find(pat)]. *)
Fixpoint str_find (pat s : string) : option nat :=
  if String.prefix pat s then Some 0%nat
  else match s with
       | EmptyString => None
       | String _ s => S <$> str_find pat s
       end.

(** [s.substr(n)], for [n <= s.size()]. *)
Fixpoint str_drop (n : nat) (s : string) : string :=
  match n, s with
  | S n, String _ s => str_drop n s
  | _, _ => s
  end.

(** [s.substr(0, n)]. *)
Fixpoint str_take (n : nat) (s : string) : string :=
  match n, s with
  | S n, String c s => String c (str_take n s)
  | _, _ => ""
  end.

(** The loop [while (pos < s.size() && p(s[pos])) ++pos]. *)
Fixpoint skip_while (p : ascii → bool) (s : string) : string :=
  match s with
  | String c s' => if p c then skip_while p s' else s
  | EmptyString => ""
  end.

Lemma str_app_cons c s t : String c s +:+ t = String c (s +:+ t).
Proof. done. Qed.

Lemma str_app_nil t : "" +:+ t = t.
Proof. done. Qed.

Ltac str_simpl := rewrite ?str_app_cons, ?str_app_nil; simpl.

Lemma str_app_assoc s1 s2 s3 : (s1 +:+ s2) +:+ s3 = s1 +:+ (s2 +:+ s3).
Proof. induction s1; str_simpl; congruence. Qed.

Lemma str_app_nil_r s : s +:+ "" = s.
Proof. induction s as [|c s IH]; [done|]. by rewrite str_app_cons, IH. Qed.

Lemma str_drop_app s t : str_drop (String.length s) (s +:+ t) = t.
Proof. induction s; str_simpl; auto. Qed.

Lemma str_take_app s t : str_take (String.length s) (s +:+ t) = s.
Proof. induction s; str_simpl; congruence. Qed.

Lemma str_take_drop n s : str_take n s +:+ str_drop n s = s.
Proof. revert s. induction n as [|n IH]; intros [|c s]; simpl; try done. by rewrite str_app_cons, IH. Qed.

Lemma str_length_app s t : String.length (s +:+ t) = (String.length s + String.length t)%nat.
Proof. induction s; str_simpl; congruence. Qed.

Lemma prefix_app s t : String.prefix s (s +:+ t) = true.
Proof.
  induction s as [|c s IH]; [by destruct t|]. str_simpl. destruct (ascii_dec c c); [exact IH|congruence].
Qed.

(** The first occurrence is reported. *)
Lemma str_find_sound pat s n :
  str_find pat s = Some n → String.prefix pat (str_drop n s) = true.
Proof.
  revert n. induction s as [|c s IH]; intros n; cbn [str_find].
  - destruct (String.prefix pat "") eqn:E; [|discriminate]. by intros [= <-].
  - destruct (String.prefix pat (String c s)) eqn:E; [by intros [= <-]|].
    destruct (str_find pat s) as [k|] eqn:Ek; [|done]. intros [= <-]. by apply IH.
Qed.

Lemma str_find_first pat s n k :
  str_find pat s = Some n → (k < n)%nat → String.prefix pat (str_drop k s) = false.
Proof.
  revert n k. induction s as [|c s IH]; intros n k; cbn [str_find].
  - destruct (String.prefix pat ""); [|discriminate]. intros [= <-]. lia.
  - destruct (String.prefix pat (String c s)) eqn:E; [intros [= <-]; lia|].
    destruct (str_find pat s) as [m|] eqn:Em; [|done]. intros [= <-] Hk.
    destruct k as [|k]; [done|]. simpl. apply (IH m); [done|lia].
Qed.

Lemma skip_while_all p ws s :
  Forall (λ c, p c = true) (String.list_ascii_of_string ws) →
  skip_while p (ws +:+ s) = skip_while p s.
Proof. induction ws as [|c ws IH]; str_simpl; [done|]. by intros [-> Hf]%Forall_cons; auto. Qed.

(** ** Characters *)

Definition ascii_val (c : ascii) : Z := Z.of_N (N_of_ascii c).

(** [std::isdigit] and [std::isspace] of the "C" locale. *)
Definition isdigit (c : ascii) : bool := bool_decide (48 ≤ ascii_val c ≤ 57).
Definition isspace (c : ascii) : bool :=
  bool_decide (ascii_val c = 32 ∨ 9 ≤ ascii_val c ≤ 13).

Definition all_space (s : string) : Prop :=
  Forall (λ c, isspace c = true) (String.list_ascii_of_string s).
#[export] Instance all_space_dec s : Decision (all_space s).
Proof. unfold all_space. apply _. Defined.

(** ** Decimal numbers *)

(** The digit loop: [step] accumulates one digit.  Also returns whether there
    was a digit. *)
Fixpoint read_digits (step : Z → Z → Z) (value : Z) (s : string) : Z * bool :=
  match s with
  | String c s =>
      if isdigit c then ((read_digits step (step value (ascii_val c - 48)) s).1, true)
      else (value, false)
  | EmptyString => (value, false)
  end.

Lemma pretty_N_char_val n :
  (n < 10)%N → isdigit (pretty_N_char n) = true ∧ ascii_val (pretty_N_char n) - 48 = Z.of_N n.
Proof.
  intros Hn. assert (n = 0 ∨ n = 1 ∨ n = 2 ∨ n = 3 ∨ n = 4 ∨ n = 5 ∨ n = 6 ∨ n = 7 ∨ n = 8
    ∨ n = 9)%N as Hc by lia. repeat destruct Hc as [->|Hc]; try by split. subst. by split.
Qed.

Section read_pretty.
Context (step : Z → Z → Z) (bound : Z).
Hypothesis step_ok : ∀ v d, 0 ≤ v → 0 ≤ d < 10 → v * 10 + d ≤ bound → step v d = v * 10 + d.

(** A digit character is read as its value. *)
Lemma read_digits_cons v n s :
  0 ≤ v → (n < 10)%N → v * 10 + Z.of_N n ≤ bound →
  read_digits step v (String (pretty_N_char n) s)
  = ((read_digits step (v * 10 + Z.of_N n) s).1, true).
Proof.
  intros Hv Hn Hb. destruct (pretty_N_char_val n Hn) as [Hd Hval]. simpl.
  rewrite Hd, Hval, step_ok by lia. done.
Qed.

Lemma read_pretty_go n s :
  (0 < n)%N → Z.of_N n ≤ bound →
  read_digits step 0 (pretty_N_go n s) = ((read_digits step (Z.of_N n) s).1, true).
Proof.
  revert s. induction (N.lt_wf_0 n) as [n _ IH]; intros s Hn Hb.
  rewrite pretty_N_go_step by done.
  assert (Hmod : (n `mod` 10 < 10)%N) by (apply N.mod_lt; lia).
  pose proof (N.div_mod n 10 ltac:(lia)) as Hdm.
  assert (Hq : (n / 10 < n)%N) by (apply N.div_lt; lia).
  set (q := (n / 10)%N) in *. set (r := (n `mod` 10)%N) in *.
  destruct (decide (q = 0)%N) as [Hz|Hz].
  - rewrite Hz, pretty_N_go_0. rewrite read_digits_cons by lia.
    by replace (0 * 10 + Z.of_N r) with (Z.of_N n) by lia.
  - rewrite IH by lia. rewrite read_digits_cons by lia. simpl.
    by replace (Z.of_N q * 10 + Z.of_N r) with (Z.of_N n) by lia.
Qed.

Lemma pretty_N_go_app n s t : pretty_N_go n (s +:+ t) = pretty_N_go n s +:+ t.
Proof.
  revert s. induction (N.lt_wf_0 n) as [n _ IH]; intros s.
  destruct (decide (0 < n)%N) as [Hn|Hn].
  - rewrite !(pretty_N_go_step n) by done.
    change (String ?c (s +:+ t)) with (String c s +:+ t). apply IH. apply N.div_lt; lia.
  - assert (n = 0%N) as -> by lia. by rewrite !pretty_N_go_0.
Qed.

(** Reading stops at the first character that is no digit. *)
Definition no_digit (s : string) : Prop :=
  match s with String c _ => isdigit c = false | EmptyString => True end.

Lemma read_digits_stop v s : no_digit s → read_digits step v s = (v, false).
Proof. destruct s; simpl; [done|]. by intros ->. Qed.

(** What [std::to_string] prints is read back. *)
Lemma read_pretty n s :
  Z.of_N n ≤ bound → no_digit s → read_digits step 0 (pretty n +:+ s) = (Z.of_N n, true).
Proof.
  intros Hb Hs. unfold pretty, pretty_N. case_decide as Hz.
  - subst. change ("0" +:+ s) with (String (pretty_N_char 0) s).
    rewrite read_digits_cons by lia. by rewrite read_digits_stop.
  - rewrite <- pretty_N_go_app. change ("" +:+ s) with s.
    rewrite read_pretty_go by lia. by rewrite read_digits_stop.
Qed.
End read_pretty.

Lemma pretty_N_no_sign (n : N) s : ∃ c r, pretty n +:+ s = String c r ∧ isdigit c = true.
Proof.
  assert (Hgo : ∀ n s, (0 < n)%N → ∃ c r, pretty_N_go n s = String c r ∧ isdigit c = true).
  { intros m. induction (N.lt_wf_0 m) as [m _ IH]; intros r Hm. rewrite pretty_N_go_step by done.
    destruct (decide (0 < m / 10)%N) as [Hd|Hd].
    - apply IH; [apply N.div_lt; lia|done].
    - assert (m / 10 = 0)%N as -> by (set (q := (m / 10)%N) in *; lia). rewrite pretty_N_go_0. do 2 eexists. split; [done|].
      apply pretty_N_char_val. apply N.mod_lt. lia. }
  unfold pretty, pretty_N. case_decide as Hz.
  - subst. by do 2 eexists.
  - rewrite <- pretty_N_go_app. apply Hgo. lia.
Qed.
