(* ===== verification/Logger.v ===== *)
(** * The logger

    Models [Utils/Logger.h].  Threads push lines to a queue under a mutex and
    notify a condition variable; one worker waits on it, takes the whole queue
    and writes it to the console and to the log file.

    [worker_step] and [client_step] interleave the worker with any number of
    threads that call [Log] and [Shutdown], one access to the shared state at a
    time.  A wait on the condition variable has the positions of the standard:
    the predicate is evaluated while the mutex is held ([WEval]); if it is false
    the thread is about to block ([WParking]), releases the mutex and blocks in
    one step ([WParked]), and a notification sends it back to acquire the mutex.
    A notification finds only a thread that is blocked. *)
From Stdlib Require Import Ascii.
From S2P Require Import Prelude.

(** ** One line *)

Inductive LogLevel := Info | Warn | Error.

#[export] Instance LogLevel_eq_dec : EqDecision LogLevel.
Proof. solve_decision. Defined.

(** The order of the enumerators. *)
Definition level_val (level : LogLevel) : nat :=
  match level with Info => 0 | Warn => 1 | Error => 2 end.

Definition LevelTag (level : LogLevel) : string :=
  match level with Info => "INFO" | Warn => "WARN" | Error => "ERROR" end.

Definition newline : string := String "010"%char "".

Record Entry := mkEntry { level : LogLevel; text : string }.

(** The entry that [Log] pushes, if any; [now] is [Timestamp()]. *)
Definition Log_entry (m_minLevel l : LogLevel) (now message : string) : option Entry :=
  if decide (level_val l < level_val m_minLevel)%nat then None
  else Some (mkEntry l ("[" +:+ now +:+ "][" +:+ LevelTag l +:+ "] " +:+ message +:+ newline)).

(** ** The state *)

(** Where the worker is in [WorkerLoop]. *)
Inductive WorkerPc :=
  (** Acquiring [m_queueMutex] (at the top, or after a notification). *)
  | WLock
  (** In [wait]: evaluating the predicate; about to block; blocked. *)
  | WEval | WParking | WParked
  (** Swapping the queues; releasing the mutex. *)
  | WSwap | WUnlock
  (** At the head of the inner loop; writing to the file and popping. *)
  | WWrite | WFile
  (** Testing [m_running]; acquiring the mutex again; the last look. *)
  | WTest | WRelock | WFinal
  | WExited.

#[export] Instance WorkerPc_eq_dec : EqDecision WorkerPc.
Proof. solve_decision. Defined.

(** Where a client is: acquiring the mutex to push an entry, pushing it, about
    to release, about to notify; or in [Shutdown]. *)
Inductive ClientPc :=
  | CIdle
  | CLock (e : Entry) | CPush (e : Entry) | CUnlock | CNotify
  | CShutNotify | CJoin.

Inductive Party := Worker | Client (t : nat).

#[export] Instance Party_eq_dec : EqDecision Party.
Proof. solve_decision. Defined.

(** [file] is what was appended to the open log file, [written] what was written
    to the console and [logged] what was pushed, in order. *)
Record LogState := mkLogState {
  m_running : bool; m_minLevel : LogLevel; m_queue : list Entry; m_queueMutex : option Party;
  worker : WorkerPc; batch : list Entry; clients : nat → ClientPc;
  written : list Entry; file : option (list Entry); logged : list Entry }.

Definition LogState_new : LogState :=
  mkLogState true Info [] None WLock [] (λ _, CIdle) [] None [].

Definition set_worker (p : WorkerPc) (s : LogState) : LogState :=
  mkLogState (m_running s) (m_minLevel s) (m_queue s) (m_queueMutex s) p (batch s) (clients s)
    (written s) (file s) (logged s).
Definition set_mutex (m : option Party) (s : LogState) : LogState :=
  mkLogState (m_running s) (m_minLevel s) (m_queue s) m (worker s) (batch s) (clients s)
    (written s) (file s) (logged s).
Definition set_client (t : nat) (p : ClientPc) (s : LogState) : LogState :=
  mkLogState (m_running s) (m_minLevel s) (m_queue s) (m_queueMutex s) (worker s) (batch s)
    (<[t := p]> (clients s)) (written s) (file s) (logged s).

(** [m_queue.push(e)]. *)
Definition push (e : Entry) (s : LogState) : LogState :=
  mkLogState (m_running s) (m_minLevel s) (m_queue s ++ [e]) (m_queueMutex s) (worker s) (batch s)
    (clients s) (written s) (file s) (logged s ++ [e]).

(** [std::swap(batch, m_queue)], with a new [batch]. *)
Definition swap_queues (s : LogState) : LogState :=
  mkLogState (m_running s) (m_minLevel s) [] (m_queueMutex s) (worker s) (m_queue s)
    (clients s) (written s) (file s) (logged s).

(** Writing an entry to [cout] or [cerr]. *)
Definition write_console (e : Entry) (s : LogState) : LogState :=
  mkLogState (m_running s) (m_minLevel s) (m_queue s) (m_queueMutex s) (worker s) (batch s)
    (clients s) (written s ++ [e]) (file s) (logged s).

(** Appending it to the file, if open, and popping it. *)
Definition write_file (e : Entry) (s : LogState) : LogState :=
  mkLogState (m_running s) (m_minLevel s) (m_queue s) (m_queueMutex s) (worker s) (tail (batch s))
    (clients s) (written s) ((λ l, l ++ [e]) <$> file s) (logged s).

(** The predicate of the wait. *)
Definition ready (s : LogState) : bool := negb (bool_decide (m_queue s = [])) || negb (m_running s).

(** [notify_one] and [notify_all]: only the worker waits. *)
Definition notify (s : LogState) : LogState :=
  if decide (worker s = WParked) then set_worker WLock s else s.

(** ** Steps *)

Inductive worker_step : LogState → LogState → Prop :=
  | w_lock s :
      worker s = WLock → m_queueMutex s = None →
      worker_step s (set_worker WEval (set_mutex (Some Worker) s))
  | w_eval s :
      worker s = WEval →
      worker_step s (set_worker (if ready s then WSwap else WParking) s)
  | w_park s :
      worker s = WParking → worker_step s (set_worker WParked (set_mutex None s))
  | w_swap s :
      worker s = WSwap → worker_step s (set_worker WUnlock (swap_queues s))
  | w_unlock s :
      worker s = WUnlock → worker_step s (set_worker WWrite (set_mutex None s))
  | w_write s e es :
      worker s = WWrite → batch s = e :: es →
      worker_step s (set_worker WFile (write_console e s))
  | w_file s e es :
      worker s = WFile → batch s = e :: es →
      worker_step s (set_worker WWrite (write_file e s))
  | w_written s :
      worker s = WWrite → batch s = [] → worker_step s (set_worker WTest s)
  | w_test s :
      worker s = WTest →
      worker_step s (set_worker (if m_running s then WLock else WRelock) s)
  | w_relock s :
      worker s = WRelock → m_queueMutex s = None →
      worker_step s (set_worker WFinal (set_mutex (Some Worker) s))
  (** [break], or back to the top; either way the guard releases the mutex. *)
  | w_final s :
      worker s = WFinal →
      worker_step s (set_worker (if decide (m_queue s = []) then WExited else WLock)
                       (set_mutex None s)).

Inductive client_step : LogState → LogState → Prop :=
  | c_lock s t e :
      clients s t = CLock e → m_queueMutex s = None →
      client_step s (set_client t (CPush e) (set_mutex (Some (Client t)) s))
  | c_push s t e :
      clients s t = CPush e → client_step s (set_client t CUnlock (push e s))
  | c_unlock s t :
      clients s t = CUnlock → client_step s (set_client t CNotify (set_mutex None s))
  | c_notify s t :
      clients s t = CNotify → client_step s (set_client t CIdle (notify s))
  | c_shut_notify s t :
      clients s t = CShutNotify → client_step s (set_client t CJoin (notify s))
  | c_join s t :
      clients s t = CJoin → worker s = WExited → client_step s (set_client t CIdle s).

(** Calls of the program, and wake-ups without a notification. *)
Inductive call_step : LogState → LogState → Prop :=
  | call_Log s t l now message e :
      clients s t = CIdle → Log_entry (m_minLevel s) l now message = Some e →
      call_step s (set_client t (CLock e) s)
  (** [m_running.exchange(false)] that reads [true]. *)
  | call_Shutdown s t :
      clients s t = CIdle → m_running s = true →
      call_step s (set_client t CShutNotify
        (mkLogState false (m_minLevel s) (m_queue s) (m_queueMutex s) (worker s) (batch s)
           (clients s) (written s) (file s) (logged s)))
  | call_SetMinLevel s l :
      call_step s (mkLogState (m_running s) l (m_queue s) (m_queueMutex s) (worker s) (batch s)
           (clients s) (written s) (file s) (logged s))
  (** The file is opened for appending. *)
  | call_SetLogFile s :
      file s = None →
      call_step s (mkLogState (m_running s) (m_minLevel s) (m_queue s) (m_queueMutex s) (worker s)
           (batch s) (clients s) (written s) (Some []) (logged s)).

Inductive spurious_step : LogState → LogState → Prop :=
  | spurious s : worker s = WParked → spurious_step s (set_worker WLock s).

Inductive log_step : LogState → LogState → Prop :=
  | step_worker s s' : worker_step s s' → log_step s s'
  | step_client s s' : client_step s s' → log_step s s'
  | step_call s s' : call_step s s' → log_step s s'
  | step_spurious s s' : spurious_step s s' → log_step s s'.

(** ** The invariant *)

(** The positions of the worker in which it holds the mutex, and in which it has
    a batch. *)
Definition inside (p : WorkerPc) : bool :=
  match p with WEval | WParking | WSwap | WUnlock | WFinal => true | _ => false end.
Definition batching (p : WorkerPc) : bool :=
  match p with WUnlock | WWrite | WFile => true | _ => false end.

Definition holds (s : LogState) (p : Party) : Prop :=
  match p with
  | Worker => inside (worker s) = true
  | Client t => clients s t = CUnlock ∨ ∃ e, clients s t = CPush e
  end.

(** The entries of the batch that are not yet on the console. *)
Definition to_write (s : LogState) : list Entry :=
  if decide (worker s = WFile) then tail (batch s) else batch s.

(** What is on the console and through with the file. *)
Definition filed (s : LogState) (l : list Entry) : Prop :=
  if decide (worker s = WFile) then ∃ e, head (batch s) = Some e ∧ written s = l ++ [e]
  else written s = l.

(** What has become of the entries: they are on the console, in the batch or in
    the queue, in the order of the pushes; the file follows the console. *)
Record log_data (s : LogState) : Prop := {
  ld_history : written s ++ to_write s ++ m_queue s = logged s;
  ld_batch : batching (worker s) = true ∨ batch s = [];
  ld_file : ∃ k, filed s (k ++ default [] (file s)) }.

(** Who holds the mutex. *)
Definition log_mutex (s : LogState) : Prop := owned (holds s) (m_queueMutex s).

(** A worker that waits has seen the queue empty, or will be notified. *)
Record log_wait (s : LogState) : Prop := {
  lw_parking : worker s = WParking → m_queue s = [];
  lw_parked : worker s = WParked → m_queue s = [] ∨ ∃ t, clients s t = CUnlock ∨ clients s t = CNotify }.

(** Case analysis on the position of the worker in the definitions above. *)
Ltac log_pc := unfold to_write, filed, holds in *; simpl in *;
  repeat match goal with
  | H : worker ?s = _ |- _ => rewrite H in *
  end; simpl in *; repeat (case_decide; try congruence).

Lemma log_data_move s s' :
  (m_queue s', batch s', written s', file s', logged s')
  = (m_queue s, batch s, written s, file s, logged s) →
  worker s ≠ WFile → worker s' ≠ WFile →
  (batching (worker s') = true ∨ batch s = []) → log_data s → log_data s'.
Proof.
  intros [= Eq Eb Ew Ef El] Hw Hw' Hb [H1 H2 H3].
  unfold to_write, filed in *. rewrite decide_False in H1 by done.
  split; unfold to_write, filed; rewrite ?(decide_False (P := worker s' = WFile)) by done.
  - by rewrite Eq, Eb, Ew, El.
  - by rewrite Eb.
  - destruct H3 as [k H3]. exists k. rewrite decide_False in H3 by done.
    rewrite decide_False by done. by rewrite Ew, Ef.
Qed.

Lemma log_data_worker s s' : log_data s → worker_step s s' → log_data s'.
Proof.
  intros Hd Hs. pose proof Hd as [H1 H2 [k H3]].
  destruct Hs as [s Hw|s Hw|s Hw|s Hw|s Hw|s e es Hw He|s e es Hw He|s Hw He|s Hw|s Hw|s Hw];
    try (apply (log_data_move s); simpl; try case_match; try case_decide;
         rewrite ?Hw in *; try done; naive_solver).
  - split; log_pc; [|by left|by exists k].
    destruct H2 as [|H2]; [done|]. rewrite H2 in H1. by rewrite app_nil_r.
  - split; log_pc; [|by left|].
    + rewrite He in H1 |- *. by rewrite <- app_assoc.
    + exists k, e. by rewrite He, H3.
  - split; log_pc; [done|by left|]. rewrite He in H3. destruct H3 as (e' & [= ->] & ->).
    destruct (file s); simpl; [exists k; by rewrite <- app_assoc|].
    exists (k ++ [e']). by rewrite !app_nil_r.
Qed.

(** The data is not touched by the rest, pushes apart. *)
Lemma log_data_push s e : log_data s → log_data (push e s).
Proof.
  intros [H1 H2 H3]. split; [|done|done]. simpl. rewrite <- H1. by rewrite <- !app_assoc.
Qed.

Lemma log_data_wake s : worker s = WParked → log_data s → log_data (set_worker WLock s).
Proof.
  intros Hw Hd. apply (log_data_move s); simpl; rewrite ?Hw; try done. right.
  destruct (ld_batch s Hd) as [Hin|]; [|done]. by rewrite Hw in Hin.
Qed.

Lemma log_data_notify s : log_data s → log_data (notify s).
Proof. intros Hd. unfold notify. case_decide as Hw; [|done]. by apply log_data_wake. Qed.

Lemma log_data_client t p s : log_data s → log_data (set_client t p s).
Proof. by intros []. Qed.

Lemma log_data_step s s' : log_data s → log_step s s' → log_data s'.
Proof.
  intros Hd Hs. destruct Hs as [s s' Hs|s s' Hs|s s' Hs|s s' Hs].
  - by eapply log_data_worker.
  - destruct Hs; apply log_data_client; try (by destruct Hd);
      [by apply log_data_push|by apply log_data_notify..].
  - destruct Hs; [by destruct Hd..|]. destruct Hd as [H1 H2 [k H3]]. split; [done|done|].
    exists k. unfold filed in *. simpl. by rewrite H in H3.
  - destruct Hs. by apply log_data_wake.
Qed.

(** The three ways a step can affect the mutex. *)
Lemma mutex_keep s s' :
  m_queueMutex s' = m_queueMutex s → (∀ p, holds s' p ↔ holds s p) → log_mutex s → log_mutex s'.
Proof. unfold log_mutex. intros ->. apply owned_keep. Qed.

Lemma mutex_take p s s' :
  m_queueMutex s = None → m_queueMutex s' = Some p →
  (∀ q, q ≠ p → holds s' q ↔ holds s q) → holds s' p → log_mutex s → log_mutex s'.
Proof. unfold log_mutex. intros -> ->. apply owned_take. Qed.

Lemma mutex_release p s s' :
  holds s p → m_queueMutex s' = None →
  (∀ q, q ≠ p → holds s' q ↔ holds s q) → ¬ holds s' p → log_mutex s → log_mutex s'.
Proof. unfold log_mutex. intros Hp ->. by apply owned_release. Qed.

Lemma log_mutex_notify s : log_mutex s → log_mutex (notify s).
Proof.
  unfold notify. case_decide as Hw; [|done]. apply mutex_keep; [done|].
  intros [|t]; simpl; [by rewrite Hw|done].
Qed.

Lemma log_mutex_worker s s' : log_mutex s → worker_step s s' → log_mutex s'.
Proof.
  intros Hm Hs. destruct Hs as [s Hw|s Hw|s Hw|s Hw|s Hw|s e es Hw He|s e es Hw He|s Hw He|s Hw|s Hw|s Hw];
    first [ eapply (mutex_keep s); [done| |done]; intros [|t]; simpl; [|done]; rewrite Hw; simpl;
            (done || by repeat case_match)
          | apply (mutex_take Worker s); [done|done| |done|done]; by intros [|t]
          | apply (mutex_release Worker s); [by simpl; rewrite Hw|done| | |done];
            [by intros [|t]|simpl; by repeat case_match] ].
Qed.

(** A client moves between positions outside the critical section. *)
Lemma log_mutex_client s t p :
  (∀ q, q ∈ [clients s t; p] → q ≠ CUnlock ∧ ∀ e, q ≠ CPush e) →
  log_mutex s → log_mutex (set_client t p s).
Proof.
  intros Hq. apply mutex_keep; [done|]. intros [|u]; simpl; [done|].
  destruct (decide (u = t)) as [->|]; rewrite ?fn_lookup_insert, ?fn_lookup_insert_ne by done; [|done].
  destruct (Hq p) as [? ?], (Hq (clients s t)) as [? ?]; set_solver.
Qed.

Ltac at_client u t := destruct (decide (u = t)) as [->|];
  rewrite ?fn_lookup_insert, ?fn_lookup_insert_ne by done.

Lemma notify_clients s : clients (notify s) = clients s.
Proof. unfold notify. by case_decide. Qed.

Lemma log_mutex_step s s' : log_mutex s → log_step s s' → log_mutex s'.
Proof.
  intros Hm Hs. destruct Hs as [s s' Hs|s s' Hs|s s' Hs|s s' Hs].
  - by eapply log_mutex_worker.
  - destruct Hs as [s t e Hc Hf|s t e Hc|s t Hc|s t Hc|s t Hc|s t Hc Hw].
    + apply (mutex_take (Client t) s); [done|done| |simpl; rewrite fn_lookup_insert; eauto|done].
      intros [|u] Hu; simpl; [done|]. by rewrite fn_lookup_insert_ne by congruence.
    + apply (mutex_keep s); [done| |done]. intros [|u]; simpl; [done|].
      at_client u t; [rewrite Hc; naive_solver|done].
    + apply (mutex_release (Client t) s); simpl; [by left|done| |by rewrite fn_lookup_insert; naive_solver|done].
      intros [|u] Hu; simpl; [done|]. by rewrite fn_lookup_insert_ne by congruence.
    + apply log_mutex_client; [|by apply log_mutex_notify]. rewrite notify_clients, Hc. set_solver.
    + apply log_mutex_client; [|by apply log_mutex_notify]. rewrite notify_clients, Hc. set_solver.
    + apply log_mutex_client; [|done]. rewrite Hc. set_solver.
  - destruct Hs as [s t l now m e Hc He|s t Hc Hr|s l|s Hf]; [| |done|done].
    + apply log_mutex_client; [|done]. rewrite Hc. set_solver.
    + apply log_mutex_client; [|done]. simpl. rewrite Hc. set_solver.
  - destruct Hs as [s Hw]. apply (mutex_keep s); [done| |done].
    intros [|t]; simpl; [by rewrite Hw|done].
Qed.

(** ** Waiting *)

Lemma log_wait_step s s' : log_mutex s → log_wait s → log_step s s' → log_wait s'.
Proof.
  intros Hm [H1 H2] Hs. destruct Hs as [s s' Hs|s s' Hs|s s' Hs|s s' Hs].
  - destruct Hs; split; simpl; try done; repeat case_match; try done; auto.
    intros _. unfold ready in *. case_bool_decide; [done|discriminate].
  - destruct Hs as [s t e Hc Hf|s t e Hc|s t Hc|s t Hc|s t Hc|s t Hc Hw]; simpl.
    + split; simpl; [done|]. intros Hw. destruct (H2 Hw) as [|[u Hu]]; [by left|right].
      exists u. rewrite fn_lookup_insert_ne; [done|]. intros ->. naive_solver congruence.
    + assert (Hn : inside (worker s) = true → False).
      { intros Hi. pose proof (proj1 (Hm Worker) Hi). assert (holds s (Client t)) as Hh%Hm by (right; eauto).
        congruence. }
      split; simpl; [intros Hw; by rewrite Hw in Hn; destruct Hn|].
      intros _. right. exists t. rewrite fn_lookup_insert. by left.
    + split; simpl; [done|]. intros Hw. right. exists t. rewrite fn_lookup_insert. by right.
    + split; unfold notify; simpl; case_decide; simpl; try done.
    + split; unfold notify; simpl; case_decide; simpl; try done.
    + split; simpl; congruence.
  - destruct Hs as [s t l now m e Hc He|s t Hc Hr|s l|s Hf]; split; simpl; try done.
    + intros Hw. destruct (H2 Hw) as [|[u Hu]]; [by left|right].
      exists u. rewrite fn_lookup_insert_ne; [done|]. intros ->. naive_solver congruence.
    + intros Hw. destruct (H2 Hw) as [|[u Hu]]; [by left|right].
      exists u. rewrite fn_lookup_insert_ne; [done|]. intros ->. naive_solver congruence.
  - by destruct Hs.
Qed.

(** The worker takes its last look only after the stop signal. *)
Definition log_stop (s : LogState) : Prop :=
  worker s ∈ [WRelock; WFinal; WExited] → m_running s = false.

Lemma log_stop_step s s' : log_stop s → log_step s s' → log_stop s'.
Proof.
  unfold log_stop. intros Hi Hs. destruct Hs as [s s' Hs|s s' Hs|s s' Hs|s s' Hs].
  - destruct Hs as [s Hw|s Hw|s Hw|s Hw|s Hw|s e es Hw He|s e es Hw He|s Hw He|s Hw|s Hw|s Hw];
      simpl; rewrite ?Hw in Hi; try set_solver.
    + destruct (ready s); set_solver.
    + destruct (m_running s); set_solver.
  - destruct Hs; simpl; try done; unfold notify; case_decide; simpl; set_solver.
  - by destruct Hs.
  - destruct Hs. simpl. set_solver.
Qed.

(** The invariant of the logger. *)
Record log_inv (s : LogState) : Prop := {
  li_data : log_data s; li_mutex : log_mutex s; li_wait : log_wait s; li_stop : log_stop s }.

Lemma log_inv_reachable s : rtc log_step LogState_new s → log_inv s.
Proof.
  apply rtc_invariant.
  - split; [split; [done|by right|by exists []]| |by split|].
    + intros [|t]; simpl; [done|naive_solver].
    + unfold log_stop. simpl. set_solver.
  - intros a b [Hd Hm Hw Hst] Hs. split; [by eapply log_data_step|by eapply log_mutex_step| |].
    + by eapply log_wait_step.
    + by eapply log_stop_step.
Qed.

(** With an empty queue and no batch, everything is on the console. *)
Lemma all_written s :
  log_data s → batching (worker s) = false → m_queue s = [] → written s = logged s.
Proof.
  intros [H1 [H2|H2] _] Hb Hq; [congruence|]. rewrite <- H1, Hq. unfold to_write.
  rewrite H2. by case_decide; simpl; rewrite app_nil_r.
Qed.

(** The worker leaves its loop only when the queue is empty. *)
Lemma exited_empty n s s' :
  worker s ≠ WExited → nsteps worker_step n s s' → worker s' = WExited → m_queue s' = [].
Proof.
  intros Hw Hn. assert (worker s = WExited → m_queue s = []) as Hi by done. clear Hw.
  induction Hn as [s|n s s1 s2 Hs _ IH]; [done|]. apply IH. clear IH.
  destruct Hs; simpl; try done; repeat case_match; done.
Qed.

(** ** Order *)

(** C28. The log keeps every line once and in order: whatever the interleaving of
    the threads, what is on the console, what the worker has in hand and what is
    queued are together the lines pushed, in the order of the pushes; the log
    file holds what went to the console since it was opened.  The queue is
    touched under the mutex only, by one thread at a time, and when the worker
    leaves its loop every line pushed so far is on the console. *)
Theorem Logger_order s :
  rtc log_step LogState_new s →
  written s ++ to_write s ++ m_queue s = logged s
  ∧ (∃ k, filed s (k ++ default [] (file s)))
  ∧ (∀ p q, holds s p → holds s q → p = q)
  ∧ ∀ s', worker_step s s' → worker s' = WExited →
      m_running s' = false ∧ written s' = logged s'.
Proof.
  intros Hr. pose proof (log_inv_reachable s Hr) as [[H1 H2 H3] Hm _ Hst].
  split_and!; [done|done| |].
  - intros p q Hp%Hm Hq%Hm. congruence.
  - intros s' Hs Hx. destruct Hs as [s Hw|s Hw|s Hw|s Hw|s Hw|s e es Hw He|s e es Hw He|s Hw He|s Hw|s Hw|s Hw];
      simpl in Hx; try congruence; repeat case_match; try congruence.
    split; [apply Hst; rewrite Hw; set_solver|].
    apply (all_written s); [done|by rewrite Hw|done].
Qed.

(** ** Progress *)

(** The steps the worker has left before it blocks or leaves, if nobody calls. *)
Definition turn_measure (s : LogState) (q : nat) : nat :=
  if decide (q = 0)%nat then (if m_running s then 3 else 12) else 12 + 2 * q.
Definition rest_measure (s : LogState) (q : nat) : nat :=
  if decide (q = 0)%nat then 4 else S (turn_measure s q).
Definition log_measure (s : LogState) : nat :=
  let q := length (m_queue s) in
  let b := length (batch s) in
  match worker s with
  | WExited | WParked => 0
  | WParking => 1
  | WFinal => 1 + rest_measure s q
  | WRelock => 2 + rest_measure s q
  | WTest => 3 + rest_measure s q
  | WWrite => 4 + rest_measure s q + 2 * b
  | WFile => 3 + rest_measure s q + 2 * b
  | WUnlock => 5 + rest_measure s q + 2 * b
  | WSwap => 10 + 2 * q
  | WEval => turn_measure s q - 1
  | WLock => turn_measure s q
  end.

Lemma log_measure_step s s' :
  log_inv s → worker_step s s' → (log_measure s' < log_measure s)%nat.
Proof.
  intros [[_ Hb _] _ _ _] Hs. unfold log_measure, rest_measure, turn_measure.
  destruct Hs as [s Hw|s Hw|s Hw|s Hw|s Hw|s e es Hw He|s e es Hw He|s Hw He|s Hw|s Hw|s Hw];
    simpl; rewrite Hw, ?He; simpl; rewrite ?Hw in Hb; unfold ready;
    repeat (case_decide || case_bool_decide || case_match); simplify_eq/=; try lia;
    exfalso; by match goal with E : length (m_queue s) = 0%nat |- _ => apply nil_length_inv in E end.
Qed.

(** Nobody is about to touch the queue. *)
Definition quiet (s : LogState) : Prop := ∀ t, clients s t = CIdle ∨ clients s t = CJoin.

Lemma quiet_step s s' : quiet s → worker_step s s' → quiet s'.
Proof. intros Hq Hs. by destruct Hs. Qed.

Lemma worker_nsteps n s s' :
  log_inv s → quiet s → nsteps worker_step n s s' →
  log_inv s' ∧ quiet s' ∧ (n + log_measure s' ≤ log_measure s)%nat.
Proof.
  intros Hi Hq Hn. induction Hn as [s|n s s1 s2 Hs Hn IH]; [by split_and!|].
  pose proof (log_measure_step s s1 Hi Hs). destruct IH as (Hi' & Hq' & Hm).
  - destruct Hi as [H1 H2 H3 H4]. apply step_worker in Hs. split; [by eapply log_data_step|
      by eapply log_mutex_step|by eapply log_wait_step|by eapply log_stop_step].
  - by eapply quiet_step.
  - split_and!; [done|done|lia].
Qed.

(** When nobody else is inside, only a blocked or finished worker has no step. *)
Lemma worker_progress s :
  log_inv s → quiet s → (∀ s', ¬ worker_step s s') → worker s = WParked ∨ worker s = WExited.
Proof.
  intros [[_ _ [k Hk]] Hm _ _] Hq Hn.
  assert (Hf : inside (worker s) = false → m_queueMutex s = None).
  { intros Hin. destruct (m_queueMutex s) as [p|] eqn:E; [|done]. apply Hm in E.
    destruct p as [|t]; simpl in E; [congruence|]. destruct (Hq t); naive_solver congruence. }
  destruct (worker s) eqn:Hw; try (by left); try (by right); exfalso.
  - by eapply Hn, w_lock, Hf.
  - by eapply Hn, w_eval.
  - by eapply Hn, w_park.
  - by eapply Hn, w_swap.
  - by eapply Hn, w_unlock.
  - destruct (batch s) as [|e es] eqn:Hb; [by eapply Hn, w_written|by eapply Hn, w_write].
  - log_pc. destruct Hk as (e & Hb & _). destruct (batch s) as [|e' es] eqn:Eb; [done|].
    by eapply Hn, w_file.
  - by eapply Hn, w_test.
  - by eapply Hn, w_relock, Hf.
  - by eapply Hn, w_final.
Qed.

(** C40. Lines are not left lying: once the callers are through, whatever the
    worker does it stops after finitely many steps, blocked or out of its loop,
    and if it has not left its loop by then (or before) every line pushed is on
    the console: the notification of a push is never lost, because the push is
    made under the mutex that the predicate is evaluated under. *)
Theorem Logger_drains s :
  rtc log_step LogState_new s → quiet s → worker s ≠ WExited →
  ∃ bound, ∀ n s', nsteps worker_step n s s' →
    (n ≤ bound)%nat
    ∧ ((∀ s'', ¬ worker_step s' s'') →
       written s' = logged s' ∧ (worker s' = WParked ∨ worker s' = WExited)).
Proof.
  intros Hr Hq Hw. exists (log_measure s). intros n s' Hn.
  pose proof (log_inv_reachable s Hr) as Hi.
  destruct (worker_nsteps n s s' Hi Hq Hn) as (Hi' & Hq' & Hle). split; [lia|]. intros Hstuck.
  pose proof (worker_progress s' Hi' Hq' Hstuck) as Hend. split; [|done].
  apply all_written; [apply Hi'|by destruct Hend as [-> | ->]..|].
  destruct Hend as [He|He]; [|by apply (exited_empty n s)].
  destruct (lw_parked s' (li_wait s' Hi') He) as [|[t Ht]]; [done|].
  destruct (Hq' t); naive_solver congruence.
Qed.

(** The worker blocked after it was notified. *)
Definition lost_wakeup : LogState :=
  mkLogState false Info [] None WParked []
    (<[0%nat := CJoin]> (<[0%nat := CShutNotify]> (λ _, CIdle))) [] None [].

Lemma lost_wakeup_reachable : rtc log_step LogState_new lost_wakeup.
Proof.
  eapply rtc_l; [by apply step_worker, w_lock|]. eapply rtc_l; [by apply step_worker, w_eval|].
  eapply rtc_l; [by apply step_call, (call_Shutdown _ 0)|].
  eapply rtc_l; [by apply step_client, (c_shut_notify _ 0)|].
  eapply rtc_l; [by apply step_worker, w_park|]. apply rtc_refl.
Qed.

(** The stop signal can be lost: [Shutdown] clears [m_running] without the
    mutex, so its notification may come between the worker's look at the
    predicate and its blocking.  Then the worker is blocked, [Shutdown] waits in
    [join], and no thread can take a step: the program does not end unless
    somebody logs a line or the worker wakes up without a notification. *)
Theorem Logger_lost_wakeup :
  ∃ s, rtc log_step LogState_new s ∧ clients s 0%nat = CJoin ∧ worker s = WParked
    ∧ (∀ t, t ≠ 0%nat → clients s t = CIdle)
    ∧ (∀ s', ¬ worker_step s s') ∧ (∀ s', ¬ client_step s s').
Proof.
  exists lost_wakeup. split; [apply lost_wakeup_reachable|].
  assert (Hc : ∀ t, clients lost_wakeup t = if decide (t = 0)%nat then CJoin else CIdle).
  { intros t. simpl. case_decide as Ht; [by rewrite Ht|]. by rewrite !fn_lookup_insert_ne. }
  split_and!; [done|done| | |].
  - intros t Ht. by rewrite Hc, decide_False.
  - intros s' Hs. inversion Hs; discriminate.
  - intros s' Hs. inversion Hs as [? t ? E|? t ? E|? t E|? t E|? t E|? t E Hw]; subst; [..|done].
    all: rewrite Hc in E; by case_decide.
Qed.

(** *** Witnesses *)

Definition demo_line : Entry := mkEntry Warn ("[12:00:00][WARN] AcceptEx completion failed" +:+ newline).

(** One thread has logged a line. *)
Definition demo_log : LogState :=
  mkLogState true Info [demo_line] None WLock []
    (<[0%nat := CIdle]> (<[0%nat := CNotify]> (<[0%nat := CUnlock]> (<[0%nat := CPush demo_line]>
      (<[0%nat := CLock demo_line]> (λ _, CIdle)))))) [] None [demo_line].

Lemma demo_log_reachable : rtc log_step LogState_new demo_log.
Proof.
  eapply rtc_l; [by apply step_call, (call_Log _ 0 Warn "12:00:00" "AcceptEx completion failed" demo_line)|].
  eapply rtc_l; [by apply step_client, (c_lock _ 0 demo_line)|].
  eapply rtc_l; [by apply step_client, (c_push _ 0 demo_line)|].
  eapply rtc_l; [by apply step_client, (c_unlock _ 0)|].
  eapply rtc_l; [by apply step_client, (c_notify _ 0)|]. apply rtc_refl.
Qed.

Lemma Logger_order_witness :
  written demo_log ++ to_write demo_log ++ m_queue demo_log = [demo_line].
Proof. destruct (Logger_order demo_log demo_log_reachable) as [H _]. exact H. Defined.

Lemma Logger_drains_witness :
  ∃ bound, ∀ n s', nsteps worker_step n demo_log s' →
    (n ≤ bound)%nat
    ∧ ((∀ s'', ¬ worker_step s' s'') →
       written s' = logged s' ∧ (worker s' = WParked ∨ worker s' = WExited)).
Proof.
  apply (Logger_drains demo_log demo_log_reachable); [|discriminate].
  intros t. left. simpl. destruct (decide (t = 0%nat)) as [->|]; [done|].
  by rewrite !fn_lookup_insert_ne.
Defined.
