(* ===== verification/Platform.v ===== *)
(** * What the server takes from its platform

    The clocks, the outcome of [WSASend] and the iteration order of the
    unordered containers are decided outside the program.  [Platform] makes
    them parameters: every theorem holds for all of them.

    [std::unordered_set] and [std::unordered_map] are modelled by the list of
    their elements in iteration order.  Inserting may put the new element
    anywhere and may rehash, that is permute everything ([place]); erasing
    keeps the order of the others, as the standard requires. *)
From S2P Require Import Prelude Bytes.
Local Open Scope Z_scope.

Class Platform := {
  (** The order after inserting a new element. *)
  place : ∀ {A : Type}, A → list A → list A;
  place_perm : ∀ A (x : A) l, place x l ≡ₚ x :: l;
  (** [steady_clock::now()], in ms, at the n-th reading. *)
  steady_ms : nat → Z;
  steady_mono : ∀ i j, (i ≤ j)%nat → steady_ms i ≤ steady_ms j;
  (** [system_clock::now()], in ms, at the n-th reading. *)
  system_ms : nat → Z;
  (** Whether the n-th [WSASend] is accepted (completed at once or pending). *)
  wsa_send : nat → option Z → list byte → bool;
  (** Whether the n-th [WSARecv] is accepted. *)
  wsa_recv : nat → bool }.

(** A platform to evaluate examples on: new elements come first, the clocks
    advance by 10 ms per reading, every send and receive is accepted. *)
Definition demo_clock (i : nat) : Z := 1000 + 10 * Z.of_nat i.

Lemma demo_clock_mono i j : (i ≤ j)%nat → demo_clock i ≤ demo_clock j.
Proof. unfold demo_clock. lia. Qed.

#[export] Instance DemoPlatform : Platform := {
  place _ x l := x :: l;
  place_perm _ x l := Permutation_refl (x :: l);
  steady_ms := demo_clock;
  steady_mono := demo_clock_mono;
  system_ms i := 1700000000000 + 10 * Z.of_nat i;
  wsa_send _ _ _ := true;
  wsa_recv _ := true }.

(** ** [std::unordered_set] *)
Section unordered_set.
Context `{Platform} {A : Type} `{EqDecision A}.
Implicit Types (l : list A) (x y : A).

Definition us_count (x : A) (l : list A) : bool := bool_decide (x ∈ l).
Definition us_insert (x : A) (l : list A) : list A :=
  if us_count x l then l else place x l.
Definition us_erase (x : A) (l : list A) : list A := filter (λ y, y ≠ x) l.

Lemma elem_of_place x y l : y ∈ place x l ↔ y = x ∨ y ∈ l.
Proof. rewrite place_perm. apply elem_of_cons. Qed.

Lemma elem_of_us_insert x y l : y ∈ us_insert x l ↔ y = x ∨ y ∈ l.
Proof.
  unfold us_insert, us_count. case_bool_decide.
  - naive_solver.
  - apply elem_of_place.
Qed.

Lemma elem_of_us_erase x y l : y ∈ us_erase x l ↔ y ∈ l ∧ y ≠ x.
Proof. unfold us_erase. rewrite list_elem_of_filter. naive_solver. Qed.

Lemma us_insert_NoDup x l : NoDup l → NoDup (us_insert x l).
Proof.
  unfold us_insert, us_count. intros. case_bool_decide; [done|].
  rewrite place_perm. by constructor.
Qed.

Lemma us_erase_NoDup x l : NoDup l → NoDup (us_erase x l).
Proof. apply NoDup_filter. Qed.

Lemma us_erase_absent x l : x ∉ l → us_erase x l = l.
Proof.
  intros Hx. unfold us_erase. induction l as [|y l IH]; [done|].
  rewrite filter_cons_True by set_solver. f_equal. apply IH. set_solver.
Qed.

Lemma us_erase_length x l : NoDup l → x ∈ l → S (length (us_erase x l)) = length l.
Proof.
  intros Hnd Hx. induction l as [|y l IH]; [by apply elem_of_nil in Hx|].
  apply NoDup_cons in Hnd as [Hy Hnd]. unfold us_erase in *. rewrite filter_cons.
  case_decide as Hyx.
  - simpl. f_equal. apply IH; [done|]. set_solver.
  - subst. simpl. f_equal.
    change (filter _ l) with (us_erase x l). by rewrite us_erase_absent.
Qed.

Lemma us_erase_perm x l : NoDup l → x ∈ l → l ≡ₚ x :: us_erase x l.
Proof.
  intros Hnd Hx. apply NoDup_Permutation; [done| |].
  - constructor; [rewrite elem_of_us_erase; naive_solver|by apply us_erase_NoDup].
  - intros y. rewrite elem_of_cons, elem_of_us_erase. destruct (decide (y = x)); naive_solver.
Qed.

Lemma us_erase_length_le x l : (length (us_erase x l) ≤ length l)%nat.
Proof. apply length_filter. Qed.

Lemma us_insert_length x l :
  length (us_insert x l) = if us_count x l then length l else S (length l).
Proof.
  unfold us_insert. destruct (us_count x l); [done|]. by rewrite place_perm.
Qed.

Lemma us_insert_not_nil x l : us_insert x l ≠ [].
Proof.
  intros E. assert (Hx : x ∈ us_insert x l) by (apply elem_of_us_insert; by left).
  rewrite E in Hx. set_solver.
Qed.
End unordered_set.

(** ** [std::unordered_map] *)
Section unordered_map.
Context `{Platform} {K V : Type} `{EqDecision K}.
Implicit Types (l : list (K * V)) (k : K) (v : V).

Fixpoint um_find (k : K) (l : list (K * V)) : option V :=
  match l with
  | [] => None
  | (k', v) :: l => if decide (k' = k) then Some v else um_find k l
  end.
Definition um_count (k : K) (l : list (K * V)) : bool := bool_decide (is_Some (um_find k l)).
Definition um_erase (k : K) (l : list (K * V)) : list (K * V) := filter (λ p, p.1 ≠ k) l.

(** [m[k] = v]. *)
Definition um_set (k : K) (v : V) (l : list (K * V)) : list (K * V) :=
  match um_find k l with
  | Some _ => map (λ p, if decide (p.1 = k) then (k, v) else p) l
  | None => place (k, v) l
  end.

(** [m.emplace(k, v)]: an existing entry is kept. *)
Definition um_emplace (k : K) (v : V) (l : list (K * V)) : list (K * V) :=
  match um_find k l with
  | Some _ => l
  | None => place (k, v) l
  end.

Definition um_keys (l : list (K * V)) : list K := map fst l.

Lemma um_find_None k l : um_find k l = None ↔ k ∉ um_keys l.
Proof.
  induction l as [|[k' v] l IH]; simpl; [split; set_solver|].
  case_decide; [split; set_solver|]. rewrite IH. set_solver.
Qed.

Lemma um_find_Some k v l : NoDup (um_keys l) → um_find k l = Some v ↔ (k, v) ∈ l.
Proof.
  induction l as [|[k' v'] l IH]; simpl; [set_solver|].
  intros [Hk Hnd]%NoDup_cons. rewrite elem_of_cons. case_decide as Hkk; subst.
  - split; [intros; simplify_eq; by left|]. intros [?|Hin]; [by simplify_eq|].
    destruct Hk. apply list_elem_of_fmap. by exists (k, v).
  - rewrite IH by done. naive_solver.
Qed.

Lemma um_find_perm k l l' : NoDup (um_keys l) → l ≡ₚ l' → um_find k l = um_find k l'.
Proof.
  intros Hnd Hp. assert (Hnd' : NoDup (um_keys l')) by (unfold um_keys; by rewrite <- Hp).
  apply option_eq. intros v. rewrite !um_find_Some by done. by rewrite Hp.
Qed.

Lemma um_keys_place k v l : um_keys (place (k, v) l) ≡ₚ k :: um_keys l.
Proof. unfold um_keys. by rewrite place_perm. Qed.

Lemma um_set_keys k v l :
  um_keys (um_set k v l) ≡ₚ if decide (k ∈ um_keys l) then um_keys l else k :: um_keys l.
Proof.
  unfold um_set. destruct (um_find k l) as [w|] eqn:E.
  - rewrite decide_True.
    + unfold um_keys. rewrite map_map. erewrite map_ext; [done|].
      intros [k' v']. simpl. by case_decide; subst.
    + apply dec_stable. intros Hn%um_find_None. congruence.
  - rewrite decide_False by (by apply um_find_None). apply um_keys_place.
Qed.

Lemma um_set_NoDup k v l : NoDup (um_keys l) → NoDup (um_keys (um_set k v l)).
Proof. intros. rewrite um_set_keys. case_decide; [done|]. by constructor. Qed.

Lemma um_emplace_NoDup k v l : NoDup (um_keys l) → NoDup (um_keys (um_emplace k v l)).
Proof.
  intros. unfold um_emplace. destruct (um_find k l) eqn:E; [done|].
  rewrite um_keys_place. constructor; [by apply um_find_None|done].
Qed.

Lemma um_find_erase k k' l :
  um_find k (um_erase k' l) = if decide (k = k') then None else um_find k l.
Proof.
  unfold um_erase. induction l as [|[k1 v1] l IH]; simpl; [by case_decide|].
  rewrite filter_cons. simpl.
  repeat case_decide; simpl; repeat case_decide; subst; try congruence; try done.
  all: exfalso; naive_solver.
Qed.

Lemma um_erase_keys k l : um_keys (um_erase k l) = us_erase k (um_keys l).
Proof.
  unfold um_erase, us_erase, um_keys. induction l as [|[k1 v1] l IH]; [done|].
  rewrite filter_cons. simpl. rewrite filter_cons.
  repeat case_decide; simpl; try congruence; naive_solver.
Qed.

Lemma um_erase_NoDup k l : NoDup (um_keys l) → NoDup (um_keys (um_erase k l)).
Proof. rewrite um_erase_keys. apply us_erase_NoDup. Qed.

Lemma um_find_place k k' v l :
  NoDup (um_keys l) → k' ∉ um_keys l →
  um_find k (place (k', v) l) = if decide (k' = k) then Some v else um_find k l.
Proof.
  intros Hnd Hk. rewrite (um_find_perm k _ ((k', v) :: l)); [done| |apply place_perm].
  rewrite um_keys_place. by constructor.
Qed.

Lemma um_find_map k k' v l :
  um_find k (map (λ p, if decide (p.1 = k') then (k', v) else p) l)
  = if decide (k' = k) then (λ _, v) <$> um_find k l else um_find k l.
Proof.
  induction l as [|[k1 v1] l IH]; simpl; [by case_decide|].
  destruct (decide (k1 = k')) as [->|]; simpl; rewrite ?IH;
    repeat (case_decide; simpl; try congruence).
Qed.

Lemma um_find_set k k' v l :
  NoDup (um_keys l) →
  um_find k (um_set k' v l) = if decide (k' = k) then Some v else um_find k l.
Proof.
  intros Hnd. unfold um_set. destruct (um_find k' l) as [w|] eqn:E.
  - rewrite um_find_map. case_decide; [|done]. subst. by rewrite E.
  - apply um_find_place; [done|]. by apply um_find_None.
Qed.
End unordered_map.

#[export] Hint Resolve us_insert_NoDup us_erase_NoDup um_set_NoDup um_emplace_NoDup
  um_erase_NoDup : server.
