(* ===== verification/ObjectPool.v ===== *)
(** * The object pool

    Models [Utils/ObjectPool.h].  Objects live in a heap; [m_pool] is the queue
    of the addresses that are free for reuse; [new] takes the next address.
    [construct] is the constructor of [T] and [reset] its [Reset]. *)
From S2P Require Import Prelude.

Record ObjectPool (T : Type) := mkObjectPool {
  heap : gmap nat T;
  m_pool : list nat;
  next_addr : nat }.
Arguments mkObjectPool {T}.
Arguments heap {T}.
Arguments m_pool {T}.
Arguments next_addr {T}.

Definition ObjectPool_new {T} : ObjectPool T :=
  {| heap := ∅; m_pool := []; next_addr := 0 |}.

Section pool.
Context {T Args : Type}.
Variable construct : Args → T.
Variable reset : Args → T → T.

Definition Allocate (args : Args) (p : ObjectPool T) : nat * ObjectPool T :=
  match m_pool p with
  | [] =>
      (next_addr p,
       {| heap := <[next_addr p := construct args]> (heap p); m_pool := [];
          next_addr := S (next_addr p) |})
  | obj :: rest =>
      (obj,
       {| heap := alter (reset args) obj (heap p); m_pool := rest;
          next_addr := next_addr p |})
  end.

Definition Deallocate (obj : option nat) (p : ObjectPool T) : ObjectPool T :=
  match obj with
  | None => p
  | Some a => {| heap := heap p; m_pool := m_pool p ++ [a]; next_addr := next_addr p |}
  end.

Definition Size (p : ObjectPool T) : nat := length (m_pool p).

(** [~ObjectPool]: delete the pooled objects. *)
Definition ObjectPool_destroy (p : ObjectPool T) : ObjectPool T :=
  {| heap := foldr delete (heap p) (m_pool p); m_pool := []; next_addr := next_addr p |}.

(** ** Ownership

    [used] are the addresses handed out and not given back. *)
Record pool_wf (used : list nat) (p : ObjectPool T) : Prop := {
  pool_nodup : NoDup (used ++ m_pool p);
  pool_live : ∀ a, a ∈ used ++ m_pool p ↔ is_Some (heap p !! a);
  pool_fresh : ∀ a, is_Some (heap p !! a) → (a < next_addr p)%nat }.

Lemma pool_wf_new : pool_wf [] ObjectPool_new.
Proof.
  split; simpl.
  - constructor.
  - intros a. rewrite lookup_empty. split; [set_solver|by intros [? ?]].
  - intros a. rewrite lookup_empty. by intros [? ?].
Qed.

Lemma pool_wf_perm used used' p : used ≡ₚ used' → pool_wf used p → pool_wf used' p.
Proof.
  intros Hp [H1 H2 H3]. split; [by rewrite <- Hp| |done].
  intros a. rewrite <- H2. by rewrite Hp.
Qed.

(** An allocated object belongs to nobody else. *)
Lemma Allocate_wf used args p a p' :
  pool_wf used p → Allocate args p = (a, p') →
  pool_wf (a :: used) p' ∧ a ∉ used.
Proof.
  intros [Hnd Hl Hf]. unfold Allocate. destruct (m_pool p) as [|o rest] eqn:E.
  - intros [= <- <-]. rewrite app_nil_r in *.
    assert (Hn : next_addr p ∉ used).
    { intros Hin. apply Hl, Hf in Hin. lia. }
    split; [|done]. split; simpl; rewrite ?app_nil_r.
    + by constructor.
    + intros a. rewrite elem_of_cons, Hl, lookup_insert.
      case_decide; subst; [split; [intros; by eexists|by left]|].
      split; [by intros [?|?]; [congruence|]|by right].
    + intros a. rewrite lookup_insert. case_decide; [lia|]. intros ?%Hf. lia.
  - intros [= <- <-]. apply NoDup_app in Hnd as (Hu & Hd & Hr).
    apply NoDup_cons in Hr as [Ho Hr].
    assert (o ∉ used) by (intros Hin; apply (Hd o Hin); set_solver).
    split; [|done]. split; simpl.
    + constructor; [set_solver|]. apply NoDup_app. split; [done|]. split; [|done].
      intros x Hx Hx'. apply (Hd x Hx). set_solver.
    + intros a. rewrite lookup_alter. specialize (Hl a). case_decide; subst.
      * rewrite fmap_is_Some, <- Hl. set_solver.
      * rewrite <- Hl. set_solver.
    + intros a. rewrite lookup_alter. case_decide; subst; [|apply Hf].
      rewrite fmap_is_Some. apply Hf.
Qed.

(** Giving back an object one owns is safe. *)
Lemma Deallocate_wf used a p :
  pool_wf (a :: used) p → pool_wf used (Deallocate (Some a) p).
Proof.
  assert (Hp : (a :: used) ++ m_pool p ≡ₚ used ++ m_pool p ++ [a]).
  { simpl. rewrite (app_assoc used). apply Permutation_cons_append. }
  intros [Hnd Hl Hf]. split; simpl.
  - by rewrite <- Hp.
  - intros x. rewrite <- Hl. by rewrite Hp.
  - done.
Qed.

(** What the caller gets: a constructed object, or a recycled one reset. *)
Lemma Allocate_lookup used args p a p' :
  pool_wf used p → Allocate args p = (a, p') →
  heap p' !! a = Some (construct args) ∨ ∃ old, heap p' !! a = Some (reset args old).
Proof.
  intros [Hnd Hl Hf]. unfold Allocate. destruct (m_pool p) as [|o rest] eqn:E;
    intros [= <- <-]; simpl.
  - left. apply lookup_insert_eq.
  - right. destruct (heap p !! o) as [old|] eqn:Eo.
    + exists old. by rewrite lookup_alter_eq, Eo.
    + exfalso. assert (Ho : is_Some (heap p !! o)) by (apply Hl; set_solver).
      rewrite Eo in Ho. by destruct Ho.
Qed.

(** Objects in use are not touched by another allocation. *)
Lemma Allocate_frame used args p a p' b :
  pool_wf used p → Allocate args p = (a, p') → b ∈ used → heap p' !! b = heap p !! b.
Proof.
  intros Hwf HA Hb. destruct (Allocate_wf _ _ _ _ _ Hwf HA) as [_ Ha].
  assert (a ≠ b) by (intros ->; done).
  unfold Allocate in HA. destruct (m_pool p); simplify_eq; simpl.
  - by rewrite lookup_insert_ne.
  - by rewrite lookup_alter_ne.
Qed.
End pool.
