(* ===== verification/Packet.v ===== *)
(** * Packet headers and packet identifiers

    Models [Packet/PacketHeader.h] and the enumeration of
    [Packet/PacketID.h]: the four-byte header in front of every packet, its
    byte layout, and the identifiers it can carry. *)
From S2P Require Import Prelude Bytes.
Local Open Scope Z_scope.

(** [struct PacketHeader]: two [uint16_t]. *)
Record PacketHeader := mkPacketHeader { packetSize : Z; packetId : Z }.

Definition sizeof_PacketHeader : Z := 4.

(** The bytes a [PacketHeader] stored at the start of a buffer occupies. *)
Definition header_bytes (h : PacketHeader) : list byte :=
  le_bytes 2 (packetSize h) ++ le_bytes 2 (packetId h).

(** The header read through [(PacketHeader* )(mem + off)]. *)
Definition header_at (off : Z) (mem : list byte) : PacketHeader :=
  {| packetSize := le_val (mem_read off 2 mem);
     packetId := le_val (mem_read (off + 2) 2 mem) |}.

(** [enum class PacketID : uint16_t]. *)
Inductive PacketID :=
  | C_LOGIN | S_LOGIN | C_CHAT | S_CHAT
  | C_ROOM_ENTER | S_ROOM_ENTER | C_ROOM_LEAVE | S_ROOM_LEAVE
  | S_ROOM_USER_ENTERED | S_ROOM_USER_LEFT | C_MOVE | S_MOVE_BROADCAST
  | C_PING | S_PONG | C_ROOM_LIST | S_ROOM_LIST
  | C_READY | S_ROOM_STATE | S_GAME_START | S_GAME_RESULT.

Definition PacketID_val (p : PacketID) : Z :=
  match p with
  | C_LOGIN => 1 | S_LOGIN => 2 | C_CHAT => 3 | S_CHAT => 4
  | C_ROOM_ENTER => 5 | S_ROOM_ENTER => 6 | C_ROOM_LEAVE => 7 | S_ROOM_LEAVE => 8
  | S_ROOM_USER_ENTERED => 9 | S_ROOM_USER_LEFT => 10
  | C_MOVE => 11 | S_MOVE_BROADCAST => 12
  | C_PING => 13 | S_PONG => 14 | C_ROOM_LIST => 15 | S_ROOM_LIST => 16
  | C_READY => 17 | S_ROOM_STATE => 18 | S_GAME_START => 19 | S_GAME_RESULT => 20
  end.

#[export] Instance PacketID_eq_dec : EqDecision PacketID.
Proof. solve_decision. Defined.

Lemma PacketID_val_inj p q : PacketID_val p = PacketID_val q → p = q.
Proof. destruct p, q; simpl; intros; (done || lia). Qed.

Lemma PacketID_val_range p : 0 ≤ PacketID_val p < 65536.
Proof. destruct p; simpl; lia. Qed.

Lemma length_header_bytes h : length (header_bytes h) = 4%nat.
Proof. done. Qed.

(** The header layout is read back, whatever follows it. *)
Lemma header_at_bytes h rest :
  0 ≤ packetSize h < 65536 → 0 ≤ packetId h < 65536 →
  header_at 0 (header_bytes h ++ rest) = h.
Proof.
  intros Hs Hi. destruct h as [s i]. unfold header_at, header_bytes, mem_read. cbn [packetSize packetId] in *.
  rewrite <- app_assoc.
  change (Z.to_nat 0) with 0%nat. change (Z.to_nat (0 + 2)) with 2%nat.
  change (Z.to_nat 2) with 2%nat. rewrite drop_0. f_equal.
  - rewrite take_app_exact by done. apply le_val_bytes_small. simpl. lia.
  - rewrite drop_app_exact by done. rewrite take_app_exact by done.
    apply le_val_bytes_small. simpl. lia.
Qed.

Lemma header_at_size_range off mem : 0 ≤ packetSize (header_at off mem) < 65536.
Proof.
  simpl. pose proof (le_val_range (mem_read off 2 mem)) as [? H]. split; [done|].
  eapply Z.lt_le_trans; [exact H|].
  change 65536 with (256 ^ 2). apply Z.pow_le_mono_r; [lia|].
  unfold mem_read. rewrite length_take. lia.
Qed.

(** A header is a function of the four bytes at its address. *)
Lemma header_at_read off n mem :
  0 ≤ off → 4 ≤ n → header_at 0 (mem_read off n mem) = header_at off mem.
Proof.
  intros ??. unfold header_at. f_equal.
  - f_equal. rewrite <- (mem_read_take off n 2) by lia. unfold mem_read at 1. done.
  - f_equal. unfold mem_read at 1.
    replace (Z.to_nat (0 + 2)) with (Z.to_nat 2) by lia.
    rewrite mem_read_drop by lia. apply (mem_read_take _ _ 2). lia.
Qed.
