(* ===== verification/RecvBuffer.v ===== *)
(** * The receive buffer

    Models [Packet/RecvBuffer.h] and [Packet/RecvBuffer.cpp]: a flat buffer
    with a write position [m_head] and a read position [m_tail], from which
    complete packets are split off.  The specification is a byte queue,
    [contents]; [split_frame] and [frames] are the framing of the wire. *)
From S2P Require Import Prelude Bytes Packet.
Local Open Scope Z_scope.

Record RecvBuffer := mkRecvBuffer {
  m_capacity : Z;
  m_data : list byte;
  m_head : Z;
  m_tail : Z }.

(** [RecvBuffer(int capacity)]. *)
Definition RecvBuffer_new (capacity : Z) : RecvBuffer :=
  {| m_capacity := capacity; m_data := replicate (Z.to_nat capacity) x00;
     m_head := 0; m_tail := 0 |}.

Definition GetDataSize (b : RecvBuffer) : Z := m_head b - m_tail b.

Definition Write (size : Z) (b : RecvBuffer) : RecvBuffer :=
  {| m_capacity := m_capacity b; m_data := m_data b;
     m_head := m_head b + size; m_tail := m_tail b |}.

(** The returned pointer is an offset into [m_data]. *)
Definition TryGetPacket (b : RecvBuffer) : option (Z * Z) :=
  if decide (GetDataSize b < sizeof_PacketHeader) then None
  else
    let header := header_at (m_tail b) (m_data b) in
    let totalPacketSize := sizeof_PacketHeader + packetSize header in
    if decide (GetDataSize b < totalPacketSize) then None
    else Some (m_tail b, totalPacketSize).

Definition Pop (size : Z) (b : RecvBuffer) : RecvBuffer :=
  let tail := m_tail b + size in
  if decide (tail = m_head b)
  then {| m_capacity := m_capacity b; m_data := m_data b; m_head := 0; m_tail := 0 |}
  else {| m_capacity := m_capacity b; m_data := m_data b;
          m_head := m_head b; m_tail := tail |}.

Definition Compact (b : RecvBuffer) : RecvBuffer :=
  let dataSize := GetDataSize b in
  {| m_capacity := m_capacity b;
     m_data := if decide (m_tail b > 0 ∧ dataSize > 0)
               then mem_write 0 (mem_read (m_tail b) dataSize (m_data b)) (m_data b)
               else m_data b;
     m_head := dataSize; m_tail := 0 |}.

(** Returns the offset the next [WSARecv] writes at. *)
Definition GetWriteBufferPtr (b : RecvBuffer) : Z * RecvBuffer :=
  let b := if decide (m_head b >= m_capacity b) then Compact b else b in
  (m_head b, b).

Definition GetWriteBufferSize (b : RecvBuffer) : Z := m_capacity b - m_head b.

(** The kernel stores the received bytes at the posted address. *)
Definition os_store (off : Z) (bs : list byte) (b : RecvBuffer) : RecvBuffer :=
  {| m_capacity := m_capacity b; m_data := mem_write off bs (m_data b);
     m_head := m_head b; m_tail := m_tail b |}.

(** One posted receive that completes with [bs]: prepare the window, let the
    kernel fill it, account for the bytes. *)
Definition receive (bs : list byte) (b : RecvBuffer) : RecvBuffer :=
  let '(off, b) := GetWriteBufferPtr b in
  Write (Z.of_nat (length bs)) (os_store off bs b).

(** ** Specification *)

(** The unread bytes. *)
Definition contents (b : RecvBuffer) : list byte :=
  mem_read (m_tail b) (GetDataSize b) (m_data b).

Record rb_wf (b : RecvBuffer) : Prop := {
  wf_tail : 0 ≤ m_tail b;
  wf_order : m_tail b ≤ m_head b;
  wf_head : m_head b ≤ m_capacity b;
  wf_data : Z.of_nat (length (m_data b)) = m_capacity b }.

(** The first complete frame of a byte string, and what follows it. *)
Definition split_frame (s : list byte) : option (list byte * list byte) :=
  if decide (Z.of_nat (length s) < sizeof_PacketHeader) then None
  else
    let n := sizeof_PacketHeader + packetSize (header_at 0 s) in
    if decide (Z.of_nat (length s) < n) then None
    else Some (take (Z.to_nat n) s, drop (Z.to_nat n) s).

(** All complete frames of a byte string and the incomplete rest. *)
Fixpoint frames_fuel (fuel : nat) (s : list byte) : list (list byte) * list byte :=
  match fuel with
  | O => ([], s)
  | S fuel =>
      match split_frame s with
      | None => ([], s)
      | Some (p, s') => let '(ps, r) := frames_fuel fuel s' in (p :: ps, r)
      end
  end.

Definition frames (s : list byte) : list (list byte) * list byte :=
  frames_fuel (length s) s.

(** The receive loop's use of the buffer: split off packets until none is
    complete. *)
Fixpoint drain (fuel : nat) (b : RecvBuffer) : list (list byte) * RecvBuffer :=
  match fuel with
  | O => ([], b)
  | S fuel =>
      match TryGetPacket b with
      | None => ([], b)
      | Some (off, n) =>
          let '(ps, b') := drain fuel (Pop n b) in
          (mem_read off n (m_data b) :: ps, b')
      end
  end.

(** Receive a sequence of chunks, draining after each one; [None] when a chunk
    is larger than the window the buffer offers. *)
Fixpoint feed (chunks : list (list byte)) (b : RecvBuffer)
    : option (list (list byte) * RecvBuffer) :=
  match chunks with
  | [] => Some ([], b)
  | c :: chunks =>
      if decide (Z.of_nat (length c) ≤ GetWriteBufferSize (GetWriteBufferPtr b).2) then
        let b1 := receive c b in
        let '(ps, b2) := drain (length (contents b1)) b1 in
        match feed chunks b2 with
        | Some (qs, b3) => Some (ps ++ qs, b3)
        | None => None
        end
      else None
  end.

(** ** Well-formedness and contents *)

Lemma length_contents b : rb_wf b → Z.of_nat (length (contents b)) = GetDataSize b.
Proof.
  intros []. unfold contents. rewrite length_mem_read; [unfold GetDataSize; lia|].
  unfold in_range, GetDataSize. lia.
Qed.

Lemma RecvBuffer_new_wf capacity : 0 ≤ capacity → rb_wf (RecvBuffer_new capacity).
Proof. intros H. split; simpl; rewrite ?length_replicate; lia. Qed.

Lemma RecvBuffer_new_contents capacity : contents (RecvBuffer_new capacity) = [].
Proof. done. Qed.

Lemma Compact_wf b : rb_wf b → rb_wf (Compact b).
Proof.
  intros []. split; unfold Compact, GetDataSize; simpl; try lia.
  case_decide; rewrite ?length_mem_write; done.
Qed.

(** The memmove may overlap; the unread bytes survive it. *)
Lemma Compact_contents b : rb_wf b → contents (Compact b) = contents b.
Proof.
  intros Hwf. destruct Hwf as [Ht Ho Hh Hd].
  unfold contents, Compact, GetDataSize. cbn [m_tail m_head m_data].
  rewrite Z.sub_0_r. case_decide as Hc.
  - set (k := mem_read (m_tail b) _ _).
    assert (Hk : Z.of_nat (length k) = m_head b - m_tail b).
    { unfold k. rewrite length_mem_read; [lia|]. unfold in_range. lia. }
    rewrite <- Hk at 1. apply mem_read_write_same. unfold in_range. lia.
  - destruct (decide (m_head b - m_tail b = 0)) as [->|]; [done|].
    replace (m_tail b) with 0 by lia. done.
Qed.

Lemma GetWriteBufferPtr_spec b :
  rb_wf b →
  let '(off, b') := GetWriteBufferPtr b in
  off = m_head b' ∧ rb_wf b' ∧ contents b' = contents b ∧ m_capacity b' = m_capacity b.
Proof.
  intros Hwf. unfold GetWriteBufferPtr.
  case_decide; repeat split; auto using Compact_contents.
  all: try (by apply Compact_wf); by apply Hwf.
Qed.

Lemma contents_append bs b :
  rb_wf b → Z.of_nat (length bs) ≤ GetWriteBufferSize b →
  contents (Write (Z.of_nat (length bs)) (os_store (m_head b) bs b)) = contents b ++ bs.
Proof.
  intros [] Hfit. unfold GetWriteBufferSize, contents, Write, os_store, GetDataSize in *.
  cbn [m_head m_tail m_data].
  replace (m_head b + Z.of_nat (length bs) - m_tail b)
    with ((m_head b - m_tail b) + Z.of_nat (length bs)) by lia.
  rewrite mem_read_app by lia. f_equal.
  - apply mem_read_write_before; try lia. unfold in_range. lia.
  - replace (m_tail b + (m_head b - m_tail b)) with (m_head b) by lia.
    apply mem_read_write_same. unfold in_range. lia.
Qed.

Lemma Write_wf n b :
  rb_wf b → 0 ≤ n ≤ GetWriteBufferSize b → rb_wf (Write n b).
Proof. intros [] ?. unfold GetWriteBufferSize in *. split; simpl; lia. Qed.

Lemma os_store_wf off bs b : rb_wf b → rb_wf (os_store off bs b).
Proof. intros []. split; simpl; rewrite ?length_mem_write; done. Qed.

Lemma receive_ok bs b :
  rb_wf b → Z.of_nat (length bs) ≤ GetWriteBufferSize (GetWriteBufferPtr b).2 →
  rb_wf (receive bs b) ∧ contents (receive bs b) = contents b ++ bs.
Proof.
  intros Hwf. pose proof (GetWriteBufferPtr_spec b Hwf) as H.
  unfold receive. destruct (GetWriteBufferPtr b) as [off b'].
  destruct H as (-> & Hwf' & <- & _). intros Hfit. simpl in Hfit. split.
  - apply Write_wf; [by apply os_store_wf|]. split; [lia|done].
  - by apply contents_append.
Qed.

Lemma Pop_ok n b :
  rb_wf b → 0 ≤ n ≤ GetDataSize b →
  rb_wf (Pop n b) ∧ contents (Pop n b) = drop (Z.to_nat n) (contents b).
Proof.
  intros [Ht Ho Hh Hd] Hn. unfold GetDataSize in Hn. unfold Pop. case_decide as Hc.
  - split; [split; simpl; lia|]. unfold contents. symmetry.
    rewrite drop_ge; [done|]. unfold mem_read. rewrite length_take.
    unfold GetDataSize. lia.
  - split; [split; simpl; lia|]. unfold contents, GetDataSize. simpl.
    rewrite mem_read_drop by lia. f_equal. lia.
Qed.

Lemma TryGetPacket_frame b :
  rb_wf b →
  match split_frame (contents b) with
  | None => TryGetPacket b = None
  | Some (p, r) =>
      TryGetPacket b = Some (m_tail b, Z.of_nat (length p))
      ∧ mem_read (m_tail b) (Z.of_nat (length p)) (m_data b) = p
      ∧ contents b = p ++ r ∧ 4 ≤ Z.of_nat (length p)
  end.
Proof.
  intros Hwf. unfold split_frame, TryGetPacket. rewrite length_contents by done.
  case_decide as H4; [done|].
  assert (Hh : header_at 0 (contents b) = header_at (m_tail b) (m_data b)).
  { apply header_at_read; [apply Hwf|]. unfold sizeof_PacketHeader in H4. lia. }
  rewrite Hh. pose proof (header_at_size_range (m_tail b) (m_data b)) as Hr.
  case_decide as Hn; [done|].
  pose proof (length_contents b Hwf). unfold sizeof_PacketHeader in *.
  rewrite length_take. replace (Z.of_nat _) with (4 + packetSize (header_at (m_tail b) (m_data b))) by lia.
  repeat split.
  - symmetry. unfold contents. apply mem_read_take. lia.
  - symmetry. apply take_drop.
  - lia.
Qed.

(** ** Framing of a byte string *)

Lemma split_frame_Some s p r :
  split_frame s = Some (p, r) → s = p ++ r ∧ (4 ≤ length p)%nat.
Proof.
  unfold split_frame, sizeof_PacketHeader.
  pose proof (header_at_size_range 0 s). intros H'. cases. split.
  - symmetry. apply take_drop.
  - rewrite length_take. lia.
Qed.

Lemma header_at_app off s t :
  0 ≤ off → off + 4 ≤ Z.of_nat (length s) → header_at off (s ++ t) = header_at off s.
Proof.
  intros. unfold header_at, mem_read.
  rewrite !drop_app_le by lia. rewrite !take_app_le by (rewrite length_drop; lia). done.
Qed.

Lemma split_frame_app s t p r :
  split_frame s = Some (p, r) → split_frame (s ++ t) = Some (p, r ++ t).
Proof.
  unfold split_frame, sizeof_PacketHeader. intros H.
  rewrite length_app. destruct (decide (_ < 4)) as [|H4]; [done|].
  rewrite header_at_app by lia. pose proof (header_at_size_range 0 s).
  destruct (decide (Z.of_nat (length s) < _)) as [|Hn]; [done|]. simplify_eq.
  rewrite !decide_False by lia.
  by rewrite take_app_le, drop_app_le by lia.
Qed.

Lemma frames_fuel_enough n m s :
  (length s ≤ n)%nat → (length s ≤ m)%nat → frames_fuel n s = frames_fuel m s.
Proof.
  revert m s. induction n as [|n IH]; intros m s Hn Hm.
  - destruct s as [|]; simpl in Hn; [|lia]. by destruct m.
  - destruct m as [|m]; [destruct s; simpl in Hm; [done|lia]|].
    simpl. destruct (split_frame s) as [[p r]|] eqn:E; [|done].
    apply split_frame_Some in E as [-> ?]. rewrite length_app in *.
    rewrite (IH m r) by lia. done.
Qed.

Lemma frames_unfold s :
  frames s = match split_frame s with
             | None => ([], s)
             | Some (p, r) => (p :: (frames r).1, (frames r).2)
             end.
Proof.
  unfold frames. destruct s as [|b s]; [done|]. cbn [length frames_fuel].
  destruct (split_frame (b :: s)) as [[p r]|] eqn:E; [|done].
  apply split_frame_Some in E as [Hs ?].
  assert (length (b :: s) = length p + length r)%nat as Hl by (by rewrite Hs, length_app).
  simpl in Hl. rewrite (frames_fuel_enough (length s) (length r) r) by lia.
  by destruct (frames_fuel (length r) r).
Qed.

(** Strong induction along the frames of a byte string. *)
Lemma frames_ind (P : list byte → Prop) :
  (∀ s, split_frame s = None → P s) →
  (∀ s p r, split_frame s = Some (p, r) → P r → P s) →
  ∀ s, P s.
Proof.
  intros Hn Hs s. remember (length s) as n eqn:Hl. revert s Hl.
  induction (lt_wf n) as [n _ IH]. intros s ->.
  destruct (split_frame s) as [[p r]|] eqn:E; [|by apply Hn].
  apply (Hs s p r E). apply split_frame_Some in E as [-> ?].
  apply (IH (length r)); [rewrite length_app; lia|done].
Qed.

Lemma frames_app s t :
  frames (s ++ t) = ((frames s).1 ++ (frames ((frames s).2 ++ t)).1,
                     (frames ((frames s).2 ++ t)).2).
Proof.
  induction s as [s E|s p r E IH] using frames_ind.
  - rewrite (frames_unfold s), E. simpl. by destruct (frames (s ++ t)).
  - rewrite (frames_unfold (s ++ t)), (split_frame_app _ _ _ _ E), IH.
    rewrite (frames_unfold s), E. done.
Qed.

Lemma frames_rest_stuck s : split_frame (frames s).2 = None.
Proof.
  induction s as [s E|s p r E IH] using frames_ind.
  - by rewrite frames_unfold, E.
  - by rewrite frames_unfold, E.
Qed.

Lemma frames_concat s : s = concat (frames s).1 ++ (frames s).2.
Proof.
  induction s as [s E|s p r E IH] using frames_ind.
  - by rewrite frames_unfold, E.
  - rewrite frames_unfold, E. simpl. rewrite <- app_assoc, <- IH.
    by apply split_frame_Some in E as [-> _].
Qed.

(** ** The drain loop against the framing *)

Lemma drain_frames fuel b :
  rb_wf b → (length (contents b) ≤ fuel)%nat →
  (drain fuel b).1 = (frames (contents b)).1
  ∧ contents (drain fuel b).2 = (frames (contents b)).2
  ∧ rb_wf (drain fuel b).2.
Proof.
  revert b. induction fuel as [|fuel IH]; intros b Hwf Hf.
  - destruct (contents b) eqn:E; simpl in Hf; [|lia]. simpl. by rewrite E.
  - pose proof (TryGetPacket_frame b Hwf) as HT. rewrite frames_unfold. simpl.
    destruct (split_frame (contents b)) as [[p r]|]; [|by rewrite HT].
    destruct HT as (-> & Hp & Hc & H4).
    assert (Hlen : Z.of_nat (length p) ≤ GetDataSize b).
    { rewrite <- length_contents by done. rewrite Hc, length_app. lia. }
    destruct (Pop_ok (Z.of_nat (length p)) b Hwf) as [Hwf' Hc']; [lia|].
    rewrite Hc, drop_app_exact in Hc' by lia.
    destruct (IH (Pop (Z.of_nat (length p)) b) Hwf') as (IH1 & IH2 & IH3).
    { rewrite Hc'. rewrite Hc, length_app in Hf. lia. }
    rewrite Hc' in IH1, IH2. destruct (drain fuel _) as [ps b']. simpl in *.
    by rewrite Hp, IH1.
Qed.

Lemma drain_capacity fuel b : m_capacity (drain fuel b).2 = m_capacity b.
Proof.
  revert b. induction fuel as [|fuel IH]; intros b; simpl; [done|].
  destruct (TryGetPacket b) as [[off n]|]; [|done].
  specialize (IH (Pop n b)). destruct (drain fuel (Pop n b)). simpl in *. rewrite IH.
  unfold Pop. by case_decide.
Qed.

(** ** Properties *)

(** C14. Segmentation independence: however the byte stream is cut into receive
    completions, splitting packets off after each one yields exactly the frames
    of the whole stream, in order, and leaves the incomplete rest buffered. *)
Theorem feed_frames chunks b ps b' :
  rb_wf b → feed chunks b = Some (ps, b') → (frames (contents b)).1 = [] →
  frames (contents b ++ concat chunks) = (ps, contents b') ∧ rb_wf b'.
Proof.
  revert b ps b'. induction chunks as [|c chunks IH]; intros b ps b' Hwf; simpl.
  - intros [= <- <-] H0. rewrite app_nil_r. split; [|done].
    pose proof (frames_concat (contents b)) as Hc. rewrite H0 in Hc. simpl in Hc.
    rewrite Hc at 2. rewrite <- H0. by destruct (frames _).
  - case_decide as Hfit; [|done].
    destruct (receive_ok c b Hwf Hfit) as [Hwf1 Hc1].
    destruct (drain_frames (length (contents (receive c b))) _ Hwf1) as (D1 & D2 & D3);
      [done|].
    destruct (drain _ _) as [qs b2]. simpl in *. destruct (feed chunks b2) as [[rs b3]|] eqn:E;
      [|done]. intros [= <- <-] H0.
    destruct (IH b2 rs b3 D3 E) as [IH1 IH2].
    { rewrite D2. by rewrite frames_unfold, frames_rest_stuck. }
    split; [|done]. rewrite app_assoc, frames_app, <- Hc1, <- D1, <- D2, IH1. done.
Qed.

Definition demo_stream : list (list byte) :=
  [[x02; x00; x0d]; [x00; xaa; xbb; x00]; [x00; x0f; x00; x01]].

(** Two packets cut at awkward places; the buffer is compacted on the way. *)
Lemma feed_frames_witness :
  ∃ ps b', feed demo_stream (RecvBuffer_new 7) = Some (ps, b')
    ∧ ps = [[x02; x00; x0d; x00; xaa; xbb]; [x00; x00; x0f; x00]]
    ∧ frames (contents (RecvBuffer_new 7) ++ concat demo_stream) = (ps, contents b').
Proof.
  destruct (feed demo_stream (RecvBuffer_new 7)) as [[ps b']|] eqn:E;
    [|vm_compute in E; discriminate].
  exists ps, b'. split; [reflexivity|]. split.
  - vm_compute in E. congruence.
  - apply (feed_frames demo_stream (RecvBuffer_new 7) ps b'); [|exact E|reflexivity].
    apply RecvBuffer_new_wf. lia.
Defined.

Lemma window_size b :
  rb_wf b →
  GetWriteBufferSize (GetWriteBufferPtr b).2
  = if decide (m_head b >= m_capacity b) then m_capacity b - GetDataSize b
    else m_capacity b - m_head b.
Proof. intros []. unfold GetWriteBufferPtr, GetWriteBufferSize. by case_decide. Qed.

(** When is the next receive posted with no room at all?  After the packets
    have been split off, the window offered to [WSARecv] is empty exactly when
    the buffer is filled by the beginning of a packet that is larger than the
    buffer.  Every packet that fits the buffer can always make progress. *)
Theorem window_empty_iff b :
  rb_wf b → 4 ≤ m_capacity b → TryGetPacket b = None →
  GetWriteBufferSize (GetWriteBufferPtr b).2 = 0
  ↔ Z.of_nat (length (contents b)) = m_capacity b
    ∧ m_capacity b < sizeof_PacketHeader + packetSize (header_at (m_tail b) (m_data b)).
Proof.
  intros Hwf H4 HT. rewrite window_size, length_contents by done.
  destruct Hwf as [Ht Ho Hh Hd].
  unfold TryGetPacket, GetDataSize, sizeof_PacketHeader in *.
  repeat case_decide; try done; lia.
Qed.

