(* ===== verification/Protobuf.v ===== *)
(** * The protobuf runtime as an interface

    [Packet/Logic/Packet.pb.cc] is written against the protobuf C++ runtime,
    which is not part of the repository.  This file states what the generated
    code relies on: a class of operations with the documented wire format as
    laws, and the [_InternalParse] loop that every generated parser shares.

    A position in the input is the list of the bytes that remain; a null
    pointer is [None].  A [float] is its 32-bit representation, which is all
    the generated code ever looks at. *)
From S2P Require Import Prelude Bytes.
Local Open Scope Z_scope.

(** What the loop of a generated parser returns: the message, the remaining
    input, and the tag that ended it early ([ctx->SetLastTag]), if one did. *)
Definition parse_result (M : Type) : Type := option (M * list byte * option Z).

Class PbRuntime := {
  UnknownFieldSet : Type;
  uf_empty : UnknownFieldSet;
  uf_parse : Z → UnknownFieldSet → list byte → option (UnknownFieldSet * list byte);
  uf_bytes : UnknownFieldSet → list byte;
  uf_merge : UnknownFieldSet → UnknownFieldSet → UnknownFieldSet;
  (** Varint coding, used by every length and tag. *)
  varint : Z → list byte;
  ReadTag : list byte → option (Z * list byte);
  ReadVarint64 : list byte → option (Z * list byte);
  InlineGreedyStringParser : list byte → option (list byte * list byte);
  VerifyUTF8 : list byte → bool;
  ExpectTag : Z → list byte → bool;
  (** [ctx->ParseMessage(msg, ptr)], given the parser of [msg]. *)
  ParseMessage : ∀ {M : Type}, (M → list byte → parse_result M) → M → list byte →
                 option (M * list byte);
  (** [MessageLite::ParseFromArray], given the parser and the cleared message. *)
  ParseFrom : ∀ {M : Type}, (M → list byte → parse_result M) → M → list byte → option M;
  WriteString : Z → string → list byte;
  WriteBool : Z → bool → list byte;
  WriteFloat : Z → Z → list byte;
  InternalWriteMessage : Z → list byte → list byte;
  StringSize : string → Z;
  MessageSize : Z → Z }.

(** A length-delimited payload. *)
Definition delimited `{PbRuntime} (bs : list byte) : list byte :=
  varint (Z.of_nat (length bs)) ++ bs.

(** The largest payload the runtime accepts (2 GiB). *)
Definition max_payload : Z := 2147483647.

(** The documented wire format, for the one-byte tags this file uses. *)
Class PbRuntimeLaws `{PbRuntime} : Prop := {
  ReadTag_small : ∀ b s, 0 < byte_val b < 128 → ReadTag (b :: s) = Some (byte_val b, s);
  ReadTag_shrinks : ∀ s t s', ReadTag s = Some (t, s') → (length s' < length s)%nat;
  ReadVarint64_small : ∀ b s, byte_val b < 128 → ReadVarint64 (b :: s) = Some (byte_val b, s);
  ReadVarint64_shrinks : ∀ s v s', ReadVarint64 s = Some (v, s') → (length s' ≤ length s)%nat;
  string_delimited : ∀ bs s, Z.of_nat (length bs) ≤ max_payload →
    InlineGreedyStringParser (delimited bs ++ s) = Some (bs, s);
  string_shrinks : ∀ s v s', InlineGreedyStringParser s = Some (v, s') → (length s' ≤ length s)%nat;
  uf_parse_shrinks : ∀ t u s u' s', uf_parse t u s = Some (u', s') → (length s' ≤ length s)%nat;
  uf_bytes_empty : uf_bytes uf_empty = [];
  uf_merge_empty : ∀ u, uf_merge uf_empty u = u;
  ExpectTag_byte : ∀ t b s, 0 < t < 128 → ExpectTag t (b :: s) = bool_decide (byte_val b = t);
  ParseMessage_delimited : ∀ M (p : M → list byte → parse_result M) m m' bs s,
    Z.of_nat (length bs) ≤ max_payload → p m bs = Some (m', [], None) →
    ParseMessage p m (delimited bs ++ s) = Some (m', s);
  ParseMessage_shrinks : ∀ M (p : M → list byte → parse_result M) m s m' s',
    ParseMessage p m s = Some (m', s') → (length s' ≤ length s)%nat;
  ParseFrom_all : ∀ M (p : M → list byte → parse_result M) m s m',
    p m s = Some (m', [], None) → ParseFrom p m s = Some m';
  ParseFrom_error : ∀ M (p : M → list byte → parse_result M) m s,
    p m s = None → ParseFrom p m s = None;
  WriteString_wire : ∀ n s, 1 ≤ n ≤ 15 →
    WriteString n s = byte_of_Z (8 * n + 2) :: delimited (str_bytes s);
  WriteBool_wire : ∀ n b, 1 ≤ n ≤ 15 →
    WriteBool n b = [byte_of_Z (8 * n); byte_of_Z (if b then 1 else 0)];
  WriteFloat_wire : ∀ n f, 1 ≤ n ≤ 15 →
    WriteFloat n f = byte_of_Z (8 * n + 5) :: le_bytes 4 f;
  WriteMessage_wire : ∀ n bs, 1 ≤ n ≤ 15 →
    InternalWriteMessage n bs = byte_of_Z (8 * n + 2) :: delimited bs;
  StringSize_wire : ∀ s, StringSize s = Z.of_nat (length (delimited (str_bytes s)));
  MessageSize_wire : ∀ bs, MessageSize (Z.of_nat (length bs)) = Z.of_nat (length (delimited bs)) }.

(** ** The parser loop *)

(** One pass through the [switch] of a generated parser: the field was read
    ([None] is the [goto failure] of [CHK_]), or control reaches
    [handle_unusual]. *)
Inductive field_step (M : Type) :=
  | Handled (r : option (M * list byte))
  | Unusual.
Arguments Handled {M}.
Arguments Unusual {M}.

Section parser.
Context `{PbRuntime}.
Context {M : Type}.
Variable field : Z → M → list byte → field_step M.
Variable unknown : M → UnknownFieldSet.
Variable set_unknown : UnknownFieldSet → M → M.

(** [while (!ctx->Done(&ptr)) { ... }] with [fuel] iterations. *)
Fixpoint parse_loop (fuel : nat) (m : M) (s : list byte) : parse_result M :=
  match s with
  | [] => Some (m, [], None)
  | _ =>
    match fuel with
    | O => None
    | S fuel =>
      match ReadTag s with
      | None => None
      | Some (tag, s1) =>
        match field tag m s1 with
        | Handled None => None
        | Handled (Some (m', s2)) => parse_loop fuel m' s2
        | Unusual =>
          if decide (tag = 0 ∨ Z.land tag 7 = 4) then Some (m, s1, Some tag)
          else
            match uf_parse tag (unknown m) s1 with
            | None => None
            | Some (u, s2) => parse_loop fuel (set_unknown u m) s2
            end
        end
      end
    end
  end.

(** Every iteration consumes at least the tag, so one unit of fuel per input
    byte is enough. *)
Definition run_parser (m : M) (s : list byte) : parse_result M :=
  parse_loop (length s) m s.

Definition field_shrinks : Prop := ∀ tag m s m' s',
  field tag m s = Handled (Some (m', s')) → (length s' ≤ length s)%nat.

Lemma parse_loop_enough `{!PbRuntimeLaws} n k m s :
  field_shrinks → (length s ≤ n)%nat → (length s ≤ k)%nat →
  parse_loop n m s = parse_loop k m s.
Proof.
  intros Hf. revert k m s. induction n as [|n IH]; intros k m s Hn Hk.
  { destruct s; simpl in Hn; [by destruct k|lia]. }
  destruct s as [|b s]; [by destruct k|].
  destruct k as [|k]; [simpl in Hk; lia|]. cbn [parse_loop].
  destruct (ReadTag (b :: s)) as [[tag s1]|] eqn:ER; [|done].
  apply ReadTag_shrinks in ER.
  destruct (field tag m s1) as [[[m' s2]|]|] eqn:EF; [|done|].
  - apply Hf in EF. apply IH; lia.
  - case_decide; [done|].
    destruct (uf_parse tag (unknown m) s1) as [[u s2]|] eqn:EU; [|done].
    apply uf_parse_shrinks in EU. apply IH; lia.
Qed.

(** One field, then the rest. *)
Lemma run_parser_field `{!PbRuntimeLaws} m b s m' s' :
  field_shrinks → 0 < byte_val b < 128 →
  field (byte_val b) m s = Handled (Some (m', s')) →
  run_parser m (b :: s) = run_parser m' s'.
Proof.
  intros Hf Hb E. unfold run_parser. cbn [length parse_loop].
  rewrite (ReadTag_small b s Hb), E.
  pose proof (Hf _ _ _ _ _ E). apply parse_loop_enough; (done || lia).
Qed.

Lemma run_parser_nil m : run_parser m [] = Some (m, [], None).
Proof. done. Qed.
End parser.

(** ** Field readers *)
Section readers.
Context `{PbRuntime}.
Context {M : Type}.

(** [InlineGreedyStringParser] followed by [VerifyUTF8]. *)
Definition string_field (set : string → M) (s : list byte) : field_step M :=
  match InlineGreedyStringParser s with
  | None => Handled None
  | Some (v, s') =>
      if VerifyUTF8 v then Handled (Some (set (bytes_str v), s')) else Handled None
  end.

(** [_impl_.f_ = ReadVarint64(&ptr); CHK_(ptr)] into a [bool]. *)
Definition bool_field (set : bool → M) (s : list byte) : field_step M :=
  match ReadVarint64 s with
  | None => Handled None
  | Some (v, s') => Handled (Some (set (bool_decide (v ≠ 0)), s'))
  end.

(** [UnalignedLoad<float>(ptr); ptr += 4].  Reading past the end of the input
    is detected by the next [ctx->Done] and fails the parse. *)
Definition float_field (set : Z → M) (s : list byte) : field_step M :=
  if decide (length s < 4)%nat then Handled None
  else Handled (Some (set (le_val (take 4 s)), drop 4 s)).

Context `{!PbRuntimeLaws}.

Lemma string_field_shrinks set s m s' :
  string_field set s = Handled (Some (m, s')) → (length s' ≤ length s)%nat.
Proof.
  unfold string_field. destruct (InlineGreedyStringParser s) as [[v r]|] eqn:E; [|done].
  apply string_shrinks in E. by destruct (VerifyUTF8 v); intros; simplify_eq.
Qed.

Lemma bool_field_shrinks set s m s' :
  bool_field set s = Handled (Some (m, s')) → (length s' ≤ length s)%nat.
Proof.
  unfold bool_field. destruct (ReadVarint64 s) as [[v r]|] eqn:E; [|done].
  apply ReadVarint64_shrinks in E. by intros; simplify_eq.
Qed.

Lemma float_field_shrinks set s m s' :
  float_field set s = Handled (Some (m, s')) → (length s' ≤ length s)%nat.
Proof. unfold float_field. intros. cases. rewrite length_drop. lia. Qed.

Lemma string_field_delimited set v s :
  Z.of_nat (length (str_bytes v)) ≤ max_payload → VerifyUTF8 (str_bytes v) = true →
  string_field set (delimited (str_bytes v) ++ s) = Handled (Some (set v, s)).
Proof.
  intros Hl Hu. unfold string_field.
  by rewrite string_delimited, Hu, bytes_str_bytes by done.
Qed.

Lemma bool_field_byte set (v : bool) s :
  bool_field set (byte_of_Z (if v then 1 else 0) :: s) = Handled (Some (set v, s)).
Proof.
  unfold bool_field. rewrite ReadVarint64_small by (by destruct v). by destruct v.
Qed.

Lemma float_field_bytes set f s :
  0 ≤ f < 2 ^ 32 → float_field set (le_bytes 4 f ++ s) = Handled (Some (set f, s)).
Proof.
  intros Hf. unfold float_field. rewrite decide_False by (rewrite length_app; simpl; lia).
  rewrite take_app_exact, drop_app_exact by done.
  rewrite le_val_bytes_small; [done|]. simpl. lia.
Qed.
End readers.

#[export] Hint Resolve string_field_shrinks bool_field_shrinks float_field_shrinks : server.

(** ** Reading back one written field

    The generated serializer skips a field that has its default value. *)
Section field_segments.
Context `{PbRuntimeLaws}.
Context {M : Type}.
Variable field : Z → M → list byte → field_step M.
Variable unknown : M → UnknownFieldSet.
Variable set_unknown : UnknownFieldSet → M → M.
Hypothesis Hf : field_shrinks field.

#[local] Abbreviation run := (run_parser field unknown set_unknown).

Lemma byte_tag n : 0 < n < 128 → byte_val (byte_of_Z n) = n.
Proof. intros. rewrite byte_val_of_Z. apply Z.mod_small. lia. Qed.

Lemma run_string n v m (set : string → M) rest :
  1 ≤ n ≤ 15 → (v = "" → set v = m) →
  (∀ s, field (8 * n + 2) m s = string_field set s) →
  Z.of_nat (length (str_bytes v)) ≤ max_payload → VerifyUTF8 (str_bytes v) = true →
  run m ((if decide (v = "") then [] else WriteString n v) ++ rest) = run (set v) rest.
Proof.
  intros Hn Hdef HF Hl Hu. case_decide as Hv; [by rewrite (Hdef Hv)|].
  rewrite WriteString_wire by done. simpl.
  apply (run_parser_field field unknown set_unknown _ _ _ _ _ Hf);
    rewrite byte_tag by lia; [lia|].
  rewrite HF. by apply string_field_delimited.
Qed.

Lemma run_bool n (v : bool) m (set : bool → M) rest :
  1 ≤ n ≤ 15 → (v = false → set v = m) →
  (∀ s, field (8 * n) m s = bool_field set s) →
  run m ((if v then WriteBool n v else []) ++ rest) = run (set v) rest.
Proof.
  intros Hn Hdef HF. destruct v; [|by rewrite Hdef].
  rewrite WriteBool_wire by done. simpl.
  apply (run_parser_field field unknown set_unknown _ _ _ _ _ Hf);
    rewrite byte_tag by lia; [lia|].
  rewrite HF. by rewrite (bool_field_byte set true).
Qed.

Lemma run_float n v m (set : Z → M) rest :
  1 ≤ n ≤ 15 → (v = 0 → set v = m) →
  (∀ s, field (8 * n + 5) m s = float_field set s) → 0 ≤ v < 2 ^ 32 →
  run m ((if decide (v = 0) then [] else WriteFloat n v) ++ rest) = run (set v) rest.
Proof.
  intros Hn Hdef HF Hv. case_decide as Hz; [by rewrite (Hdef Hz)|].
  rewrite WriteFloat_wire by done. rewrite <- app_comm_cons.
  apply (run_parser_field field unknown set_unknown _ _ _ _ _ Hf);
    rewrite byte_tag by lia; [lia|].
  rewrite HF. by rewrite float_field_bytes.
Qed.
End field_segments.

(** ** The message interface

    What a [Message] subclass promises to the code that sends it: its size, the
    bytes it serializes to, and a parser that reads them back. *)
Class Message (M : Type) := {
  ByteSizeLong : M → Z;
  Serialize : M → list byte;
  ParseFromArray : list byte → option M }.

Class MessageLaws (M : Type) `{Message M} (ok : M → Prop) : Prop := {
  ByteSizeLong_length : ∀ m, ok m → ByteSizeLong m = Z.of_nat (length (Serialize m));
  Parse_Serialize : ∀ m, ok m → ParseFromArray (Serialize m) = Some m }.

(** [SerializeToArray(data, size)] writes nothing when [size] is too small. *)
Definition SerializeToArray `{Message M} (m : M) (size : Z) : option (list byte) :=
  if decide (size < Z.of_nat (length (Serialize m))) then None else Some (Serialize m).
