(* ===== verification/PbRuntimeDemo.v ===== *)
(** * A concrete protobuf runtime

    A small executable implementation of the [PbRuntime] interface, and a proof
    that it satisfies the wire-format laws: the laws can hold, and the
    development's witnesses evaluate on it.  Text is accepted when it is ASCII. *)
From S2P Require Import Prelude Bytes Protobuf.
Local Open Scope Z_scope.

Fixpoint demo_varint (fuel : nat) (z : Z) : list byte :=
  match fuel with
  | O => [byte_of_Z z]
  | S fuel =>
      if decide (z < 128) then [byte_of_Z z]
      else byte_of_Z (z `mod` 128 + 128) :: demo_varint fuel (z / 128)
  end.

Fixpoint demo_read_varint (fuel : nat) (s : list byte) : option (Z * list byte) :=
  match s, fuel with
  | [], _ | _, O => None
  | b :: s, S fuel =>
      if decide (byte_val b < 128) then Some (byte_val b, s)
      else match demo_read_varint fuel s with
           | Some (v, s') => Some (byte_val b - 128 + 128 * v, s')
           | None => None
           end
  end.

Definition demo_delimited (bs : list byte) : list byte :=
  demo_varint 9 (Z.of_nat (length bs)) ++ bs.

Definition demo_read_bytes (s : list byte) : option (list byte * list byte) :=
  match demo_read_varint 10 s with
  | Some (n, s') =>
      if decide (Z.of_nat (length s') < n) then None
      else Some (take (Z.to_nat n) s', drop (Z.to_nat n) s')
  | None => None
  end.

(** Keep an unknown field as the bytes it occupied. *)
Definition demo_uf_parse (tag : Z) (u : list byte) (s : list byte)
    : option (list byte * list byte) :=
  let keep bs r := Some (u ++ demo_varint 9 tag ++ bs, r) in
  match Z.land tag 7 with
  | 0 => match demo_read_varint 10 s with
         | Some (v, s') => keep (demo_varint 9 v) s'
         | None => None
         end
  | 2 => match demo_read_bytes s with
         | Some (bs, s') => keep (demo_delimited bs) s'
         | None => None
         end
  | 5 => if decide (length s < 4)%nat then None else keep (take 4 s) (drop 4 s)
  | 1 => if decide (length s < 8)%nat then None else keep (take 8 s) (drop 8 s)
  | _ => None
  end.

(** Well-formed UTF-8. *)
Definition demo_cont (b : Z) : bool := (128 <=? b) && (b <? 192).

Fixpoint demo_utf8 (bs : list Z) : bool :=
  match bs with
  | [] => true
  | b :: bs =>
      if b <? 128 then demo_utf8 bs
      else if b <? 194 then false
      else if b <? 224 then
        match bs with c1 :: bs => demo_cont c1 && demo_utf8 bs | _ => false end
      else if b <? 240 then
        match bs with
        | c1 :: c2 :: bs =>
            demo_cont c1 && demo_cont c2 && (if b =? 224 then 160 <=? c1 else true)
            && (if b =? 237 then c1 <? 160 else true) && demo_utf8 bs
        | _ => false
        end
      else if b <? 245 then
        match bs with
        | c1 :: c2 :: c3 :: bs =>
            demo_cont c1 && demo_cont c2 && demo_cont c3 && (if b =? 240 then 144 <=? c1 else true)
            && (if b =? 244 then c1 <? 144 else true) && demo_utf8 bs
        | _ => false
        end
      else false
  end.

#[export] Instance DemoPb : PbRuntime := {
  UnknownFieldSet := list byte;
  uf_empty := [];
  uf_parse := demo_uf_parse;
  uf_bytes u := u;
  uf_merge u v := u ++ v;
  varint := demo_varint 9;
  ReadTag := demo_read_varint 10;
  ReadVarint64 := demo_read_varint 10;
  InlineGreedyStringParser := demo_read_bytes;
  VerifyUTF8 bs := demo_utf8 (map byte_val bs);
  ExpectTag t s := match s with b :: _ => bool_decide (byte_val b = t) | [] => false end;
  ParseMessage M p m s :=
    match demo_read_bytes s with
    | Some (bs, s') =>
        match p m bs with
        | Some (m', [], None) => Some (m', s')
        | _ => None
        end
    | None => None
    end;
  ParseFrom M p m s :=
    match p m s with
    | Some (m', [], None) => Some m'
    | _ => None
    end;
  WriteString n s := byte_of_Z (8 * n + 2) :: demo_delimited (str_bytes s);
  WriteBool n b := [byte_of_Z (8 * n); byte_of_Z (if b then 1 else 0)];
  WriteFloat n f := byte_of_Z (8 * n + 5) :: le_bytes 4 f;
  InternalWriteMessage n bs := byte_of_Z (8 * n + 2) :: demo_delimited bs;
  StringSize s := Z.of_nat (length (demo_delimited (str_bytes s)));
  MessageSize n := Z.of_nat (length (demo_varint 9 n)) + n }.

Lemma demo_read_varint_step fuel b s :
  demo_read_varint (S fuel) (b :: s)
  = if decide (byte_val b < 128) then Some (byte_val b, s)
    else match demo_read_varint fuel s with
         | Some (v, s') => Some (byte_val b - 128 + 128 * v, s')
         | None => None
         end.
Proof. done. Qed.

Lemma demo_read_varint_small fuel b s :
  byte_val b < 128 → demo_read_varint (S fuel) (b :: s) = Some (byte_val b, s).
Proof. intros. simpl. by rewrite decide_True. Qed.

Lemma demo_read_varint_shrinks fuel s v s' :
  demo_read_varint fuel s = Some (v, s') → (length s' < length s)%nat.
Proof.
  revert s v s'. induction fuel as [|fuel IH]; intros [|b s] v s' H; simpl in *; try done.
  case_decide; simplify_eq; [lia|].
  destruct (demo_read_varint fuel s) as [[w r]|] eqn:E; simplify_eq.
  apply IH in E. lia.
Qed.

Lemma demo_read_varint_varint fuel z s :
  0 ≤ z < 128 ^ (Z.of_nat (S fuel)) →
  demo_read_varint (S fuel) (demo_varint fuel z ++ s) = Some (z, s).
Proof.
  revert z. induction fuel as [|fuel IH]; intros z Hz.
  - simpl in *. change (128 ^ 1) with 128 in Hz.
    rewrite byte_val_of_Z, Z.mod_small by lia. by rewrite decide_True by lia.
  - cbn [demo_varint]. case_decide.
    + cbn [app]. rewrite demo_read_varint_small; rewrite byte_val_of_Z, Z.mod_small by lia; done.
    + cbn [app].
      rewrite Nat2Z.inj_succ, Z.pow_succ_r in Hz by lia.
      pose proof (Z.mod_pos_bound z 128 ltac:(lia)).
      rewrite demo_read_varint_step, !byte_val_of_Z.
      rewrite (Z.mod_small (_ + 128)) by lia. rewrite decide_False by lia.
      rewrite IH.
      * do 2 f_equal. pose proof (Z.div_mod z 128 ltac:(lia)). lia.
      * split; [apply Z.div_pos; lia|]. apply Z.div_lt_upper_bound; lia.
Qed.

Lemma demo_read_bytes_delimited bs s :
  Z.of_nat (length bs) ≤ max_payload →
  demo_read_bytes (demo_delimited bs ++ s) = Some (bs, s).
Proof.
  unfold max_payload. intros H. unfold demo_read_bytes, demo_delimited. rewrite <- app_assoc.
  rewrite demo_read_varint_varint by (simpl; lia).
  rewrite decide_False by (rewrite length_app; lia).
  by rewrite take_app_exact, drop_app_exact by lia.
Qed.

Lemma demo_read_bytes_shrinks s v s' :
  demo_read_bytes s = Some (v, s') → (length s' ≤ length s)%nat.
Proof.
  unfold demo_read_bytes. destruct (demo_read_varint 10 s) as [[n r]|] eqn:E; [|done].
  apply demo_read_varint_shrinks in E. case_decide; [done|].
  intros. simplify_eq. rewrite length_drop. lia.
Qed.

Lemma demo_uf_shrinks t u s u' s' :
  demo_uf_parse t u s = Some (u', s') → (length s' ≤ length s)%nat.
Proof.
  unfold demo_uf_parse. intros H.
  repeat (case_match || case_decide); simplify_eq; rewrite ?length_drop; try lia.
  - match goal with E : demo_read_varint _ _ = _ |- _ => apply demo_read_varint_shrinks in E end. lia.
  - match goal with E : demo_read_bytes _ = _ |- _ => apply demo_read_bytes_shrinks in E end. lia.
Qed.

#[local] Arguments demo_read_varint : simpl never.
#[local] Arguments demo_varint : simpl never.

#[export] Instance DemoPbLaws : PbRuntimeLaws.
Proof.
  split; simpl.
  - intros. apply demo_read_varint_small. lia.
  - apply demo_read_varint_shrinks.
  - intros. apply demo_read_varint_small. lia.
  - intros ??? E%demo_read_varint_shrinks. lia.
  - intros. by apply demo_read_bytes_delimited.
  - apply demo_read_bytes_shrinks.
  - apply demo_uf_shrinks.
  - done.
  - done.
  - done.
  - intros M p m m' bs s Hl Hp. change (varint _ ++ bs) with (demo_delimited bs).
    by rewrite demo_read_bytes_delimited, Hp.
  - intros M p m s m' s'. destruct (demo_read_bytes s) as [[bs r]|] eqn:E; [|done].
    apply demo_read_bytes_shrinks in E. repeat case_match; intros; by simplify_eq.
  - by intros M p m s m' ->.
  - by intros M p m s ->.
  - done.
  - done.
  - done.
  - done.
  - done.
  - intros bs. unfold delimited. simpl. rewrite length_app. lia.
Qed.
