(* ===== verification/PacketPb.v ===== *)
(** * The generated protobuf messages

    Models [Packet/Logic/Packet.pb.h] and [Packet/Logic/Packet.pb.cc], the
    checked-in protoc output for [Packet.proto]: for each message its fields
    ([Impl_]), construction, accessors, [Clear], the parser switch, the
    serializer, [ByteSizeLong], [MergeImpl], [CopyFrom], the copy constructor and
    [InternalSwap].  [C_ROOM_LEAVE] has no field; its methods are the runtime's
    [ZeroFieldsBase] and no handler parses it, so it has no definition here.

    Every message satisfies the [Message] interface of [Protobuf.v]. *)
From S2P Require Import Prelude Bytes Protobuf PbRuntimeDemo.
Local Open Scope Z_scope.

(** ** Definitions *)
Section messages.
Context `{PbRuntime}.

(** What a [string] field must be for a peer to accept it. *)
Definition text_ok (v : string) : Prop :=
  Z.of_nat (length (str_bytes v)) ≤ max_payload ∧ VerifyUTF8 (str_bytes v) = true.

(** *** [C_LOGIN] *)

Record Pb_C_LOGIN := mk_C_LOGIN {
  C_LOGIN_account_id : string; C_LOGIN_password : string;
  C_LOGIN_unknown : UnknownFieldSet }.

Definition C_LOGIN_SharedCtor : Pb_C_LOGIN :=
  {| C_LOGIN_account_id := ""; C_LOGIN_password := ""; C_LOGIN_unknown := uf_empty |}.

Definition C_LOGIN_set_account_id (v : string) (m : Pb_C_LOGIN) : Pb_C_LOGIN :=
  {| C_LOGIN_account_id := v; C_LOGIN_password := C_LOGIN_password m; C_LOGIN_unknown := C_LOGIN_unknown m |}.

Definition C_LOGIN_set_password (v : string) (m : Pb_C_LOGIN) : Pb_C_LOGIN :=
  {| C_LOGIN_account_id := C_LOGIN_account_id m; C_LOGIN_password := v; C_LOGIN_unknown := C_LOGIN_unknown m |}.

Definition C_LOGIN_set_unknown (u : UnknownFieldSet) (m : Pb_C_LOGIN) : Pb_C_LOGIN :=
  {| C_LOGIN_account_id := C_LOGIN_account_id m; C_LOGIN_password := C_LOGIN_password m; C_LOGIN_unknown := u |}.

Definition C_LOGIN_Clear (m : Pb_C_LOGIN) : Pb_C_LOGIN :=
  {| C_LOGIN_account_id := ""; C_LOGIN_password := ""; C_LOGIN_unknown := uf_empty |}.

Definition C_LOGIN_parse_field (tag : Z) (m : Pb_C_LOGIN) (s : list byte) : field_step Pb_C_LOGIN :=
  match Z.shiftr tag 3 with
  | 1 => if decide (tag `mod` 256 = 10) then string_field (λ v, C_LOGIN_set_account_id v m) s else Unusual
  | 2 => if decide (tag `mod` 256 = 18) then string_field (λ v, C_LOGIN_set_password v m) s else Unusual
  | _ => Unusual
  end.

Definition C_LOGIN_InternalParse : Pb_C_LOGIN → list byte → parse_result Pb_C_LOGIN :=
  run_parser C_LOGIN_parse_field C_LOGIN_unknown C_LOGIN_set_unknown.

Definition C_LOGIN_InternalSerialize (m : Pb_C_LOGIN) : list byte :=
  (if decide (C_LOGIN_account_id m = "") then [] else WriteString 1 (C_LOGIN_account_id m))
  ++ (if decide (C_LOGIN_password m = "") then [] else WriteString 2 (C_LOGIN_password m))
  ++ uf_bytes (C_LOGIN_unknown m).

Definition C_LOGIN_ByteSizeLong (m : Pb_C_LOGIN) : Z :=
  (if decide (C_LOGIN_account_id m = "") then 0 else 1 + StringSize (C_LOGIN_account_id m))
  + (if decide (C_LOGIN_password m = "") then 0 else 1 + StringSize (C_LOGIN_password m))
  + Z.of_nat (length (uf_bytes (C_LOGIN_unknown m))).

Definition C_LOGIN_MergeImpl (this from : Pb_C_LOGIN) : Pb_C_LOGIN :=
  {| C_LOGIN_account_id := if decide (C_LOGIN_account_id from = "") then C_LOGIN_account_id this else C_LOGIN_account_id from;
     C_LOGIN_password := if decide (C_LOGIN_password from = "") then C_LOGIN_password this else C_LOGIN_password from;
     C_LOGIN_unknown := uf_merge (C_LOGIN_unknown this) (C_LOGIN_unknown from) |}.

Definition C_LOGIN_CopyFrom (same : bool) (this from : Pb_C_LOGIN) : Pb_C_LOGIN :=
  if same then this else C_LOGIN_MergeImpl (C_LOGIN_Clear this) from.

Definition C_LOGIN_copy (from : Pb_C_LOGIN) : Pb_C_LOGIN :=
  {| C_LOGIN_account_id := if decide (C_LOGIN_account_id from = "") then "" else C_LOGIN_account_id from;
     C_LOGIN_password := if decide (C_LOGIN_password from = "") then "" else C_LOGIN_password from;
     C_LOGIN_unknown := uf_merge uf_empty (C_LOGIN_unknown from) |}.

Definition C_LOGIN_InternalSwap (this other : Pb_C_LOGIN) : Pb_C_LOGIN * Pb_C_LOGIN :=
  ({| C_LOGIN_account_id := C_LOGIN_account_id other; C_LOGIN_password := C_LOGIN_password other; C_LOGIN_unknown := C_LOGIN_unknown other |},
   {| C_LOGIN_account_id := C_LOGIN_account_id this; C_LOGIN_password := C_LOGIN_password this; C_LOGIN_unknown := C_LOGIN_unknown this |}).

Definition C_LOGIN_ok (m : Pb_C_LOGIN) : Prop :=
  text_ok (C_LOGIN_account_id m) ∧ text_ok (C_LOGIN_password m) ∧ C_LOGIN_unknown m = uf_empty.

(** *** [S_LOGIN] *)

Record Pb_S_LOGIN := mk_S_LOGIN {
  S_LOGIN_success : bool; S_LOGIN_message : string;
  S_LOGIN_unknown : UnknownFieldSet }.

Definition S_LOGIN_SharedCtor : Pb_S_LOGIN :=
  {| S_LOGIN_success := false; S_LOGIN_message := ""; S_LOGIN_unknown := uf_empty |}.

Definition S_LOGIN_set_success (v : bool) (m : Pb_S_LOGIN) : Pb_S_LOGIN :=
  {| S_LOGIN_success := v; S_LOGIN_message := S_LOGIN_message m; S_LOGIN_unknown := S_LOGIN_unknown m |}.

Definition S_LOGIN_set_message (v : string) (m : Pb_S_LOGIN) : Pb_S_LOGIN :=
  {| S_LOGIN_success := S_LOGIN_success m; S_LOGIN_message := v; S_LOGIN_unknown := S_LOGIN_unknown m |}.

Definition S_LOGIN_set_unknown (u : UnknownFieldSet) (m : Pb_S_LOGIN) : Pb_S_LOGIN :=
  {| S_LOGIN_success := S_LOGIN_success m; S_LOGIN_message := S_LOGIN_message m; S_LOGIN_unknown := u |}.

Definition S_LOGIN_Clear (m : Pb_S_LOGIN) : Pb_S_LOGIN :=
  {| S_LOGIN_success := false; S_LOGIN_message := ""; S_LOGIN_unknown := uf_empty |}.

Definition S_LOGIN_parse_field (tag : Z) (m : Pb_S_LOGIN) (s : list byte) : field_step Pb_S_LOGIN :=
  match Z.shiftr tag 3 with
  | 1 => if decide (tag `mod` 256 = 8) then bool_field (λ v, S_LOGIN_set_success v m) s else Unusual
  | 2 => if decide (tag `mod` 256 = 18) then string_field (λ v, S_LOGIN_set_message v m) s else Unusual
  | _ => Unusual
  end.

Definition S_LOGIN_InternalParse : Pb_S_LOGIN → list byte → parse_result Pb_S_LOGIN :=
  run_parser S_LOGIN_parse_field S_LOGIN_unknown S_LOGIN_set_unknown.

Definition S_LOGIN_InternalSerialize (m : Pb_S_LOGIN) : list byte :=
  (if S_LOGIN_success m then WriteBool 1 (S_LOGIN_success m) else [])
  ++ (if decide (S_LOGIN_message m = "") then [] else WriteString 2 (S_LOGIN_message m))
  ++ uf_bytes (S_LOGIN_unknown m).

Definition S_LOGIN_ByteSizeLong (m : Pb_S_LOGIN) : Z :=
  (if S_LOGIN_success m then 1 + 1 else 0)
  + (if decide (S_LOGIN_message m = "") then 0 else 1 + StringSize (S_LOGIN_message m))
  + Z.of_nat (length (uf_bytes (S_LOGIN_unknown m))).

Definition S_LOGIN_MergeImpl (this from : Pb_S_LOGIN) : Pb_S_LOGIN :=
  {| S_LOGIN_success := if S_LOGIN_success from then S_LOGIN_success from else S_LOGIN_success this;
     S_LOGIN_message := if decide (S_LOGIN_message from = "") then S_LOGIN_message this else S_LOGIN_message from;
     S_LOGIN_unknown := uf_merge (S_LOGIN_unknown this) (S_LOGIN_unknown from) |}.

Definition S_LOGIN_CopyFrom (same : bool) (this from : Pb_S_LOGIN) : Pb_S_LOGIN :=
  if same then this else S_LOGIN_MergeImpl (S_LOGIN_Clear this) from.

Definition S_LOGIN_copy (from : Pb_S_LOGIN) : Pb_S_LOGIN :=
  {| S_LOGIN_success := S_LOGIN_success from;
     S_LOGIN_message := if decide (S_LOGIN_message from = "") then "" else S_LOGIN_message from;
     S_LOGIN_unknown := uf_merge uf_empty (S_LOGIN_unknown from) |}.

Definition S_LOGIN_InternalSwap (this other : Pb_S_LOGIN) : Pb_S_LOGIN * Pb_S_LOGIN :=
  ({| S_LOGIN_success := S_LOGIN_success other; S_LOGIN_message := S_LOGIN_message other; S_LOGIN_unknown := S_LOGIN_unknown other |},
   {| S_LOGIN_success := S_LOGIN_success this; S_LOGIN_message := S_LOGIN_message this; S_LOGIN_unknown := S_LOGIN_unknown this |}).

Definition S_LOGIN_ok (m : Pb_S_LOGIN) : Prop :=
  text_ok (S_LOGIN_message m) ∧ S_LOGIN_unknown m = uf_empty.

(** *** [C_CHAT] *)

Record Pb_C_CHAT := mk_C_CHAT {
  C_CHAT_message : string;
  C_CHAT_unknown : UnknownFieldSet }.

Definition C_CHAT_SharedCtor : Pb_C_CHAT :=
  {| C_CHAT_message := ""; C_CHAT_unknown := uf_empty |}.

Definition C_CHAT_set_message (v : string) (m : Pb_C_CHAT) : Pb_C_CHAT :=
  {| C_CHAT_message := v; C_CHAT_unknown := C_CHAT_unknown m |}.

Definition C_CHAT_set_unknown (u : UnknownFieldSet) (m : Pb_C_CHAT) : Pb_C_CHAT :=
  {| C_CHAT_message := C_CHAT_message m; C_CHAT_unknown := u |}.

Definition C_CHAT_Clear (m : Pb_C_CHAT) : Pb_C_CHAT :=
  {| C_CHAT_message := ""; C_CHAT_unknown := uf_empty |}.

Definition C_CHAT_parse_field (tag : Z) (m : Pb_C_CHAT) (s : list byte) : field_step Pb_C_CHAT :=
  match Z.shiftr tag 3 with
  | 1 => if decide (tag `mod` 256 = 10) then string_field (λ v, C_CHAT_set_message v m) s else Unusual
  | _ => Unusual
  end.

Definition C_CHAT_InternalParse : Pb_C_CHAT → list byte → parse_result Pb_C_CHAT :=
  run_parser C_CHAT_parse_field C_CHAT_unknown C_CHAT_set_unknown.

Definition C_CHAT_InternalSerialize (m : Pb_C_CHAT) : list byte :=
  (if decide (C_CHAT_message m = "") then [] else WriteString 1 (C_CHAT_message m))
  ++ uf_bytes (C_CHAT_unknown m).

Definition C_CHAT_ByteSizeLong (m : Pb_C_CHAT) : Z :=
  (if decide (C_CHAT_message m = "") then 0 else 1 + StringSize (C_CHAT_message m))
  + Z.of_nat (length (uf_bytes (C_CHAT_unknown m))).

Definition C_CHAT_MergeImpl (this from : Pb_C_CHAT) : Pb_C_CHAT :=
  {| C_CHAT_message := if decide (C_CHAT_message from = "") then C_CHAT_message this else C_CHAT_message from;
     C_CHAT_unknown := uf_merge (C_CHAT_unknown this) (C_CHAT_unknown from) |}.

Definition C_CHAT_CopyFrom (same : bool) (this from : Pb_C_CHAT) : Pb_C_CHAT :=
  if same then this else C_CHAT_MergeImpl (C_CHAT_Clear this) from.

Definition C_CHAT_copy (from : Pb_C_CHAT) : Pb_C_CHAT :=
  {| C_CHAT_message := if decide (C_CHAT_message from = "") then "" else C_CHAT_message from;
     C_CHAT_unknown := uf_merge uf_empty (C_CHAT_unknown from) |}.

Definition C_CHAT_InternalSwap (this other : Pb_C_CHAT) : Pb_C_CHAT * Pb_C_CHAT :=
  ({| C_CHAT_message := C_CHAT_message other; C_CHAT_unknown := C_CHAT_unknown other |},
   {| C_CHAT_message := C_CHAT_message this; C_CHAT_unknown := C_CHAT_unknown this |}).

Definition C_CHAT_ok (m : Pb_C_CHAT) : Prop :=
  text_ok (C_CHAT_message m) ∧ C_CHAT_unknown m = uf_empty.

(** *** [S_CHAT] *)

Record Pb_S_CHAT := mk_S_CHAT {
  S_CHAT_sender : string; S_CHAT_message : string;
  S_CHAT_unknown : UnknownFieldSet }.

Definition S_CHAT_SharedCtor : Pb_S_CHAT :=
  {| S_CHAT_sender := ""; S_CHAT_message := ""; S_CHAT_unknown := uf_empty |}.

Definition S_CHAT_set_sender (v : string) (m : Pb_S_CHAT) : Pb_S_CHAT :=
  {| S_CHAT_sender := v; S_CHAT_message := S_CHAT_message m; S_CHAT_unknown := S_CHAT_unknown m |}.

Definition S_CHAT_set_message (v : string) (m : Pb_S_CHAT) : Pb_S_CHAT :=
  {| S_CHAT_sender := S_CHAT_sender m; S_CHAT_message := v; S_CHAT_unknown := S_CHAT_unknown m |}.

Definition S_CHAT_set_unknown (u : UnknownFieldSet) (m : Pb_S_CHAT) : Pb_S_CHAT :=
  {| S_CHAT_sender := S_CHAT_sender m; S_CHAT_message := S_CHAT_message m; S_CHAT_unknown := u |}.

Definition S_CHAT_Clear (m : Pb_S_CHAT) : Pb_S_CHAT :=
  {| S_CHAT_sender := ""; S_CHAT_message := ""; S_CHAT_unknown := uf_empty |}.

Definition S_CHAT_parse_field (tag : Z) (m : Pb_S_CHAT) (s : list byte) : field_step Pb_S_CHAT :=
  match Z.shiftr tag 3 with
  | 1 => if decide (tag `mod` 256 = 10) then string_field (λ v, S_CHAT_set_sender v m) s else Unusual
  | 2 => if decide (tag `mod` 256 = 18) then string_field (λ v, S_CHAT_set_message v m) s else Unusual
  | _ => Unusual
  end.

Definition S_CHAT_InternalParse : Pb_S_CHAT → list byte → parse_result Pb_S_CHAT :=
  run_parser S_CHAT_parse_field S_CHAT_unknown S_CHAT_set_unknown.

Definition S_CHAT_InternalSerialize (m : Pb_S_CHAT) : list byte :=
  (if decide (S_CHAT_sender m = "") then [] else WriteString 1 (S_CHAT_sender m))
  ++ (if decide (S_CHAT_message m = "") then [] else WriteString 2 (S_CHAT_message m))
  ++ uf_bytes (S_CHAT_unknown m).

Definition S_CHAT_ByteSizeLong (m : Pb_S_CHAT) : Z :=
  (if decide (S_CHAT_sender m = "") then 0 else 1 + StringSize (S_CHAT_sender m))
  + (if decide (S_CHAT_message m = "") then 0 else 1 + StringSize (S_CHAT_message m))
  + Z.of_nat (length (uf_bytes (S_CHAT_unknown m))).

Definition S_CHAT_MergeImpl (this from : Pb_S_CHAT) : Pb_S_CHAT :=
  {| S_CHAT_sender := if decide (S_CHAT_sender from = "") then S_CHAT_sender this else S_CHAT_sender from;
     S_CHAT_message := if decide (S_CHAT_message from = "") then S_CHAT_message this else S_CHAT_message from;
     S_CHAT_unknown := uf_merge (S_CHAT_unknown this) (S_CHAT_unknown from) |}.

Definition S_CHAT_CopyFrom (same : bool) (this from : Pb_S_CHAT) : Pb_S_CHAT :=
  if same then this else S_CHAT_MergeImpl (S_CHAT_Clear this) from.

Definition S_CHAT_copy (from : Pb_S_CHAT) : Pb_S_CHAT :=
  {| S_CHAT_sender := if decide (S_CHAT_sender from = "") then "" else S_CHAT_sender from;
     S_CHAT_message := if decide (S_CHAT_message from = "") then "" else S_CHAT_message from;
     S_CHAT_unknown := uf_merge uf_empty (S_CHAT_unknown from) |}.

Definition S_CHAT_InternalSwap (this other : Pb_S_CHAT) : Pb_S_CHAT * Pb_S_CHAT :=
  ({| S_CHAT_sender := S_CHAT_sender other; S_CHAT_message := S_CHAT_message other; S_CHAT_unknown := S_CHAT_unknown other |},
   {| S_CHAT_sender := S_CHAT_sender this; S_CHAT_message := S_CHAT_message this; S_CHAT_unknown := S_CHAT_unknown this |}).

Definition S_CHAT_ok (m : Pb_S_CHAT) : Prop :=
  text_ok (S_CHAT_sender m) ∧ text_ok (S_CHAT_message m) ∧ S_CHAT_unknown m = uf_empty.

(** *** [C_ROOM_ENTER] *)

Record Pb_C_ROOM_ENTER := mk_C_ROOM_ENTER {
  C_ROOM_ENTER_room_name : string;
  C_ROOM_ENTER_unknown : UnknownFieldSet }.

Definition C_ROOM_ENTER_SharedCtor : Pb_C_ROOM_ENTER :=
  {| C_ROOM_ENTER_room_name := ""; C_ROOM_ENTER_unknown := uf_empty |}.

Definition C_ROOM_ENTER_set_room_name (v : string) (m : Pb_C_ROOM_ENTER) : Pb_C_ROOM_ENTER :=
  {| C_ROOM_ENTER_room_name := v; C_ROOM_ENTER_unknown := C_ROOM_ENTER_unknown m |}.

Definition C_ROOM_ENTER_set_unknown (u : UnknownFieldSet) (m : Pb_C_ROOM_ENTER) : Pb_C_ROOM_ENTER :=
  {| C_ROOM_ENTER_room_name := C_ROOM_ENTER_room_name m; C_ROOM_ENTER_unknown := u |}.

Definition C_ROOM_ENTER_Clear (m : Pb_C_ROOM_ENTER) : Pb_C_ROOM_ENTER :=
  {| C_ROOM_ENTER_room_name := ""; C_ROOM_ENTER_unknown := uf_empty |}.

Definition C_ROOM_ENTER_parse_field (tag : Z) (m : Pb_C_ROOM_ENTER) (s : list byte) : field_step Pb_C_ROOM_ENTER :=
  match Z.shiftr tag 3 with
  | 1 => if decide (tag `mod` 256 = 10) then string_field (λ v, C_ROOM_ENTER_set_room_name v m) s else Unusual
  | _ => Unusual
  end.

Definition C_ROOM_ENTER_InternalParse : Pb_C_ROOM_ENTER → list byte → parse_result Pb_C_ROOM_ENTER :=
  run_parser C_ROOM_ENTER_parse_field C_ROOM_ENTER_unknown C_ROOM_ENTER_set_unknown.

Definition C_ROOM_ENTER_InternalSerialize (m : Pb_C_ROOM_ENTER) : list byte :=
  (if decide (C_ROOM_ENTER_room_name m = "") then [] else WriteString 1 (C_ROOM_ENTER_room_name m))
  ++ uf_bytes (C_ROOM_ENTER_unknown m).

Definition C_ROOM_ENTER_ByteSizeLong (m : Pb_C_ROOM_ENTER) : Z :=
  (if decide (C_ROOM_ENTER_room_name m = "") then 0 else 1 + StringSize (C_ROOM_ENTER_room_name m))
  + Z.of_nat (length (uf_bytes (C_ROOM_ENTER_unknown m))).

Definition C_ROOM_ENTER_MergeImpl (this from : Pb_C_ROOM_ENTER) : Pb_C_ROOM_ENTER :=
  {| C_ROOM_ENTER_room_name := if decide (C_ROOM_ENTER_room_name from = "") then C_ROOM_ENTER_room_name this else C_ROOM_ENTER_room_name from;
     C_ROOM_ENTER_unknown := uf_merge (C_ROOM_ENTER_unknown this) (C_ROOM_ENTER_unknown from) |}.

Definition C_ROOM_ENTER_CopyFrom (same : bool) (this from : Pb_C_ROOM_ENTER) : Pb_C_ROOM_ENTER :=
  if same then this else C_ROOM_ENTER_MergeImpl (C_ROOM_ENTER_Clear this) from.

Definition C_ROOM_ENTER_copy (from : Pb_C_ROOM_ENTER) : Pb_C_ROOM_ENTER :=
  {| C_ROOM_ENTER_room_name := if decide (C_ROOM_ENTER_room_name from = "") then "" else C_ROOM_ENTER_room_name from;
     C_ROOM_ENTER_unknown := uf_merge uf_empty (C_ROOM_ENTER_unknown from) |}.

Definition C_ROOM_ENTER_InternalSwap (this other : Pb_C_ROOM_ENTER) : Pb_C_ROOM_ENTER * Pb_C_ROOM_ENTER :=
  ({| C_ROOM_ENTER_room_name := C_ROOM_ENTER_room_name other; C_ROOM_ENTER_unknown := C_ROOM_ENTER_unknown other |},
   {| C_ROOM_ENTER_room_name := C_ROOM_ENTER_room_name this; C_ROOM_ENTER_unknown := C_ROOM_ENTER_unknown this |}).

Definition C_ROOM_ENTER_ok (m : Pb_C_ROOM_ENTER) : Prop :=
  text_ok (C_ROOM_ENTER_room_name m) ∧ C_ROOM_ENTER_unknown m = uf_empty.

(** *** [S_ROOM_ENTER] *)

Record Pb_S_ROOM_ENTER := mk_S_ROOM_ENTER {
  S_ROOM_ENTER_success : bool; S_ROOM_ENTER_message : string; S_ROOM_ENTER_room_name : string;
  S_ROOM_ENTER_unknown : UnknownFieldSet }.

Definition S_ROOM_ENTER_SharedCtor : Pb_S_ROOM_ENTER :=
  {| S_ROOM_ENTER_success := false; S_ROOM_ENTER_message := ""; S_ROOM_ENTER_room_name := ""; S_ROOM_ENTER_unknown := uf_empty |}.

Definition S_ROOM_ENTER_set_success (v : bool) (m : Pb_S_ROOM_ENTER) : Pb_S_ROOM_ENTER :=
  {| S_ROOM_ENTER_success := v; S_ROOM_ENTER_message := S_ROOM_ENTER_message m; S_ROOM_ENTER_room_name := S_ROOM_ENTER_room_name m; S_ROOM_ENTER_unknown := S_ROOM_ENTER_unknown m |}.

Definition S_ROOM_ENTER_set_message (v : string) (m : Pb_S_ROOM_ENTER) : Pb_S_ROOM_ENTER :=
  {| S_ROOM_ENTER_success := S_ROOM_ENTER_success m; S_ROOM_ENTER_message := v; S_ROOM_ENTER_room_name := S_ROOM_ENTER_room_name m; S_ROOM_ENTER_unknown := S_ROOM_ENTER_unknown m |}.

Definition S_ROOM_ENTER_set_room_name (v : string) (m : Pb_S_ROOM_ENTER) : Pb_S_ROOM_ENTER :=
  {| S_ROOM_ENTER_success := S_ROOM_ENTER_success m; S_ROOM_ENTER_message := S_ROOM_ENTER_message m; S_ROOM_ENTER_room_name := v; S_ROOM_ENTER_unknown := S_ROOM_ENTER_unknown m |}.

Definition S_ROOM_ENTER_set_unknown (u : UnknownFieldSet) (m : Pb_S_ROOM_ENTER) : Pb_S_ROOM_ENTER :=
  {| S_ROOM_ENTER_success := S_ROOM_ENTER_success m; S_ROOM_ENTER_message := S_ROOM_ENTER_message m; S_ROOM_ENTER_room_name := S_ROOM_ENTER_room_name m; S_ROOM_ENTER_unknown := u |}.

Definition S_ROOM_ENTER_Clear (m : Pb_S_ROOM_ENTER) : Pb_S_ROOM_ENTER :=
  {| S_ROOM_ENTER_success := false; S_ROOM_ENTER_message := ""; S_ROOM_ENTER_room_name := ""; S_ROOM_ENTER_unknown := uf_empty |}.

Definition S_ROOM_ENTER_parse_field (tag : Z) (m : Pb_S_ROOM_ENTER) (s : list byte) : field_step Pb_S_ROOM_ENTER :=
  match Z.shiftr tag 3 with
  | 1 => if decide (tag `mod` 256 = 8) then bool_field (λ v, S_ROOM_ENTER_set_success v m) s else Unusual
  | 2 => if decide (tag `mod` 256 = 18) then string_field (λ v, S_ROOM_ENTER_set_message v m) s else Unusual
  | 3 => if decide (tag `mod` 256 = 26) then string_field (λ v, S_ROOM_ENTER_set_room_name v m) s else Unusual
  | _ => Unusual
  end.

Definition S_ROOM_ENTER_InternalParse : Pb_S_ROOM_ENTER → list byte → parse_result Pb_S_ROOM_ENTER :=
  run_parser S_ROOM_ENTER_parse_field S_ROOM_ENTER_unknown S_ROOM_ENTER_set_unknown.

Definition S_ROOM_ENTER_InternalSerialize (m : Pb_S_ROOM_ENTER) : list byte :=
  (if S_ROOM_ENTER_success m then WriteBool 1 (S_ROOM_ENTER_success m) else [])
  ++ (if decide (S_ROOM_ENTER_message m = "") then [] else WriteString 2 (S_ROOM_ENTER_message m))
  ++ (if decide (S_ROOM_ENTER_room_name m = "") then [] else WriteString 3 (S_ROOM_ENTER_room_name m))
  ++ uf_bytes (S_ROOM_ENTER_unknown m).

Definition S_ROOM_ENTER_ByteSizeLong (m : Pb_S_ROOM_ENTER) : Z :=
  (if S_ROOM_ENTER_success m then 1 + 1 else 0)
  + (if decide (S_ROOM_ENTER_message m = "") then 0 else 1 + StringSize (S_ROOM_ENTER_message m))
  + (if decide (S_ROOM_ENTER_room_name m = "") then 0 else 1 + StringSize (S_ROOM_ENTER_room_name m))
  + Z.of_nat (length (uf_bytes (S_ROOM_ENTER_unknown m))).

Definition S_ROOM_ENTER_MergeImpl (this from : Pb_S_ROOM_ENTER) : Pb_S_ROOM_ENTER :=
  {| S_ROOM_ENTER_success := if S_ROOM_ENTER_success from then S_ROOM_ENTER_success from else S_ROOM_ENTER_success this;
     S_ROOM_ENTER_message := if decide (S_ROOM_ENTER_message from = "") then S_ROOM_ENTER_message this else S_ROOM_ENTER_message from;
     S_ROOM_ENTER_room_name := if decide (S_ROOM_ENTER_room_name from = "") then S_ROOM_ENTER_room_name this else S_ROOM_ENTER_room_name from;
     S_ROOM_ENTER_unknown := uf_merge (S_ROOM_ENTER_unknown this) (S_ROOM_ENTER_unknown from) |}.

Definition S_ROOM_ENTER_CopyFrom (same : bool) (this from : Pb_S_ROOM_ENTER) : Pb_S_ROOM_ENTER :=
  if same then this else S_ROOM_ENTER_MergeImpl (S_ROOM_ENTER_Clear this) from.

Definition S_ROOM_ENTER_copy (from : Pb_S_ROOM_ENTER) : Pb_S_ROOM_ENTER :=
  {| S_ROOM_ENTER_success := S_ROOM_ENTER_success from;
     S_ROOM_ENTER_message := if decide (S_ROOM_ENTER_message from = "") then "" else S_ROOM_ENTER_message from;
     S_ROOM_ENTER_room_name := if decide (S_ROOM_ENTER_room_name from = "") then "" else S_ROOM_ENTER_room_name from;
     S_ROOM_ENTER_unknown := uf_merge uf_empty (S_ROOM_ENTER_unknown from) |}.

Definition S_ROOM_ENTER_InternalSwap (this other : Pb_S_ROOM_ENTER) : Pb_S_ROOM_ENTER * Pb_S_ROOM_ENTER :=
  ({| S_ROOM_ENTER_success := S_ROOM_ENTER_success other; S_ROOM_ENTER_message := S_ROOM_ENTER_message other; S_ROOM_ENTER_room_name := S_ROOM_ENTER_room_name other; S_ROOM_ENTER_unknown := S_ROOM_ENTER_unknown other |},
   {| S_ROOM_ENTER_success := S_ROOM_ENTER_success this; S_ROOM_ENTER_message := S_ROOM_ENTER_message this; S_ROOM_ENTER_room_name := S_ROOM_ENTER_room_name this; S_ROOM_ENTER_unknown := S_ROOM_ENTER_unknown this |}).

Definition S_ROOM_ENTER_ok (m : Pb_S_ROOM_ENTER) : Prop :=
  text_ok (S_ROOM_ENTER_message m) ∧ text_ok (S_ROOM_ENTER_room_name m) ∧ S_ROOM_ENTER_unknown m = uf_empty.

(** *** [S_ROOM_LEAVE] *)

Record Pb_S_ROOM_LEAVE := mk_S_ROOM_LEAVE {
  S_ROOM_LEAVE_success : bool;
  S_ROOM_LEAVE_unknown : UnknownFieldSet }.

Definition S_ROOM_LEAVE_SharedCtor : Pb_S_ROOM_LEAVE :=
  {| S_ROOM_LEAVE_success := false; S_ROOM_LEAVE_unknown := uf_empty |}.

Definition S_ROOM_LEAVE_set_success (v : bool) (m : Pb_S_ROOM_LEAVE) : Pb_S_ROOM_LEAVE :=
  {| S_ROOM_LEAVE_success := v; S_ROOM_LEAVE_unknown := S_ROOM_LEAVE_unknown m |}.

Definition S_ROOM_LEAVE_set_unknown (u : UnknownFieldSet) (m : Pb_S_ROOM_LEAVE) : Pb_S_ROOM_LEAVE :=
  {| S_ROOM_LEAVE_success := S_ROOM_LEAVE_success m; S_ROOM_LEAVE_unknown := u |}.

Definition S_ROOM_LEAVE_Clear (m : Pb_S_ROOM_LEAVE) : Pb_S_ROOM_LEAVE :=
  {| S_ROOM_LEAVE_success := false; S_ROOM_LEAVE_unknown := uf_empty |}.

Definition S_ROOM_LEAVE_parse_field (tag : Z) (m : Pb_S_ROOM_LEAVE) (s : list byte) : field_step Pb_S_ROOM_LEAVE :=
  match Z.shiftr tag 3 with
  | 1 => if decide (tag `mod` 256 = 8) then bool_field (λ v, S_ROOM_LEAVE_set_success v m) s else Unusual
  | _ => Unusual
  end.

Definition S_ROOM_LEAVE_InternalParse : Pb_S_ROOM_LEAVE → list byte → parse_result Pb_S_ROOM_LEAVE :=
  run_parser S_ROOM_LEAVE_parse_field S_ROOM_LEAVE_unknown S_ROOM_LEAVE_set_unknown.

Definition S_ROOM_LEAVE_InternalSerialize (m : Pb_S_ROOM_LEAVE) : list byte :=
  (if S_ROOM_LEAVE_success m then WriteBool 1 (S_ROOM_LEAVE_success m) else [])
  ++ uf_bytes (S_ROOM_LEAVE_unknown m).

Definition S_ROOM_LEAVE_ByteSizeLong (m : Pb_S_ROOM_LEAVE) : Z :=
  (if S_ROOM_LEAVE_success m then 1 + 1 else 0)
  + Z.of_nat (length (uf_bytes (S_ROOM_LEAVE_unknown m))).

Definition S_ROOM_LEAVE_MergeImpl (this from : Pb_S_ROOM_LEAVE) : Pb_S_ROOM_LEAVE :=
  {| S_ROOM_LEAVE_success := if S_ROOM_LEAVE_success from then S_ROOM_LEAVE_success from else S_ROOM_LEAVE_success this;
     S_ROOM_LEAVE_unknown := uf_merge (S_ROOM_LEAVE_unknown this) (S_ROOM_LEAVE_unknown from) |}.

Definition S_ROOM_LEAVE_CopyFrom (same : bool) (this from : Pb_S_ROOM_LEAVE) : Pb_S_ROOM_LEAVE :=
  if same then this else S_ROOM_LEAVE_MergeImpl (S_ROOM_LEAVE_Clear this) from.

Definition S_ROOM_LEAVE_copy (from : Pb_S_ROOM_LEAVE) : Pb_S_ROOM_LEAVE :=
  {| S_ROOM_LEAVE_success := S_ROOM_LEAVE_success from;
     S_ROOM_LEAVE_unknown := uf_merge uf_empty (S_ROOM_LEAVE_unknown from) |}.

Definition S_ROOM_LEAVE_InternalSwap (this other : Pb_S_ROOM_LEAVE) : Pb_S_ROOM_LEAVE * Pb_S_ROOM_LEAVE :=
  ({| S_ROOM_LEAVE_success := S_ROOM_LEAVE_success other; S_ROOM_LEAVE_unknown := S_ROOM_LEAVE_unknown other |},
   {| S_ROOM_LEAVE_success := S_ROOM_LEAVE_success this; S_ROOM_LEAVE_unknown := S_ROOM_LEAVE_unknown this |}).

Definition S_ROOM_LEAVE_ok (m : Pb_S_ROOM_LEAVE) : Prop :=
  S_ROOM_LEAVE_unknown m = uf_empty.

(** *** [S_ROOM_USER_ENTERED] *)

Record Pb_S_ROOM_USER_ENTERED := mk_S_ROOM_USER_ENTERED {
  S_ROOM_USER_ENTERED_account_id : string;
  S_ROOM_USER_ENTERED_unknown : UnknownFieldSet }.

Definition S_ROOM_USER_ENTERED_SharedCtor : Pb_S_ROOM_USER_ENTERED :=
  {| S_ROOM_USER_ENTERED_account_id := ""; S_ROOM_USER_ENTERED_unknown := uf_empty |}.

Definition S_ROOM_USER_ENTERED_set_account_id (v : string) (m : Pb_S_ROOM_USER_ENTERED) : Pb_S_ROOM_USER_ENTERED :=
  {| S_ROOM_USER_ENTERED_account_id := v; S_ROOM_USER_ENTERED_unknown := S_ROOM_USER_ENTERED_unknown m |}.

Definition S_ROOM_USER_ENTERED_set_unknown (u : UnknownFieldSet) (m : Pb_S_ROOM_USER_ENTERED) : Pb_S_ROOM_USER_ENTERED :=
  {| S_ROOM_USER_ENTERED_account_id := S_ROOM_USER_ENTERED_account_id m; S_ROOM_USER_ENTERED_unknown := u |}.

Definition S_ROOM_USER_ENTERED_Clear (m : Pb_S_ROOM_USER_ENTERED) : Pb_S_ROOM_USER_ENTERED :=
  {| S_ROOM_USER_ENTERED_account_id := ""; S_ROOM_USER_ENTERED_unknown := uf_empty |}.

Definition S_ROOM_USER_ENTERED_parse_field (tag : Z) (m : Pb_S_ROOM_USER_ENTERED) (s : list byte) : field_step Pb_S_ROOM_USER_ENTERED :=
  match Z.shiftr tag 3 with
  | 1 => if decide (tag `mod` 256 = 10) then string_field (λ v, S_ROOM_USER_ENTERED_set_account_id v m) s else Unusual
  | _ => Unusual
  end.

Definition S_ROOM_USER_ENTERED_InternalParse : Pb_S_ROOM_USER_ENTERED → list byte → parse_result Pb_S_ROOM_USER_ENTERED :=
  run_parser S_ROOM_USER_ENTERED_parse_field S_ROOM_USER_ENTERED_unknown S_ROOM_USER_ENTERED_set_unknown.

Definition S_ROOM_USER_ENTERED_InternalSerialize (m : Pb_S_ROOM_USER_ENTERED) : list byte :=
  (if decide (S_ROOM_USER_ENTERED_account_id m = "") then [] else WriteString 1 (S_ROOM_USER_ENTERED_account_id m))
  ++ uf_bytes (S_ROOM_USER_ENTERED_unknown m).

Definition S_ROOM_USER_ENTERED_ByteSizeLong (m : Pb_S_ROOM_USER_ENTERED) : Z :=
  (if decide (S_ROOM_USER_ENTERED_account_id m = "") then 0 else 1 + StringSize (S_ROOM_USER_ENTERED_account_id m))
  + Z.of_nat (length (uf_bytes (S_ROOM_USER_ENTERED_unknown m))).

Definition S_ROOM_USER_ENTERED_MergeImpl (this from : Pb_S_ROOM_USER_ENTERED) : Pb_S_ROOM_USER_ENTERED :=
  {| S_ROOM_USER_ENTERED_account_id := if decide (S_ROOM_USER_ENTERED_account_id from = "") then S_ROOM_USER_ENTERED_account_id this else S_ROOM_USER_ENTERED_account_id from;
     S_ROOM_USER_ENTERED_unknown := uf_merge (S_ROOM_USER_ENTERED_unknown this) (S_ROOM_USER_ENTERED_unknown from) |}.

Definition S_ROOM_USER_ENTERED_CopyFrom (same : bool) (this from : Pb_S_ROOM_USER_ENTERED) : Pb_S_ROOM_USER_ENTERED :=
  if same then this else S_ROOM_USER_ENTERED_MergeImpl (S_ROOM_USER_ENTERED_Clear this) from.

Definition S_ROOM_USER_ENTERED_copy (from : Pb_S_ROOM_USER_ENTERED) : Pb_S_ROOM_USER_ENTERED :=
  {| S_ROOM_USER_ENTERED_account_id := if decide (S_ROOM_USER_ENTERED_account_id from = "") then "" else S_ROOM_USER_ENTERED_account_id from;
     S_ROOM_USER_ENTERED_unknown := uf_merge uf_empty (S_ROOM_USER_ENTERED_unknown from) |}.

Definition S_ROOM_USER_ENTERED_InternalSwap (this other : Pb_S_ROOM_USER_ENTERED) : Pb_S_ROOM_USER_ENTERED * Pb_S_ROOM_USER_ENTERED :=
  ({| S_ROOM_USER_ENTERED_account_id := S_ROOM_USER_ENTERED_account_id other; S_ROOM_USER_ENTERED_unknown := S_ROOM_USER_ENTERED_unknown other |},
   {| S_ROOM_USER_ENTERED_account_id := S_ROOM_USER_ENTERED_account_id this; S_ROOM_USER_ENTERED_unknown := S_ROOM_USER_ENTERED_unknown this |}).

Definition S_ROOM_USER_ENTERED_ok (m : Pb_S_ROOM_USER_ENTERED) : Prop :=
  text_ok (S_ROOM_USER_ENTERED_account_id m) ∧ S_ROOM_USER_ENTERED_unknown m = uf_empty.

(** *** [S_ROOM_USER_LEFT] *)

Record Pb_S_ROOM_USER_LEFT := mk_S_ROOM_USER_LEFT {
  S_ROOM_USER_LEFT_account_id : string;
  S_ROOM_USER_LEFT_unknown : UnknownFieldSet }.

Definition S_ROOM_USER_LEFT_SharedCtor : Pb_S_ROOM_USER_LEFT :=
  {| S_ROOM_USER_LEFT_account_id := ""; S_ROOM_USER_LEFT_unknown := uf_empty |}.

Definition S_ROOM_USER_LEFT_set_account_id (v : string) (m : Pb_S_ROOM_USER_LEFT) : Pb_S_ROOM_USER_LEFT :=
  {| S_ROOM_USER_LEFT_account_id := v; S_ROOM_USER_LEFT_unknown := S_ROOM_USER_LEFT_unknown m |}.

Definition S_ROOM_USER_LEFT_set_unknown (u : UnknownFieldSet) (m : Pb_S_ROOM_USER_LEFT) : Pb_S_ROOM_USER_LEFT :=
  {| S_ROOM_USER_LEFT_account_id := S_ROOM_USER_LEFT_account_id m; S_ROOM_USER_LEFT_unknown := u |}.

Definition S_ROOM_USER_LEFT_Clear (m : Pb_S_ROOM_USER_LEFT) : Pb_S_ROOM_USER_LEFT :=
  {| S_ROOM_USER_LEFT_account_id := ""; S_ROOM_USER_LEFT_unknown := uf_empty |}.

Definition S_ROOM_USER_LEFT_parse_field (tag : Z) (m : Pb_S_ROOM_USER_LEFT) (s : list byte) : field_step Pb_S_ROOM_USER_LEFT :=
  match Z.shiftr tag 3 with
  | 1 => if decide (tag `mod` 256 = 10) then string_field (λ v, S_ROOM_USER_LEFT_set_account_id v m) s else Unusual
  | _ => Unusual
  end.

Definition S_ROOM_USER_LEFT_InternalParse : Pb_S_ROOM_USER_LEFT → list byte → parse_result Pb_S_ROOM_USER_LEFT :=
  run_parser S_ROOM_USER_LEFT_parse_field S_ROOM_USER_LEFT_unknown S_ROOM_USER_LEFT_set_unknown.

Definition S_ROOM_USER_LEFT_InternalSerialize (m : Pb_S_ROOM_USER_LEFT) : list byte :=
  (if decide (S_ROOM_USER_LEFT_account_id m = "") then [] else WriteString 1 (S_ROOM_USER_LEFT_account_id m))
  ++ uf_bytes (S_ROOM_USER_LEFT_unknown m).

Definition S_ROOM_USER_LEFT_ByteSizeLong (m : Pb_S_ROOM_USER_LEFT) : Z :=
  (if decide (S_ROOM_USER_LEFT_account_id m = "") then 0 else 1 + StringSize (S_ROOM_USER_LEFT_account_id m))
  + Z.of_nat (length (uf_bytes (S_ROOM_USER_LEFT_unknown m))).

Definition S_ROOM_USER_LEFT_MergeImpl (this from : Pb_S_ROOM_USER_LEFT) : Pb_S_ROOM_USER_LEFT :=
  {| S_ROOM_USER_LEFT_account_id := if decide (S_ROOM_USER_LEFT_account_id from = "") then S_ROOM_USER_LEFT_account_id this else S_ROOM_USER_LEFT_account_id from;
     S_ROOM_USER_LEFT_unknown := uf_merge (S_ROOM_USER_LEFT_unknown this) (S_ROOM_USER_LEFT_unknown from) |}.

Definition S_ROOM_USER_LEFT_CopyFrom (same : bool) (this from : Pb_S_ROOM_USER_LEFT) : Pb_S_ROOM_USER_LEFT :=
  if same then this else S_ROOM_USER_LEFT_MergeImpl (S_ROOM_USER_LEFT_Clear this) from.

Definition S_ROOM_USER_LEFT_copy (from : Pb_S_ROOM_USER_LEFT) : Pb_S_ROOM_USER_LEFT :=
  {| S_ROOM_USER_LEFT_account_id := if decide (S_ROOM_USER_LEFT_account_id from = "") then "" else S_ROOM_USER_LEFT_account_id from;
     S_ROOM_USER_LEFT_unknown := uf_merge uf_empty (S_ROOM_USER_LEFT_unknown from) |}.

Definition S_ROOM_USER_LEFT_InternalSwap (this other : Pb_S_ROOM_USER_LEFT) : Pb_S_ROOM_USER_LEFT * Pb_S_ROOM_USER_LEFT :=
  ({| S_ROOM_USER_LEFT_account_id := S_ROOM_USER_LEFT_account_id other; S_ROOM_USER_LEFT_unknown := S_ROOM_USER_LEFT_unknown other |},
   {| S_ROOM_USER_LEFT_account_id := S_ROOM_USER_LEFT_account_id this; S_ROOM_USER_LEFT_unknown := S_ROOM_USER_LEFT_unknown this |}).

Definition S_ROOM_USER_LEFT_ok (m : Pb_S_ROOM_USER_LEFT) : Prop :=
  text_ok (S_ROOM_USER_LEFT_account_id m) ∧ S_ROOM_USER_LEFT_unknown m = uf_empty.

(** *** [C_MOVE] *)

Record Pb_C_MOVE := mk_C_MOVE {
  C_MOVE_x : Z; C_MOVE_y : Z;
  C_MOVE_unknown : UnknownFieldSet }.

Definition C_MOVE_SharedCtor : Pb_C_MOVE :=
  {| C_MOVE_x := 0; C_MOVE_y := 0; C_MOVE_unknown := uf_empty |}.

Definition C_MOVE_set_x (v : Z) (m : Pb_C_MOVE) : Pb_C_MOVE :=
  {| C_MOVE_x := v; C_MOVE_y := C_MOVE_y m; C_MOVE_unknown := C_MOVE_unknown m |}.

Definition C_MOVE_set_y (v : Z) (m : Pb_C_MOVE) : Pb_C_MOVE :=
  {| C_MOVE_x := C_MOVE_x m; C_MOVE_y := v; C_MOVE_unknown := C_MOVE_unknown m |}.

Definition C_MOVE_set_unknown (u : UnknownFieldSet) (m : Pb_C_MOVE) : Pb_C_MOVE :=
  {| C_MOVE_x := C_MOVE_x m; C_MOVE_y := C_MOVE_y m; C_MOVE_unknown := u |}.

Definition C_MOVE_Clear (m : Pb_C_MOVE) : Pb_C_MOVE :=
  {| C_MOVE_x := 0; C_MOVE_y := 0; C_MOVE_unknown := uf_empty |}.

Definition C_MOVE_parse_field (tag : Z) (m : Pb_C_MOVE) (s : list byte) : field_step Pb_C_MOVE :=
  match Z.shiftr tag 3 with
  | 1 => if decide (tag `mod` 256 = 13) then float_field (λ v, C_MOVE_set_x v m) s else Unusual
  | 2 => if decide (tag `mod` 256 = 21) then float_field (λ v, C_MOVE_set_y v m) s else Unusual
  | _ => Unusual
  end.

Definition C_MOVE_InternalParse : Pb_C_MOVE → list byte → parse_result Pb_C_MOVE :=
  run_parser C_MOVE_parse_field C_MOVE_unknown C_MOVE_set_unknown.

Definition C_MOVE_InternalSerialize (m : Pb_C_MOVE) : list byte :=
  (if decide (C_MOVE_x m = 0) then [] else WriteFloat 1 (C_MOVE_x m))
  ++ (if decide (C_MOVE_y m = 0) then [] else WriteFloat 2 (C_MOVE_y m))
  ++ uf_bytes (C_MOVE_unknown m).

Definition C_MOVE_ByteSizeLong (m : Pb_C_MOVE) : Z :=
  (if decide (C_MOVE_x m = 0) then 0 else 1 + 4)
  + (if decide (C_MOVE_y m = 0) then 0 else 1 + 4)
  + Z.of_nat (length (uf_bytes (C_MOVE_unknown m))).

Definition C_MOVE_MergeImpl (this from : Pb_C_MOVE) : Pb_C_MOVE :=
  {| C_MOVE_x := if decide (C_MOVE_x from = 0) then C_MOVE_x this else C_MOVE_x from;
     C_MOVE_y := if decide (C_MOVE_y from = 0) then C_MOVE_y this else C_MOVE_y from;
     C_MOVE_unknown := uf_merge (C_MOVE_unknown this) (C_MOVE_unknown from) |}.

Definition C_MOVE_CopyFrom (same : bool) (this from : Pb_C_MOVE) : Pb_C_MOVE :=
  if same then this else C_MOVE_MergeImpl (C_MOVE_Clear this) from.

Definition C_MOVE_copy (from : Pb_C_MOVE) : Pb_C_MOVE :=
  {| C_MOVE_x := C_MOVE_x from;
     C_MOVE_y := C_MOVE_y from;
     C_MOVE_unknown := uf_merge uf_empty (C_MOVE_unknown from) |}.

Definition C_MOVE_InternalSwap (this other : Pb_C_MOVE) : Pb_C_MOVE * Pb_C_MOVE :=
  ({| C_MOVE_x := C_MOVE_x other; C_MOVE_y := C_MOVE_y other; C_MOVE_unknown := C_MOVE_unknown other |},
   {| C_MOVE_x := C_MOVE_x this; C_MOVE_y := C_MOVE_y this; C_MOVE_unknown := C_MOVE_unknown this |}).

Definition C_MOVE_ok (m : Pb_C_MOVE) : Prop :=
  0 ≤ C_MOVE_x m < 2 ^ 32 ∧ 0 ≤ C_MOVE_y m < 2 ^ 32 ∧ C_MOVE_unknown m = uf_empty.

(** *** [MovedActor] *)

Record Pb_MovedActor := mk_MovedActor {
  MovedActor_account_id : string; MovedActor_x : Z; MovedActor_y : Z;
  MovedActor_unknown : UnknownFieldSet }.

Definition MovedActor_SharedCtor : Pb_MovedActor :=
  {| MovedActor_account_id := ""; MovedActor_x := 0; MovedActor_y := 0; MovedActor_unknown := uf_empty |}.

Definition MovedActor_set_account_id (v : string) (m : Pb_MovedActor) : Pb_MovedActor :=
  {| MovedActor_account_id := v; MovedActor_x := MovedActor_x m; MovedActor_y := MovedActor_y m; MovedActor_unknown := MovedActor_unknown m |}.

Definition MovedActor_set_x (v : Z) (m : Pb_MovedActor) : Pb_MovedActor :=
  {| MovedActor_account_id := MovedActor_account_id m; MovedActor_x := v; MovedActor_y := MovedActor_y m; MovedActor_unknown := MovedActor_unknown m |}.

Definition MovedActor_set_y (v : Z) (m : Pb_MovedActor) : Pb_MovedActor :=
  {| MovedActor_account_id := MovedActor_account_id m; MovedActor_x := MovedActor_x m; MovedActor_y := v; MovedActor_unknown := MovedActor_unknown m |}.

Definition MovedActor_set_unknown (u : UnknownFieldSet) (m : Pb_MovedActor) : Pb_MovedActor :=
  {| MovedActor_account_id := MovedActor_account_id m; MovedActor_x := MovedActor_x m; MovedActor_y := MovedActor_y m; MovedActor_unknown := u |}.

Definition MovedActor_Clear (m : Pb_MovedActor) : Pb_MovedActor :=
  {| MovedActor_account_id := ""; MovedActor_x := 0; MovedActor_y := 0; MovedActor_unknown := uf_empty |}.

Definition MovedActor_parse_field (tag : Z) (m : Pb_MovedActor) (s : list byte) : field_step Pb_MovedActor :=
  match Z.shiftr tag 3 with
  | 1 => if decide (tag `mod` 256 = 10) then string_field (λ v, MovedActor_set_account_id v m) s else Unusual
  | 2 => if decide (tag `mod` 256 = 21) then float_field (λ v, MovedActor_set_x v m) s else Unusual
  | 3 => if decide (tag `mod` 256 = 29) then float_field (λ v, MovedActor_set_y v m) s else Unusual
  | _ => Unusual
  end.

Definition MovedActor_InternalParse : Pb_MovedActor → list byte → parse_result Pb_MovedActor :=
  run_parser MovedActor_parse_field MovedActor_unknown MovedActor_set_unknown.

Definition MovedActor_InternalSerialize (m : Pb_MovedActor) : list byte :=
  (if decide (MovedActor_account_id m = "") then [] else WriteString 1 (MovedActor_account_id m))
  ++ (if decide (MovedActor_x m = 0) then [] else WriteFloat 2 (MovedActor_x m))
  ++ (if decide (MovedActor_y m = 0) then [] else WriteFloat 3 (MovedActor_y m))
  ++ uf_bytes (MovedActor_unknown m).

Definition MovedActor_ByteSizeLong (m : Pb_MovedActor) : Z :=
  (if decide (MovedActor_account_id m = "") then 0 else 1 + StringSize (MovedActor_account_id m))
  + (if decide (MovedActor_x m = 0) then 0 else 1 + 4)
  + (if decide (MovedActor_y m = 0) then 0 else 1 + 4)
  + Z.of_nat (length (uf_bytes (MovedActor_unknown m))).

Definition MovedActor_MergeImpl (this from : Pb_MovedActor) : Pb_MovedActor :=
  {| MovedActor_account_id := if decide (MovedActor_account_id from = "") then MovedActor_account_id this else MovedActor_account_id from;
     MovedActor_x := if decide (MovedActor_x from = 0) then MovedActor_x this else MovedActor_x from;
     MovedActor_y := if decide (MovedActor_y from = 0) then MovedActor_y this else MovedActor_y from;
     MovedActor_unknown := uf_merge (MovedActor_unknown this) (MovedActor_unknown from) |}.

Definition MovedActor_CopyFrom (same : bool) (this from : Pb_MovedActor) : Pb_MovedActor :=
  if same then this else MovedActor_MergeImpl (MovedActor_Clear this) from.

Definition MovedActor_copy (from : Pb_MovedActor) : Pb_MovedActor :=
  {| MovedActor_account_id := if decide (MovedActor_account_id from = "") then "" else MovedActor_account_id from;
     MovedActor_x := MovedActor_x from;
     MovedActor_y := MovedActor_y from;
     MovedActor_unknown := uf_merge uf_empty (MovedActor_unknown from) |}.

Definition MovedActor_InternalSwap (this other : Pb_MovedActor) : Pb_MovedActor * Pb_MovedActor :=
  ({| MovedActor_account_id := MovedActor_account_id other; MovedActor_x := MovedActor_x other; MovedActor_y := MovedActor_y other; MovedActor_unknown := MovedActor_unknown other |},
   {| MovedActor_account_id := MovedActor_account_id this; MovedActor_x := MovedActor_x this; MovedActor_y := MovedActor_y this; MovedActor_unknown := MovedActor_unknown this |}).

Definition MovedActor_ok (m : Pb_MovedActor) : Prop :=
  text_ok (MovedActor_account_id m) ∧ 0 ≤ MovedActor_x m < 2 ^ 32 ∧ 0 ≤ MovedActor_y m < 2 ^ 32 ∧ MovedActor_unknown m = uf_empty.

(** *** [S_MOVE_BROADCAST] *)

Record Pb_S_MOVE_BROADCAST := mk_S_MOVE_BROADCAST {
  S_MOVE_BROADCAST_actors : list Pb_MovedActor;
  S_MOVE_BROADCAST_unknown : UnknownFieldSet }.

Definition S_MOVE_BROADCAST_SharedCtor : Pb_S_MOVE_BROADCAST :=
  {| S_MOVE_BROADCAST_actors := []; S_MOVE_BROADCAST_unknown := uf_empty |}.

Definition S_MOVE_BROADCAST_add_actors (v : Pb_MovedActor) (m : Pb_S_MOVE_BROADCAST) : Pb_S_MOVE_BROADCAST :=
  {| S_MOVE_BROADCAST_actors := S_MOVE_BROADCAST_actors m ++ [v]; S_MOVE_BROADCAST_unknown := S_MOVE_BROADCAST_unknown m |}.

Definition S_MOVE_BROADCAST_set_unknown (u : UnknownFieldSet) (m : Pb_S_MOVE_BROADCAST) : Pb_S_MOVE_BROADCAST :=
  {| S_MOVE_BROADCAST_actors := S_MOVE_BROADCAST_actors m; S_MOVE_BROADCAST_unknown := u |}.

Definition S_MOVE_BROADCAST_Clear (m : Pb_S_MOVE_BROADCAST) : Pb_S_MOVE_BROADCAST :=
  {| S_MOVE_BROADCAST_actors := []; S_MOVE_BROADCAST_unknown := uf_empty |}.

(** The inner [do ... while (ExpectTag<10>(ptr))] loop: one submessage, then
    another one as long as the same tag follows. *)
Fixpoint S_MOVE_BROADCAST_actors_loop (fuel : nat) (m : Pb_S_MOVE_BROADCAST)
    (s : list byte) : option (Pb_S_MOVE_BROADCAST * list byte) :=
  match ParseMessage MovedActor_InternalParse MovedActor_SharedCtor s with
  | None => None
  | Some (a, s1) =>
      let m' := S_MOVE_BROADCAST_add_actors a m in
      match s1 with
      | [] => Some (m', [])
      | b :: s2 =>
          if ExpectTag 10 s1
          then match fuel with
               | O => None
               | S fuel => S_MOVE_BROADCAST_actors_loop fuel m' s2
               end
          else Some (m', s1)
      end
  end.

Definition S_MOVE_BROADCAST_parse_field (tag : Z) (m : Pb_S_MOVE_BROADCAST) (s : list byte) : field_step Pb_S_MOVE_BROADCAST :=
  match Z.shiftr tag 3 with
  | 1 => if decide (tag `mod` 256 = 10) then Handled (S_MOVE_BROADCAST_actors_loop (length s) m s) else Unusual
  | _ => Unusual
  end.

Definition S_MOVE_BROADCAST_InternalParse : Pb_S_MOVE_BROADCAST → list byte → parse_result Pb_S_MOVE_BROADCAST :=
  run_parser S_MOVE_BROADCAST_parse_field S_MOVE_BROADCAST_unknown S_MOVE_BROADCAST_set_unknown.

Definition S_MOVE_BROADCAST_InternalSerialize (m : Pb_S_MOVE_BROADCAST) : list byte :=
  concat (map (λ a, InternalWriteMessage 1 (MovedActor_InternalSerialize a)) (S_MOVE_BROADCAST_actors m))
  ++ uf_bytes (S_MOVE_BROADCAST_unknown m).

Definition S_MOVE_BROADCAST_ByteSizeLong (m : Pb_S_MOVE_BROADCAST) : Z :=
  (1 * Z.of_nat (length (S_MOVE_BROADCAST_actors m))
     + foldr (λ a z, MessageSize (MovedActor_ByteSizeLong a) + z) 0 (S_MOVE_BROADCAST_actors m))
  + Z.of_nat (length (uf_bytes (S_MOVE_BROADCAST_unknown m))).

Definition S_MOVE_BROADCAST_MergeImpl (this from : Pb_S_MOVE_BROADCAST) : Pb_S_MOVE_BROADCAST :=
  {| S_MOVE_BROADCAST_actors := S_MOVE_BROADCAST_actors this ++ S_MOVE_BROADCAST_actors from;
     S_MOVE_BROADCAST_unknown := uf_merge (S_MOVE_BROADCAST_unknown this) (S_MOVE_BROADCAST_unknown from) |}.

Definition S_MOVE_BROADCAST_CopyFrom (same : bool) (this from : Pb_S_MOVE_BROADCAST) : Pb_S_MOVE_BROADCAST :=
  if same then this else S_MOVE_BROADCAST_MergeImpl (S_MOVE_BROADCAST_Clear this) from.

Definition S_MOVE_BROADCAST_copy (from : Pb_S_MOVE_BROADCAST) : Pb_S_MOVE_BROADCAST :=
  {| S_MOVE_BROADCAST_actors := S_MOVE_BROADCAST_actors from;
     S_MOVE_BROADCAST_unknown := uf_merge uf_empty (S_MOVE_BROADCAST_unknown from) |}.

Definition S_MOVE_BROADCAST_InternalSwap (this other : Pb_S_MOVE_BROADCAST) : Pb_S_MOVE_BROADCAST * Pb_S_MOVE_BROADCAST :=
  ({| S_MOVE_BROADCAST_actors := S_MOVE_BROADCAST_actors other; S_MOVE_BROADCAST_unknown := S_MOVE_BROADCAST_unknown other |},
   {| S_MOVE_BROADCAST_actors := S_MOVE_BROADCAST_actors this; S_MOVE_BROADCAST_unknown := S_MOVE_BROADCAST_unknown this |}).

Definition S_MOVE_BROADCAST_ok (m : Pb_S_MOVE_BROADCAST) : Prop :=
  Forall (λ a, MovedActor_ok a ∧ Z.of_nat (length (MovedActor_InternalSerialize a)) ≤ max_payload) (S_MOVE_BROADCAST_actors m) ∧ S_MOVE_BROADCAST_unknown m = uf_empty.
End messages.

(** ** Laws *)

Tactic Notation "shrinks_tac" reference(f) :=
  intros ? ? ? ? ?; unfold f; repeat (case_match || case_decide); try done;
  eauto with server.

Ltac field_side :=
  solve [ lia | done | assumption | intros; subst; reflexivity | reflexivity ].

Tactic Notation "size_tac" reference(sz) reference(ser) :=
  unfold sz, ser; rewrite !length_app; repeat case_decide; repeat case_match;
  rewrite ?StringSize_wire, ?WriteString_wire, ?WriteBool_wire, ?WriteFloat_wire by lia;
  cbn [length]; rewrite ?length_le_bytes; lia.

Tactic Notation "copy_tac" ident(m) reference(cp) reference(cf) reference(mi) :=
  unfold cf, mi, cp; destruct m; simpl; rewrite !uf_merge_empty; split;
  repeat case_decide; repeat case_match; subst; reflexivity.

Section laws.
Context `{PbRuntimeLaws}.

Lemma C_LOGIN_shrinks : field_shrinks C_LOGIN_parse_field.
Proof. shrinks_tac C_LOGIN_parse_field. Qed.

Lemma C_LOGIN_roundtrip m :
  C_LOGIN_ok m → C_LOGIN_InternalParse C_LOGIN_SharedCtor (C_LOGIN_InternalSerialize m) = Some (m, [], None).
Proof.
  destruct m as [v1 v2 u]. unfold C_LOGIN_ok. simpl. intros ([Hl1 Hu1] & [Hl2 Hu2] & ->).
  unfold C_LOGIN_InternalSerialize, C_LOGIN_InternalParse. simpl. rewrite uf_bytes_empty.
  rewrite (run_string _ _ _ C_LOGIN_shrinks 1 _ _ (λ v, C_LOGIN_set_account_id v C_LOGIN_SharedCtor)) by field_side.
  rewrite (run_string _ _ _ C_LOGIN_shrinks 2 _ _ (λ v, C_LOGIN_set_password v (C_LOGIN_set_account_id v1 C_LOGIN_SharedCtor))) by field_side.
  by rewrite run_parser_nil.
Qed.

Lemma C_LOGIN_size m : C_LOGIN_ByteSizeLong m = Z.of_nat (length (C_LOGIN_InternalSerialize m)).
Proof. size_tac C_LOGIN_ByteSizeLong C_LOGIN_InternalSerialize. Qed.

Lemma C_LOGIN_copy_eq m this :
  C_LOGIN_copy m = m ∧ C_LOGIN_CopyFrom false this m = m.
Proof. copy_tac m C_LOGIN_copy C_LOGIN_CopyFrom C_LOGIN_MergeImpl. Qed.

Lemma S_LOGIN_shrinks : field_shrinks S_LOGIN_parse_field.
Proof. shrinks_tac S_LOGIN_parse_field. Qed.

Lemma S_LOGIN_roundtrip m :
  S_LOGIN_ok m → S_LOGIN_InternalParse S_LOGIN_SharedCtor (S_LOGIN_InternalSerialize m) = Some (m, [], None).
Proof.
  destruct m as [v1 v2 u]. unfold S_LOGIN_ok. simpl. intros ([Hl2 Hu2] & ->).
  unfold S_LOGIN_InternalSerialize, S_LOGIN_InternalParse. simpl. rewrite uf_bytes_empty.
  rewrite (run_bool _ _ _ S_LOGIN_shrinks 1 _ _ (λ v, S_LOGIN_set_success v S_LOGIN_SharedCtor)) by field_side.
  rewrite (run_string _ _ _ S_LOGIN_shrinks 2 _ _ (λ v, S_LOGIN_set_message v (S_LOGIN_set_success v1 S_LOGIN_SharedCtor))) by field_side.
  by rewrite run_parser_nil.
Qed.

Lemma S_LOGIN_size m : S_LOGIN_ByteSizeLong m = Z.of_nat (length (S_LOGIN_InternalSerialize m)).
Proof. size_tac S_LOGIN_ByteSizeLong S_LOGIN_InternalSerialize. Qed.

Lemma S_LOGIN_copy_eq m this :
  S_LOGIN_copy m = m ∧ S_LOGIN_CopyFrom false this m = m.
Proof. copy_tac m S_LOGIN_copy S_LOGIN_CopyFrom S_LOGIN_MergeImpl. Qed.

Lemma C_CHAT_shrinks : field_shrinks C_CHAT_parse_field.
Proof. shrinks_tac C_CHAT_parse_field. Qed.

Lemma C_CHAT_roundtrip m :
  C_CHAT_ok m → C_CHAT_InternalParse C_CHAT_SharedCtor (C_CHAT_InternalSerialize m) = Some (m, [], None).
Proof.
  destruct m as [v1 u]. unfold C_CHAT_ok. simpl. intros ([Hl1 Hu1] & ->).
  unfold C_CHAT_InternalSerialize, C_CHAT_InternalParse. simpl. rewrite uf_bytes_empty.
  rewrite (run_string _ _ _ C_CHAT_shrinks 1 _ _ (λ v, C_CHAT_set_message v C_CHAT_SharedCtor)) by field_side.
  by rewrite run_parser_nil.
Qed.

Lemma C_CHAT_size m : C_CHAT_ByteSizeLong m = Z.of_nat (length (C_CHAT_InternalSerialize m)).
Proof. size_tac C_CHAT_ByteSizeLong C_CHAT_InternalSerialize. Qed.

Lemma C_CHAT_copy_eq m this :
  C_CHAT_copy m = m ∧ C_CHAT_CopyFrom false this m = m.
Proof. copy_tac m C_CHAT_copy C_CHAT_CopyFrom C_CHAT_MergeImpl. Qed.

Lemma S_CHAT_shrinks : field_shrinks S_CHAT_parse_field.
Proof. shrinks_tac S_CHAT_parse_field. Qed.

Lemma S_CHAT_roundtrip m :
  S_CHAT_ok m → S_CHAT_InternalParse S_CHAT_SharedCtor (S_CHAT_InternalSerialize m) = Some (m, [], None).
Proof.
  destruct m as [v1 v2 u]. unfold S_CHAT_ok. simpl. intros ([Hl1 Hu1] & [Hl2 Hu2] & ->).
  unfold S_CHAT_InternalSerialize, S_CHAT_InternalParse. simpl. rewrite uf_bytes_empty.
  rewrite (run_string _ _ _ S_CHAT_shrinks 1 _ _ (λ v, S_CHAT_set_sender v S_CHAT_SharedCtor)) by field_side.
  rewrite (run_string _ _ _ S_CHAT_shrinks 2 _ _ (λ v, S_CHAT_set_message v (S_CHAT_set_sender v1 S_CHAT_SharedCtor))) by field_side.
  by rewrite run_parser_nil.
Qed.

Lemma S_CHAT_size m : S_CHAT_ByteSizeLong m = Z.of_nat (length (S_CHAT_InternalSerialize m)).
Proof. size_tac S_CHAT_ByteSizeLong S_CHAT_InternalSerialize. Qed.

Lemma S_CHAT_copy_eq m this :
  S_CHAT_copy m = m ∧ S_CHAT_CopyFrom false this m = m.
Proof. copy_tac m S_CHAT_copy S_CHAT_CopyFrom S_CHAT_MergeImpl. Qed.

Lemma C_ROOM_ENTER_shrinks : field_shrinks C_ROOM_ENTER_parse_field.
Proof. shrinks_tac C_ROOM_ENTER_parse_field. Qed.

Lemma C_ROOM_ENTER_roundtrip m :
  C_ROOM_ENTER_ok m → C_ROOM_ENTER_InternalParse C_ROOM_ENTER_SharedCtor (C_ROOM_ENTER_InternalSerialize m) = Some (m, [], None).
Proof.
  destruct m as [v1 u]. unfold C_ROOM_ENTER_ok. simpl. intros ([Hl1 Hu1] & ->).
  unfold C_ROOM_ENTER_InternalSerialize, C_ROOM_ENTER_InternalParse. simpl. rewrite uf_bytes_empty.
  rewrite (run_string _ _ _ C_ROOM_ENTER_shrinks 1 _ _ (λ v, C_ROOM_ENTER_set_room_name v C_ROOM_ENTER_SharedCtor)) by field_side.
  by rewrite run_parser_nil.
Qed.

Lemma C_ROOM_ENTER_size m : C_ROOM_ENTER_ByteSizeLong m = Z.of_nat (length (C_ROOM_ENTER_InternalSerialize m)).
Proof. size_tac C_ROOM_ENTER_ByteSizeLong C_ROOM_ENTER_InternalSerialize. Qed.

Lemma C_ROOM_ENTER_copy_eq m this :
  C_ROOM_ENTER_copy m = m ∧ C_ROOM_ENTER_CopyFrom false this m = m.
Proof. copy_tac m C_ROOM_ENTER_copy C_ROOM_ENTER_CopyFrom C_ROOM_ENTER_MergeImpl. Qed.

Lemma S_ROOM_ENTER_shrinks : field_shrinks S_ROOM_ENTER_parse_field.
Proof. shrinks_tac S_ROOM_ENTER_parse_field. Qed.

Lemma S_ROOM_ENTER_roundtrip m :
  S_ROOM_ENTER_ok m → S_ROOM_ENTER_InternalParse S_ROOM_ENTER_SharedCtor (S_ROOM_ENTER_InternalSerialize m) = Some (m, [], None).
Proof.
  destruct m as [v1 v2 v3 u]. unfold S_ROOM_ENTER_ok. simpl. intros ([Hl2 Hu2] & [Hl3 Hu3] & ->).
  unfold S_ROOM_ENTER_InternalSerialize, S_ROOM_ENTER_InternalParse. simpl. rewrite uf_bytes_empty.
  rewrite (run_bool _ _ _ S_ROOM_ENTER_shrinks 1 _ _ (λ v, S_ROOM_ENTER_set_success v S_ROOM_ENTER_SharedCtor)) by field_side.
  rewrite (run_string _ _ _ S_ROOM_ENTER_shrinks 2 _ _ (λ v, S_ROOM_ENTER_set_message v (S_ROOM_ENTER_set_success v1 S_ROOM_ENTER_SharedCtor))) by field_side.
  rewrite (run_string _ _ _ S_ROOM_ENTER_shrinks 3 _ _ (λ v, S_ROOM_ENTER_set_room_name v (S_ROOM_ENTER_set_message v2 (S_ROOM_ENTER_set_success v1 S_ROOM_ENTER_SharedCtor)))) by field_side.
  by rewrite run_parser_nil.
Qed.

Lemma S_ROOM_ENTER_size m : S_ROOM_ENTER_ByteSizeLong m = Z.of_nat (length (S_ROOM_ENTER_InternalSerialize m)).
Proof. size_tac S_ROOM_ENTER_ByteSizeLong S_ROOM_ENTER_InternalSerialize. Qed.

Lemma S_ROOM_ENTER_copy_eq m this :
  S_ROOM_ENTER_copy m = m ∧ S_ROOM_ENTER_CopyFrom false this m = m.
Proof. copy_tac m S_ROOM_ENTER_copy S_ROOM_ENTER_CopyFrom S_ROOM_ENTER_MergeImpl. Qed.

Lemma S_ROOM_LEAVE_shrinks : field_shrinks S_ROOM_LEAVE_parse_field.
Proof. shrinks_tac S_ROOM_LEAVE_parse_field. Qed.

Lemma S_ROOM_LEAVE_roundtrip m :
  S_ROOM_LEAVE_ok m → S_ROOM_LEAVE_InternalParse S_ROOM_LEAVE_SharedCtor (S_ROOM_LEAVE_InternalSerialize m) = Some (m, [], None).
Proof.
  destruct m as [v1 u]. unfold S_ROOM_LEAVE_ok. simpl. intros ->.
  unfold S_ROOM_LEAVE_InternalSerialize, S_ROOM_LEAVE_InternalParse. simpl. rewrite uf_bytes_empty.
  rewrite (run_bool _ _ _ S_ROOM_LEAVE_shrinks 1 _ _ (λ v, S_ROOM_LEAVE_set_success v S_ROOM_LEAVE_SharedCtor)) by field_side.
  by rewrite run_parser_nil.
Qed.

Lemma S_ROOM_LEAVE_size m : S_ROOM_LEAVE_ByteSizeLong m = Z.of_nat (length (S_ROOM_LEAVE_InternalSerialize m)).
Proof. size_tac S_ROOM_LEAVE_ByteSizeLong S_ROOM_LEAVE_InternalSerialize. Qed.

Lemma S_ROOM_LEAVE_copy_eq m this :
  S_ROOM_LEAVE_copy m = m ∧ S_ROOM_LEAVE_CopyFrom false this m = m.
Proof. copy_tac m S_ROOM_LEAVE_copy S_ROOM_LEAVE_CopyFrom S_ROOM_LEAVE_MergeImpl. Qed.

Lemma S_ROOM_USER_ENTERED_shrinks : field_shrinks S_ROOM_USER_ENTERED_parse_field.
Proof. shrinks_tac S_ROOM_USER_ENTERED_parse_field. Qed.

Lemma S_ROOM_USER_ENTERED_roundtrip m :
  S_ROOM_USER_ENTERED_ok m → S_ROOM_USER_ENTERED_InternalParse S_ROOM_USER_ENTERED_SharedCtor (S_ROOM_USER_ENTERED_InternalSerialize m) = Some (m, [], None).
Proof.
  destruct m as [v1 u]. unfold S_ROOM_USER_ENTERED_ok. simpl. intros ([Hl1 Hu1] & ->).
  unfold S_ROOM_USER_ENTERED_InternalSerialize, S_ROOM_USER_ENTERED_InternalParse. simpl. rewrite uf_bytes_empty.
  rewrite (run_string _ _ _ S_ROOM_USER_ENTERED_shrinks 1 _ _ (λ v, S_ROOM_USER_ENTERED_set_account_id v S_ROOM_USER_ENTERED_SharedCtor)) by field_side.
  by rewrite run_parser_nil.
Qed.

Lemma S_ROOM_USER_ENTERED_size m : S_ROOM_USER_ENTERED_ByteSizeLong m = Z.of_nat (length (S_ROOM_USER_ENTERED_InternalSerialize m)).
Proof. size_tac S_ROOM_USER_ENTERED_ByteSizeLong S_ROOM_USER_ENTERED_InternalSerialize. Qed.

Lemma S_ROOM_USER_ENTERED_copy_eq m this :
  S_ROOM_USER_ENTERED_copy m = m ∧ S_ROOM_USER_ENTERED_CopyFrom false this m = m.
Proof. copy_tac m S_ROOM_USER_ENTERED_copy S_ROOM_USER_ENTERED_CopyFrom S_ROOM_USER_ENTERED_MergeImpl. Qed.

Lemma S_ROOM_USER_LEFT_shrinks : field_shrinks S_ROOM_USER_LEFT_parse_field.
Proof. shrinks_tac S_ROOM_USER_LEFT_parse_field. Qed.

Lemma S_ROOM_USER_LEFT_roundtrip m :
  S_ROOM_USER_LEFT_ok m → S_ROOM_USER_LEFT_InternalParse S_ROOM_USER_LEFT_SharedCtor (S_ROOM_USER_LEFT_InternalSerialize m) = Some (m, [], None).
Proof.
  destruct m as [v1 u]. unfold S_ROOM_USER_LEFT_ok. simpl. intros ([Hl1 Hu1] & ->).
  unfold S_ROOM_USER_LEFT_InternalSerialize, S_ROOM_USER_LEFT_InternalParse. simpl. rewrite uf_bytes_empty.
  rewrite (run_string _ _ _ S_ROOM_USER_LEFT_shrinks 1 _ _ (λ v, S_ROOM_USER_LEFT_set_account_id v S_ROOM_USER_LEFT_SharedCtor)) by field_side.
  by rewrite run_parser_nil.
Qed.

Lemma S_ROOM_USER_LEFT_size m : S_ROOM_USER_LEFT_ByteSizeLong m = Z.of_nat (length (S_ROOM_USER_LEFT_InternalSerialize m)).
Proof. size_tac S_ROOM_USER_LEFT_ByteSizeLong S_ROOM_USER_LEFT_InternalSerialize. Qed.

Lemma S_ROOM_USER_LEFT_copy_eq m this :
  S_ROOM_USER_LEFT_copy m = m ∧ S_ROOM_USER_LEFT_CopyFrom false this m = m.
Proof. copy_tac m S_ROOM_USER_LEFT_copy S_ROOM_USER_LEFT_CopyFrom S_ROOM_USER_LEFT_MergeImpl. Qed.

Lemma C_MOVE_shrinks : field_shrinks C_MOVE_parse_field.
Proof. shrinks_tac C_MOVE_parse_field. Qed.

Lemma C_MOVE_roundtrip m :
  C_MOVE_ok m → C_MOVE_InternalParse C_MOVE_SharedCtor (C_MOVE_InternalSerialize m) = Some (m, [], None).
Proof.
  destruct m as [v1 v2 u]. unfold C_MOVE_ok. simpl. intros (H1 & H2 & ->).
  unfold C_MOVE_InternalSerialize, C_MOVE_InternalParse. simpl. rewrite uf_bytes_empty.
  rewrite (run_float _ _ _ C_MOVE_shrinks 1 _ _ (λ v, C_MOVE_set_x v C_MOVE_SharedCtor)) by field_side.
  rewrite (run_float _ _ _ C_MOVE_shrinks 2 _ _ (λ v, C_MOVE_set_y v (C_MOVE_set_x v1 C_MOVE_SharedCtor))) by field_side.
  by rewrite run_parser_nil.
Qed.

Lemma C_MOVE_size m : C_MOVE_ByteSizeLong m = Z.of_nat (length (C_MOVE_InternalSerialize m)).
Proof. size_tac C_MOVE_ByteSizeLong C_MOVE_InternalSerialize. Qed.

Lemma C_MOVE_copy_eq m this :
  C_MOVE_copy m = m ∧ C_MOVE_CopyFrom false this m = m.
Proof. copy_tac m C_MOVE_copy C_MOVE_CopyFrom C_MOVE_MergeImpl. Qed.

Lemma MovedActor_shrinks : field_shrinks MovedActor_parse_field.
Proof. shrinks_tac MovedActor_parse_field. Qed.

Lemma MovedActor_roundtrip m :
  MovedActor_ok m → MovedActor_InternalParse MovedActor_SharedCtor (MovedActor_InternalSerialize m) = Some (m, [], None).
Proof.
  destruct m as [v1 v2 v3 u]. unfold MovedActor_ok. simpl. intros ([Hl1 Hu1] & H2 & H3 & ->).
  unfold MovedActor_InternalSerialize, MovedActor_InternalParse. simpl. rewrite uf_bytes_empty.
  rewrite (run_string _ _ _ MovedActor_shrinks 1 _ _ (λ v, MovedActor_set_account_id v MovedActor_SharedCtor)) by field_side.
  rewrite (run_float _ _ _ MovedActor_shrinks 2 _ _ (λ v, MovedActor_set_x v (MovedActor_set_account_id v1 MovedActor_SharedCtor))) by field_side.
  rewrite (run_float _ _ _ MovedActor_shrinks 3 _ _ (λ v, MovedActor_set_y v (MovedActor_set_x v2 (MovedActor_set_account_id v1 MovedActor_SharedCtor)))) by field_side.
  by rewrite run_parser_nil.
Qed.

Lemma MovedActor_size m : MovedActor_ByteSizeLong m = Z.of_nat (length (MovedActor_InternalSerialize m)).
Proof. size_tac MovedActor_ByteSizeLong MovedActor_InternalSerialize. Qed.

Lemma MovedActor_copy_eq m this :
  MovedActor_copy m = m ∧ MovedActor_CopyFrom false this m = m.
Proof. copy_tac m MovedActor_copy MovedActor_CopyFrom MovedActor_MergeImpl. Qed.

(** *** [S_MOVE_BROADCAST]: the repeated field *)
Lemma actors_loop_shrinks fuel m s m' s' :
  S_MOVE_BROADCAST_actors_loop fuel m s = Some (m', s') → (length s' ≤ length s)%nat.
Proof.
  revert m s. induction fuel as [|fuel IH]; intros m s; simpl.
  all: destruct (ParseMessage _ _ s) as [[a s1]|] eqn:E; [|done].
  all: apply ParseMessage_shrinks in E; destruct s1 as [|b s2]; intros HE; [by simplify_eq|].
  all: destruct (ExpectTag 10 (b :: s2)); simplify_eq/=; try lia.
  apply IH in HE. simpl in E. lia.
Qed.

Lemma S_MOVE_BROADCAST_shrinks : field_shrinks S_MOVE_BROADCAST_parse_field.
Proof.
  intros ? ? ? ? ?. unfold S_MOVE_BROADCAST_parse_field.
  repeat (case_match || case_decide); try done.
  intros E. simplify_eq. by eapply actors_loop_shrinks.
Qed.

Definition actor_ok (a : Pb_MovedActor) : Prop :=
  MovedActor_ok a ∧ Z.of_nat (length (MovedActor_InternalSerialize a)) ≤ max_payload.

Definition write_actor (a : Pb_MovedActor) : list byte :=
  InternalWriteMessage 1 (MovedActor_InternalSerialize a).

Lemma write_actor_wire a :
  write_actor a = x0a :: delimited (MovedActor_InternalSerialize a).
Proof. unfold write_actor. by rewrite WriteMessage_wire by lia. Qed.

Lemma parse_actor a s :
  actor_ok a →
  ParseMessage MovedActor_InternalParse MovedActor_SharedCtor
    (delimited (MovedActor_InternalSerialize a) ++ s) = Some (a, s).
Proof.
  intros [Hok Hl]. apply ParseMessage_delimited; [done|]. by apply MovedActor_roundtrip.
Qed.

Lemma actors_loop_ok acts a m fuel :
  actor_ok a → Forall actor_ok acts → (length acts ≤ fuel)%nat →
  S_MOVE_BROADCAST_actors_loop fuel m
    (delimited (MovedActor_InternalSerialize a) ++ concat (map write_actor acts))
  = Some (foldl (flip S_MOVE_BROADCAST_add_actors) m (a :: acts), []).
Proof.
  revert a m fuel. induction acts as [|a' acts IH]; intros a m fuel Ha Hacts Hf.
  - destruct fuel; simpl; rewrite parse_actor by done; done.
  - inversion_clear Hacts as [|? ? Ha' Hacts'].
    destruct fuel as [|fuel]; [simpl in Hf; lia|].
    cbn [S_MOVE_BROADCAST_actors_loop map concat].
    rewrite parse_actor, write_actor_wire by done. cbn [app].
    rewrite ExpectTag_byte by lia. rewrite bool_decide_eq_true_2 by done.
    rewrite IH by (done || (simpl in Hf; lia)). done.
Qed.

Lemma foldl_add_actors acts m :
  foldl (flip S_MOVE_BROADCAST_add_actors) m acts
  = {| S_MOVE_BROADCAST_actors := S_MOVE_BROADCAST_actors m ++ acts;
       S_MOVE_BROADCAST_unknown := S_MOVE_BROADCAST_unknown m |}.
Proof.
  revert m. induction acts as [|a acts IH]; intros m; simpl.
  - rewrite app_nil_r. by destruct m.
  - rewrite IH. simpl. by rewrite <- app_assoc.
Qed.

Lemma length_write_actors acts : (length acts ≤ length (concat (map write_actor acts)))%nat.
Proof.
  induction acts as [|a acts IH]; simpl; [lia|].
  rewrite write_actor_wire, length_app. simpl. lia.
Qed.

Lemma S_MOVE_BROADCAST_roundtrip m :
  S_MOVE_BROADCAST_ok m →
  S_MOVE_BROADCAST_InternalParse S_MOVE_BROADCAST_SharedCtor
    (S_MOVE_BROADCAST_InternalSerialize m) = Some (m, [], None).
Proof.
  destruct m as [acts u]. unfold S_MOVE_BROADCAST_ok. simpl. intros [Hacts ->].
  unfold S_MOVE_BROADCAST_InternalSerialize, S_MOVE_BROADCAST_InternalParse. simpl.
  rewrite uf_bytes_empty, app_nil_r. change (λ a, _) with write_actor.
  destruct acts as [|a acts]; [done|]. inversion_clear Hacts.
  cbn [map concat]. rewrite write_actor_wire. cbn [app].
  rewrite (run_parser_field _ _ _ _ x0a _
    (foldl (flip S_MOVE_BROADCAST_add_actors) S_MOVE_BROADCAST_SharedCtor (a :: acts)) []
    S_MOVE_BROADCAST_shrinks).
  - by rewrite run_parser_nil, foldl_add_actors.
  - done.
  - change (byte_val x0a) with 10. set (s := delimited _ ++ _).
    transitivity (Handled (S_MOVE_BROADCAST_actors_loop (length s)
      S_MOVE_BROADCAST_SharedCtor s)); [reflexivity|].
    f_equal. unfold s. apply actors_loop_ok; [done..|].
    pose proof (length_write_actors acts). rewrite length_app. lia.
Qed.

Lemma S_MOVE_BROADCAST_size m :
  S_MOVE_BROADCAST_ByteSizeLong m = Z.of_nat (length (S_MOVE_BROADCAST_InternalSerialize m)).
Proof.
  unfold S_MOVE_BROADCAST_ByteSizeLong, S_MOVE_BROADCAST_InternalSerialize.
  rewrite length_app. change (λ a, InternalWriteMessage _ _) with write_actor.
  enough (∀ acts, 1 * Z.of_nat (length acts)
    + foldr (λ a z, MessageSize (MovedActor_ByteSizeLong a) + z) 0 acts
    = Z.of_nat (length (concat (map write_actor acts)))) as Hall by (rewrite Hall; lia).
  induction acts as [|a acts IH]; [done|]. cbn [foldr map concat length].
  rewrite length_app, write_actor_wire, MovedActor_size, MessageSize_wire. cbn [length]. lia.
Qed.

Lemma S_MOVE_BROADCAST_copy_eq m this :
  S_MOVE_BROADCAST_copy m = m ∧ S_MOVE_BROADCAST_CopyFrom false this m = m.
Proof.
  copy_tac m S_MOVE_BROADCAST_copy S_MOVE_BROADCAST_CopyFrom S_MOVE_BROADCAST_MergeImpl.
Qed.
End laws.

(** ** The [Message] interface, discharged *)
#[export] Instance C_LOGIN_Message `{PbRuntime} : Message Pb_C_LOGIN := {
  ByteSizeLong := C_LOGIN_ByteSizeLong;
  Serialize := C_LOGIN_InternalSerialize;
  ParseFromArray := ParseFrom C_LOGIN_InternalParse C_LOGIN_SharedCtor }.
#[export] Instance C_LOGIN_MessageLaws `{PbRuntimeLaws} : MessageLaws Pb_C_LOGIN C_LOGIN_ok.
Proof.
  split; intros m Hm; [apply C_LOGIN_size|].
  by apply ParseFrom_all, C_LOGIN_roundtrip.
Qed.
#[export] Instance S_LOGIN_Message `{PbRuntime} : Message Pb_S_LOGIN := {
  ByteSizeLong := S_LOGIN_ByteSizeLong;
  Serialize := S_LOGIN_InternalSerialize;
  ParseFromArray := ParseFrom S_LOGIN_InternalParse S_LOGIN_SharedCtor }.
#[export] Instance S_LOGIN_MessageLaws `{PbRuntimeLaws} : MessageLaws Pb_S_LOGIN S_LOGIN_ok.
Proof.
  split; intros m Hm; [apply S_LOGIN_size|].
  by apply ParseFrom_all, S_LOGIN_roundtrip.
Qed.
#[export] Instance C_CHAT_Message `{PbRuntime} : Message Pb_C_CHAT := {
  ByteSizeLong := C_CHAT_ByteSizeLong;
  Serialize := C_CHAT_InternalSerialize;
  ParseFromArray := ParseFrom C_CHAT_InternalParse C_CHAT_SharedCtor }.
#[export] Instance C_CHAT_MessageLaws `{PbRuntimeLaws} : MessageLaws Pb_C_CHAT C_CHAT_ok.
Proof.
  split; intros m Hm; [apply C_CHAT_size|].
  by apply ParseFrom_all, C_CHAT_roundtrip.
Qed.
#[export] Instance S_CHAT_Message `{PbRuntime} : Message Pb_S_CHAT := {
  ByteSizeLong := S_CHAT_ByteSizeLong;
  Serialize := S_CHAT_InternalSerialize;
  ParseFromArray := ParseFrom S_CHAT_InternalParse S_CHAT_SharedCtor }.
#[export] Instance S_CHAT_MessageLaws `{PbRuntimeLaws} : MessageLaws Pb_S_CHAT S_CHAT_ok.
Proof.
  split; intros m Hm; [apply S_CHAT_size|].
  by apply ParseFrom_all, S_CHAT_roundtrip.
Qed.
#[export] Instance C_ROOM_ENTER_Message `{PbRuntime} : Message Pb_C_ROOM_ENTER := {
  ByteSizeLong := C_ROOM_ENTER_ByteSizeLong;
  Serialize := C_ROOM_ENTER_InternalSerialize;
  ParseFromArray := ParseFrom C_ROOM_ENTER_InternalParse C_ROOM_ENTER_SharedCtor }.
#[export] Instance C_ROOM_ENTER_MessageLaws `{PbRuntimeLaws} : MessageLaws Pb_C_ROOM_ENTER C_ROOM_ENTER_ok.
Proof.
  split; intros m Hm; [apply C_ROOM_ENTER_size|].
  by apply ParseFrom_all, C_ROOM_ENTER_roundtrip.
Qed.
#[export] Instance S_ROOM_ENTER_Message `{PbRuntime} : Message Pb_S_ROOM_ENTER := {
  ByteSizeLong := S_ROOM_ENTER_ByteSizeLong;
  Serialize := S_ROOM_ENTER_InternalSerialize;
  ParseFromArray := ParseFrom S_ROOM_ENTER_InternalParse S_ROOM_ENTER_SharedCtor }.
#[export] Instance S_ROOM_ENTER_MessageLaws `{PbRuntimeLaws} : MessageLaws Pb_S_ROOM_ENTER S_ROOM_ENTER_ok.
Proof.
  split; intros m Hm; [apply S_ROOM_ENTER_size|].
  by apply ParseFrom_all, S_ROOM_ENTER_roundtrip.
Qed.
#[export] Instance S_ROOM_LEAVE_Message `{PbRuntime} : Message Pb_S_ROOM_LEAVE := {
  ByteSizeLong := S_ROOM_LEAVE_ByteSizeLong;
  Serialize := S_ROOM_LEAVE_InternalSerialize;
  ParseFromArray := ParseFrom S_ROOM_LEAVE_InternalParse S_ROOM_LEAVE_SharedCtor }.
#[export] Instance S_ROOM_LEAVE_MessageLaws `{PbRuntimeLaws} : MessageLaws Pb_S_ROOM_LEAVE S_ROOM_LEAVE_ok.
Proof.
  split; intros m Hm; [apply S_ROOM_LEAVE_size|].
  by apply ParseFrom_all, S_ROOM_LEAVE_roundtrip.
Qed.
#[export] Instance S_ROOM_USER_ENTERED_Message `{PbRuntime} : Message Pb_S_ROOM_USER_ENTERED := {
  ByteSizeLong := S_ROOM_USER_ENTERED_ByteSizeLong;
  Serialize := S_ROOM_USER_ENTERED_InternalSerialize;
  ParseFromArray := ParseFrom S_ROOM_USER_ENTERED_InternalParse S_ROOM_USER_ENTERED_SharedCtor }.
#[export] Instance S_ROOM_USER_ENTERED_MessageLaws `{PbRuntimeLaws} : MessageLaws Pb_S_ROOM_USER_ENTERED S_ROOM_USER_ENTERED_ok.
Proof.
  split; intros m Hm; [apply S_ROOM_USER_ENTERED_size|].
  by apply ParseFrom_all, S_ROOM_USER_ENTERED_roundtrip.
Qed.
#[export] Instance S_ROOM_USER_LEFT_Message `{PbRuntime} : Message Pb_S_ROOM_USER_LEFT := {
  ByteSizeLong := S_ROOM_USER_LEFT_ByteSizeLong;
  Serialize := S_ROOM_USER_LEFT_InternalSerialize;
  ParseFromArray := ParseFrom S_ROOM_USER_LEFT_InternalParse S_ROOM_USER_LEFT_SharedCtor }.
#[export] Instance S_ROOM_USER_LEFT_MessageLaws `{PbRuntimeLaws} : MessageLaws Pb_S_ROOM_USER_LEFT S_ROOM_USER_LEFT_ok.
Proof.
  split; intros m Hm; [apply S_ROOM_USER_LEFT_size|].
  by apply ParseFrom_all, S_ROOM_USER_LEFT_roundtrip.
Qed.
#[export] Instance C_MOVE_Message `{PbRuntime} : Message Pb_C_MOVE := {
  ByteSizeLong := C_MOVE_ByteSizeLong;
  Serialize := C_MOVE_InternalSerialize;
  ParseFromArray := ParseFrom C_MOVE_InternalParse C_MOVE_SharedCtor }.
#[export] Instance C_MOVE_MessageLaws `{PbRuntimeLaws} : MessageLaws Pb_C_MOVE C_MOVE_ok.
Proof.
  split; intros m Hm; [apply C_MOVE_size|].
  by apply ParseFrom_all, C_MOVE_roundtrip.
Qed.
#[export] Instance MovedActor_Message `{PbRuntime} : Message Pb_MovedActor := {
  ByteSizeLong := MovedActor_ByteSizeLong;
  Serialize := MovedActor_InternalSerialize;
  ParseFromArray := ParseFrom MovedActor_InternalParse MovedActor_SharedCtor }.
#[export] Instance MovedActor_MessageLaws `{PbRuntimeLaws} : MessageLaws Pb_MovedActor MovedActor_ok.
Proof.
  split; intros m Hm; [apply MovedActor_size|].
  by apply ParseFrom_all, MovedActor_roundtrip.
Qed.
#[export] Instance S_MOVE_BROADCAST_Message `{PbRuntime} : Message Pb_S_MOVE_BROADCAST := {
  ByteSizeLong := S_MOVE_BROADCAST_ByteSizeLong;
  Serialize := S_MOVE_BROADCAST_InternalSerialize;
  ParseFromArray := ParseFrom S_MOVE_BROADCAST_InternalParse S_MOVE_BROADCAST_SharedCtor }.
#[export] Instance S_MOVE_BROADCAST_MessageLaws `{PbRuntimeLaws} : MessageLaws Pb_S_MOVE_BROADCAST S_MOVE_BROADCAST_ok.
Proof.
  split; intros m Hm; [apply S_MOVE_BROADCAST_size|].
  by apply ParseFrom_all, S_MOVE_BROADCAST_roundtrip.
Qed.

(** ** All messages at once *)
Section any_message.
Context `{PbRuntime}.

Inductive AnyMessage :=
| Any_C_LOGIN (m : Pb_C_LOGIN)
| Any_S_LOGIN (m : Pb_S_LOGIN)
| Any_C_CHAT (m : Pb_C_CHAT)
| Any_S_CHAT (m : Pb_S_CHAT)
| Any_C_ROOM_ENTER (m : Pb_C_ROOM_ENTER)
| Any_S_ROOM_ENTER (m : Pb_S_ROOM_ENTER)
| Any_S_ROOM_LEAVE (m : Pb_S_ROOM_LEAVE)
| Any_S_ROOM_USER_ENTERED (m : Pb_S_ROOM_USER_ENTERED)
| Any_S_ROOM_USER_LEFT (m : Pb_S_ROOM_USER_LEFT)
| Any_C_MOVE (m : Pb_C_MOVE)
| Any_MovedActor (m : Pb_MovedActor)
| Any_S_MOVE_BROADCAST (m : Pb_S_MOVE_BROADCAST).

Definition any_ok (a : AnyMessage) : Prop :=
  match a with
  | Any_C_LOGIN m => C_LOGIN_ok m
  | Any_S_LOGIN m => S_LOGIN_ok m
  | Any_C_CHAT m => C_CHAT_ok m
  | Any_S_CHAT m => S_CHAT_ok m
  | Any_C_ROOM_ENTER m => C_ROOM_ENTER_ok m
  | Any_S_ROOM_ENTER m => S_ROOM_ENTER_ok m
  | Any_S_ROOM_LEAVE m => S_ROOM_LEAVE_ok m
  | Any_S_ROOM_USER_ENTERED m => S_ROOM_USER_ENTERED_ok m
  | Any_S_ROOM_USER_LEFT m => S_ROOM_USER_LEFT_ok m
  | Any_C_MOVE m => C_MOVE_ok m
  | Any_MovedActor m => MovedActor_ok m
  | Any_S_MOVE_BROADCAST m => S_MOVE_BROADCAST_ok m
  end.

Definition any_Serialize (a : AnyMessage) : list byte :=
  match a with
  | Any_C_LOGIN m => C_LOGIN_InternalSerialize m
  | Any_S_LOGIN m => S_LOGIN_InternalSerialize m
  | Any_C_CHAT m => C_CHAT_InternalSerialize m
  | Any_S_CHAT m => S_CHAT_InternalSerialize m
  | Any_C_ROOM_ENTER m => C_ROOM_ENTER_InternalSerialize m
  | Any_S_ROOM_ENTER m => S_ROOM_ENTER_InternalSerialize m
  | Any_S_ROOM_LEAVE m => S_ROOM_LEAVE_InternalSerialize m
  | Any_S_ROOM_USER_ENTERED m => S_ROOM_USER_ENTERED_InternalSerialize m
  | Any_S_ROOM_USER_LEFT m => S_ROOM_USER_LEFT_InternalSerialize m
  | Any_C_MOVE m => C_MOVE_InternalSerialize m
  | Any_MovedActor m => MovedActor_InternalSerialize m
  | Any_S_MOVE_BROADCAST m => S_MOVE_BROADCAST_InternalSerialize m
  end.

Definition any_ByteSizeLong (a : AnyMessage) : Z :=
  match a with
  | Any_C_LOGIN m => C_LOGIN_ByteSizeLong m
  | Any_S_LOGIN m => S_LOGIN_ByteSizeLong m
  | Any_C_CHAT m => C_CHAT_ByteSizeLong m
  | Any_S_CHAT m => S_CHAT_ByteSizeLong m
  | Any_C_ROOM_ENTER m => C_ROOM_ENTER_ByteSizeLong m
  | Any_S_ROOM_ENTER m => S_ROOM_ENTER_ByteSizeLong m
  | Any_S_ROOM_LEAVE m => S_ROOM_LEAVE_ByteSizeLong m
  | Any_S_ROOM_USER_ENTERED m => S_ROOM_USER_ENTERED_ByteSizeLong m
  | Any_S_ROOM_USER_LEFT m => S_ROOM_USER_LEFT_ByteSizeLong m
  | Any_C_MOVE m => C_MOVE_ByteSizeLong m
  | Any_MovedActor m => MovedActor_ByteSizeLong m
  | Any_S_MOVE_BROADCAST m => S_MOVE_BROADCAST_ByteSizeLong m
  end.

(** Parse the bytes as a message of the class of [a]. *)
Definition any_ParseAs (a : AnyMessage) (s : list byte) : option AnyMessage :=
  match a with
  | Any_C_LOGIN _ => Any_C_LOGIN <$> ParseFrom C_LOGIN_InternalParse C_LOGIN_SharedCtor s
  | Any_S_LOGIN _ => Any_S_LOGIN <$> ParseFrom S_LOGIN_InternalParse S_LOGIN_SharedCtor s
  | Any_C_CHAT _ => Any_C_CHAT <$> ParseFrom C_CHAT_InternalParse C_CHAT_SharedCtor s
  | Any_S_CHAT _ => Any_S_CHAT <$> ParseFrom S_CHAT_InternalParse S_CHAT_SharedCtor s
  | Any_C_ROOM_ENTER _ => Any_C_ROOM_ENTER <$> ParseFrom C_ROOM_ENTER_InternalParse C_ROOM_ENTER_SharedCtor s
  | Any_S_ROOM_ENTER _ => Any_S_ROOM_ENTER <$> ParseFrom S_ROOM_ENTER_InternalParse S_ROOM_ENTER_SharedCtor s
  | Any_S_ROOM_LEAVE _ => Any_S_ROOM_LEAVE <$> ParseFrom S_ROOM_LEAVE_InternalParse S_ROOM_LEAVE_SharedCtor s
  | Any_S_ROOM_USER_ENTERED _ => Any_S_ROOM_USER_ENTERED <$> ParseFrom S_ROOM_USER_ENTERED_InternalParse S_ROOM_USER_ENTERED_SharedCtor s
  | Any_S_ROOM_USER_LEFT _ => Any_S_ROOM_USER_LEFT <$> ParseFrom S_ROOM_USER_LEFT_InternalParse S_ROOM_USER_LEFT_SharedCtor s
  | Any_C_MOVE _ => Any_C_MOVE <$> ParseFrom C_MOVE_InternalParse C_MOVE_SharedCtor s
  | Any_MovedActor _ => Any_MovedActor <$> ParseFrom MovedActor_InternalParse MovedActor_SharedCtor s
  | Any_S_MOVE_BROADCAST _ => Any_S_MOVE_BROADCAST <$> ParseFrom S_MOVE_BROADCAST_InternalParse S_MOVE_BROADCAST_SharedCtor s
  end.

(** Copy construction, and assignment over an existing message. *)
Definition any_copy (a : AnyMessage) : AnyMessage :=
  match a with
  | Any_C_LOGIN m => Any_C_LOGIN (C_LOGIN_copy m)
  | Any_S_LOGIN m => Any_S_LOGIN (S_LOGIN_copy m)
  | Any_C_CHAT m => Any_C_CHAT (C_CHAT_copy m)
  | Any_S_CHAT m => Any_S_CHAT (S_CHAT_copy m)
  | Any_C_ROOM_ENTER m => Any_C_ROOM_ENTER (C_ROOM_ENTER_copy m)
  | Any_S_ROOM_ENTER m => Any_S_ROOM_ENTER (S_ROOM_ENTER_copy m)
  | Any_S_ROOM_LEAVE m => Any_S_ROOM_LEAVE (S_ROOM_LEAVE_copy m)
  | Any_S_ROOM_USER_ENTERED m => Any_S_ROOM_USER_ENTERED (S_ROOM_USER_ENTERED_copy m)
  | Any_S_ROOM_USER_LEFT m => Any_S_ROOM_USER_LEFT (S_ROOM_USER_LEFT_copy m)
  | Any_C_MOVE m => Any_C_MOVE (C_MOVE_copy m)
  | Any_MovedActor m => Any_MovedActor (MovedActor_copy m)
  | Any_S_MOVE_BROADCAST m => Any_S_MOVE_BROADCAST (S_MOVE_BROADCAST_copy m)
  end.

Definition any_CopyFrom (this a : AnyMessage) : AnyMessage :=
  match this, a with
  | Any_C_LOGIN t, Any_C_LOGIN m => Any_C_LOGIN (C_LOGIN_CopyFrom false t m)
  | Any_S_LOGIN t, Any_S_LOGIN m => Any_S_LOGIN (S_LOGIN_CopyFrom false t m)
  | Any_C_CHAT t, Any_C_CHAT m => Any_C_CHAT (C_CHAT_CopyFrom false t m)
  | Any_S_CHAT t, Any_S_CHAT m => Any_S_CHAT (S_CHAT_CopyFrom false t m)
  | Any_C_ROOM_ENTER t, Any_C_ROOM_ENTER m => Any_C_ROOM_ENTER (C_ROOM_ENTER_CopyFrom false t m)
  | Any_S_ROOM_ENTER t, Any_S_ROOM_ENTER m => Any_S_ROOM_ENTER (S_ROOM_ENTER_CopyFrom false t m)
  | Any_S_ROOM_LEAVE t, Any_S_ROOM_LEAVE m => Any_S_ROOM_LEAVE (S_ROOM_LEAVE_CopyFrom false t m)
  | Any_S_ROOM_USER_ENTERED t, Any_S_ROOM_USER_ENTERED m => Any_S_ROOM_USER_ENTERED (S_ROOM_USER_ENTERED_CopyFrom false t m)
  | Any_S_ROOM_USER_LEFT t, Any_S_ROOM_USER_LEFT m => Any_S_ROOM_USER_LEFT (S_ROOM_USER_LEFT_CopyFrom false t m)
  | Any_C_MOVE t, Any_C_MOVE m => Any_C_MOVE (C_MOVE_CopyFrom false t m)
  | Any_MovedActor t, Any_MovedActor m => Any_MovedActor (MovedActor_CopyFrom false t m)
  | Any_S_MOVE_BROADCAST t, Any_S_MOVE_BROADCAST m => Any_S_MOVE_BROADCAST (S_MOVE_BROADCAST_CopyFrom false t m)
  | _, _ => a
  end.
End any_message.

(** ** Properties *)

(** C18. Every message the server or its clients send is read back exactly: the
    generated parser applied to the generated serialization returns the same
    message, for all message classes, provided text fields are valid UTF-8 and
    of a length the runtime accepts. *)
Theorem any_roundtrip `{PbRuntimeLaws} (a : AnyMessage) :
  any_ok a → any_ParseAs a (any_Serialize a) = Some a.
Proof.
  destruct a; simpl; intros Hok;
  match goal with Hok : ?ok ?m |- _ => pose proof (Parse_Serialize (ok := ok) m Hok) as E end;
  simpl in E; by rewrite E.
Qed.

Definition demo_broadcast : AnyMessage :=
  Any_S_MOVE_BROADCAST {|
    S_MOVE_BROADCAST_actors :=
      [ {| MovedActor_account_id := "alice"; MovedActor_x := 1069547520;
           MovedActor_y := 0; MovedActor_unknown := uf_empty |};
        {| MovedActor_account_id := ""; MovedActor_x := 0;
           MovedActor_y := 1075838976; MovedActor_unknown := uf_empty |} ];
    S_MOVE_BROADCAST_unknown := uf_empty |}.

Lemma any_roundtrip_witness :
  any_ParseAs demo_broadcast (any_Serialize demo_broadcast) = Some demo_broadcast.
Proof.
  apply (any_roundtrip demo_broadcast). split; [|reflexivity].
  repeat apply Forall_cons_2; [..|apply Forall_nil_2]; repeat split; vm_compute; done.
Defined.

(** [ByteSizeLong] announces exactly the number of bytes the serializer
    writes, for every message class; the packet headers are computed from it. *)
Theorem any_size `{PbRuntimeLaws} (a : AnyMessage) :
  any_ByteSizeLong a = Z.of_nat (length (any_Serialize a)).
Proof.
  destruct a; simpl;
  solve [apply C_LOGIN_size | apply S_LOGIN_size | apply C_CHAT_size | apply S_CHAT_size | apply C_ROOM_ENTER_size | apply S_ROOM_ENTER_size | apply S_ROOM_LEAVE_size | apply S_ROOM_USER_ENTERED_size | apply S_ROOM_USER_LEFT_size | apply C_MOVE_size | apply MovedActor_size | apply S_MOVE_BROADCAST_size].
Qed.

(** Copy construction and assignment produce an equal message whatever the
    target held before: nothing of the old value and no default survives. *)
Theorem any_copy_eq `{PbRuntimeLaws} (this a : AnyMessage) :
  any_copy a = a ∧ any_CopyFrom this a = a.
Proof.
  split; [destruct a|destruct this, a]; simpl; try reflexivity; f_equal;
  solve [apply (C_LOGIN_copy_eq m m) | apply C_LOGIN_copy_eq | apply (S_LOGIN_copy_eq m m) | apply S_LOGIN_copy_eq | apply (C_CHAT_copy_eq m m) | apply C_CHAT_copy_eq | apply (S_CHAT_copy_eq m m) | apply S_CHAT_copy_eq | apply (C_ROOM_ENTER_copy_eq m m) | apply C_ROOM_ENTER_copy_eq | apply (S_ROOM_ENTER_copy_eq m m) | apply S_ROOM_ENTER_copy_eq | apply (S_ROOM_LEAVE_copy_eq m m) | apply S_ROOM_LEAVE_copy_eq | apply (S_ROOM_USER_ENTERED_copy_eq m m) | apply S_ROOM_USER_ENTERED_copy_eq | apply (S_ROOM_USER_LEFT_copy_eq m m) | apply S_ROOM_USER_LEFT_copy_eq | apply (C_MOVE_copy_eq m m) | apply C_MOVE_copy_eq | apply (MovedActor_copy_eq m m) | apply MovedActor_copy_eq | apply (S_MOVE_BROADCAST_copy_eq m m) | apply S_MOVE_BROADCAST_copy_eq].
Qed.

