(* ===== verification/Session.v ===== *)
(** * Sessions and sending

    Models [Core/ServerSession.h], [Core/ServerSession.cpp] and the counters of
    [Utils/ServerStats.h].  [Net] is the state these share: the session
    objects (by object identity), the pool of I/O contexts, the statistics, and
    the record of what was handed to the kernel.  A [shared_ptr<ServerSession>]
    is the identity of the session; the objects are never reused. *)
From S2P Require Import Prelude Bytes Platform ObjectPool Packet RecvBuffer Protobuf PbRuntimeDemo PacketPb.
Local Open Scope Z_scope.

(** ** I/O contexts *)

Inductive EIOType := RECV | SEND | ACCEPT.

(** What [wsaBuf.buf] points to. *)
Inductive BufRef := NullBuf | OwnBuf | SharedBuf | RecvBuf (off : Z).

Definition MAX_BUF_SIZE : Z := 4096.

Record IOContext := mkIOContext {
  ioType : EIOType;
  ctx_session : option nat;
  wsaBuf_buf : BufRef;
  wsaBuf_len : Z;
  ctx_buffer : list byte;
  sharedBuffer : option (list byte);
  acceptSocket : option Z }.

Definition IOContext_new (a : EIOType * option nat) : IOContext :=
  {| ioType := a.1; ctx_session := a.2; wsaBuf_buf := NullBuf; wsaBuf_len := 0;
     ctx_buffer := replicate (Z.to_nat MAX_BUF_SIZE) x00; sharedBuffer := None;
     acceptSocket := None |}.

Definition IOContext_Reset (a : EIOType * option nat) (c : IOContext) : IOContext :=
  {| ioType := a.1; ctx_session := a.2; wsaBuf_buf := NullBuf; wsaBuf_len := 0;
     ctx_buffer := ctx_buffer c; sharedBuffer := None; acceptSocket := None |}.

(** The bytes a [WSASend] of this context transmits. *)
Definition wsa_bytes (c : IOContext) : list byte :=
  match wsaBuf_buf c with
  | OwnBuf => take (Z.to_nat (wsaBuf_len c)) (ctx_buffer c)
  | SharedBuf => take (Z.to_nat (wsaBuf_len c)) (default [] (sharedBuffer c))
  | _ => []
  end.

Definition with_buffer (bs : list byte) (c : IOContext) : IOContext :=
  {| ioType := ioType c; ctx_session := ctx_session c; wsaBuf_buf := wsaBuf_buf c;
     wsaBuf_len := wsaBuf_len c; ctx_buffer := bs; sharedBuffer := sharedBuffer c;
     acceptSocket := acceptSocket c |}.

Definition with_wsaBuf (b : BufRef) (len : Z) (c : IOContext) : IOContext :=
  {| ioType := ioType c; ctx_session := ctx_session c; wsaBuf_buf := b;
     wsaBuf_len := len; ctx_buffer := ctx_buffer c; sharedBuffer := sharedBuffer c;
     acceptSocket := acceptSocket c |}.

Definition with_shared (bs : list byte) (c : IOContext) : IOContext :=
  {| ioType := ioType c; ctx_session := ctx_session c; wsaBuf_buf := wsaBuf_buf c;
     wsaBuf_len := wsaBuf_len c; ctx_buffer := ctx_buffer c; sharedBuffer := Some bs;
     acceptSocket := acceptSocket c |}.

(** ** Statistics *)

(** The [std::atomic<uint64_t>] counters; [fetch_add] and [fetch_sub] wrap. *)
Record ServerStats := mkServerStats {
  totalConnections : Z;
  currentConnections : Z;
  totalPacketsReceived : Z;
  totalPacketsSent : Z;
  totalBytesReceived : Z;
  totalBytesSent : Z;
  totalRateLimitRejections : Z;
  totalOversizedPacketRejections : Z;
  totalPolicyConnectionRejections : Z }.

Definition ServerStats_new : ServerStats := mkServerStats 0 0 0 0 0 0 0 0 0.

(** ** Sessions *)

Definition RECV_BUF_CAPACITY : Z := 8192.

Record Session := mkSession {
  m_sock : option Z;
  m_disconnected : bool;
  m_sessionId : Z;
  m_accountId : string;
  m_room : option nat;
  m_lastActivityMs : Z;
  m_rateBurst : Z;
  m_rateTokens : Z;
  m_lastRefillMs : Z;
  m_recvBuffer : RecvBuffer;
  m_recvContext : option IOContext }.

Definition Session_new : Session :=
  {| m_sock := None; m_disconnected := false; m_sessionId := 0; m_accountId := "";
     m_room := None; m_lastActivityMs := 0; m_rateBurst := 0; m_rateTokens := 0;
     m_lastRefillMs := 0; m_recvBuffer := RecvBuffer_new RECV_BUF_CAPACITY;
     m_recvContext := None |}.

Definition set_sock (v : option Z) (s : Session) : Session :=
  mkSession v (m_disconnected s) (m_sessionId s) (m_accountId s) (m_room s)
    (m_lastActivityMs s) (m_rateBurst s) (m_rateTokens s) (m_lastRefillMs s)
    (m_recvBuffer s) (m_recvContext s).
Definition set_disconnected (v : bool) (s : Session) : Session :=
  mkSession (m_sock s) v (m_sessionId s) (m_accountId s) (m_room s)
    (m_lastActivityMs s) (m_rateBurst s) (m_rateTokens s) (m_lastRefillMs s)
    (m_recvBuffer s) (m_recvContext s).
Definition SetSessionId (v : Z) (s : Session) : Session :=
  mkSession (m_sock s) (m_disconnected s) v (m_accountId s) (m_room s)
    (m_lastActivityMs s) (m_rateBurst s) (m_rateTokens s) (m_lastRefillMs s)
    (m_recvBuffer s) (m_recvContext s).
Definition SetAccountId (v : string) (s : Session) : Session :=
  mkSession (m_sock s) (m_disconnected s) (m_sessionId s) v (m_room s)
    (m_lastActivityMs s) (m_rateBurst s) (m_rateTokens s) (m_lastRefillMs s)
    (m_recvBuffer s) (m_recvContext s).
Definition SetRoom (v : option nat) (s : Session) : Session :=
  mkSession (m_sock s) (m_disconnected s) (m_sessionId s) (m_accountId s) v
    (m_lastActivityMs s) (m_rateBurst s) (m_rateTokens s) (m_lastRefillMs s)
    (m_recvBuffer s) (m_recvContext s).
Definition set_lastActivity (v : Z) (s : Session) : Session :=
  mkSession (m_sock s) (m_disconnected s) (m_sessionId s) (m_accountId s) (m_room s)
    v (m_rateBurst s) (m_rateTokens s) (m_lastRefillMs s)
    (m_recvBuffer s) (m_recvContext s).
Definition set_rate (burst tokens refill : Z) (s : Session) : Session :=
  mkSession (m_sock s) (m_disconnected s) (m_sessionId s) (m_accountId s) (m_room s)
    (m_lastActivityMs s) burst tokens refill (m_recvBuffer s) (m_recvContext s).
Definition set_recvBuffer (v : RecvBuffer) (s : Session) : Session :=
  mkSession (m_sock s) (m_disconnected s) (m_sessionId s) (m_accountId s) (m_room s)
    (m_lastActivityMs s) (m_rateBurst s) (m_rateTokens s) (m_lastRefillMs s)
    v (m_recvContext s).
Definition set_recvContext (v : option IOContext) (s : Session) : Session :=
  mkSession (m_sock s) (m_disconnected s) (m_sessionId s) (m_accountId s) (m_room s)
    (m_lastActivityMs s) (m_rateBurst s) (m_rateTokens s) (m_lastRefillMs s)
    (m_recvBuffer s) v.

(** ** The shared state *)

Record Net := mkNet {
  sessions : gmap nat Session;
  pool : ObjectPool IOContext;
  stats : ServerStats;
  (** Contexts handed to [WSASend] whose completion is outstanding. *)
  inflight : list nat;
  (** Every accepted [WSASend], with its socket, oldest first. *)
  wire : list (option Z * list byte);
  (** Every [closesocket], oldest first. *)
  closed : list Z;
  (** How often the environment was consulted. *)
  n_sends : nat;
  n_steady : nat;
  n_system : nat;
  n_recvs : nat;
  (** The sessions whose [WSARecv] is outstanding. *)
  rx_pending : list nat }.

Definition Net_new : Net :=
  {| sessions := ∅; pool := ObjectPool_new; stats := ServerStats_new; inflight := [];
     wire := []; closed := []; n_sends := 0; n_steady := 0; n_system := 0;
     n_recvs := 0; rx_pending := [] |}.

Definition sess (s : nat) (n : Net) : Session := default Session_new (sessions n !! s).

Definition upd_session (s : nat) (f : Session → Session) (n : Net) : Net :=
  mkNet (<[s := f (sess s n)]> (sessions n)) (pool n) (stats n) (inflight n) (wire n)
    (closed n) (n_sends n) (n_steady n) (n_system n) (n_recvs n) (rx_pending n).
Definition set_pool (p : ObjectPool IOContext) (n : Net) : Net :=
  mkNet (sessions n) p (stats n) (inflight n) (wire n) (closed n)
    (n_sends n) (n_steady n) (n_system n) (n_recvs n) (rx_pending n).
Definition set_stats (st : ServerStats) (n : Net) : Net :=
  mkNet (sessions n) (pool n) st (inflight n) (wire n) (closed n)
    (n_sends n) (n_steady n) (n_system n) (n_recvs n) (rx_pending n).
Definition set_inflight (l : list nat) (n : Net) : Net :=
  mkNet (sessions n) (pool n) (stats n) l (wire n) (closed n)
    (n_sends n) (n_steady n) (n_system n) (n_recvs n) (rx_pending n).
Definition log_wire (e : option Z * list byte) (n : Net) : Net :=
  mkNet (sessions n) (pool n) (stats n) (inflight n) (wire n ++ [e]) (closed n)
    (n_sends n) (n_steady n) (n_system n) (n_recvs n) (rx_pending n).
Definition closesocket (sock : Z) (n : Net) : Net :=
  mkNet (sessions n) (pool n) (stats n) (inflight n) (wire n) (closed n ++ [sock])
    (n_sends n) (n_steady n) (n_system n) (n_recvs n) (rx_pending n).

Definition STATS_ADD_BytesSent (v : Z) (n : Net) : Net :=
  let t := stats n in
  set_stats (mkServerStats (totalConnections t) (currentConnections t)
    (totalPacketsReceived t) (totalPacketsSent t) (totalBytesReceived t)
    (u64 (totalBytesSent t + v)) (totalRateLimitRejections t)
    (totalOversizedPacketRejections t) (totalPolicyConnectionRejections t)) n.
Definition STATS_INC_PacketsSent (n : Net) : Net :=
  let t := stats n in
  set_stats (mkServerStats (totalConnections t) (currentConnections t)
    (totalPacketsReceived t) (u64 (totalPacketsSent t + 1)) (totalBytesReceived t)
    (totalBytesSent t) (totalRateLimitRejections t)
    (totalOversizedPacketRejections t) (totalPolicyConnectionRejections t)) n.

Section session.
Context `{Platform}.

(** A reading of [steady_clock], in ms. *)
Definition NowMs (n : Net) : Z * Net :=
  (steady_ms (n_steady n),
   mkNet (sessions n) (pool n) (stats n) (inflight n) (wire n) (closed n)
     (n_sends n) (S (n_steady n)) (n_system n) (n_recvs n) (rx_pending n)).

(** A reading of [system_clock], in ms. *)
Definition UnixTimeMsNow (n : Net) : Z * Net :=
  (system_ms (n_system n),
   mkNet (sessions n) (pool n) (stats n) (inflight n) (wire n) (closed n)
     (n_sends n) (n_steady n) (S (n_system n)) (n_recvs n) (rx_pending n)).

Definition IsDisconnected (s : nat) (n : Net) : bool := m_disconnected (sess s n).
Definition GetRoom (s : nat) (n : Net) : option nat := m_room (sess s n).
Definition GetAccountId (s : nat) (n : Net) : string := m_accountId (sess s n).

Definition UpdateActivity (s : nat) (n : Net) : Net :=
  let '(now, n) := NowMs n in upd_session s (set_lastActivity now) n.

Definition IsTimedOut (s : nat) (timeoutMs : Z) (n : Net) : bool * Net :=
  let '(now, n) := NowMs n in
  (bool_decide (now - m_lastActivityMs (sess s n) > timeoutMs), n).

(** [Init]: the receive context it creates holds a [shared_ptr] to the
    session itself. *)
Definition Session_Init (s : nat) (socket : Z) (n : Net) : Net :=
  let n := upd_session s (set_sock (Some socket)) n in
  let n := UpdateActivity s n in
  upd_session s (set_recvContext (Some (IOContext_new (RECV, Some s)))) n.

Definition Disconnect (s : nat) (n : Net) : bool * Net :=
  let already := m_disconnected (sess s n) in
  let n := upd_session s (set_disconnected true) n in
  match already, m_sock (sess s n) with
  | false, Some sock => (true, upd_session s (set_sock None) (closesocket sock n))
  | _, _ => (negb already, n)
  end.

(** *** The token bucket *)

Definition InitRateLimit_at (now ratePerSec : Z) (s : Session) : Session :=
  set_rate (i32 (ratePerSec * 2)) (i32 (ratePerSec * 2)) now s.

Definition InitRateLimit (s : nat) (ratePerSec : Z) (n : Net) : Net :=
  let '(now, n) := NowMs n in upd_session s (InitRateLimit_at now ratePerSec) n.

Definition CheckRateLimit_at (now : Z) (s : Session) : bool * Session :=
  let elapsed := now - m_lastRefillMs s in
  let s :=
    if decide (elapsed > 0 ∧ m_rateBurst s > 0) then
      let refill := i32 (Z.quot (i64 (elapsed * Z.quot (m_rateBurst s) 2)) 1000) in
      if decide (refill > 0)
      then set_rate (m_rateBurst s) (Z.min (m_rateBurst s) (i32 (m_rateTokens s + refill))) now s
      else s
    else s in
  let prev := m_rateTokens s in
  (bool_decide (prev > 0),
   set_rate (m_rateBurst s) (i32 (prev - 1)) (m_lastRefillMs s) s).

Definition CheckRateLimit (s : nat) (n : Net) : bool * Net :=
  let '(now, n) := NowMs n in
  let '(ok, s') := CheckRateLimit_at now (sess s n) in
  (ok, upd_session s (λ _, s') n).

(** *** Sending *)

Definition pool_Allocate (ty : EIOType) (owner : option nat) (n : Net) : nat * Net :=
  let '(a, p) := Allocate IOContext_new IOContext_Reset (ty, owner) (pool n) in
  (a, set_pool p n).

Definition pool_Deallocate (a : nat) (n : Net) : Net :=
  set_pool (Deallocate (Some a) (pool n)) n.

Definition upd_ctx (a : nat) (f : IOContext → IOContext) (n : Net) : Net :=
  let p := pool n in
  set_pool {| heap := alter f a (heap p); m_pool := m_pool p; next_addr := next_addr p |} n.

Definition ctx_at (a : nat) (n : Net) : IOContext :=
  default (IOContext_new (SEND, None)) (heap (pool n) !! a).

(** [WSASend]: the outcome is the environment's. *)
Definition WSASend (sock : option Z) (a : nat) (n : Net) : bool * Net :=
  let bs := wsa_bytes (ctx_at a n) in
  let ok := wsa_send (n_sends n) sock bs in
  let n := mkNet (sessions n) (pool n) (stats n) (inflight n) (wire n) (closed n)
             (S (n_sends n)) (n_steady n) (n_system n) (n_recvs n) (rx_pending n) in
  (ok, if ok then set_inflight (inflight n ++ [a]) (log_wire (sock, bs) n) else n).

Definition PostSend (s a : nat) (n : Net) : Net :=
  if IsDisconnected s n then pool_Deallocate a n
  else
    let '(ok, n) := WSASend (m_sock (sess s n)) a n in
    if ok then n else (Disconnect s (pool_Deallocate a n)).2.

(** [SendInternal]; [Send] instantiates it through [PacketTraits]. *)
Definition SendInternal `{Message M} (s : nat) (id : Z) (message : M) (n : Net) : bool * Net :=
  if IsDisconnected s n then (false, n)
  else
    let payloadSize := i32 (ByteSizeLong message) in
    let totalSize := sizeof_PacketHeader + payloadSize in
    if decide (totalSize > MAX_BUF_SIZE) then (false, n)
    else
      let '(a, n) := pool_Allocate SEND (Some s) n in
      let h := {| packetSize := u16 payloadSize; packetId := id |} in
      let n := upd_ctx a (λ c, with_buffer (mem_write 0 (header_bytes h) (ctx_buffer c)) c) n in
      match SerializeToArray message payloadSize with
      | None => (false, pool_Deallocate a n)
      | Some bs =>
          let n := upd_ctx a (λ c, with_buffer
                     (mem_write sizeof_PacketHeader bs (ctx_buffer c)) c) n in
          let n := upd_ctx a (with_wsaBuf OwnBuf totalSize) n in
          let n := STATS_INC_PacketsSent (STATS_ADD_BytesSent (u64 totalSize) n) in
          (true, PostSend s a n)
      end.

Definition SendShared (s : nat) (packet : list byte) (n : Net) : bool * Net :=
  if IsDisconnected s n then (false, n)
  else
    let '(a, n) := pool_Allocate SEND (Some s) n in
    let n := upd_ctx a (λ c, with_wsaBuf SharedBuf (Z.of_nat (length packet))
                               (with_shared packet c)) n in
    let n := STATS_INC_PacketsSent (STATS_ADD_BytesSent (Z.of_nat (length packet)) n) in
    (true, PostSend s a n).

(** [data] is [None] for a null pointer. *)
Definition SendRaw (s : nat) (id : Z) (data : option (list byte)) (dataSize : Z) (n : Net)
    : bool * Net :=
  if IsDisconnected s n then (false, n)
  else
    let totalSize := sizeof_PacketHeader + dataSize in
    if decide (totalSize > MAX_BUF_SIZE) then (false, n)
    else
      let '(a, n) := pool_Allocate SEND (Some s) n in
      let h := {| packetSize := u16 dataSize; packetId := id |} in
      let n := upd_ctx a (λ c, with_buffer (mem_write 0 (header_bytes h) (ctx_buffer c)) c) n in
      let n :=
        match data with
        | Some d =>
            if decide (dataSize > 0)
            then upd_ctx a (λ c, with_buffer (mem_write sizeof_PacketHeader
                   (take (Z.to_nat dataSize) d) (ctx_buffer c)) c) n
            else n
        | None => n
        end in
      let n := upd_ctx a (with_wsaBuf OwnBuf totalSize) n in
      let n := STATS_INC_PacketsSent (STATS_ADD_BytesSent (u64 totalSize) n) in
      (true, PostSend s a n).

(** The send completion of [WorkerThread]. *)
Definition CompleteSend (a : nat) (n : Net) : Net :=
  pool_Deallocate a (set_inflight (us_erase a (inflight n)) n).
End session.

(** ** Basic facts about the state *)

Lemma sess_upd s f n : sess s (upd_session s f n) = f (sess s n).
Proof. unfold sess at 1. simpl. by rewrite lookup_insert_eq. Qed.

Lemma sess_upd_ne s t f n : s ≠ t → sess t (upd_session s f n) = sess t n.
Proof. intros. unfold sess. simpl. by rewrite lookup_insert_ne. Qed.

Lemma sess_upd_dec s t f n :
  sess t (upd_session s f n) = if decide (s = t) then f (sess t n) else sess t n.
Proof. case_decide; subst; [apply sess_upd|by apply sess_upd_ne]. Qed.

Lemma sess_closesocket k t n : sess t (closesocket k n) = sess t n.
Proof. done. Qed.

#[export] Hint Rewrite sess_upd : server.

(** Everything about a session except its connection. *)
Definition core (x : Session) : Session := set_sock None (set_disconnected true x).

(** What sending can change: sessions may lose their connection, bytes are
    appended to the wire, sent packets are counted; nothing else. *)
Record sends (n n' : Net) : Prop := {
  sends_core : ∀ s, core (sess s n') = core (sess s n);
  sends_disc : ∀ s, m_disconnected (sess s n) = true → m_disconnected (sess s n') = true;
  sends_sock : ∀ s, m_disconnected (sess s n') = false → m_sock (sess s n') = m_sock (sess s n);
  sends_wire : wire n `prefix_of` wire n';
  sends_conns : currentConnections (stats n') = currentConnections (stats n)
                ∧ totalConnections (stats n') = totalConnections (stats n)
                ∧ totalPacketsReceived (stats n') = totalPacketsReceived (stats n)
                ∧ totalBytesReceived (stats n') = totalBytesReceived (stats n);
  sends_clock : n_steady n' = n_steady n ∧ n_system n' = n_system n;
  sends_recv : n_recvs n' = n_recvs n ∧ rx_pending n' = rx_pending n }.

#[export] Instance sends_preorder : PreOrder sends.
Proof.
  split.
  - intros n. by split.
  - intros n1 n2 n3 [A1 A2 A2' A3 A4 A5 A6] [B1 B2 B2' B3 B4 B5 B6]. split.
    + intros s. by rewrite B1, A1.
    + eauto.
    + intros s Hs. rewrite B2', A2'; [done| |done].
      apply not_true_iff_false. intros Hd%B2. congruence.
    + by etrans.
    + naive_solver congruence.
    + naive_solver congruence.
    + naive_solver congruence.
Qed.

Section sends_facts.
Context {n n' : Net} (Hs : sends n n').

Lemma sends_field {A} (f : Session → A) s :
  (∀ x, f (core x) = f x) → f (sess s n') = f (sess s n).
Proof. intros Hf. by rewrite <- Hf, (sends_core _ _ Hs), Hf. Qed.

Lemma sends_account s : m_accountId (sess s n') = m_accountId (sess s n).
Proof. by apply sends_field. Qed.
Lemma sends_room s : m_room (sess s n') = m_room (sess s n).
Proof. by apply sends_field. Qed.
Lemma sends_recvBuffer s : m_recvBuffer (sess s n') = m_recvBuffer (sess s n).
Proof. by apply sends_field. Qed.
Lemma sends_sessionId s : m_sessionId (sess s n') = m_sessionId (sess s n).
Proof. by apply sends_field. Qed.
End sends_facts.

Section sending_facts.
Context `{Platform}.

Lemma sends_set_pool p n : sends n (set_pool p n).
Proof. by split. Qed.

Lemma sends_bytes v n : sends n (STATS_INC_PacketsSent (STATS_ADD_BytesSent v n)).
Proof. by split. Qed.

Lemma Disconnect_sends s n : sends n (Disconnect s n).2.
Proof.
  unfold Disconnect.
  set (n1 := upd_session s (set_disconnected true) n).
  assert (H1 : sends n n1).
  { unfold n1. split; try done; intros t; rewrite sess_upd_dec; by case_decide. }
  destruct (m_disconnected (sess s n)), (m_sock (sess s n1)) as [sock|]; try done.
  etrans; [exact H1|]. split; try done; intros t; cbn [snd];
    rewrite sess_upd_dec; case_decide; try done. subst t. unfold n1.
  by rewrite sess_closesocket, sess_upd.
Qed.

Lemma Disconnect_disconnected s n : m_disconnected (sess s (Disconnect s n).2) = true.
Proof.
  unfold Disconnect. repeat case_match; simpl; rewrite ?sess_upd; try done.
  unfold sess in *. simpl in *. by rewrite !lookup_insert_eq.
Qed.

Lemma PostSend_sends s a n : sends n (PostSend s a n).
Proof.
  unfold PostSend. destruct (IsDisconnected s n); [apply sends_set_pool|].
  unfold WSASend. destruct (wsa_send _ _ _).
  - split; try done. simpl. by apply prefix_app_r.
  - etrans; [|apply Disconnect_sends]. by split.
Qed.

Lemma pool_Allocate_sends ty o n a n' : pool_Allocate ty o n = (a, n') → sends n n'.
Proof.
  unfold pool_Allocate. destruct (Allocate _ _ _ _) as [b p]. intros [= <- <-].
  apply sends_set_pool.
Qed.

Lemma SendInternal_sends `{Message M} s id (m : M) n : sends n (SendInternal s id m n).2.
Proof.
  unfold SendInternal. destruct (IsDisconnected s n); [done|].
  case_decide; [done|].
  destruct (pool_Allocate _ _ _) as [a n1] eqn:E. apply pool_Allocate_sends in E.
  destruct (SerializeToArray m _); simpl; etrans; try exact E.
  - etrans; [|apply PostSend_sends]. by split.
  - by split.
Qed.

Lemma SendShared_sends s bs n : sends n (SendShared s bs n).2.
Proof.
  unfold SendShared. destruct (IsDisconnected s n); [done|].
  destruct (pool_Allocate _ _ _) as [a n1] eqn:E. apply pool_Allocate_sends in E.
  simpl. etrans; [exact E|]. etrans; [|apply PostSend_sends]. by split.
Qed.

Lemma SendRaw_sends s id d k n : sends n (SendRaw s id d k n).2.
Proof.
  unfold SendRaw. destruct (IsDisconnected s n); [done|]. case_decide; [done|].
  destruct (pool_Allocate _ _ _) as [a n1] eqn:E. apply pool_Allocate_sends in E.
  simpl. etrans; [exact E|]. etrans; [|apply PostSend_sends].
  destruct d; [case_decide|]; by split.
Qed.
End sending_facts.

#[export] Hint Resolve Disconnect_sends PostSend_sends SendInternal_sends SendShared_sends
  SendRaw_sends : server.

(** ** Contexts are owned by one party at a time *)

(** Only sends take their contexts from the pool. *)
Definition bufs_ok (n : Net) : Prop :=
  ∀ a c, heap (pool n) !! a = Some c →
    ioType c = SEND ∧ Z.of_nat (length (ctx_buffer c)) = MAX_BUF_SIZE.

(** The contexts in flight are in use, all others are pooled. *)
Record net_wf (n : Net) : Prop := {
  net_pool : pool_wf (inflight n) (pool n);
  net_bufs : bufs_ok n }.

(** Context [a] has been allocated and not been posted yet. *)
Record owned (a : nat) (n : Net) : Prop := {
  owned_pool : pool_wf (a :: inflight n) (pool n);
  owned_bufs : bufs_ok n }.

Section frames.
Context `{Platform}.

Lemma net_wf_new : net_wf Net_new.
Proof. split; [apply pool_wf_new|]. intros a c. simpl. by rewrite lookup_empty. Qed.

Lemma pool_Allocate_owned o n a n' :
  net_wf n → pool_Allocate SEND o n = (a, n') →
  owned a n' ∧ ∃ p, n' = set_pool p n.
Proof.
  intros [Hp Hb]. unfold pool_Allocate. destruct (Allocate _ _ _ _) as [b p] eqn:E.
  intros [= <- <-]. split; [|by eexists].
  split; [by eapply Allocate_wf|]. intros x c. simpl.
  unfold Allocate in E. destruct (m_pool (pool n)); simplify_eq; simpl.
  - rewrite lookup_insert. case_decide; intros; simplify_eq; [done|by eapply Hb].
  - rewrite lookup_alter. case_decide; [|by apply Hb]. subst.
    destruct (heap (pool n) !! x) as [c'|] eqn:Ex; simpl; intros; simplify_eq.
    split; [done|]. apply (Hb x c' Ex).
Qed.

Lemma owned_live a n : owned a n → is_Some (heap (pool n) !! a).
Proof. intros [[_ Hl _] _]. apply Hl. set_solver. Qed.

Lemma owned_buffer a n :
  owned a n → Z.of_nat (length (ctx_buffer (ctx_at a n))) = MAX_BUF_SIZE.
Proof.
  intros Ho. destruct (owned_live a n Ho) as [c E]. unfold ctx_at. rewrite E.
  by apply (owned_bufs _ _ Ho a c).
Qed.

Definition live (a : nat) (n : Net) : Prop := is_Some (heap (pool n) !! a).

Lemma live_upd a f n : live a n → live a (upd_ctx a f n).
Proof. unfold live. simpl. by rewrite lookup_alter_eq, fmap_is_Some. Qed.

Lemma ctx_at_upd a f n : live a n → ctx_at a (upd_ctx a f n) = f (ctx_at a n).
Proof.
  intros [c E]. unfold ctx_at. simpl. by rewrite lookup_alter_eq, E.
Qed.

Lemma upd_ctx_owned a f n :
  (∀ c, ioType (f c) = ioType c ∧ length (ctx_buffer (f c)) = length (ctx_buffer c)) →
  owned a n → owned a (upd_ctx a f n).
Proof.
  intros Hf [[H1 H2 H3] Hb]. split; [split|]; simpl.
  - done.
  - intros x. rewrite lookup_alter. case_decide; subst; [|apply H2].
    rewrite fmap_is_Some. apply H2.
  - intros x. rewrite lookup_alter. case_decide; subst; [|apply H3].
    rewrite fmap_is_Some. apply H3.
  - intros x c. simpl. rewrite lookup_alter. case_decide; subst; [|apply Hb].
    destruct (heap (pool n) !! x) eqn:E; simpl; intros; simplify_eq.
    match goal with H : heap _ !! x = Some ?c0 |- _ => destruct (Hf c0) as [-> ->]; exact (Hb x c0 H) end.
Qed.

Lemma owned_stats a st n : owned a n → owned a (set_stats st n).
Proof. by intros []. Qed.

Lemma pool_Deallocate_wf a n : owned a n → net_wf (pool_Deallocate a n).
Proof. intros [Hp Hb]. split; [by apply Deallocate_wf|done]. Qed.

Lemma Disconnect_wf s n : net_wf n → net_wf (Disconnect s n).2.
Proof.
  intros [Hp Hb]. unfold Disconnect. repeat case_match; by split.
Qed.

Lemma Disconnect_inflight s n :
  inflight (Disconnect s n).2 = inflight n ∧ pool (Disconnect s n).2 = pool n.
Proof. unfold Disconnect. by repeat case_match. Qed.

(** A context is in flight until its completion gives it back. *)
Lemma CompleteSend_wf a n : net_wf n → a ∈ inflight n → net_wf (CompleteSend a n).
Proof.
  intros [Hp Hb] Ha. split; [|exact Hb]. apply Deallocate_wf.
  eapply pool_wf_perm; [|exact Hp]. apply us_erase_perm; [|done].
  destruct Hp as [Hnd _ _]. by apply NoDup_app in Hnd as [? _].
Qed.

Lemma Disconnect_ne s t n : t ≠ s → sess t (Disconnect s n).2 = sess t n.
Proof.
  intros Ht. unfold Disconnect.
  repeat case_match; cbn [snd]; 
    repeat first [rewrite sess_upd_ne by done | rewrite sess_closesocket]; done.
Qed.

(** What happens to a frame handed to [PostSend]. *)
Definition transmitted (s : nat) (frame : list byte) (n n' : Net) : Prop :=
  if wsa_send (n_sends n) (m_sock (sess s n)) frame
  then wire n' = wire n ++ [(m_sock (sess s n), frame)] ∧ sessions n' = sessions n
  else wire n' = wire n ∧ IsDisconnected s n' = true ∧ ∀ t, t ≠ s → sess t n' = sess t n.

Lemma PostSend_spec s a n :
  owned a n → IsDisconnected s n = false →
  net_wf (PostSend s a n) ∧ transmitted s (wsa_bytes (ctx_at a n)) n (PostSend s a n).
Proof.
  intros Ho Hd. unfold PostSend, transmitted. rewrite Hd. unfold WSASend.
  destruct (wsa_send _ _ _) eqn:E.
  - split; [|done]. destruct Ho as [Hp Hb]. split; [|done]. simpl.
    eapply pool_wf_perm; [|exact Hp]. apply Permutation_cons_append.
  - split.
    + apply Disconnect_wf, pool_Deallocate_wf. by destruct Ho; split.
    + split; [|split; [apply Disconnect_disconnected|]].
      2:{ intros t Ht. by rewrite Disconnect_ne. }
      unfold Disconnect. by repeat case_match.
Qed.

Lemma PostSend_wf s a n : owned a n → net_wf (PostSend s a n).
Proof.
  intros Ho. destruct (IsDisconnected s n) eqn:E.
  - unfold PostSend. rewrite E. by apply pool_Deallocate_wf.
  - by apply PostSend_spec.
Qed.

Lemma transmitted_ext s frame n n0 n' :
  sessions n0 = sessions n → wire n0 = wire n → n_sends n0 = n_sends n →
  transmitted s frame n0 n' → transmitted s frame n n'.
Proof.
  unfold transmitted, sess. intros -> -> ->. by destruct (wsa_send _ _ _).
Qed.

(** The bytes of a header and a payload written into a recycled buffer. *)
Lemma framed_buffer h payload buf :
  Z.of_nat (length buf) = MAX_BUF_SIZE →
  sizeof_PacketHeader + Z.of_nat (length payload) ≤ MAX_BUF_SIZE →
  take (Z.to_nat (sizeof_PacketHeader + Z.of_nat (length payload)))
    (mem_write sizeof_PacketHeader payload (mem_write 0 (header_bytes h) buf))
  = header_bytes h ++ payload.
Proof.
  unfold MAX_BUF_SIZE, sizeof_PacketHeader. intros Hb Hl.
  rewrite mem_write_split
    by (unfold in_range; rewrite length_mem_write; lia).
  assert (Ht : take (Z.to_nat 4) (mem_write 0 (header_bytes h) buf) = header_bytes h).
  { rewrite mem_write_split by (unfold in_range; rewrite length_header_bytes; lia).
    change (Z.to_nat 0) with 0%nat. rewrite take_0, app_nil_l. by apply take_app_exact. }
  rewrite Ht, app_assoc. apply take_app_exact.
  rewrite length_app, length_header_bytes. lia.
Qed.

Lemma header_frame id payload :
  0 ≤ id < 65536 → Z.of_nat (length payload) < 65536 →
  frames (header_bytes {| packetSize := u16 (Z.of_nat (length payload)); packetId := id |}
            ++ payload)
  = ([header_bytes {| packetSize := u16 (Z.of_nat (length payload)); packetId := id |}
        ++ payload], []).
Proof.
  intros Hi Hl. rewrite u16_id by lia.
  set (h := {| packetSize := Z.of_nat (length payload); packetId := id |}).
  rewrite frames_unfold. unfold split_frame, sizeof_PacketHeader.
  rewrite header_at_bytes by (simpl; lia). rewrite length_app, length_header_bytes.
  rewrite !decide_False by (simpl; lia).
  rewrite take_ge, drop_ge by (rewrite length_app, length_header_bytes; simpl; lia).
  by rewrite frames_unfold.
Qed.

(** A context that holds a header and a payload transmits that frame. *)
Lemma posted_frame s a id payload n n2 :
  owned a n2 → IsDisconnected s n = false → 0 ≤ id < 65536 →
  sizeof_PacketHeader + Z.of_nat (length payload) ≤ MAX_BUF_SIZE →
  sessions n2 = sessions n → wire n2 = wire n → n_sends n2 = n_sends n →
  let h := {| packetSize := u16 (Z.of_nat (length payload)); packetId := id |} in
  wsa_bytes (ctx_at a n2) = header_bytes h ++ payload →
  net_wf (PostSend s a n2)
  ∧ transmitted s (header_bytes h ++ payload) n (PostSend s a n2)
  ∧ frames (header_bytes h ++ payload) = ([header_bytes h ++ payload], []).
Proof.
  intros Ho Hd Hid Hl Es Ew En h Hw. unfold sizeof_PacketHeader, MAX_BUF_SIZE in Hl.
  assert (Hd2 : IsDisconnected s n2 = false) by (unfold IsDisconnected, sess; by rewrite Es).
  destruct (PostSend_spec s a n2 Ho Hd2) as [Hwf' Ht]. rewrite Hw in Ht.
  split_and!; [done|by eapply transmitted_ext|apply header_frame; lia].
Qed.

(** Every way of sending keeps the contexts accounted for. *)
Ltac solve_owned := do 2 apply owned_stats; repeat apply upd_ctx_owned; try done;
  intros c; simpl; by rewrite ?length_mem_write.

Lemma SendInternal_wf `{Message M} s id (m : M) n : net_wf n → net_wf (SendInternal s id m n).2.
Proof.
  intros Hwf. unfold SendInternal. destruct (IsDisconnected s n); [done|]. case_decide; [done|].
  destruct (pool_Allocate _ _ _) as [a n1] eqn:E.
  destruct (pool_Allocate_owned _ _ _ _ Hwf E) as [Ho _].
  destruct (SerializeToArray _ _); cbn [snd].
  - apply PostSend_wf. solve_owned.
  - apply pool_Deallocate_wf. apply upd_ctx_owned; [|done].
    intros c. simpl. by rewrite length_mem_write.
Qed.

Lemma SendShared_wf s bs n : net_wf n → net_wf (SendShared s bs n).2.
Proof.
  intros Hwf. unfold SendShared. destruct (IsDisconnected s n); [done|].
  destruct (pool_Allocate _ _ _) as [a n1] eqn:E.
  destruct (pool_Allocate_owned _ _ _ _ Hwf E) as [Ho _].
  cbn [snd]. apply PostSend_wf. solve_owned.
Qed.

Lemma SendRaw_wf s id d k n : net_wf n → net_wf (SendRaw s id d k n).2.
Proof.
  intros Hwf. unfold SendRaw. destruct (IsDisconnected s n); [done|]. case_decide; [done|].
  destruct (pool_Allocate _ _ _) as [a n1] eqn:E.
  destruct (pool_Allocate_owned _ _ _ _ Hwf E) as [Ho _].
  cbn [snd]. apply PostSend_wf. destruct d; [case_decide|]; solve_owned.
Qed.

(** *** What happens to the contexts in flight *)

(** Of the sessions in [Q], those that lose their socket are connected ones in
    [P], and the sockets they lose are the ones closed, once each. *)
Record closes_of (Q P : nat → Prop) (l : list nat) (n n' : Net) : Prop := {
  cl_nodup : NoDup l;
  cl_who : ∀ s, s ∈ l → Q s ∧ P s ∧ IsDisconnected s n = false ∧ is_Some (m_sock (sess s n));
  cl_closed : closed n' = closed n ++ omap (λ s, m_sock (sess s n)) l;
  cl_sock : ∀ s, Q s → m_sock (sess s n') = if decide (s ∈ l) then None else m_sock (sess s n);
  cl_disc : ∀ s, Q s → IsDisconnected s n = true → IsDisconnected s n' = true }.

Definition closes (Q P : nat → Prop) (n n' : Net) : Prop := ∃ l, closes_of Q P l n n'.

(** The sockets of the sessions in [l]. *)
Definition sockets (l : list nat) (n : Net) : list Z := omap (λ s, m_sock (sess s n)) l.

Lemma sockets_ext l n n' :
  (∀ s, s ∈ l → m_sock (sess s n') = m_sock (sess s n)) → sockets l n' = sockets l n.
Proof.
  intros E. unfold sockets. apply list_omap_ext, Forall_Forall2_diag, Forall_forall. done.
Qed.

Lemma closes_same (Q P : nat → Prop) n n' :
  closed n' = closed n →
  (∀ s, Q s → m_sock (sess s n') = m_sock (sess s n)
              ∧ (IsDisconnected s n = true → IsDisconnected s n' = true)) →
  closes Q P n n'.
Proof.
  intros Ec Es. exists []. split; simpl.
  - apply NoDup_nil_2.
  - by intros s ?%elem_of_nil.
  - by rewrite app_nil_r.
  - intros s Hs. apply Es, Hs.
  - intros s Hs. apply Es, Hs.
Qed.

(** [P] may shrink to [P'] on the way, as far as connected sessions go. *)
Lemma closes_trans_weak (Q P P' : nat → Prop) n1 n2 n3 :
  (∀ s, Q s → P' s → IsDisconnected s n2 = false → P s) →
  closes Q P n1 n2 → closes Q P' n2 n3 → closes Q P n1 n3.
Proof.
  intros HP [l1 [A1 A2 A3 A4 A5]] [l2 [B1 B2 B3 B4 B5]].
  assert (Hd : ∀ s, s ∈ l2 → s ∉ l1 ∧ m_sock (sess s n2) = m_sock (sess s n1)
    ∧ IsDisconnected s n1 = false).
  { intros s Hs. destruct (B2 s Hs) as (Hq & _ & Hn & Hk).
    rewrite A4 in Hk |- * by done. case_decide; [by destruct Hk|]. split_and!; [done..|].
    destruct (IsDisconnected s n1) eqn:E; [|done]. by rewrite A5 in Hn by done. }
  exists (l1 ++ l2). split.
  - apply NoDup_app. split_and!; [done| |done]. intros s H1 H2. by destruct (Hd s H2).
  - intros s [Hs|Hs]%elem_of_app; [by apply A2|]. destruct (B2 s Hs) as (Hq & Hp & Hn & Hk).
    destruct (Hd s Hs) as (_ & E & Hn1). rewrite E in Hk. split_and!; [done|by apply HP|done..].
  - rewrite B3, A3, omap_app, <- app_assoc. f_equal. f_equal.
    apply (sockets_ext l2 n1 n2). intros s Hs. by apply Hd.
  - intros s Hs. rewrite B4, A4 by done. repeat case_decide; try done; set_solver.
  - auto.
Qed.

#[export] Instance closes_preorder Q P : PreOrder (closes Q P).
Proof.
  split; [intros n; by apply closes_same|].
  intros n1 n2 n3. by apply closes_trans_weak.
Qed.

Lemma closes_mono (Q Q' P P' : nat → Prop) n n' :
  (∀ s, Q' s → Q s) → (∀ s, P s → P' s) → (∀ s, P s → Q' s) → closes Q P n n' → closes Q' P' n n'.
Proof.
  intros HQ HP HPQ [l [A1 A2 A3 A4 A5]]. exists l. split; auto.
  intros s Hs. destruct (A2 s Hs) as (_ & ? & ? & ?). split_and!; auto.
Qed.

Lemma Disconnect_closes (Q P : nat → Prop) s n : Q s → P s → closes Q P n (Disconnect s n).2.
Proof.
  intros Hq Hp. destruct (IsDisconnected s n) eqn:Hd.
  { unfold Disconnect. unfold IsDisconnected in Hd. rewrite Hd. apply closes_same; [done|].
    intros t _. simpl. unfold IsDisconnected. rewrite sess_upd_dec. by case_decide; subst. }
  destruct (m_sock (sess s n)) as [sock|] eqn:Es.
  - exists [s]. unfold Disconnect. unfold IsDisconnected in Hd. rewrite Hd, sess_upd. simpl. rewrite Es.
    split; simpl.
    + apply NoDup_singleton.
    + intros t ->%list_elem_of_singleton. split_and!; [done..|]. by rewrite Es.
    + by rewrite Es.
    + intros t _. rewrite sess_upd_dec. change (sess t (closesocket ?k ?x)) with (sess t x).
      destruct (decide (t ∈ [s])) as [Ht|Ht]; rewrite list_elem_of_singleton in Ht; subst.
      * by case_decide.
      * case_decide; [done|]. by rewrite sess_upd_ne.
    + intros t _. unfold IsDisconnected. rewrite sess_upd_dec.
      change (sess ?a (closesocket ?k ?x)) with (sess a x). rewrite !sess_upd_dec. by repeat case_decide.
  - unfold Disconnect. unfold IsDisconnected in Hd. rewrite Hd, sess_upd. simpl. rewrite Es.
    apply closes_same; [done|]. intros t _. simpl. unfold IsDisconnected. rewrite sess_upd_dec.
    by case_decide; subst.
Qed.

(** Sends are posted for sessions in [P]; what is in flight stays in flight,
    unchanged; a refused send closes the socket. *)
Record posts (P : nat → Prop) (n n' : Net) : Prop := {
  po_kept : ∀ a, a ∈ inflight n → a ∈ inflight n' ∧ ctx_at a n' = ctx_at a n;
  po_new : ∀ a, a ∈ inflight n' →
             a ∈ inflight n ∨ ∃ s, P s ∧ ctx_session (ctx_at a n') = Some s;
  po_closes : closes (λ _, True) P n n' }.

#[export] Instance posts_preorder P : PreOrder (posts P).
Proof.
  split; [by intros n; split; auto|]. intros n1 n2 n3 [A1 A2 A3] [B1 B2 B3]. split.
  - intros a [Ha E]%A1. destruct (B1 a Ha) as [? E']. split; [done|congruence].
  - intros a [Ha|?]%B2; [|by right]. destruct (B1 a Ha) as [_ E'].
    destruct (A2 a Ha) as [?|(s & Hs & E)]; [by left|]. right. exists s. by rewrite E'.
  - by etrans.
Qed.

Lemma posts_closes P n n' :
  inflight n' = inflight n → pool n' = pool n → closes (λ _, True) P n n' → posts P n n'.
Proof. intros Ei Ep Hc. split; [..|done]; unfold ctx_at; rewrite Ei, ?Ep; auto. Qed.

Lemma posts_same P n n' :
  inflight n' = inflight n → pool n' = pool n → closed n' = closed n → sessions n' = sessions n →
  posts P n n'.
Proof.
  intros Ei Ep Ec Es. apply posts_closes; [done..|]. apply closes_same; [done|].
  intros s _. unfold IsDisconnected, sess. by rewrite Es.
Qed.

Lemma posts_upd P s f n :
  (∀ x, m_sock (f x) = m_sock x ∧ m_disconnected (f x) = m_disconnected x) →
  posts P n (upd_session s f n).
Proof.
  intros Hf. apply posts_closes; [done..|]. apply closes_same; [done|]. intros t _.
  unfold IsDisconnected. destruct (decide (t = s)) as [->|]; [|by rewrite sess_upd_ne].
  rewrite sess_upd. destruct (Hf (sess s n)) as [-> ->]. done.
Qed.

Lemma Disconnect_posts (P : nat → Prop) s n : P s → posts P n (Disconnect s n).2.
Proof. intros Hs. apply posts_closes; [apply Disconnect_inflight..|by apply Disconnect_closes]. Qed.

(** Context [a] has been allocated for [s] since [n], and not been posted. *)
Record drafted (a s : nat) (n n1 : Net) : Prop := {
  dr_new : a ∉ inflight n;
  dr_inflight : inflight n1 = inflight n;
  dr_frame : ∀ b, b ∈ inflight n → ctx_at b n1 = ctx_at b n;
  dr_owner : ctx_session (ctx_at a n1) = Some s;
  dr_sessions : sessions n1 = sessions n ∧ closed n1 = closed n;
  dr_live : live a n1 }.

Lemma pool_Allocate_drafted ty s n a n1 :
  net_wf n → pool_Allocate ty (Some s) n = (a, n1) → drafted a s n n1.
Proof.
  intros [Hp Hb]. unfold pool_Allocate. destruct (Allocate _ _ _ _) as [b p] eqn:E.
  intros [= <- <-]. destruct (Allocate_wf _ _ _ _ _ _ _ Hp E) as [Hp' Hn]. split.
  - done.
  - done.
  - intros x Hx. unfold ctx_at. simpl. by rewrite (Allocate_frame _ _ _ _ _ _ _ _ Hp E Hx).
  - unfold ctx_at. simpl. destruct (Allocate_lookup _ _ _ _ _ _ _ Hp E) as [-> |[old ->]]; done.
  - done.
  - apply (pool_live _ _ Hp'). set_solver.
Qed.

Lemma drafted_upd a s f n n1 :
  (∀ c, ctx_session (f c) = ctx_session c) → drafted a s n n1 → drafted a s n (upd_ctx a f n1).
Proof.
  intros Hf [H1 H2 H3 H4 H5 H6]. split; [done|done| | |done|by apply live_upd].
  - intros b Hb. rewrite <- H3 by done. unfold ctx_at. simpl.
    rewrite lookup_alter_ne; [done|]. by intros ->.
  - by rewrite ctx_at_upd, Hf.
Qed.

Lemma drafted_stats a s st n n1 : drafted a s n n1 → drafted a s n (set_stats st n1).
Proof. by intros []. Qed.

Lemma drafted_dropped P a s n n1 : drafted a s n n1 → posts P n (pool_Deallocate a n1).
Proof.
  intros [H1 H2 H3 H4 [H5 H5'] H6]. split; simpl; rewrite ?H2; [|by left|].
  - intros b Hb. split; [done|]. rewrite <- H3 by done. done.
  - apply closes_same; [done|]. intros t _. unfold IsDisconnected, sess. simpl. by rewrite H5.
Qed.

Lemma PostSend_posts (P : nat → Prop) a s n n1 :
  P s → drafted a s n n1 → posts P n (PostSend s a n1).
Proof.
  intros Hs Hd. unfold PostSend. destruct (IsDisconnected s n1); [by eapply drafted_dropped|].
  unfold WSASend. destruct (wsa_send _ _ _).
  - destruct Hd as [H1 H2 H3 H4 [H5 H5'] H6]. split; simpl; rewrite ?H2.
    + intros b Hb. split; [set_solver|]. by apply H3.
    + intros b [Hb|Hb]%elem_of_app; [by left|]. apply list_elem_of_singleton in Hb as ->.
      right. by exists s.
    + apply closes_same; [done|]. intros t _. unfold IsDisconnected, sess. simpl. by rewrite H5.
  - destruct (Disconnect_inflight s (pool_Deallocate a
      (mkNet (sessions n1) (pool n1) (stats n1) (inflight n1) (wire n1) (closed n1)
         (S (n_sends n1)) (n_steady n1) (n_system n1) (n_recvs n1) (rx_pending n1)))) as [Ei Ep].
    etrans; [apply (drafted_dropped P a s n n1 Hd)|]. apply posts_closes; [done..|].
    etrans; [|by apply Disconnect_closes]. by apply closes_same.
Qed.

Ltac solve_drafted := do 2 apply drafted_stats; repeat (apply drafted_upd; [done|]); done.

Lemma SendInternal_posts `{Message M} (P : nat → Prop) s id (m : M) n :
  P s → net_wf n → posts P n (SendInternal s id m n).2.
Proof.
  intros Hs Hwf. unfold SendInternal. destruct (IsDisconnected s n); [done|]. case_decide; [done|].
  destruct (pool_Allocate _ _ _) as [a n1] eqn:E. apply pool_Allocate_drafted in E; [|done].
  destruct (SerializeToArray _ _); cbn [snd].
  - apply PostSend_posts; [done|]. solve_drafted.
  - eapply drafted_dropped. by apply drafted_upd.
Qed.

Lemma SendShared_posts (P : nat → Prop) s bs n :
  P s → net_wf n → posts P n (SendShared s bs n).2.
Proof.
  intros Hs Hwf. unfold SendShared. destruct (IsDisconnected s n); [done|].
  destruct (pool_Allocate _ _ _) as [a n1] eqn:E. apply pool_Allocate_drafted in E; [|done].
  cbn [snd]. apply PostSend_posts; [done|]. solve_drafted.
Qed.

Lemma SendRaw_posts (P : nat → Prop) s id d k n :
  P s → net_wf n → posts P n (SendRaw s id d k n).2.
Proof.
  intros Hs Hwf. unfold SendRaw. destruct (IsDisconnected s n); [done|]. case_decide; [done|].
  destruct (pool_Allocate _ _ _) as [a n1] eqn:E. apply pool_Allocate_drafted in E; [|done].
  cbn [snd]. apply PostSend_posts; [done|]. destruct d; [case_decide|]; solve_drafted.
Qed.

(** A shared buffer is transmitted whole. *)
Lemma SendShared_frame s bs n :
  net_wf n → IsDisconnected s n = false →
  transmitted s bs n (SendShared s bs n).2.
Proof.
  intros Hwf Hd. unfold SendShared. rewrite Hd.
  destruct (pool_Allocate _ _ _) as [a n1] eqn:E.
  destruct (pool_Allocate_owned _ _ _ _ Hwf E) as [Ho [p ->]]. cbn [snd].
  set (f := λ c, with_wsaBuf SharedBuf (Z.of_nat (length bs)) (with_shared bs c)).
  destruct (PostSend_spec s a (STATS_INC_PacketsSent (STATS_ADD_BytesSent
    (Z.of_nat (length bs)) (upd_ctx a f (set_pool p n))))) as [_ Ht]; [by solve_owned|done|].
  assert (Hw : wsa_bytes (ctx_at a (upd_ctx a f (set_pool p n))) = bs).
  { rewrite ctx_at_upd by (by apply owned_live). unfold wsa_bytes, f. simpl.
    by rewrite Nat2Z.id, firstn_all. }
  change (ctx_at a (STATS_INC_PacketsSent _)) with (ctx_at a (upd_ctx a f (set_pool p n))) in Ht.
  rewrite Hw in Ht. by eapply transmitted_ext; [..|exact Ht].
Qed.

(** A message that is sent goes out as exactly one well-formed frame: its
    header announces the payload, the payload is the serialized message, and
    the stale contents of the recycled context are not transmitted.  If the
    kernel refuses it, nothing is transmitted and the session is
    disconnected. *)
Lemma SendInternal_frame `{MessageLaws M ok} s id (m : M) n :
  net_wf n → ok m → 0 ≤ id < 65536 → IsDisconnected s n = false →
  sizeof_PacketHeader + ByteSizeLong m ≤ MAX_BUF_SIZE →
  let frame := header_bytes {| packetSize := u16 (ByteSizeLong m); packetId := id |}
               ++ Serialize m in
  let '(sent, n') := SendInternal s id m n in
  sent = true ∧ net_wf n' ∧ transmitted s frame n n' ∧ frames frame = ([frame], []).
Proof.
  unfold sizeof_PacketHeader, MAX_BUF_SIZE. intros Hwf Hok Hid Hd Hsz.
  pose proof (ByteSizeLong_length m Hok) as HB. unfold SendInternal. rewrite Hd.
  unfold sizeof_PacketHeader, MAX_BUF_SIZE. rewrite i32_id by lia.
  rewrite decide_False by lia. destruct (pool_Allocate _ _ _) as [a n1] eqn:E.
  destruct (pool_Allocate_owned _ _ _ _ Hwf E) as [Ho [p ->]].
  unfold SerializeToArray. rewrite decide_False by lia.
  split; [done|]. rewrite HB. rewrite HB in Hsz.
  apply posted_frame; try done.
  - do 2 apply owned_stats. repeat apply upd_ctx_owned; try done;
      intros c; simpl; by rewrite ?length_mem_write.
  - set (h := {| packetSize := _; packetId := id |}).
    match goal with |- context [ctx_at a ?n2] => change (ctx_at a n2) with
      (ctx_at a (upd_ctx a (with_wsaBuf OwnBuf (4 + Z.of_nat (length (Serialize m))))
        (upd_ctx a (λ c, with_buffer (mem_write 4 (Serialize m) (ctx_buffer c)) c)
          (upd_ctx a (λ c, with_buffer (mem_write 0 (header_bytes h) (ctx_buffer c)) c)
             (set_pool p n))))) end.
    rewrite !ctx_at_upd by (repeat apply live_upd; by apply owned_live).
    unfold wsa_bytes. simpl. apply framed_buffer; [by apply owned_buffer|].
    unfold sizeof_PacketHeader, MAX_BUF_SIZE. lia.
Qed.

(** Raw packets (pong, room list, room state, game start and result) go
    out the same way: one well-formed frame with exactly the given bytes. *)
Lemma SendRaw_frame s id (data : list byte) n :
  net_wf n → 0 ≤ id < 65536 → IsDisconnected s n = false →
  sizeof_PacketHeader + Z.of_nat (length data) ≤ MAX_BUF_SIZE →
  let len := Z.of_nat (length data) in
  let frame := header_bytes {| packetSize := u16 len; packetId := id |} ++ data in
  let '(sent, n') := SendRaw s id (Some data) len n in
  sent = true ∧ net_wf n' ∧ transmitted s frame n n' ∧ frames frame = ([frame], []).
Proof.
  intros Hwf Hid Hd Hsz. unfold SendRaw. rewrite Hd, decide_False by lia.
  destruct (pool_Allocate _ _ _) as [a n1] eqn:E.
  destruct (pool_Allocate_owned _ _ _ _ Hwf E) as [Ho [p ->]].
  split; [done|]. rewrite take_ge by lia.
  set (h := {| packetSize := _; packetId := id |}).
  set (f := λ c, with_buffer (mem_write 0 (header_bytes h) (ctx_buffer c)) c).
  apply posted_frame; try done; case_decide; try done.
  - do 2 apply owned_stats. repeat apply upd_ctx_owned; try done;
      intros c; simpl; by rewrite ?length_mem_write.
  - do 2 apply owned_stats. repeat apply upd_ctx_owned; try done;
      intros c; simpl; by rewrite ?length_mem_write.
  - change (ctx_at a ?n2) with (ctx_at a (upd_ctx a (with_wsaBuf OwnBuf
      (sizeof_PacketHeader + Z.of_nat (length data))) (upd_ctx a (λ c, with_buffer
      (mem_write sizeof_PacketHeader data (ctx_buffer c)) c) (upd_ctx a f (set_pool p n))))).
    rewrite !ctx_at_upd by (repeat apply live_upd; by apply owned_live).
    apply framed_buffer; [by apply owned_buffer|done].
  - change (ctx_at a ?n2) with (ctx_at a (upd_ctx a (with_wsaBuf OwnBuf
      (sizeof_PacketHeader + Z.of_nat (length data))) (upd_ctx a f (set_pool p n)))).
    rewrite !ctx_at_upd by (repeat apply live_upd; by apply owned_live).
    assert (data = []) as -> by (destruct data; [done|simpl in *; lia]).
    etrans; [|apply (framed_buffer h [] _ (owned_buffer a _ Ho)); done].
    by rewrite mem_write_nil.
Qed.
End frames.

Section connection.
Context `{Platform}.

(** A second [Disconnect] changes nothing at all. *)
Lemma Disconnect_again s n : IsDisconnected s n = true → Disconnect s n = (false, n).
Proof.
  unfold IsDisconnected, sess. destruct (sessions n !! s) as [x|] eqn:Ex; [|done]. simpl. intros Hx.
  unfold Disconnect, sess. rewrite Ex. simpl. rewrite Hx.
  assert (upd_session s (set_disconnected true) n = n) as ->; [|done].
  unfold upd_session. destruct n; simpl in *. f_equal. apply insert_id.
  unfold sess; simpl. rewrite Ex. simpl. by destruct x; simpl in *; subst.
Qed.

(** The first one closes the socket. *)
Lemma Disconnect_first s n :
  IsDisconnected s n = false →
  (Disconnect s n).1 = true
  ∧ sess s (Disconnect s n).2 = set_sock None (set_disconnected true (sess s n))
  ∧ closed (Disconnect s n).2 = closed n ++ option_list (m_sock (sess s n))
  ∧ stats (Disconnect s n).2 = stats n.
Proof.
  unfold IsDisconnected, Disconnect. rewrite sess_upd. intros ->. simpl.
  destruct (m_sock (sess s n)) as [sk|] eqn:Hs; cbn [fst snd].
  - rewrite sess_upd. change (sess s (closesocket ?k ?x)) with (sess s x). by rewrite sess_upd.
  - rewrite sess_upd. simpl. rewrite app_nil_r. split_and!; try done.
    by destruct (sess s n); simpl in *; subst.
Qed.

(** The socket of a session is closed at most once: [Disconnect] reports
    [true] exactly on the call that changes the session from connected to
    disconnected, that call closes the socket, and every later call changes
    nothing at all. *)
Theorem Disconnect_once s n :
  let '(first, n1) := Disconnect s n in
  first = negb (IsDisconnected s n)
  ∧ m_sock (sess s n1) = (if first then None else m_sock (sess s n))
  ∧ closed n1 = closed n ++ (if first then option_list (m_sock (sess s n)) else [])
  ∧ Disconnect s n1 = (false, n1).
Proof.
  destruct (IsDisconnected s n) eqn:Hd.
  - rewrite Disconnect_again by done. rewrite app_nil_r. by rewrite Disconnect_again.
  - pose proof (Disconnect_first s n Hd) as (Hb & Hx & Hc & _).
    pose proof (Disconnect_disconnected s n) as Hd'.
    destruct (Disconnect s n) as [b n1]. cbn [fst snd] in *. subst b. rewrite Hx.
    split_and!; [done..|]. by apply Disconnect_again.
Qed.

(** *** The token bucket *)

Fixpoint bucket (nows : list Z) (s : Session) : list bool * Session :=
  match nows with
  | [] => ([], s)
  | now :: nows =>
      let '(ok, s) := CheckRateLimit_at now s in
      let '(oks, s) := bucket nows s in (ok :: oks, s)
  end.

Definition admitted (oks : list bool) : Z := Z.of_nat (length (filter Is_true oks)).
#[local] Arguments admitted : simpl never.

(** The bucket of rate [r] with [k] more calls and [w] ms to come in range. *)
Record bucket_ok (r k w : Z) (s : Session) : Prop := {
  bk_burst : m_rateBurst s = 2 * r;
  bk_low : - 1000000000 + k ≤ m_rateTokens s;
  bk_high : m_rateTokens s ≤ 2 * r;
  bk_r : 0 ≤ r ≤ 500000000;
  bk_k : 0 ≤ k;
  bk_w : r * w ≤ 1000000000000 }.

Lemma CheckRateLimit_at_step r k w now s :
  bucket_ok r (1 + k) w s → 0 ≤ k → m_lastRefillMs s ≤ now → now - m_lastRefillMs s ≤ w →
  let '(ok, s') := CheckRateLimit_at now s in
  ∃ d, 0 ≤ d ≤ now - m_lastRefillMs s
    ∧ m_lastRefillMs s' = m_lastRefillMs s + d
    ∧ bucket_ok r k (w - d) s'
    ∧ 1000 * (if ok then 1 else 0) + 1000 * Z.max 0 (m_rateTokens s')
      ≤ 1000 * Z.max 0 (m_rateTokens s) + r * d.
Proof.
  intros [Eb Hl Hh Hr _ Hw] Hk Hnow Hel. unfold CheckRateLimit_at.
  set (e := now - m_lastRefillMs s) in *. rewrite Eb.
  replace (2 * r) with (r * 2) by lia. rewrite Z.quot_mul by lia.
  assert (Her : 0 ≤ e * r ≤ 1000000000000) by nia.
  rewrite (i64_id (e * r)) by lia.
  pose proof (Z.quot_pos (e * r) 1000 ltac:(lia) ltac:(lia)) as Hq0.
  pose proof (Z.mul_quot_le (e * r) 1000 ltac:(lia) ltac:(lia)) as Hq1.
  set (q := Z.quot (e * r) 1000) in *. rewrite (i32_id q) by lia.
  rewrite (i32_id (m_rateTokens s + q)) by lia.
  assert (Hstep : ∀ t d, 0 ≤ d ≤ e → m_lastRefillMs t = m_lastRefillMs s + d →
    m_rateBurst t = 2 * r → m_rateTokens s ≤ m_rateTokens t ≤ 2 * r →
    1000 * m_rateTokens t ≤ 1000 * m_rateTokens s + r * d →
    ∃ d', 0 ≤ d' ≤ e ∧ m_lastRefillMs (set_rate (m_rateBurst t) (i32 (m_rateTokens t - 1))
            (m_lastRefillMs t) t) = m_lastRefillMs s + d'
      ∧ bucket_ok r k (w - d') (set_rate (m_rateBurst t) (i32 (m_rateTokens t - 1))
            (m_lastRefillMs t) t)
      ∧ 1000 * (if bool_decide (m_rateTokens t > 0) then 1 else 0)
        + 1000 * Z.max 0 (i32 (m_rateTokens t - 1))
        ≤ 1000 * Z.max 0 (m_rateTokens s) + r * d').
  { intros t d Hd El Ebt Ht Hg. rewrite (i32_id (m_rateTokens t - 1)) by lia.
    exists d. split_and!; [lia|lia|done| |].
    - split; simpl; try lia; nia.
    - case_bool_decide; nia. }
  case_decide as Hc1; [case_decide as Hc2|].
  - apply (Hstep (set_rate _ _ now s) e); simpl; try lia.
  - apply (Hstep s 0); lia.
  - apply (Hstep s 0); lia.
Qed.

Lemma admitted_cons ok oks : admitted (ok :: oks) = (if ok then 1 else 0) + admitted oks.
Proof.
  unfold admitted. rewrite filter_cons. destruct ok; simpl; lia.
Qed.

Lemma admitted_bucket now nows s :
  admitted (bucket (now :: nows) s).1
  = (if (CheckRateLimit_at now s).1 then 1 else 0)
    + admitted (bucket nows (CheckRateLimit_at now s).2).1.
Proof.
  cbn [bucket]. destruct (CheckRateLimit_at now s) as [ok s'].
  destruct (bucket nows s') as [oks s''] eqn:E. cbn [fst snd].
  by rewrite admitted_cons, E.
Qed.

Lemma bucket_bound r nows : ∀ s w,
  bucket_ok r (Z.of_nat (length nows)) w s → StronglySorted Z.le nows → 0 ≤ w →
  (∀ now, now ∈ nows → m_lastRefillMs s ≤ now ≤ m_lastRefillMs s + w) →
  1000 * admitted (bucket nows s).1 ≤ 1000 * Z.max 0 (m_rateTokens s) + r * w.
Proof.
  induction nows as [|now nows IH]; intros s w Hb Hs Hw Hr.
  { simpl. change (admitted []) with 0. destruct Hb. nia. }
  apply StronglySorted_inv in Hs as [Hs Hle].
  assert (Hn : m_lastRefillMs s ≤ now ≤ m_lastRefillMs s + w) by (apply Hr; set_solver).
  rewrite admitted_bucket. pose proof (CheckRateLimit_at_step r (Z.of_nat (length nows)) w now s) as Hst.
  destruct (CheckRateLimit_at now s) as [ok s'].
  destruct Hst as (d & Hd & El & Hb' & Hstep); [|lia..|].
  { by replace (1 + Z.of_nat (length nows)) with (Z.of_nat (S (length nows))) by lia. }
  specialize (IH s' (w - d) Hb' Hs ltac:(lia)). cbn [fst snd].
  assert (1000 * admitted (bucket nows s').1 ≤ 1000 * Z.max 0 (m_rateTokens s') + r * (w - d)).
  { apply IH. intros now' Hin. rewrite Forall_forall in Hle. specialize (Hle now' Hin).
    specialize (Hr now' ltac:(set_solver)). lia. }
  lia.
Qed.

(** C25. The packet rate limit: from [InitRateLimit] on, within any [w] ms at
    most [2 * rate] packets (the burst) plus [rate] packets per second are
    admitted, whatever the arrival times.  The side conditions keep the
    [int] arithmetic in range: a rate below 500000000, below 10^9 packets, and
    a product of rate and duration below 10^12. *)
Theorem bucket_limit r t0 w nows s :
  0 ≤ r ≤ 500000000 → 0 ≤ w → r * w ≤ 1000000000000 →
  Z.of_nat (length nows) ≤ 1000000000 →
  StronglySorted Z.le nows → (∀ now, now ∈ nows → t0 ≤ now ≤ t0 + w) →
  1000 * admitted (bucket nows (InitRateLimit_at t0 r s)).1 ≤ 2000 * r + r * w.
Proof.
  intros Hr Hw Hrw Hlen Hs Hin.
  assert (E : i32 (r * 2) = 2 * r) by (rewrite i32_id; lia).
  pose proof (bucket_bound r nows (InitRateLimit_at t0 r s) w) as Hb. simpl in Hb.
  rewrite E in Hb. rewrite Z.max_r in Hb by lia.
  etrans; [apply Hb|lia]; try done. split; simpl; rewrite ?E; lia.
Qed.
End connection.

(** *** Witnesses *)

Definition demo_session : Session := set_sock (Some 7) Session_new.
Definition demo_net : Net := upd_session 3 (λ _, demo_session) Net_new.

Lemma demo_net_wf : net_wf demo_net.
Proof. destruct net_wf_new as [Hp Hb]. by split. Qed.

Lemma bucket_limit_witness :
  admitted (bucket [0; 0; 0; 0; 500; 700] (InitRateLimit_at 0 2 demo_session)).1 = 5
  ∧ 1000 * admitted (bucket [0; 0; 0; 0; 500; 700] (InitRateLimit_at 0 2 demo_session)).1
    ≤ 2000 * 2 + 2 * 700.
Proof.
  split; [vm_compute; reflexivity|]. apply (bucket_limit 2 0 700).
  - lia.
  - lia.
  - lia.
  - vm_compute. discriminate.
  - repeat constructor; lia.
  - intros now Hin. repeat (apply elem_of_cons in Hin as [->|Hin]; [lia|]).
    by apply elem_of_nil in Hin.
Defined.
