(* ===== verification/MemoryPool.v ===== *)
(** * The pool of Memory/memoryPool.h

    An older pool of I/O contexts that no other file includes.  It is written for
    an [IOContext] with a member [serverSession] (a plain pointer) and with a
    constructor from such a pointer; those are the members modelled here.  It
    differs from [ObjectPool]: it is filled in advance, and a context forgets its
    session when it comes back. *)
From S2P Require Import Prelude ObjectPool Session.

Record PooledContext := mkPooledContext { pooled_ioType : EIOType; serverSession : option nat }.

Module MemoryPool.

(** [new IOContext(type, session)] and the reset in [Allocate]. *)
Definition construct (a : EIOType * option nat) : PooledContext := mkPooledContext a.1 a.2.
Definition reset (a : EIOType * option nat) (c : PooledContext) : PooledContext :=
  mkPooledContext a.1 a.2.

Definition push_object (obj : nat) (p : ObjectPool PooledContext) : ObjectPool PooledContext :=
  {| heap := heap p; m_pool := m_pool p ++ [obj]; next_addr := next_addr p |}.

(** One round of the loop of the constructor. *)
Definition prefill_one (p : ObjectPool PooledContext) : ObjectPool PooledContext :=
  let obj := next_addr p in
  push_object obj {| heap := <[obj := construct (RECV, None)]> (heap p); m_pool := m_pool p;
                     next_addr := S obj |}.

Definition MemoryPool_new (initialCount : Z) : ObjectPool PooledContext :=
  Nat.iter (Z.to_nat initialCount) prefill_one ObjectPool_new.

Definition Allocate (type : EIOType) (session : option nat) (p : ObjectPool PooledContext)
    : nat * ObjectPool PooledContext :=
  ObjectPool.Allocate construct reset (type, session) p.

Definition Deallocate (obj : option nat) (p : ObjectPool PooledContext)
    : ObjectPool PooledContext :=
  match obj with
  | None => p
  | Some a =>
      push_object a {| heap := alter (λ c, mkPooledContext (pooled_ioType c) None) a (heap p);
                       m_pool := m_pool p; next_addr := next_addr p |}
  end.

Definition MemoryPool_destroy (p : ObjectPool PooledContext) : ObjectPool PooledContext :=
  ObjectPool_destroy p.

(** ** Its users *)

Inductive PoolCall := CallAllocate (type : EIOType) (session : option nat) | CallDeallocate (i : nat).

(** The pool and the contexts in use, with what they were allocated for; a user
    gives back the [i]-th of these, or a null pointer. *)
Definition call (c : PoolCall) (st : ObjectPool PooledContext * list (nat * PooledContext))
    : ObjectPool PooledContext * list (nat * PooledContext) :=
  let '(p, used) := st in
  match c with
  | CallAllocate type session =>
      let '(a, p) := Allocate type session p in (p, (a, mkPooledContext type session) :: used)
  | CallDeallocate i =>
      (Deallocate (fst <$> used !! i) p, delete i used)
  end.

(** ** The invariant *)

Record pool_ok (p : ObjectPool PooledContext) (used : list (nat * PooledContext)) : Prop := {
  po_wf : pool_wf used.*1 p;
  po_free : ∀ a, a ∈ m_pool p → ∃ c, heap p !! a = Some c ∧ serverSession c = None;
  po_used : ∀ a c, (a, c) ∈ used → heap p !! a = Some c }.

Lemma prefill_ok p : pool_ok p [] → pool_ok (prefill_one p) [].
Proof.
  intros [[Hnd Hl Hf] Hfree _]. simpl in *.
  assert (Hn : next_addr p ∉ m_pool p) by (intros Hin; apply Hl, Hf in Hin; lia).
  split; [split| |]; simpl.
  - apply NoDup_app. split; [done|]. split; [set_solver|apply NoDup_singleton].
  - intros a. rewrite elem_of_app, Hl, list_elem_of_singleton, lookup_insert.
    case_decide; subst; [|naive_solver].
    split; [by eexists|]. by right.
  - intros a. rewrite lookup_insert. case_decide; [lia|]. intros ?%Hf. lia.
  - intros a. rewrite elem_of_app, list_elem_of_singleton, lookup_insert. intros [Ha| ->].
    + rewrite decide_False by (by intros <-). by apply Hfree.
    + rewrite decide_True by done. by eexists.
  - intros a c. by rewrite elem_of_nil.
Qed.

Lemma new_ok initialCount : pool_ok (MemoryPool_new initialCount) [].
Proof.
  unfold MemoryPool_new. induction (Z.to_nat initialCount) as [|k IH]; simpl.
  - split; [apply pool_wf_new|intros a; set_solver..].
  - by apply prefill_ok.
Qed.

Lemma Allocate_ok type session p used a p' :
  pool_ok p used → Allocate type session p = (a, p') →
  pool_ok p' ((a, mkPooledContext type session) :: used).
Proof.
  intros [Hwf Hfree Hused] E. destruct (Allocate_wf _ _ _ _ _ _ _ Hwf E) as [Hwf' Ha].
  assert (Hother : ∀ b, b ≠ a → heap p' !! b = heap p !! b).
  { intros b Hb. unfold Allocate, ObjectPool.Allocate in E.
    destruct (m_pool p); injection E as <- <-; simpl; [by rewrite lookup_insert_ne|].
    by rewrite lookup_alter_ne. }
  split; [done| |].
  - intros b Hb. pose proof (pool_nodup _ _ Hwf') as [Hna _]%NoDup_cons.
    rewrite elem_of_app in Hna. rewrite Hother by (intros ->; tauto). apply Hfree.
    unfold Allocate, ObjectPool.Allocate in E.
    destruct (m_pool p); injection E as _ <-; simpl in Hb; [done|by right].
  - intros b c [[= -> ->]|Hb]%elem_of_cons.
    + by destruct (Allocate_lookup _ _ _ _ _ _ _ Hwf E) as [->|[old ->]].
    + rewrite Hother; [by apply Hused|]. intros ->. apply Ha.
      apply list_elem_of_fmap. by exists (a, c).
Qed.

Lemma Deallocate_ok p pre a c post :
  pool_ok p (pre ++ (a, c) :: post) → pool_ok (Deallocate (Some a) p) (pre ++ post).
Proof.
  intros [Hwf Hfree Hused].
  assert (Hp : (pre ++ (a, c) :: post).*1 ≡ₚ a :: (pre ++ post).*1).
  { rewrite !fmap_app, fmap_cons. simpl. by rewrite Permutation_middle. }
  pose proof (pool_wf_perm _ _ _ Hp Hwf) as Hwf'.
  assert (Ha : a ∉ (pre ++ post).*1 ++ m_pool p).
  { pose proof (pool_nodup _ _ Hwf') as Hnd. by apply NoDup_cons in Hnd as [? _]. }
  rewrite elem_of_app in Ha.
  pose proof (Deallocate_wf _ _ _ Hwf') as [Hnd Hl Hf]. simpl in *.
  split; [split; simpl; [done| |]| |]; simpl.
  - intros b. rewrite Hl, lookup_alter. case_decide; [|done]. subst. by rewrite fmap_is_Some.
  - intros b. rewrite lookup_alter. case_decide; [|apply Hf]. subst. rewrite fmap_is_Some. apply Hf.
  - intros b. rewrite elem_of_app, list_elem_of_singleton. intros [Hb| ->].
    + rewrite lookup_alter_ne; [by apply Hfree|]. intros ->. tauto.
    + rewrite lookup_alter_eq, (Hused a c) by set_solver. by eexists.
  - intros b d Hb. rewrite lookup_alter_ne.
    + apply Hused. set_solver.
    + intros ->. apply Ha. left. apply list_elem_of_fmap. by exists (b, d).
Qed.

Lemma delete_past {A} (l : list A) i : l !! i = None → delete i l = l.
Proof.
  revert i. induction l as [|x l IH]; intros [|i]; [done..|]. simpl. intros Hi. f_equal. by apply IH.
Qed.

Lemma call_ok c st : pool_ok st.1 st.2 → pool_ok (call c st).1 (call c st).2.
Proof.
  destruct st as [p used], c as [type session|i]; simpl; intros Hok.
  - destruct (Allocate type session p) as [a p'] eqn:E. by apply (Allocate_ok _ _ p used).
  - destruct (used !! i) as [[a c]|] eqn:Ei; simpl.
    + pose proof (list_elem_of_split_length _ _ _ Ei) as (pre & post & -> & Hi). subst i.
      rewrite delete_middle. by apply Deallocate_ok in Hok.
    + by rewrite delete_past.
Qed.

(** Whatever its users do, no context of the pool is in use twice, the ones in use
    are what they were allocated for, and the free ones hold no session. *)
Theorem MemoryPool_safe initialCount calls :
  let '(p, used) := foldl (λ st c, call c st) (MemoryPool_new initialCount, []) calls in
  NoDup (used.*1 ++ m_pool p)
  ∧ (∀ a c, (a, c) ∈ used → heap p !! a = Some c)
  ∧ ∀ a, a ∈ m_pool p → ∃ c, heap p !! a = Some c ∧ serverSession c = None.
Proof.
  assert (Hok : pool_ok (MemoryPool_new initialCount, @nil (nat * PooledContext)).1
    (MemoryPool_new initialCount, @nil (nat * PooledContext)).2) by apply new_ok.
  revert Hok. generalize (MemoryPool_new initialCount, @nil (nat * PooledContext)) as st.
  induction calls as [|c calls IH]; intros st Hok; simpl.
  - destruct st as [p used]. split_and!; apply Hok.
  - apply IH, call_ok, Hok.
Qed.

(** The destructor deletes the free contexts and no others. *)
Lemma destroy_frees p used :
  pool_ok p used → ∀ a, is_Some (heap (MemoryPool_destroy p) !! a) ↔ a ∈ used.*1.
Proof.
  intros [[Hnd Hl _] _ _] a. apply NoDup_app in Hnd as (_ & Hd & _). simpl.
  assert (E : ∀ l (h : gmap nat PooledContext),
    is_Some (foldr delete h l !! a) ↔ a ∉ l ∧ is_Some (h !! a)).
  { induction l as [|b l IH]; intros h; simpl; [set_solver|].
    destruct (decide (a = b)) as [->|].
    - rewrite lookup_delete_eq. split; [by intros [? ?]|set_solver].
    - rewrite lookup_delete_ne by done. rewrite IH. set_solver. }
  rewrite E, <- Hl, elem_of_app. naive_solver.
Qed.
End MemoryPool.
