(* ===== verification/PacketTraits.v ===== *)
(** * Message types and packet ids

    Models the [PacketTraits] specializations of [Packet/PacketID.h] and
    [ServerSession::Send], which chooses the id of a message by its type. *)
From S2P Require Import Prelude Platform Packet Protobuf PacketPb Session.
Local Open Scope Z_scope.

Class PacketTraits (M : Type) := ID : PacketID.
#[export] Hint Mode PacketTraits ! : typeclass_instances.
#[export] Hint Mode Message ! : typeclass_instances.

Section traits.
Context `{PbRuntime}.

#[export] Instance C_LOGIN_traits : PacketTraits Pb_C_LOGIN := C_LOGIN.
#[export] Instance S_LOGIN_traits : PacketTraits Pb_S_LOGIN := S_LOGIN.
#[export] Instance C_CHAT_traits : PacketTraits Pb_C_CHAT := C_CHAT.
#[export] Instance S_CHAT_traits : PacketTraits Pb_S_CHAT := S_CHAT.
#[export] Instance C_ROOM_ENTER_traits : PacketTraits Pb_C_ROOM_ENTER := C_ROOM_ENTER.
#[export] Instance S_ROOM_ENTER_traits : PacketTraits Pb_S_ROOM_ENTER := S_ROOM_ENTER.
#[export] Instance S_ROOM_LEAVE_traits : PacketTraits Pb_S_ROOM_LEAVE := S_ROOM_LEAVE.
#[export] Instance S_ROOM_USER_ENTERED_traits : PacketTraits Pb_S_ROOM_USER_ENTERED :=
  S_ROOM_USER_ENTERED.
#[export] Instance S_ROOM_USER_LEFT_traits : PacketTraits Pb_S_ROOM_USER_LEFT :=
  S_ROOM_USER_LEFT.
#[export] Instance C_MOVE_traits : PacketTraits Pb_C_MOVE := C_MOVE.
#[export] Instance S_MOVE_BROADCAST_traits : PacketTraits Pb_S_MOVE_BROADCAST :=
  S_MOVE_BROADCAST.
End traits.

Definition Send `{Platform, Message M, PacketTraits M} (s : nat) (message : M) (n : Net)
    : bool * Net :=
  SendInternal s (PacketID_val (ID (M := M))) message n.

Lemma Send_sends `{Platform, Message M, PacketTraits M} s (m : M) n : sends n (Send s m n).2.
Proof. apply SendInternal_sends. Qed.

Lemma Send_posts `{Platform, Message M, PacketTraits M} (P : nat → Prop) s (m : M) n :
  P s → net_wf n → posts P n (Send s m n).2.
Proof. apply SendInternal_posts. Qed.

#[export] Hint Resolve Send_sends Send_posts : server.
