(* ===== verification/TestClient.v ===== *)
(** * The test client

    Models [TestClient.cpp]: how the client frames its messages, how its receive
    loop takes packets apart, and what it sends.  Shows that client and server
    agree on the wire format in both directions. *)
From S2P Require Import Prelude Bytes Strings Platform ObjectPool Packet RecvBuffer Protobuf PbRuntimeDemo PacketPb Session PacketTraits.
Local Open Scope Z_scope.

(** ** Sending *)

(** The buffer [SendPacket] hands to [send]. *)
Definition SendPacket `{Message M} (id : PacketID) (message : M) : list byte :=
  let payload := Serialize message in
  header_bytes {| packetSize := u16 (Z.of_nat (length payload)); packetId := PacketID_val id |}
  ++ payload.

(** ** Receiving *)

(** The inner loop of [RecvLoop] on the [n] bytes of one [recv]: the id and the
    payload of every packet. *)
Fixpoint packets_from (fuel : nat) (offset : Z) (buf : list byte) : list (Z * list byte) :=
  let n := Z.of_nat (length buf) in
  match fuel with
  | O => []
  | S fuel =>
      if decide (offset + sizeof_PacketHeader <= n) then
        let header := header_at offset buf in
        let total := sizeof_PacketHeader + packetSize header in
        if decide (offset + total > n) then []
        else
          (packetId header, mem_read (offset + sizeof_PacketHeader) (packetSize header) buf)
          :: packets_from fuel (offset + total) buf
      else []
  end.

Definition recv_packets (buf : list byte) : list (Z * list byte) :=
  packets_from (S (length buf)) 0 buf.

(** The id and the payload of a frame. *)
Definition packet_of (frame : list byte) : Z * list byte :=
  (packetId (header_at 0 frame), drop 4 frame).

Lemma header_at_drop offset buf : 0 ≤ offset → header_at offset buf = header_at 0 (drop (Z.to_nat offset) buf).
Proof.
  intros Ho. unfold header_at, mem_read. rewrite drop_0, drop_drop.
  replace (Z.to_nat (offset + 2)) with (Z.to_nat offset + Z.to_nat (0 + 2))%nat by lia. done.
Qed.

Lemma packet_of_take k l :
  (4 ≤ k)%nat → packet_of (take k l) = (packetId (header_at 0 l), take (k - 4) (drop 4 l)).
Proof.
  intros Hk. unfold packet_of. f_equal; [|by rewrite skipn_firstn_comm].
  replace (take k l) with (mem_read 0 (Z.of_nat k) l) by (unfold mem_read; by rewrite Nat2Z.id).
  by rewrite header_at_read by lia.
Qed.

Lemma packets_from_frames fuel offset buf :
  0 ≤ offset ≤ Z.of_nat (length buf) → (length buf - Z.to_nat offset < fuel)%nat →
  packets_from fuel offset buf = map packet_of (frames (drop (Z.to_nat offset) buf)).1.
Proof.
  revert offset. induction fuel as [|fuel IH]; intros offset Ho Hf; [lia|].
  rewrite frames_unfold. unfold split_frame. rewrite length_drop. cbn [packets_from].
  rewrite (header_at_drop offset) by lia. set (l := drop (Z.to_nat offset) buf).
  pose proof (header_at_size_range 0 l) as Hr. unfold sizeof_PacketHeader in *.
  destruct (decide (offset + 4 <= Z.of_nat (length buf))) as [H4|H4];
    [rewrite (decide_False (P := _ < 4)) by lia|by rewrite decide_True by lia].
  set (k := packetSize (header_at 0 l)) in *.
  destruct (decide (offset + (4 + k) > Z.of_nat (length buf))) as [Hk|Hk];
    [by rewrite decide_True by lia|rewrite decide_False by lia]. cbn [map fst].
  f_equal.
  - rewrite packet_of_take by lia. f_equal. unfold mem_read, l.
    rewrite drop_drop. f_equal; [lia|f_equal; lia].
  - rewrite IH by lia. unfold l. rewrite drop_drop. do 4 f_equal. lia.
Qed.

(** ** What is shown *)

Section client.
Context `{PbRuntime}.

(** The lines of the receive loop.  When a payload cannot be parsed the fields
    read so far are shown; here [None]. *)
Inductive Shown :=
  | ShowLogin (pkt : option Pb_S_LOGIN)
  | ShowRoomEnter (pkt : option Pb_S_ROOM_ENTER)
  | ShowUserEntered (pkt : option Pb_S_ROOM_USER_ENTERED)
  | ShowChat (pkt : option Pb_S_CHAT)
  | ShowMoves (pkt : option Pb_S_MOVE_BROADCAST)
  | ShowUnknown (id : Z).

Definition show (p : Z * list byte) : Shown :=
  let '(id, payload) := p in
  if decide (id = PacketID_val S_LOGIN) then ShowLogin (ParseFromArray payload)
  else if decide (id = PacketID_val S_ROOM_ENTER) then ShowRoomEnter (ParseFromArray payload)
  else if decide (id = PacketID_val S_ROOM_USER_ENTERED) then ShowUserEntered (ParseFromArray payload)
  else if decide (id = PacketID_val S_CHAT) then ShowChat (ParseFromArray payload)
  else if decide (id = PacketID_val S_MOVE_BROADCAST) then ShowMoves (ParseFromArray payload)
  else ShowUnknown id.

(** [RecvLoop]: the results of the successive [recv]. *)
Definition RecvLoop (chunks : list (list byte)) : list Shown :=
  concat (map (λ buf, map show (recv_packets buf)) chunks).

(** The client's loop takes a buffer apart exactly as the framing of the
    server does; but what is left of a packet at the end of a buffer is thrown
    away, so the client shows the packets of the stream if no packet is split
    between two buffers. *)
Theorem RecvLoop_frames chunks :
  (∀ buf, recv_packets buf = map packet_of (frames buf).1)
  ∧ (Forall (λ buf, (frames buf).2 = []) chunks →
     RecvLoop chunks = map show (map packet_of (frames (concat chunks)).1)).
Proof.
  assert (Hp : ∀ buf, recv_packets buf = map packet_of (frames buf).1).
  { intros buf. unfold recv_packets. rewrite packets_from_frames by lia. by rewrite drop_0. }
  split; [done|]. unfold RecvLoop. induction 1 as [|buf chunks Hb _ IH]; [done|].
  cbn [map concat]. rewrite IH, Hp, frames_app, Hb. simpl. by rewrite !map_app.
Qed.

(** *** What the client sends *)

Definition C_LOGIN_of (account password : string) : Pb_C_LOGIN :=
  C_LOGIN_set_password password (C_LOGIN_set_account_id account C_LOGIN_SharedCtor).

(** The packets of [main], in order; 1.5 and 2.5 as bit patterns. *)
Definition main_packets (tag : string) : list (list byte) :=
  [SendPacket C_LOGIN (C_LOGIN_of ("user_" +:+ tag) "pw");
   SendPacket C_ROOM_ENTER (C_ROOM_ENTER_set_room_name "room1" C_ROOM_ENTER_SharedCtor);
   SendPacket C_MOVE (C_MOVE_set_y 1075838976 (C_MOVE_set_x 1069547520 C_MOVE_SharedCtor));
   SendPacket C_CHAT (C_CHAT_set_message ("hello from " +:+ tag) C_CHAT_SharedCtor)].
End client.

(** *** From the server to the client *)

Section both.
Context `{Platform, PbRuntime}.

Lemma frame_packets id (payload : list byte) :
  0 ≤ id < 65536 → Z.of_nat (length payload) < 65536 →
  let frame := header_bytes {| packetSize := u16 (Z.of_nat (length payload)); packetId := id |} ++ payload in
  recv_packets frame = [(id, payload)].
Proof.
  intros Hid Hl frame. assert (Hf : frames frame = ([frame], [])).
  { apply header_frame; lia. }
  unfold recv_packets. rewrite packets_from_frames by lia. rewrite drop_0, Hf. cbn [map fst].
  unfold packet_of, frame. rewrite header_at_bytes; [|simpl; rewrite u16_id; lia|done]. done.
Qed.

Lemma Send_transmitted `{MessageLaws M ok, !PacketTraits M} s (m : M) n :
  net_wf n → ok m → IsDisconnected s n = false →
  sizeof_PacketHeader + ByteSizeLong m ≤ MAX_BUF_SIZE →
  transmitted s (SendPacket (ID (M := M)) m) n (Send s m n).2.
Proof.
  intros Hn Hm Hd Hs. unfold Send, SendPacket. rewrite <- (ByteSizeLong_length m Hm).
  pose proof (SendInternal_frame s (PacketID_val (ID (M := M))) m n Hn Hm (PacketID_val_range _) Hd Hs) as Hf.
  destruct (SendInternal s _ m n). apply Hf.
Qed.

(** A message fits into one packet that the client reads. *)
Lemma SendPacket_packets `{MessageLaws M ok} id (m : M) :
  ok m → sizeof_PacketHeader + ByteSizeLong m ≤ MAX_BUF_SIZE →
  recv_packets (SendPacket id m) = [(PacketID_val id, Serialize m)].
Proof.
  intros Hm Hs. rewrite (ByteSizeLong_length m Hm) in Hs. unfold SendPacket.
  apply frame_packets; [apply PacketID_val_range|]. unfold sizeof_PacketHeader, MAX_BUF_SIZE in Hs. lia.
Qed.

(** C19. What the server sends the client receives: a message passed to
    [ServerSession::Send] goes to the kernel as one frame, byte for byte the one
    the client's own [SendPacket] makes of it (stale contents of the recycled
    context are not transmitted); the client's loop finds exactly one packet in
    it, with the id of the message's type, and parsing its payload gives the
    message back.  If the kernel refuses it, nothing is transmitted. *)
Theorem Send_received `{MessageLaws M ok, !PacketTraits M} s (m : M) n :
  net_wf n → ok m → IsDisconnected s n = false →
  sizeof_PacketHeader + ByteSizeLong m ≤ MAX_BUF_SIZE →
  let frame := SendPacket (ID (M := M)) m in
  let '(sent, n') := Send s m n in
  sent = true ∧ net_wf n' ∧ transmitted s frame n n'
  ∧ ∃ payload, recv_packets frame = [(PacketID_val (ID (M := M)), payload)]
      ∧ ParseFromArray payload = Some m.
Proof.
  intros Hn Hm Hd Hs frame. unfold Send.
  pose proof (ByteSizeLong_length m Hm) as HB. pose proof (PacketID_val_range (ID (M := M))) as Hid.
  pose proof (SendInternal_frame s (PacketID_val ID) m n Hn Hm Hid Hd Hs) as Hf.
  unfold frame, SendPacket. rewrite <- HB.
  destruct (SendInternal s (PacketID_val ID) m n) as [sent n']. destruct Hf as (H1' & H2' & H3' & _).
  split_and!; [done..|]. exists (Serialize m). split; [|by apply Parse_Serialize].
  rewrite HB. apply frame_packets; [done|]. unfold sizeof_PacketHeader, MAX_BUF_SIZE in Hs. lia.
Qed.
End both.

(** *** Witnesses *)

Definition demo_login : Pb_S_LOGIN :=
  {| S_LOGIN_success := true; S_LOGIN_message := "Login OK."; S_LOGIN_unknown := uf_empty |}.

Lemma Send_received_witness :
  let '(sent, n') := Send 3 demo_login demo_net in
  sent = true ∧ transmitted 3 (SendPacket S_LOGIN demo_login) demo_net n'
  ∧ RecvLoop [SendPacket S_LOGIN demo_login] = [ShowLogin (Some demo_login)].
Proof.
  pose proof (Send_received (ok := S_LOGIN_ok) 3 demo_login demo_net demo_net_wf) as H.
  destruct (Send 3 demo_login demo_net) as [sent n'].
  destruct H as (H1 & _ & H2 & _).
  - split_and!; [vm_compute; split; [discriminate|reflexivity]|reflexivity].
  - reflexivity.
  - vm_compute. discriminate.
  - split; [exact H1|split; [exact H2|vm_equal]].
Defined.

(** A packet that arrives in two pieces is lost, and what follows it is read from
    the middle. *)
Example split_packet_lost :
  let chat := SendPacket S_CHAT {| S_CHAT_sender := "a"; S_CHAT_message := "hi"; S_CHAT_unknown := uf_empty |} in
  length (RecvLoop [chat]) = 1%nat ∧ length (RecvLoop [take 5 chat; drop 5 chat]) = 0%nat.
Proof. vm_compute. auto. Qed.
