(* ===== verification/Lock.v ===== *)
(** * The spin lock

    Models [Utils/Lock.h].  The lock is one atomic flag; a thread in [Lock]
    repeats an atomic exchange until it reads [false].  [step] interleaves any
    number of threads that use it as [std::lock_guard] does. *)
From S2P Require Import Prelude.

(** [m_flag.exchange(true)]: the old value, and the new state. *)
Definition exchange_true (m_flag : bool) : bool * bool := (m_flag, true).

(** One iteration of the loop in [Lock]: whether the lock was obtained. *)
Definition Lock (m_flag : bool) : bool * bool :=
  let '(old, m_flag) := exchange_true m_flag in (negb old, m_flag).

Definition Unlock (m_flag : bool) : bool := false.

(** Where a thread is with respect to the lock. *)
Inductive LockPc := Outside | Spinning | Holding.

#[export] Instance LockPc_eq_dec : EqDecision LockPc.
Proof. solve_decision. Defined.

Record LockState := mkLockState { m_flag : bool; at_lock : nat → LockPc }.

Definition LockState_new : LockState := {| m_flag := false; at_lock := λ _, Outside |}.

Inductive lock_step : LockState → LockState → Prop :=
  | step_enter t s :
      at_lock s t = Outside →
      lock_step s {| m_flag := m_flag s; at_lock := <[t := Spinning]> (at_lock s) |}
  | step_exchange t s ok f :
      at_lock s t = Spinning → Lock (m_flag s) = (ok, f) →
      lock_step s {| m_flag := f;
                     at_lock := <[t := if ok : bool then Holding else Spinning]> (at_lock s) |}
  | step_unlock t s :
      at_lock s t = Holding →
      lock_step s {| m_flag := Unlock (m_flag s); at_lock := <[t := Outside]> (at_lock s) |}.

(** ** Ownership

    [held f In]: the flag [f] says whether some party is inside ([In]), and
    then it is one party.  The lemmas are the effect of the operations on it. *)
Section held.
Context {W : Type}.
Implicit Types In : W → Prop.

Definition held (f : bool) In : Prop :=
  if f then ∃ h, ∀ w, In w ↔ w = h else ∀ w, ¬ In w.

Lemma held_excl f In w v : held f In → In w → In v → w = v.
Proof. destruct f; [|by intros H ?%H]. intros [h Hh] ->%Hh ->%Hh. done. Qed.

Lemma held_flag f In : held f In → f = true ↔ ∃ w, In w.
Proof.
  destruct f; simpl; [|naive_solver]. intros [h Hh]. split; [|done].
  intros _. exists h. by apply Hh.
Qed.

Lemma held_same f In In' : (∀ w, In' w ↔ In w) → held f In → held f In'.
Proof. destruct f; simpl; naive_solver. Qed.

(** An attempt to lock lets the caller in exactly if nobody was. *)
Lemma held_lock f In In' me ok f' :
  Lock f = (ok, f') → ¬ In me →
  (∀ w, In' w ↔ In w ∨ ok = true ∧ w = me) → held f In → held f' In'.
Proof.
  unfold Lock, exchange_true. intros [= <- <-] Hme HIn Hh. destruct f; simpl in *.
  - destruct Hh as [h Hh]. exists h. intros w. rewrite HIn, Hh. naive_solver.
  - exists me. intros w. rewrite HIn. naive_solver.
Qed.

Lemma held_unlock f In In' me :
  In me → (∀ w, In' w ↔ In w ∧ w ≠ me) → held f In → held (Unlock f) In'.
Proof.
  intros Hme HIn Hh w [Hw Hn]%HIn. destruct Hn. by eapply held_excl.
Qed.
End held.

(** ** Mutual exclusion *)

Definition holding (s : LockState) (t : nat) : Prop := at_lock s t = Holding.

Ltac at_pc u t := destruct (decide (u = t)) as [->|];
  rewrite ?fn_lookup_insert, ?fn_lookup_insert_ne by done.

Lemma held_step s s' :
  held (m_flag s) (holding s) → lock_step s s' → held (m_flag s') (holding s').
Proof.
  unfold holding. intros Hi Hs. destruct Hs as [t s Ht|t s ok f Ht HL|t s Ht]; simpl.
  - eapply held_same; [|exact Hi]. intros u. simpl. at_pc u t; naive_solver congruence.
  - eapply (held_lock _ _ _ t); [exact HL| | |exact Hi]; simpl; [congruence|].
    intros u. at_pc u t; destruct ok; naive_solver congruence.
  - eapply (held_unlock _ _ _ t); [| |exact Hi]; simpl; [done|].
    intros u. at_pc u t; naive_solver congruence.
Qed.

(** Mutual exclusion: in every reachable state at most one thread is
    between [Lock] and [Unlock], and the flag is set exactly when there is
    one; so the lock is available whenever nobody is inside. *)
Theorem SpinLock_exclusion s :
  rtc lock_step LockState_new s →
  (∀ t u, at_lock s t = Holding → at_lock s u = Holding → t = u)
  ∧ (m_flag s = true ↔ ∃ t, at_lock s t = Holding).
Proof.
  intros Hr. assert (Hi : held (m_flag s) (holding s)).
  { apply (rtc_invariant lock_step (λ s, held (m_flag s) (holding s)) LockState_new);
      [by intros ?|by intros; eapply held_step|done]. }
  split; [|by apply (held_flag _ (holding s))].
  intros t u. by apply (held_excl (m_flag s) (holding s)).
Qed.

Definition contended : LockState :=
  {| m_flag := true;
     at_lock := <[1%nat := Spinning]> (<[0%nat := Holding]> (<[1%nat := Spinning]>
       (<[0%nat := Spinning]> (λ _, Outside)))) |}.

