(* ===== verification/Closing.v ===== *)
(** * Closing a session from several threads

    A session is used by several threads at once: workers that receive and send,
    the tick thread that sends and sets the room, the heartbeat thread.  Any of
    them may disconnect it.  Here the steps of [ServerCore::HandleDisconnect],
    [ServerCore::PostRecv], [ServerSession::Disconnect] and
    [ServerSession::PostSend] on the members of one session are interleaved, one
    access to shared state per step, together with what the system does with the
    socket's number once it is closed.  Accesses to [m_sock], which the program
    does not synchronize, are taken to be atomic. *)
From S2P Require Import Prelude Session.
Local Open Scope Z_scope.

(** ** State *)

Record Conn := mkConn {
  m_disconnected : bool;
  m_sock : option Z;
  m_room : option nat;
  (** Whether [SessionManager] has it, how often [currentConnections] was
      decremented for it, and the rooms that were told that it left. *)
  registered : bool;
  decrements : nat;
  leaves : list nat;
  (** The system: the connection behind a socket number, 0 being the session's
      own; the numbers closed by the session; and the connections that its
      [WSASend] and [WSARecv] reached. *)
  owner : Z → option nat;
  closes : list Z;
  reached : list nat }.

Definition exchanged c :=
  mkConn true (m_sock c) (m_room c) (registered c) (decrements c) (leaves c) (owner c) (closes c) (reached c).
Definition clear_sock c :=
  mkConn (m_disconnected c) None (m_room c) (registered c) (decrements c) (leaves c) (owner c) (closes c)
    (reached c).
Definition set_room r c :=
  mkConn (m_disconnected c) (m_sock c) r (registered c) (decrements c) (leaves c) (owner c) (closes c)
    (reached c).
Definition unregister c :=
  mkConn (m_disconnected c) (m_sock c) (m_room c) false (decrements c) (leaves c) (owner c) (closes c)
    (reached c).
Definition decrement c :=
  mkConn (m_disconnected c) (m_sock c) (m_room c) (registered c) (S (decrements c)) (leaves c) (owner c)
    (closes c) (reached c).
Definition push_leave r c :=
  mkConn (m_disconnected c) (m_sock c) (m_room c) (registered c) (decrements c) (leaves c ++ [r]) (owner c)
    (closes c) (reached c).
Definition set_owner k o c :=
  mkConn (m_disconnected c) (m_sock c) (m_room c) (registered c) (decrements c) (leaves c)
    (<[k := o]> (owner c)) (closes c) (reached c).
Definition close_number k c :=
  mkConn (m_disconnected c) (m_sock c) (m_room c) (registered c) (decrements c) (leaves c)
    (<[k := None]> (owner c)) (closes c ++ [k]) (reached c).
Definition reach i c :=
  mkConn (m_disconnected c) (m_sock c) (m_room c) (registered c) (decrements c) (leaves c) (owner c)
    (closes c) (reached c ++ [i]).

(** Who calls [Disconnect], and which operation is posted. *)
Inductive By := ByHandle | BySend.
Inductive Op := Send | Recv.

(** Where a thread is; [Idle] when it does nothing with the session. *)
Inductive Pc :=
  | Idle
  | Exchange (b : By) | Close (b : By) | Clear (b : By)
  | Decrement | Unregister | ReadRoom | ClearRoom (r : nat) | PushLeave (r : nat)
  | Check (op : Op) | Post (op : Op).

(** ** Steps *)

(** [Disconnect] returns to [PostSend], which is done, or to [HandleDisconnect]. *)
Definition closed_pc (b : By) : Pc := match b with ByHandle => Decrement | BySend => Idle end.

(** One step of a thread. *)
Inductive act : Pc → Conn → Pc → Conn → Prop :=
  | act_HandleDisconnect c : act Idle c (Exchange ByHandle) c
  | act_post op c : act Idle c (Check op) c
  | act_exchange b c :
      act (Exchange b) c (if m_disconnected c then Idle else Close b) (exchanged c)
  | act_close b c k : m_sock c = Some k → act (Close b) c (Clear b) (close_number k c)
  | act_no_sock b c : m_sock c = None → act (Close b) c (closed_pc b) c
  | act_clear b c : act (Clear b) c (closed_pc b) (clear_sock c)
  | act_decrement c : act Decrement c Unregister (decrement c)
  | act_unregister c : act Unregister c ReadRoom (unregister c)
  | act_read_room c :
      act ReadRoom c (match m_room c with Some r => ClearRoom r | None => Idle end) c
  | act_clear_room r c : act (ClearRoom r) c (PushLeave r) (set_room None c)
  | act_push_leave r c : act (PushLeave r) c Idle (push_leave r c)
  | act_check op c : act (Check op) c (if m_disconnected c then Idle else Post op) c
  (** The call reaches whatever the number in [m_sock] stands for ... *)
  | act_reach op c k i :
      m_sock c = Some k → owner c k = Some i → act (Post op) c Idle (reach i c)
  (** ... or fails: [PostSend] disconnects, [PostRecv] handles the disconnect. *)
  | act_fail op c :
      act (Post op) c (Exchange (match op with Send => BySend | Recv => ByHandle end)) c.

(** What else happens: the tick thread and the workers set the room; numbers that
    are not in use are given to other connections, and these are closed. *)
Inductive env : Conn → Conn → Prop :=
  | env_room r c : env c (set_room r c)
  | env_open k i c : owner c k = None → i ≠ 0%nat → env c (set_owner k (Some i) c)
  | env_close k i c : owner c k = Some i → i ≠ 0%nat → env c (set_owner k None c).

Record Threads := mkThreads { conn : Conn; pcs : nat → Pc }.

Inductive close_step : Threads → Threads → Prop :=
  | step_act t p' c' s :
      act (pcs s t) (conn s) p' c' → close_step s (mkThreads c' (<[t := p']> (pcs s)))
  | step_env c' s : env (conn s) c' → close_step s (mkThreads c' (pcs s)).

(** ** One thread alone: [Session.Disconnect] *)

(** The members that [Disconnect] uses. *)
Definition agrees (i : nat) c (n : Net) : Prop :=
  m_disconnected c = Session.m_disconnected (sess i n) ∧ m_sock c = Session.m_sock (sess i n)
  ∧ closes c = closed n.

Definition alone : relation (Pc * Conn) := λ x y, act x.1 x.2 y.1 y.2.

(** The steps of one thread that nobody interrupts are those of the sequential
    model. *)
Lemma Disconnect_alone b i c n :
  agrees i c n →
  ∃ c', rtc alone (Exchange b, c) (if (Disconnect i n).1 then closed_pc b else Idle, c')
    ∧ agrees i c' (Disconnect i n).2.
Proof.
  intros (Hd & Hs & Hc). unfold Disconnect. rewrite <- Hd, sess_upd. cbn [Session.m_sock set_disconnected].
  assert (Hx : alone (Exchange b, c) (if m_disconnected c then Idle else Close b, exchanged c))
    by apply act_exchange.
  rewrite <- Hs. destruct (m_disconnected c); cbn in Hx; [|destruct (m_sock c) as [k|] eqn:E]; simpl.
  - exists (exchanged c). split; [by apply rtc_once|]. unfold agrees. by rewrite sess_upd.
  - exists (clear_sock (close_number k (exchanged c))). split.
    + eapply rtc_l; [exact Hx|]. apply (rtc_l _ _ (Clear b, close_number k (exchanged c))); [by apply act_close|].
      apply rtc_once, act_clear.
    + unfold agrees. rewrite sess_upd. simpl. rewrite sess_closesocket, sess_upd. simpl. by rewrite Hc.
  - exists (exchanged c). split.
    + eapply rtc_l; [exact Hx|]. by apply rtc_once, act_no_sock.
    + unfold agrees. rewrite sess_upd. simpl. by rewrite E.
Qed.

Section closing.
(** The session's socket. *)
Context (sock : Z).

Definition Conn_new (r : option nat) : Conn :=
  mkConn false (Some sock) r true 0 [] (<[sock := Some 0%nat]> (λ _, None)) [] [].
Definition Threads_new (r : option nat) : Threads := mkThreads (Conn_new r) (λ _, Idle).

(** ** The invariant *)

(** The thread that got [false] from the exchange, until it is through. *)
Definition winner (p : Pc) : bool :=
  match p with
  | Close _ | Clear _ | Decrement | Unregister | ReadRoom | ClearRoom _ | PushLeave _ => true
  | _ => false
  end.

(** The socket is the session's, or closed, and then perhaps forgotten. *)
Definition untouched c : Prop :=
  m_sock c = Some sock ∧ owner c sock = Some 0%nat ∧ closes c = []
  ∧ registered c = true ∧ decrements c = 0%nat ∧ leaves c = [].
Definition gone c : Prop := m_sock c = None ∧ closes c = [sock].

Definition at_phase (p : Pc) c : Prop :=
  match p with
  | Close _ => untouched c
  | Clear _ => m_sock c = Some sock ∧ closes c = [sock] ∧ registered c = true
               ∧ decrements c = 0%nat ∧ leaves c = []
  | Decrement => gone c ∧ registered c = true ∧ decrements c = 0%nat ∧ leaves c = []
  | Unregister => gone c ∧ registered c = true ∧ decrements c = 1%nat ∧ leaves c = []
  | _ => gone c ∧ registered c = false ∧ decrements c = 1%nat ∧ leaves c = []
  end.

(** The end: by [HandleDisconnect], or by [PostSend], which leaves the
    bookkeeping undone. *)
Definition over c : Prop :=
  gone c ∧ (registered c = false ∧ decrements c = 1%nat ∧ (length (leaves c) ≤ 1)%nat
            ∨ registered c = true ∧ decrements c = 0%nat ∧ leaves c = []).

Record close_inv (s : Threads) : Prop := {
  ci_who : ∃ o, ∀ t, winner (pcs s t) = bool_decide (o = Some t);
  ci_phase : ∀ t, winner (pcs s t) = true →
    m_disconnected (conn s) = true ∧ at_phase (pcs s t) (conn s);
  ci_none : (∀ t, winner (pcs s t) = false) →
    if m_disconnected (conn s) then over (conn s) else untouched (conn s) }.

Lemma one_winner s t u :
  close_inv s → winner (pcs s t) = true → winner (pcs s u) = true → t = u.
Proof.
  intros [[o Ho] _ _]. rewrite !Ho. intros Ht%bool_decide_eq_true Hu%bool_decide_eq_true. congruence.
Qed.

Lemma winner_dec s :
  close_inv s → (∀ t, winner (pcs s t) = false) ∨ ∃ t, winner (pcs s t) = true.
Proof.
  intros [[[t|] Ho] _ _]; [right; exists t|left; intros u]; rewrite Ho.
  - by apply bool_decide_eq_true.
  - by apply bool_decide_eq_false.
Qed.

(** Steps that leave alone what the invariant speaks about. *)
Record same c c' : Prop := {
  sm_disc : m_disconnected c' = m_disconnected c;
  sm_sock : m_sock c' = m_sock c;
  sm_reg : registered c' = registered c;
  sm_dec : decrements c' = decrements c;
  sm_leaves : leaves c' = leaves c;
  sm_closes : closes c' = closes c;
  sm_owner : owner c sock = Some 0%nat → owner c' sock = Some 0%nat }.

Lemma untouched_same c c' : same c c' → untouched c → untouched c'.
Proof. intros [] (? & ? & ? & ? & ? & ?). unfold untouched. split_and!; auto; congruence. Qed.

Lemma over_same c c' : same c c' → over c → over c'.
Proof. intros [E1 E2 E3 E4 E5 E6 _]. unfold over, gone. by rewrite E2, E3, E4, E5, E6. Qed.

Lemma at_phase_same p c c' : same c c' → at_phase p c → at_phase p c'.
Proof.
  intros Hs. destruct p; simpl; try (by apply untouched_same);
    destruct Hs as [E1 E2 E3 E4 E5 E6 _]; unfold gone; by rewrite E2, E3, E4, E5, E6.
Qed.

(** A thread that is not in the middle of closing, or the environment. *)
Lemma inv_same s pcs' c' :
  close_inv s → (∀ t, winner (pcs' t) = true → pcs' t = pcs s t) →
  (∀ t, winner (pcs s t) = true → pcs' t = pcs s t) → same (conn s) c' →
  close_inv (mkThreads c' pcs').
Proof.
  intros [[o H1] H2 H3] Hnew Hold Hs.
  assert (Hw : ∀ t, winner (pcs' t) = winner (pcs s t)).
  { intros t. destruct (winner (pcs s t)) eqn:E; [by rewrite (Hold t E)|].
    destruct (winner (pcs' t)) eqn:E'; [|done]. rewrite (Hnew t E') in E'. congruence. }
  split; simpl.
  - exists o. intros t. by rewrite Hw.
  - intros t Ht. rewrite (Hnew t Ht). rewrite Hw in Ht. destruct (H2 t Ht) as [Hd Hp].
    split; [by rewrite (sm_disc _ _ Hs)|by eapply at_phase_same].
  - intros Hn. rewrite (sm_disc _ _ Hs). assert (Hn' : ∀ t, winner (pcs s t) = false).
    { intros t. by rewrite <- Hw. }
    specialize (H3 Hn'). destruct (m_disconnected (conn s)); [by eapply over_same|by eapply untouched_same].
Qed.

Lemma inv_idle s t p' c' :
  close_inv s → winner (pcs s t) = false → winner p' = false → same (conn s) c' →
  close_inv (mkThreads c' (<[t := p']> (pcs s))).
Proof.
  intros Hi Hw Hw' Hs. apply (inv_same s); [done|..|done].
  - intros u. destruct (decide (u = t)) as [->|]; [rewrite fn_lookup_insert; congruence|].
    by rewrite fn_lookup_insert_ne.
  - intros u Hu. rewrite fn_lookup_insert_ne; [done|]. intros ->. congruence.
Qed.

(** The thread that closes goes on ... *)
Lemma inv_winner s t p' c' :
  (∀ u, u ≠ t → winner (pcs s u) = false) → winner p' = true →
  m_disconnected c' = true → at_phase p' c' →
  close_inv (mkThreads c' (<[t := p']> (pcs s))).
Proof.
  intros Ho Hw Hd Hp. assert (Ht : ∀ u, winner ((<[t := p']> (pcs s)) u) = true → u = t).
  { intros u Hu. destruct (decide (u = t)) as [|Hn]; [done|]. rewrite fn_lookup_insert_ne in Hu by done.
    by rewrite Ho in Hu. }
  split; simpl.
  - exists (Some t). intros u. destruct (decide (u = t)) as [->|Hn].
    + by rewrite fn_lookup_insert, bool_decide_true.
    + rewrite fn_lookup_insert_ne, bool_decide_false by congruence. by apply Ho.
  - intros u Hu. rewrite (Ht u Hu), fn_lookup_insert. done.
  - intros Hn. specialize (Hn t). rewrite fn_lookup_insert in Hn. congruence.
Qed.

(** ... or is through. *)
Lemma inv_over s t p' c' :
  (∀ u, u ≠ t → winner (pcs s u) = false) → winner p' = false →
  m_disconnected c' = true → over c' →
  close_inv (mkThreads c' (<[t := p']> (pcs s))).
Proof.
  intros Ho Hw Hd Hp. assert (Hn : ∀ u, winner ((<[t := p']> (pcs s)) u) = false).
  { intros u. destruct (decide (u = t)) as [->|]; [by rewrite fn_lookup_insert|].
    rewrite fn_lookup_insert_ne by done. by apply Ho. }
  split; simpl.
  - exists None. intros u. by rewrite Hn.
  - intros u Hu. by rewrite Hn in Hu.
  - intros _. by rewrite Hd.
Qed.

Lemma act_inv s t p' c' :
  close_inv s → act (pcs s t) (conn s) p' c' → close_inv (mkThreads c' (<[t := p']> (pcs s))).
Proof.
  intros Hi Ha. pose proof Hi as [_ H2 H3].
  assert (Hwin : winner (pcs s t) = true →
    (∀ u, u ≠ t → winner (pcs s u) = false) ∧ m_disconnected (conn s) = true
    ∧ at_phase (pcs s t) (conn s)).
  { intros Hw. destruct (H2 t Hw) as [Hd Hp]. split_and!; [|done..]. intros u Hu.
    destruct (winner (pcs s u)) eqn:E; [|done]. destruct Hu. by apply (one_winner s). }
  inversion Ha as [c E1 E2 E3|op c E1 E2 E3|b c E1 E2 E3|b c k Hk E1 E2 E3|b c Hk E1 E2 E3|b c E1 E2 E3
    |c E1 E2 E3|c E1 E2 E3|c E1 E2 E3|r c E1 E2 E3|r c E1 E2 E3|op c E1 E2 E3|op c k i Hk Ho E1 E2 E3
    |op c E1 E2 E3]; subst c; rewrite <- E1 in Hwin; try (destruct (Hwin eq_refl) as (Ho & Hd & Hp));
    try (apply inv_idle; [done|by rewrite <- E1|by repeat case_match|by split]; fail).
  - (* the exchange *)
    destruct (m_disconnected (conn s)) eqn:Hd.
    + apply inv_idle; [done|by rewrite <- E1|done|by split].
    + assert (Hn : ∀ u, winner (pcs s u) = false).
      { intros u. destruct (winner (pcs s u)) eqn:E; [|done]. destruct (H2 u E). congruence. }
      apply inv_winner; [done..|]. exact (H3 Hn).
  - (* closesocket *)
    destruct Hp as (Hs & Hown & Hc & Hp). assert (k = sock) as -> by congruence.
    apply inv_winner; [done..|]. simpl. rewrite Hc. tauto.
  - destruct Hp as (Hs & _). congruence.
  - (* m_sock = INVALID_SOCKET *)
    destruct Hp as (Hs & Hc & Hr & Hdec & Hl). destruct b; simpl.
    + apply inv_winner; [done..|]. by split_and!.
    + apply inv_over; [done..|]. split; [done|]. by right.
  - apply inv_winner; [done..|]. destruct Hp as (Hg & Hr & Hdec & Hl). simpl. by rewrite Hdec.
  - apply inv_winner; [done..|]. by destruct Hp as (Hg & Hr & Hdec & Hl).
  - destruct Hp as (Hg & Hr & Hdec & Hl). destruct (m_room (conn s)) as [r|].
    + apply inv_winner; [done..|]. by split_and!.
    + apply inv_over; [done..|]. split; [done|]. left. rewrite Hl. split_and!; [done..|simpl; lia].
  - apply inv_winner; [done..|]. by destruct Hp as (Hg & Hr & Hdec & Hl).
  - destruct Hp as (Hg & Hr & Hdec & Hl). apply inv_over; [done..|]. split; [done|]. left.
    simpl. rewrite Hl. by split_and!.
Qed.

Lemma env_same c c' : env c c' → same c c'.
Proof.
  intros He. destruct He as [r c|k i c Hk Hi|k i c Hk Hi]; split; try done; simpl; intros Ho.
  - rewrite fn_lookup_insert_ne; [done|]. intros ->. congruence.
  - rewrite fn_lookup_insert_ne; [done|]. intros ->. congruence.
Qed.

Lemma reachable_inv r s : rtc close_step (Threads_new r) s → close_inv s.
Proof.
  apply rtc_invariant.
  - split; simpl; [by exists None|done|]. intros _. unfold untouched. simpl. by rewrite fn_lookup_insert.
  - intros a b Hi Hs. destruct Hs as [t p' c' a Ha|c' a He]; [by apply act_inv|].
    by apply (inv_same a); [..|apply env_same].
Qed.

(** At most one of everything. *)
Definition once c : Prop :=
  (closes c = [] ∨ closes c = [sock]) ∧ (decrements c ≤ 1)%nat ∧ (length (leaves c) ≤ 1)%nat.

Lemma at_phase_once p c : winner p = true → at_phase p c → once c.
Proof.
  unfold once, at_phase, untouched, gone. intros Hw Hp.
  destruct p; try done; destruct_and!; repeat match goal with H : _ c = _ |- _ => rewrite H end;
    simpl; split_and!; auto; lia.
Qed.

Lemma inv_once s : close_inv s → once (conn s).
Proof.
  intros Hi. destruct (winner_dec s Hi) as [Hn|[t Ht]].
  - pose proof (ci_none s Hi Hn) as H. destruct (m_disconnected (conn s)); unfold once.
    + destruct H as ([_ ->] & [(_ & -> & Hl)|(_ & -> & ->)]); simpl; split_and!; auto; lia.
    + destruct H as (_ & _ & -> & _ & -> & ->); simpl; split_and!; auto; lia.
  - destruct (ci_phase s Hi t Ht) as [_ Hp]. by eapply at_phase_once.
Qed.

(** C20. However many threads disconnect a session, receive, and send on it at the
    same time: its socket is closed at most once, and only while its number
    still stands for the session's connection; it is uncounted and taken out of
    the registry at most once, and at most one room is told that it left.  When
    all threads are through and it is disconnected, the socket has been closed
    and forgotten, and it is out of the registry and uncounted - or neither,
    when the first to disconnect it was a failed send. *)
Theorem closing_once r s :
  rtc close_step (Threads_new r) s →
  (closes (conn s) = [] ∨ closes (conn s) = [sock])
  ∧ (∀ s', close_step s s' → closes (conn s') ≠ closes (conn s) →
       owner (conn s) sock = Some 0%nat ∧ closes (conn s') = [sock])
  ∧ (decrements (conn s) ≤ 1)%nat ∧ (length (leaves (conn s)) ≤ 1)%nat
  ∧ ((∀ t, pcs s t = Idle) → m_disconnected (conn s) = true →
     m_sock (conn s) = None ∧ closes (conn s) = [sock]
     ∧ (registered (conn s) = false ∧ decrements (conn s) = 1%nat
        ∨ registered (conn s) = true ∧ decrements (conn s) = 0%nat ∧ leaves (conn s) = [])).
Proof.
  intros Hr. pose proof (reachable_inv r s Hr) as Hi.
  destruct (inv_once s Hi) as (Hc & Hd & Hl). split_and!; [done| |done..|].
  - intros s' Hs Hne. destruct Hs as [t p' c' s Ha|c' s He]; [|by destruct He].
    pose proof (ci_phase s Hi t) as Hp.
    inversion Ha as [| | |b c k Hk E1 E2 E3| | | | | | | | | | ]; subst; simpl in *; try done.
    rewrite <- E1 in Hp. destruct (Hp eq_refl) as (_ & Hs & Ho & Hcl & _).
    rewrite Hs in Hk. injection Hk as <-. by rewrite Hcl.
  - intros Hidle Hdis. pose proof (ci_none s Hi) as Hn. rewrite Hdis in Hn.
    destruct Hn as ([Hs Hcl] & Ho); [intros t; by rewrite Hidle|]. tauto.
Qed.
End closing.

(** ** Runs *)

Ltac act_of t c := eapply rtc_l; [eapply (step_act t); cbn; eapply c; reflexivity|cbn].
Ltac env_of e := eapply rtc_l; [eapply step_env; cbn; eapply e; done|cbn].

(** Two threads notice the disconnect at once; the second gets the exchange first. *)
Lemma closing_once_witness :
  ∃ s, rtc close_step (Threads_new 7 (Some 3%nat)) s
    ∧ (decrements (conn s) ≤ 1)%nat ∧ (length (leaves (conn s)) ≤ 1)%nat
    ∧ m_sock (conn s) = None ∧ closes (conn s) = [7] ∧ leaves (conn s) = [3%nat].
Proof.
  assert (∃ s, rtc close_step (Threads_new 7 (Some 3%nat)) s ∧ m_disconnected (conn s) = true
          ∧ leaves (conn s) = [3%nat] ∧ ∀ t, pcs s t = Idle) as (s & Hr & Hd & Hl & Hi).
  { eexists. split.
    - act_of 0%nat act_HandleDisconnect. act_of 1%nat act_HandleDisconnect.
      act_of 1%nat act_exchange. act_of 0%nat act_exchange. act_of 1%nat act_close.
      act_of 1%nat act_clear. act_of 1%nat act_decrement. act_of 1%nat act_unregister.
      act_of 1%nat act_read_room. act_of 1%nat act_clear_room. act_of 1%nat act_push_leave.
      apply rtc_refl.
    - split_and!; [done..|]. intros [|[|t]]; done. }
  exists s. destruct (closing_once 7 (Some 3%nat) s Hr) as (_ & _ & Hdec & Hlen & Hend).
  destruct (Hend Hi Hd) as (Hs & Hc & _). done.
Defined.

(** A thread checks [IsDisconnected] and is about to send; another closes the
    socket, the system gives its number to connection 1, and [WSASend] on the number
    still in [m_sock] reaches that connection. *)
Example stale_send :
  ∃ s, rtc close_step (Threads_new 7 None) s ∧ reached (conn s) = [1%nat].
Proof.
  eexists. split.
  - act_of 0%nat (act_post Send). act_of 0%nat act_check.
    act_of 1%nat act_HandleDisconnect. act_of 1%nat act_exchange. act_of 1%nat act_close.
    env_of (env_open 7 1).
    act_of 0%nat act_reach.
    apply rtc_refl.
  - done.
Qed.

(** A room that is set after the disconnecting thread read [m_room] is not told
    that the session left. *)
Example late_room :
  ∃ s, rtc close_step (Threads_new 7 None) s ∧ (∀ t, pcs s t = Idle)
    ∧ m_disconnected (conn s) = true ∧ m_room (conn s) = Some 3%nat ∧ leaves (conn s) = [].
Proof.
  eexists. split.
  - act_of 1%nat act_HandleDisconnect. act_of 1%nat act_exchange. act_of 1%nat act_close.
    act_of 1%nat act_clear. act_of 1%nat act_decrement. act_of 1%nat act_unregister.
    act_of 1%nat act_read_room. env_of (env_room (Some 3%nat)).
    apply rtc_refl.
  - split_and!; [|done..]. intros [|[|t]]; done.
Qed.
