(* ===== verification/JobQueue.v ===== *)
(** * The job queue

    Models [Utils/JobQueue.h]: jobs pushed by any thread, executed in order by
    the one thread that calls [Flush].  A job is a closure over the state it
    changes; here a type [Job] with the function [run] that executes one.

    The second half interleaves [Push] and [Flush] at the granularity of the
    lock, and shows that no job is lost, repeated or reordered. *)
From S2P Require Import Prelude Lock.

(** ** Operations *)
Section job_queue.
Context {Job : Type}.

Definition Push (job : Job) (m_jobs : list Job) : list Job := m_jobs ++ [job].

Definition Empty (m_jobs : list Job) : bool := bool_decide (m_jobs = []).

Context {S : Type} (jobs_of : S → list Job) (set_jobs : list Job → S → S).
Context (run : Job → S → S).

(** The swapped-out jobs, front first. *)
Fixpoint run_jobs (jobs : list Job) (s : S) : S :=
  match jobs with
  | [] => s
  | job :: jobs => run_jobs jobs (run job s)
  end.

Definition Flush (s : S) : S :=
  let jobs := jobs_of s in
  let s := set_jobs [] s in
  run_jobs jobs s.

(** A property that emptying the queue and every job preserve. *)
Lemma run_jobs_inv (P : S → Prop) jobs s :
  (∀ job s, job ∈ jobs → P s → P (run job s)) → P s → P (run_jobs jobs s).
Proof.
  revert s. induction jobs as [|j jobs IH]; intros s Hr Hs; simpl; [done|].
  apply IH; [set_solver|]. apply Hr; [set_solver|done].
Qed.

Lemma Flush_inv (P : S → Prop) s :
  P (set_jobs [] s) → (∀ job s', job ∈ jobs_of s → P s' → P (run job s')) → P (Flush s).
Proof. intros H1 H2. unfold Flush. by apply (run_jobs_inv P). Qed.

Lemma run_jobs_app jobs jobs' s : run_jobs (jobs ++ jobs') s = run_jobs jobs' (run_jobs jobs s).
Proof. revert s. induction jobs; simpl; auto. Qed.
End job_queue.

(** ** Interleaving *)
Section concurrent.
Context {Job : Type}.

(** A producer is idle, waits for the lock to push a job, or is inside. *)
Inductive PushPc := PushIdle | PushWait (job : Job) | PushIn (job : Job) | PushDone.

(** The owner is idle, waits for the lock, is inside before or after the swap,
    or runs the jobs it took. *)
Inductive FlushPc := FlushIdle | FlushWait | FlushIn | FlushDone | FlushRun.

(** [pushed] and [executed] are the history; a push made by a running job is
    made by a producer of its own. *)
Record QState := mkQState {
  q_flag : bool; q_jobs : list Job; producers : nat → PushPc; owner : FlushPc;
  taken : list Job; executed : list Job; pushed : list Job }.

Definition QState_new : QState :=
  {| q_flag := false; q_jobs := []; producers := λ _, PushIdle; owner := FlushIdle;
     taken := []; executed := []; pushed := [] |}.

Inductive queue_step : QState → QState → Prop :=
  | push_call t job s :
      producers s t = PushIdle →
      queue_step s (mkQState (q_flag s) (q_jobs s) (<[t := PushWait job]> (producers s))
        (owner s) (taken s) (executed s) (pushed s))
  | push_lock t job s ok f :
      producers s t = PushWait job → Lock (q_flag s) = (ok, f) →
      queue_step s (mkQState f (q_jobs s)
        (<[t := if ok : bool then PushIn job else PushWait job]> (producers s))
        (owner s) (taken s) (executed s) (pushed s))
  | push_push t job s :
      producers s t = PushIn job →
      queue_step s (mkQState (q_flag s) (Push job (q_jobs s))
        (<[t := PushDone]> (producers s))
        (owner s) (taken s) (executed s) (pushed s ++ [job]))
  | push_unlock t s :
      producers s t = PushDone →
      queue_step s (mkQState (Unlock (q_flag s)) (q_jobs s) (<[t := PushIdle]> (producers s))
        (owner s) (taken s) (executed s) (pushed s))
  | flush_call s :
      owner s = FlushIdle →
      queue_step s (mkQState (q_flag s) (q_jobs s) (producers s) FlushWait
        (taken s) (executed s) (pushed s))
  | flush_lock s ok f :
      owner s = FlushWait → Lock (q_flag s) = (ok, f) →
      queue_step s (mkQState f (q_jobs s) (producers s)
        (if ok : bool then FlushIn else FlushWait) (taken s) (executed s) (pushed s))
  | flush_swap s :
      owner s = FlushIn →
      queue_step s (mkQState (q_flag s) (taken s) (producers s) FlushDone
        (q_jobs s) (executed s) (pushed s))
  | flush_unlock s :
      owner s = FlushDone →
      queue_step s (mkQState (Unlock (q_flag s)) (q_jobs s) (producers s) FlushRun
        (taken s) (executed s) (pushed s))
  | flush_run s job jobs :
      owner s = FlushRun → taken s = job :: jobs →
      queue_step s (mkQState (q_flag s) (q_jobs s) (producers s) FlushRun
        jobs (executed s ++ [job]) (pushed s))
  | flush_return s :
      owner s = FlushRun → taken s = [] →
      queue_step s (mkQState (q_flag s) (q_jobs s) (producers s) FlushIdle
        [] (executed s) (pushed s)).

(** Who is inside the critical section: a producer, or the owner ([None]). *)
Definition inside (s : QState) (who : option nat) : Prop :=
  match who with
  | Some t => match producers s t with PushIn _ | PushDone => True | _ => False end
  | None => owner s = FlushIn ∨ owner s = FlushDone
  end.

Record queue_inv (s : QState) : Prop := {
  qi_history : executed s ++ taken s ++ q_jobs s = pushed s;
  qi_taken : owner s = FlushDone ∨ owner s = FlushRun ∨ taken s = [];
  qi_held : held (q_flag s) (inside s) }.

Lemma queue_inv_new : queue_inv QState_new.
Proof. split; [done|by right; right|]. intros [t|]; simpl; naive_solver. Qed.

Lemma held_queue_step s s' :
  held (q_flag s) (inside s) → queue_step s s' → held (q_flag s') (inside s').
Proof.
  intros Hi Hs. destruct Hs; simpl;
    first [ eapply (held_unlock _ _ _ (Some t)); [| |exact Hi]
          | eapply (held_unlock _ _ _ None); [| |exact Hi]
          | eapply (held_lock _ _ _ (Some t)); [eassumption| | |exact Hi]
          | eapply (held_lock _ _ _ None); [eassumption| | |exact Hi]
          | eapply held_same; [|exact Hi] ].
  all: try (intros [u|]; simpl; try at_pc u t; repeat case_match; naive_solver congruence).
  all: simpl; repeat case_match; naive_solver congruence.
Qed.

Lemma queue_inv_step s s' : queue_inv s → queue_step s s' → queue_inv s'.
Proof.
  intros [Hh Ht Hl] Hs. split; [| |by eapply held_queue_step].
  - destruct Hs; simpl in *; rewrite <- Hh; unfold Push; simplify_list_eq; try done.
    + destruct Ht as [?|[?| ->]]; [congruence..|]. by rewrite app_nil_r.
    + by rewrite H0.
    + by rewrite H0.
  - destruct Hs; simpl in *; try tauto;
      right; right; naive_solver congruence.
Qed.

Lemma queue_inv_reachable s : rtc queue_step QState_new s → queue_inv s.
Proof. apply rtc_invariant; [apply queue_inv_new|apply queue_inv_step]. Qed.

(** C26. Whatever the interleaving of producers and the flushing thread, the
    jobs executed so far, those taken by the running flush and those queued are
    together exactly the jobs pushed, in the order of the pushes: none is lost,
    duplicated or overtaken; the queue is touched by one thread at a time. *)
Theorem JobQueue_fifo s :
  rtc queue_step QState_new s →
  executed s ++ taken s ++ q_jobs s = pushed s
  ∧ ∀ w v, inside s w → inside s v → w = v.
Proof.
  intros [Hh _ Hl]%queue_inv_reachable. split; [done|].
  intros w v. by apply (held_excl (q_flag s) (inside s)).
Qed.

(** A flush that holds its jobs runs all of them, and only them, and
    returns: jobs pushed meanwhile stay queued for the next flush. *)
Theorem Flush_completes s :
  owner s = FlushRun →
  ∃ s', rtc queue_step s s' ∧ owner s' = FlushIdle
    ∧ executed s' = executed s ++ taken s ∧ taken s' = [] ∧ q_jobs s' = q_jobs s.
Proof.
  remember (taken s) as js eqn:E. revert s E. induction js as [|j js IH]; intros s E Hs.
  - eexists. split; [apply rtc_once, flush_return; done|]. simpl. by rewrite app_nil_r.
  - pose proof (flush_run s j js Hs (eq_sym E)) as Hstep.
    match type of Hstep with queue_step _ ?x => destruct (IH x eq_refl eq_refl)
      as (s' & H1 & H2 & H3 & H4 & H5) end.
    exists s'. split; [by eapply rtc_l|]. simpl in *. rewrite H3, <- app_assoc. done.
Qed.
End concurrent.

(** *** Witnesses *)

(** Job 1 is being executed while job 2 is pushed. *)
Definition demo_queue : @QState nat :=
  mkQState false [2%nat] (λ _, PushIdle) FlushRun [] [1%nat] [1%nat; 2%nat].

Lemma JobQueue_fifo_witness :
  let s := @mkQState nat true [] (<[0%nat := PushIn 5%nat]> (<[0%nat := PushWait 5%nat]>
             (λ _, PushIdle))) FlushIdle [] [] [] in
  executed s ++ taken s ++ q_jobs s = pushed s ∧ ∀ w v, inside s w → inside s v → w = v.
Proof.
  intros s. apply (JobQueue_fifo s).
  eapply rtc_l; [by apply (push_call 0 5%nat)|].
  eapply rtc_l; [by apply (push_lock 0 5%nat _ true true)|]. apply rtc_refl.
Defined.

