(* ===== verification/Config.v ===== *)
(** * The configuration file

    Models [Utils/Config.h]: the [key=value] loader, the trimming and the
    integer conversion with its fallback, and [Apply] with the defaults. *)
From Stdlib Require Import Ascii.
From S2P Require Import Prelude Strings.
Local Open Scope Z_scope.

(** ** [Trim] *)

Definition ws (c : ascii) : bool :=
  bool_decide (ascii_val c = 32 ∨ ascii_val c = 9 ∨ ascii_val c = 13 ∨ ascii_val c = 10).

Fixpoint find_first_not_of (p : ascii → bool) (s : string) : option nat :=
  match s with
  | EmptyString => None
  | String c s => if p c then S <$> find_first_not_of p s else Some 0%nat
  end.

Fixpoint find_last_not_of (p : ascii → bool) (s : string) : option nat :=
  match s with
  | EmptyString => None
  | String c s =>
      match find_last_not_of p s with
      | Some i => Some (S i)
      | None => if p c then None else Some 0%nat
      end
  end.

Definition Trim (s : string) : string :=
  match find_first_not_of ws s with
  | None => ""
  | Some a =>
      match find_last_not_of ws s with
      | Some b => str_take (b - a + 1) (str_drop a s)
      | None => str_drop a s
      end
  end.

(** ** [std::stoi] *)

Definition INT_MIN : Z := -2147483648.
Definition INT_MAX : Z := 2147483647.

(** [None] stands for the exceptions, which [getInt] catches. *)
Definition stoi (s : string) : option Z :=
  let s := skip_while isspace s in
  let '(neg, s) :=
    match s with
    | String c r =>
        if decide (c = "-"%char) then (true, r)
        else if decide (c = "+"%char) then (false, r) else (false, s)
    | EmptyString => (false, s)
    end in
  let '(v, ok) := read_digits (λ v d, v * 10 + d) 0 s in
  if ok then
    let v := if neg : bool then - v else v in
    if decide (INT_MIN ≤ v ≤ INT_MAX) then Some v else None
  else None.

(** ** The configuration *)

Record ServerConfig := mkServerConfig {
  port : Z; workerThreadMultiplier : Z; tickIntervalMs : Z; heartbeatTimeoutMs : Z;
  maxRoomPlayers : Z; statsPrintIntervalMs : Z; logFile : string;
  sessionServerHost : string; sessionServerPort : Z; authWorkerCount : Z; authTimeoutMs : Z;
  externalHost : string; maxTotalPlayers : Z; healthServerPort : Z;
  maxPacketSize : Z; packetRateLimitPerSec : Z; idleRoomTimeoutMs : Z; reconnectWindowMs : Z;
  apiGatewayHost : string; apiGatewayPort : Z; gameServerApiKey : string;
  gameServerVersion : string; controlPlaneTimeoutMs : Z; heartbeatReportIntervalMs : Z;
  policyRefreshIntervalMs : Z }.

Definition ServerConfig_default : ServerConfig :=
  {| port := 7777; workerThreadMultiplier := 2; tickIntervalMs := 33;
     heartbeatTimeoutMs := 30000; maxRoomPlayers := 16; statsPrintIntervalMs := 10000;
     logFile := ""; sessionServerHost := "127.0.0.1"; sessionServerPort := 8080;
     authWorkerCount := 4; authTimeoutMs := 3000; externalHost := "127.0.0.1";
     maxTotalPlayers := 500; healthServerPort := 8081; maxPacketSize := 4096;
     packetRateLimitPerSec := 100; idleRoomTimeoutMs := 60000; reconnectWindowMs := 30000;
     apiGatewayHost := "127.0.0.1"; apiGatewayPort := 5000; gameServerApiKey := "";
     gameServerVersion := "dev"; controlPlaneTimeoutMs := 3000;
     heartbeatReportIntervalMs := 10000; policyRefreshIntervalMs := 30000 |}.

Definition getInt (m_values : gmap string string) (k : string) (fallback : Z) : Z :=
  match m_values !! k with
  | None => fallback
  | Some v => if decide (v = "") then fallback else default fallback (stoi v)
  end.

Definition getStr (m_values : gmap string string) (k : string) : string :=
  default "" (m_values !! k).

Definition getStrOrDefault (m_values : gmap string string) (k def : string) : string :=
  match m_values !! k with
  | Some v => if decide (v = "") then def else v
  | None => def
  end.

(** [envApiKey] is the environment variable [GAME_SERVER_API_KEY]. *)
Definition Apply (envApiKey : option string) (m_values : gmap string string)
    (c : ServerConfig) : ServerConfig :=
  let getInt := getInt m_values in
  let getStr := getStr m_values in
  let getStrOrDefault := getStrOrDefault m_values in
  let apiKey := getStrOrDefault "game_server_api_key" (gameServerApiKey c) in
  {| port := getInt "port" (port c);
     workerThreadMultiplier := getInt "worker_thread_multiplier" (workerThreadMultiplier c);
     tickIntervalMs := getInt "tick_interval_ms" (tickIntervalMs c);
     heartbeatTimeoutMs := getInt "heartbeat_timeout_ms" (heartbeatTimeoutMs c);
     maxRoomPlayers := getInt "max_room_players" (maxRoomPlayers c);
     statsPrintIntervalMs := getInt "stats_print_interval_ms" (statsPrintIntervalMs c);
     logFile := getStr "log_file";
     sessionServerHost := if decide (getStr "session_server_host" = "")
                          then sessionServerHost c else getStr "session_server_host";
     sessionServerPort := getInt "session_server_port" (sessionServerPort c);
     authWorkerCount := getInt "auth_worker_count" (authWorkerCount c);
     authTimeoutMs := getInt "auth_timeout_ms" (authTimeoutMs c);
     externalHost := getStrOrDefault "external_host" (externalHost c);
     maxTotalPlayers := getInt "max_total_players" (maxTotalPlayers c);
     healthServerPort := getInt "health_server_port" (healthServerPort c);
     maxPacketSize := getInt "max_packet_size" (maxPacketSize c);
     packetRateLimitPerSec := getInt "packet_rate_limit_per_sec" (packetRateLimitPerSec c);
     idleRoomTimeoutMs := getInt "idle_room_timeout_ms" (idleRoomTimeoutMs c);
     reconnectWindowMs := getInt "reconnect_window_ms" (reconnectWindowMs c);
     apiGatewayHost := getStrOrDefault "api_gateway_host" (apiGatewayHost c);
     apiGatewayPort := getInt "api_gateway_port" (apiGatewayPort c);
     gameServerApiKey := if decide (apiKey = "") then default apiKey envApiKey else apiKey;
     gameServerVersion := getStrOrDefault "game_server_version" (gameServerVersion c);
     controlPlaneTimeoutMs := getInt "control_plane_timeout_ms" (controlPlaneTimeoutMs c);
     heartbeatReportIntervalMs :=
       getInt "heartbeat_report_interval_ms" (heartbeatReportIntervalMs c);
     policyRefreshIntervalMs := getInt "policy_refresh_interval_ms" (policyRefreshIntervalMs c) |}.

(** A text that starts with neither a sign nor white space. *)
Definition no_sign (s : string) : Prop :=
  match s with
  | String c _ => c ≠ "-"%char ∧ c ≠ "+"%char ∧ isspace c = false
  | EmptyString => True
  end.

(** ** [Load] *)

Definition parse_line (line : string) : option (string * string) :=
  match line with
  | EmptyString => None
  | String c _ =>
      if decide (c = "#"%char) then None
      else match str_find "=" line with
           | None => None
           | Some eq => Some (Trim (str_take eq line), Trim (str_drop (eq + 1) line))
           end
  end.

Definition load_line (m_values : gmap string string) (line : string) : gmap string string :=
  match parse_line line with
  | Some (k, v) => <[k := v]> m_values
  | None => m_values
  end.

(** The lines of the file, or [None] if it cannot be opened; the configuration
    and the result of [Load]. *)
Definition Load (envApiKey : option string) (file : option (list string))
    (m_values : gmap string string) (c : ServerConfig) : bool * ServerConfig :=
  match file with
  | None => (false, c)
  | Some lines => (true, Apply envApiKey (foldl load_line m_values lines) c)
  end.

(** ** Facts *)

Definition all_ws (s : string) : Prop :=
  Forall (λ c, ws c = true) (String.list_ascii_of_string s).

(** Empty, or without white space at either end. *)
Definition tight (s : string) : Prop :=
  s = "" ∨ find_first_not_of ws s = Some 0%nat
           ∧ find_last_not_of ws s = Some (Nat.pred (String.length s)).

#[export] Instance all_ws_dec s : Decision (all_ws s).
Proof. unfold all_ws. apply _. Defined.
#[export] Instance tight_dec s : Decision (tight s).
Proof. unfold tight. apply _. Defined.

Lemma find_first_app pre s :
  all_ws pre → find_first_not_of ws (pre +:+ s)
               = (λ i, (String.length pre + i)%nat) <$> find_first_not_of ws s.
Proof.
  intros Hp. induction pre as [|c pre IH]; str_simpl.
  - by destruct (find_first_not_of ws s).
  - apply Forall_cons in Hp as [-> Hp]. rewrite IH by done.
    by destruct (find_first_not_of ws s).
Qed.

Lemma find_last_none s : all_ws s → find_last_not_of ws s = None.
Proof.
  induction s as [|c s IH]; simpl; [done|]. intros [Hc Hs]%Forall_cons.
  rewrite IH by done. by rewrite Hc.
Qed.

Lemma find_last_app_ws s post :
  all_ws post → find_last_not_of ws (s +:+ post) = find_last_not_of ws s.
Proof.
  intros Hp. induction s as [|c s IH]; str_simpl; [by apply find_last_none|]. by rewrite IH.
Qed.

Lemma find_last_app_pre pre s b :
  find_last_not_of ws s = Some b →
  find_last_not_of ws (pre +:+ s) = Some (String.length pre + b)%nat.
Proof. intros Hb. induction pre as [|c pre IH]; str_simpl; [done|]. by rewrite IH. Qed.

Lemma Trim_core pre core post :
  all_ws pre → all_ws post → tight core → Trim (pre +:+ core +:+ post) = core.
Proof.
  intros Hpre Hpost [->|[Hf Hl]]; unfold Trim; rewrite find_first_app by done.
  - str_simpl. assert (find_first_not_of ws post = None) as ->; [|done].
    clear Hpre. induction post as [|c post IH]; simpl; [done|].
    apply Forall_cons in Hpost as [-> Hp]. by rewrite IH.
  - destruct core as [|c core]; [done|].
    assert (Hf' : find_first_not_of ws (String c core +:+ post) = Some 0%nat).
    { str_simpl. simpl in Hf. by destruct (ws c); [destruct (find_first_not_of ws core)|]. }
    rewrite Hf'. cbn [fmap option_fmap option_map].
    rewrite (find_last_app_pre pre _ (Nat.pred (String.length (String c core))))
      by (by rewrite find_last_app_ws).
    rewrite Nat.add_0_r, str_drop_app.
    replace (String.length pre + Nat.pred (String.length (String c core)) - String.length pre + 1)%nat
      with (String.length (String c core)) by (simpl; lia).
    apply str_take_app.
Qed.

Lemma Trim_tight s : tight s → Trim s = s.
Proof.
  intros Hs. pose proof (Trim_core "" s "" (Forall_nil_2 _) (Forall_nil_2 _) Hs) as H.
  by rewrite str_app_nil, str_app_nil_r in H.
Qed.

(** *** Printed numbers *)

Definition chars_ok (p : ascii → bool) (s : string) : Prop :=
  Forall (λ c, p c = true) (String.list_ascii_of_string s).

Lemma chars_tight s : chars_ok (λ c, negb (ws c)) s → tight s.
Proof.
  intros Hs. destruct s as [|c s]; [by left|]. right. apply Forall_cons in Hs as [Hc Hs].
  apply negb_true_iff in Hc. split; [simpl; by rewrite Hc|].
  revert c Hc. induction s as [|d s IH]; intros c Hc; simpl; [by rewrite Hc|].
  apply Forall_cons in Hs as [Hd Hs]. apply negb_true_iff in Hd.
  specialize (IH Hs d Hd). simpl in IH. by rewrite IH.
Qed.

Lemma pretty_N_digits (n : N) s :
  chars_ok isdigit s → chars_ok isdigit (pretty_N_go n s).
Proof.
  revert s. induction (N.lt_wf_0 n) as [n _ IH]; intros s Hs.
  destruct (decide (0 < n)%N) as [Hn|Hn].
  - rewrite pretty_N_go_step by done. apply IH; [apply N.div_lt; lia|].
    apply Forall_cons. split; [|done]. apply pretty_N_char_val. apply N.mod_lt. lia.
  - assert (n = 0%N) as -> by lia. by rewrite pretty_N_go_0.
Qed.

Lemma digit_not_ws c : isdigit c = true → negb (ws c) = true.
Proof. unfold isdigit, ws. intros Hd%bool_decide_eq_true. rewrite bool_decide_false by lia. done. Qed.

Lemma pretty_pos_digits (p : positive) : chars_ok isdigit (pretty p).
Proof.
  unfold pretty, pretty_positive, pretty, pretty_N. case_decide; [done|].
  apply pretty_N_digits, Forall_nil_2.
Qed.

Lemma pretty_Z_tight (z : Z) : tight (pretty z) ∧ pretty z ≠ "".
Proof.
  assert (Hp : ∀ p : positive, chars_ok (λ c, negb (ws c)) (pretty p)).
  { intros p. eapply Forall_impl; [apply pretty_pos_digits|]. apply digit_not_ws. }
  split.
  - apply chars_tight. destruct z as [|p|p]; [by repeat constructor|apply Hp|].
    change (chars_ok (λ c, negb (ws c)) (String "-"%char (pretty p))).
    apply Forall_cons. split; [done|apply Hp].
  - destruct z as [|p|p]; [done| |done].
    destruct (pretty_N_no_sign (Npos p) "") as (c & r & E & _). intros Hz.
    change (pretty (Z.pos p)) with (pretty (Npos p)) in Hz. rewrite Hz in E. done.
Qed.

Lemma stoi_digits (s : string) v neg :
  (∃ c r, s = String c r ∧ isdigit c = true) →
  read_digits (λ v d, v * 10 + d) 0 s = (v, true) →
  stoi (if neg : bool then String "-"%char s else s)
  = (let v := if neg then - v else v in if decide (INT_MIN ≤ v ≤ INT_MAX) then Some v else None).
Proof.
  intros (c & r & -> & Hc) Hr. unfold stoi. destruct neg.
  - cbn [skip_while]. change (isspace "-"%char) with false. cbn iota.
    rewrite decide_True by done. by rewrite Hr.
  - assert (isspace c = false ∧ c ≠ "-"%char ∧ c ≠ "+"%char) as (Hs & Hm & Hp).
    { unfold isspace. apply bool_decide_eq_true in Hc as Hc'. split_and!.
      - apply bool_decide_eq_false. lia.
      - by intros ->.
      - by intros ->. }
    cbn [skip_while]. rewrite Hs, !decide_False by done. by rewrite Hr.
Qed.

(** A number in the range of [int] that is printed by [std::to_string] is
    read back by the configuration's integer conversion, negative ones
    included. *)
Lemma stoi_pretty z : INT_MIN ≤ z ≤ INT_MAX → stoi (pretty z) = Some z.
Proof.
  intros Hz. assert (Hpos : ∀ p : positive, (∃ c r, pretty p = String c r ∧ isdigit c = true)
    ∧ read_digits (λ v d, v * 10 + d) 0 (pretty p) = (Z.pos p, true)).
  { intros p. pose proof (pretty_N_no_sign (Npos p) "") as Hn.
    pose proof (read_pretty (λ v d, v * 10 + d) (Z.pos p) ltac:(done) (Npos p) ""
      ltac:(done) I) as Hr.
    by rewrite str_app_nil_r in Hn, Hr. }
  destruct z as [|p|p]; [done|..].
  - change (pretty (Z.pos p)) with (pretty p). destruct (Hpos p) as [H1 H2].
    rewrite (stoi_digits (pretty p) (Z.pos p) false H1 H2). simpl. by rewrite decide_True.
  - change (pretty (Z.neg p)) with (String "-"%char (pretty p)). destruct (Hpos p) as [H1 H2].
    rewrite (stoi_digits (pretty p) (Z.pos p) true H1 H2). simpl. by rewrite decide_True.
Qed.

(** *** Lines *)

Lemma str_find_absent c s t :
  Forall (λ d, d ≠ c) (String.list_ascii_of_string s) →
  str_find (String c "") (s +:+ String c t) = Some (String.length s).
Proof.
  induction s as [|d s IH]; intros Hs.
  - str_simpl. destruct (ascii_dec c c); [by destruct t|congruence].
  - apply Forall_cons in Hs as [Hd Hs]. rewrite str_app_cons. cbn [str_find].
    simpl String.prefix. destruct (ascii_dec c d); [congruence|]. by rewrite IH.
Qed.

(** A key as the configuration uses them. *)
Definition key_ok (k : string) : Prop :=
  k ≠ "" ∧ chars_ok (λ c, negb (ws c) && negb (bool_decide (c = "="%char))
                          && negb (bool_decide (c = "#"%char))) k.

#[export] Instance key_ok_dec k : Decision (key_ok k).
Proof. unfold key_ok, chars_ok. apply _. Defined.

(** White space around the key and the value does not matter. *)
Lemma parse_line_render k pre post v pre' post' :
  key_ok k → all_ws pre → all_ws post → all_ws pre' → all_ws post' → tight v →
  parse_line (pre +:+ k +:+ post +:+ "=" +:+ pre' +:+ v +:+ post') = Some (k, v).
Proof.
  intros [Hne Hk] Hpre Hpost Hpre' Hpost' Hv.
  set (key := pre +:+ k +:+ post). set (value := pre' +:+ v +:+ post').
  assert (Hline : pre +:+ k +:+ post +:+ "=" +:+ value = key +:+ String "="%char value).
  { unfold key. by rewrite !str_app_assoc. }
  change (pre +:+ k +:+ post +:+ "=" +:+ pre' +:+ v +:+ post')
    with (pre +:+ k +:+ post +:+ "=" +:+ value). rewrite Hline.
  assert (Hwsq : ∀ c, ws c = true → c ≠ "="%char ∧ c ≠ "#"%char) by (intros c Hc; split; by intros ->).
  assert (Happ : ∀ s t, String.list_ascii_of_string (s +:+ t)
    = String.list_ascii_of_string s ++ String.list_ascii_of_string t).
  { intros s t. induction s as [|c s IH]; [done|]. rewrite str_app_cons. simpl. by rewrite IH. }
  assert (Hkey : Forall (λ c, c ≠ "="%char ∧ c ≠ "#"%char) (String.list_ascii_of_string key)).
  { unfold key. rewrite !Happ, !Forall_app. split_and!.
    - eapply Forall_impl; [exact Hpre|]. auto.
    - eapply Forall_impl; [exact Hk|]. intros c Hc. simpl in Hc.
      rewrite !andb_true_iff, !negb_true_iff, !bool_decide_eq_false in Hc. tauto.
    - eapply Forall_impl; [exact Hpost|]. auto. }
  assert (Hfind : str_find "=" (key +:+ String "="%char value) = Some (String.length key)).
  { apply str_find_absent. eapply Forall_impl; [exact Hkey|]. naive_solver. }
  assert (Hne' : ∃ c r, key = String c r ∧ c ≠ "#"%char).
  { destruct key as [|c r] eqn:E.
    - exfalso. assert (String.length key = 0%nat) as H0 by (by rewrite E). unfold key in H0.
      rewrite !str_length_app in H0. destruct k; [done|]. simpl in H0. lia.
    - do 2 eexists. split; [done|]. by apply Forall_cons in Hkey as [[_ ?] _]. }
  destruct Hne' as (c & r & Ek & Hc). unfold parse_line.
  rewrite Hfind. rewrite Ek at 1. rewrite str_app_cons, decide_False by done.
  rewrite str_take_app. f_equal. f_equal.
  - apply Trim_core; [done..|]. apply chars_tight. eapply Forall_impl; [exact Hk|].
    intros d Hd. simpl in Hd. rewrite !andb_true_iff in Hd. tauto.
  - rewrite <- (Trim_core pre' v post') by done. f_equal. fold value.
    clear. induction key as [|c key IH]; [done|]. rewrite str_app_cons. exact IH.
Qed.

(** *** A whole file *)

Definition kv (p : string * string) : string := p.1 +:+ " = " +:+ p.2.

(** The file that spells out a configuration, under the names of [server.cfg]. *)
Definition config_pairs (c : ServerConfig) : list (string * string) :=
  [ ("port", pretty (port c));
    ("worker_thread_multiplier", pretty (workerThreadMultiplier c));
    ("tick_interval_ms", pretty (tickIntervalMs c));
    ("heartbeat_timeout_ms", pretty (heartbeatTimeoutMs c));
    ("max_room_players", pretty (maxRoomPlayers c));
    ("stats_print_interval_ms", pretty (statsPrintIntervalMs c));
    ("log_file", logFile c);
    ("session_server_host", sessionServerHost c);
    ("session_server_port", pretty (sessionServerPort c));
    ("auth_worker_count", pretty (authWorkerCount c));
    ("auth_timeout_ms", pretty (authTimeoutMs c));
    ("external_host", externalHost c);
    ("max_total_players", pretty (maxTotalPlayers c));
    ("health_server_port", pretty (healthServerPort c));
    ("max_packet_size", pretty (maxPacketSize c));
    ("packet_rate_limit_per_sec", pretty (packetRateLimitPerSec c));
    ("idle_room_timeout_ms", pretty (idleRoomTimeoutMs c));
    ("reconnect_window_ms", pretty (reconnectWindowMs c));
    ("api_gateway_host", apiGatewayHost c);
    ("api_gateway_port", pretty (apiGatewayPort c));
    ("game_server_api_key", gameServerApiKey c);
    ("game_server_version", gameServerVersion c);
    ("control_plane_timeout_ms", pretty (controlPlaneTimeoutMs c));
    ("heartbeat_report_interval_ms", pretty (heartbeatReportIntervalMs c));
    ("policy_refresh_interval_ms", pretty (policyRefreshIntervalMs c)) ].

Definition is_int (z : Z) : Prop := INT_MIN ≤ z ≤ INT_MAX.
Definition is_word (s : string) : Prop := tight s ∧ s ≠ "".

Definition config_ok (c : ServerConfig) : Prop :=
  Forall is_int [port c; workerThreadMultiplier c; tickIntervalMs c; heartbeatTimeoutMs c;
    maxRoomPlayers c; statsPrintIntervalMs c; sessionServerPort c; authWorkerCount c;
    authTimeoutMs c; maxTotalPlayers c; healthServerPort c; maxPacketSize c;
    packetRateLimitPerSec c; idleRoomTimeoutMs c; reconnectWindowMs c; apiGatewayPort c;
    controlPlaneTimeoutMs c; heartbeatReportIntervalMs c; policyRefreshIntervalMs c]
  ∧ Forall is_word [sessionServerHost c; externalHost c; apiGatewayHost c; gameServerVersion c]
  ∧ tight (logFile c) ∧ is_word (gameServerApiKey c).

Lemma load_pairs kvs m :
  Forall (λ p, key_ok p.1 ∧ tight p.2) kvs →
  foldl load_line m (map kv kvs) = foldl (λ m p, <[p.1 := p.2]> m) m kvs.
Proof.
  revert m. induction kvs as [|[k v] kvs IH]; intros m Hf; [done|].
  apply Forall_cons in Hf as [[Hk Hv] Hf]. cbn [map foldl]. rewrite IH by done. f_equal.
  unfold load_line, kv. cbn [fst snd].
  pose proof (parse_line_render k "" " " v " " "" Hk) as Hp.
  rewrite str_app_nil in Hp. change (" " +:+ "=" +:+ " " +:+ v +:+ "") with (" = " +:+ v +:+ "") in Hp.
  rewrite str_app_nil_r in Hp. rewrite Hp; [done|by repeat constructor..|done].
Qed.

Lemma lookup_pairs k kvs (m : gmap string string) :
  foldl (λ m p, <[p.1 := p.2]> m) m kvs !! k
  = foldl (λ o p, if decide (p.1 = k) then Some p.2 else o) (m !! k) kvs.
Proof.
  revert m. induction kvs as [|[k' v] kvs IH]; intros m; [done|].
  cbn [foldl fst snd]. rewrite IH. f_equal. rewrite lookup_insert. by case_decide.
Qed.

Lemma getInt_pretty m k d z : m !! k = Some (pretty z) → is_int z → getInt m k d = z.
Proof.
  intros E Hz. unfold getInt. rewrite E, decide_False by apply pretty_Z_tight.
  by rewrite stoi_pretty.
Qed.

Lemma getStr_word m k s : m !! k = Some s → getStr m k = s.
Proof. unfold getStr. by intros ->. Qed.

Lemma getStrOrDefault_word m k d s : m !! k = Some s → s ≠ "" → getStrOrDefault m k d = s.
Proof. unfold getStrOrDefault. intros -> Hs. by rewrite decide_False. Qed.

(** Loading the file that spells out a configuration restores it completely,
    whatever the configuration was before and whatever the environment says:
    every key reaches its field, numbers and texts survive printing, trimming
    and conversion. *)
Theorem Load_roundtrip env c c0 :
  config_ok c →
  Load env (Some (map kv (config_pairs c))) ∅ c0 = (true, c).
Proof.
  intros (Hi & Hw & Hl & Hk). unfold Load. f_equal.
  rewrite load_pairs.
  2:{ unfold config_pairs. repeat (apply Forall_cons in Hw as [[? ?] Hw]). destruct Hk.
      repeat (apply Forall_cons_2; [split; cbn [fst snd];
        [compute_done|done || apply pretty_Z_tight]|]).
      apply Forall_nil_2. }
  set (m := foldl _ _ _).
  assert (Hm : ∀ k, m !! k = foldl (λ o p, if decide (p.1 = k) then Some p.2 else o) None
                               (config_pairs c)).
  { intros k. unfold m. by rewrite lookup_pairs, lookup_empty. }
  clearbody m. repeat (apply Forall_cons in Hi as [? Hi]).
  repeat (apply Forall_cons in Hw as [[? ?] Hw]). destruct Hk as [_ Hk].
  assert (HI : ∀ k d z, m !! k = Some (pretty z) → is_int z → getInt m k d = z)
    by (intros; by eapply getInt_pretty).
  unfold Apply. rewrite (getStrOrDefault_word m "game_server_api_key" _ (gameServerApiKey c))
    by (rewrite ?Hm; done).
  rewrite (getStr_word m "session_server_host" (sessionServerHost c)) by (by rewrite Hm).
  rewrite !decide_False by done.
  destruct c; cbn [port] in *; f_equal;
    first [ apply HI; [rewrite Hm; reflexivity|done]
          | apply getStr_word; rewrite Hm; reflexivity
          | apply getStrOrDefault_word; [rewrite Hm; reflexivity|done]
          | done ].
Qed.

(** What an integer setting gives: without the key, or with an empty text,
    the default; with a text that is a number, possibly signed, after white space
    and before anything that does not continue it, that number if it is an [int]
    and else the default; with a text without a number the default. *)
Theorem getInt_value m k d spaces rest (n : N) neg :
  all_space spaces → no_digit rest →
  (m !! k = None → getInt m k d = d)
  ∧ (m !! k = Some (spaces +:+ (if neg : bool then "-" else "") +:+ pretty n +:+ rest) →
     getInt m k d = let v := if neg then - Z.of_N n else Z.of_N n in
                    if decide (INT_MIN ≤ v ≤ INT_MAX) then v else d)
  ∧ (m !! k = Some (spaces +:+ rest) → no_sign rest → getInt m k d = d).
Proof.
  intros Hs Hr. unfold getInt. split_and!.
  - by intros ->.
  - intros ->. destruct (pretty_N_no_sign n rest) as (c & r & E & Hc).
    rewrite decide_False by (rewrite E; destruct spaces, neg; done).
    assert (Hst : stoi (spaces +:+ (if neg then "-" else "") +:+ pretty n +:+ rest)
      = stoi (if neg then String "-"%char (pretty n +:+ rest) else pretty n +:+ rest)).
    { unfold stoi. rewrite skip_while_all by done. by destruct neg. }
    rewrite Hst, (stoi_digits _ (Z.of_N n)); [|by exists c, r|].
    + cbv zeta. by case_decide.
    + apply (read_pretty _ (Z.of_N n)); [by intros|lia|done].
  - intros -> Hns. case_decide; [done|]. unfold stoi. rewrite skip_while_all by done.
    destruct rest as [|c rest]; [done|]. destruct Hns as (H1 & H2 & H3). cbn [skip_while].
    rewrite H3, !decide_False by done. by rewrite read_digits_stop.
Qed.

(** The file in the repository, without its comments. *)
Definition server_cfg : list string :=
  ["# realtime-server"; ""; "port = 7777"; "worker_thread_multiplier = 2";
   "tick_interval_ms = 33"; "heartbeat_timeout_ms = 30000"; "max_room_players = 16";
   "stats_print_interval_ms = 10000"; "log_file ="; "session_server_host = 127.0.0.1";
   "session_server_port = 8080"; "auth_worker_count = 4"; "auth_timeout_ms = 3000";
   "external_host = 127.0.0.1"; "max_total_players = 500"; "health_server_port = 8081";
   "max_packet_size = 4096"; "packet_rate_limit_per_sec = 100";
   "idle_room_timeout_ms = 60000"; "reconnect_window_ms = 30000";
   "api_gateway_host = 127.0.0.1"; "api_gateway_port = 5000"; "game_server_api_key =";
   "game_server_version = 0.1.0-local"; "heartbeat_report_interval_ms = 10000";
   "control_plane_timeout_ms = 3000"; "policy_refresh_interval_ms = 30000"].

(** The shipped file sets every key to its default, except for the version. *)
Example load_server_cfg :
  let c := (Load None (Some server_cfg) ∅ ServerConfig_default).2 in
  gameServerVersion c = "0.1.0-local" ∧ port c = port ServerConfig_default
  ∧ maxPacketSize c = 4096 ∧ logFile c = "" ∧ gameServerApiKey c = "".
Proof. vm_compute. auto. Qed.
