(* ===== verification/AuthService.v ===== *)
(** * Token validation

    Models [Utils/AuthService.h] and [Utils/AuthService.cpp] as far as one token is
    concerned: the reading of the session server's answer, and one validation.
    The threads and their queue are in [AuthPool]. *)
From Stdlib Require Import Ascii.
From S2P Require Import Prelude Strings.
Local Open Scope Z_scope.

(** A double quote. *)
Definition dq : ascii := "034"%char.
Definition quoted (s : string) : string := String dq (s +:+ String dq "").

(** [HttpClient::Response], the result of a request. *)
Record Response := mkResponse { statusCode : Z; body : string }.
Definition ok (r : Response) : bool := bool_decide (200 ≤ statusCode r < 300).

(** [None] when the function returns [false]. *)
Definition ParseValidateResponse (body : string) : option string :=
  match str_find (quoted "valid" +:+ ":true") body with
  | None => None
  | Some _ =>
      let key := quoted "account_id" +:+ String ":"%char (String dq "") in
      match str_find key body with
      | None => None
      | Some pos =>
          let rest := str_drop (pos + String.length key) body in
          match str_find (String dq "") rest with
          | None => None
          | Some len =>
              let outAccountId := str_take len rest in
              if decide (outAccountId = "") then None else Some outAccountId
          end
      end
  end.

(** One turn of [WorkerLoop] after taking [token] from the queue: what the
    callback is given.  [get] is the request to the session server. *)
Definition validate (get : string → Response) (token : string) : bool * string :=
  let path := "/auth/validate?token=" +:+ token in
  let resp := get path in
  if ok resp then
    match ParseValidateResponse (body resp) with
    | Some accountId => (true, accountId)
    | None => (false, "")
    end
  else (false, "").

(** ** The answer *)

Definition no_quote (s : string) : Prop :=
  Forall (λ c, c ≠ dq) (String.list_ascii_of_string s).
#[export] Instance no_quote_dec s : Decision (no_quote s).
Proof. unfold no_quote. apply _. Defined.

(** The answer the session server documents. *)
Definition valid_body (accountId : string) : string :=
  "{" +:+ quoted "valid" +:+ ":true," +:+ quoted "account_id" +:+ ":" +:+ quoted accountId +:+ "}".

Lemma str_find_char c s t :
  Forall (λ d, d ≠ c) (String.list_ascii_of_string s) →
  str_find (String c "") (s +:+ String c t) = Some (String.length s).
Proof.
  induction s as [|d s IH]; intros Hs.
  - rewrite str_app_nil. simpl. destruct (ascii_dec c c); [by destruct t|congruence].
  - apply Forall_cons in Hs as [Hd Hs]. rewrite str_app_cons. cbn [str_find].
    simpl String.prefix. destruct (ascii_dec c d); [congruence|]. by rewrite IH.
Qed.

Lemma str_find_char_absent c s n :
  str_find (String c "") s = Some n → Forall (λ d, d ≠ c) (String.list_ascii_of_string (str_take n s)).
Proof.
  revert n. induction s as [|d s IH]; intros n; cbn [str_find].
  - discriminate.
  - simpl String.prefix. destruct (ascii_dec c d) as [->|Hne].
    + destruct (String.prefix "" s) eqn:E; [|by destruct s]. intros [= <-]. apply Forall_nil_2.
    + destruct (str_find (String c "") s) as [m|]; [|discriminate]. intros [= <-]. simpl.
      apply Forall_cons. split; [congruence|]. by apply IH.
Qed.

Lemma parse_valid_body a :
  a ≠ "" → no_quote a → ParseValidateResponse (valid_body a) = Some a.
Proof.
  intros Ha Hq. set (key := quoted "account_id" +:+ String ":"%char (String dq "")).
  assert (H1 : str_find (quoted "valid" +:+ ":true") (valid_body a) = Some 1%nat) by reflexivity.
  assert (H2 : str_find key (valid_body a) = Some 14%nat) by (by destruct a).
  assert (H3 : str_drop (14 + String.length key) (valid_body a) = a +:+ String dq "}").
  { change (str_drop _ (valid_body a)) with ((a +:+ String dq "") +:+ "}").
    by rewrite str_app_assoc. }
  unfold ParseValidateResponse. fold key. rewrite H1, H2, H3.
  rewrite (str_find_char dq) by done. rewrite str_take_app. by rewrite decide_False.
Qed.

Lemma ParseValidateResponse_sound b a :
  ParseValidateResponse b = Some a →
  a ≠ "" ∧ no_quote a ∧ is_Some (str_find (quoted "valid" +:+ ":true") b).
Proof.
  unfold ParseValidateResponse. destruct (str_find (quoted "valid" +:+ ":true") b); [|done].
  destruct (str_find _ b); [|done].
  destruct (str_find (String dq "") _) eqn:Ef; [|done]. case_decide; [done|].
  intros [= <-]. split_and!; try done. unfold no_quote. by eapply str_find_char_absent.
Qed.

(** A login is accepted only on a successful answer that says so and names
    an account, and the name is the text between the quotes: non-empty and
    without a quote.  The documented positive answer is accepted with exactly
    its account. *)
Theorem validate_sound get token :
  let resp := get ("/auth/validate?token=" +:+ token) in
  let valid := (validate get token).1 in
  let accountId := (validate get token).2 in
  (if valid
   then ok resp = true ∧ accountId ≠ "" ∧ no_quote accountId
        ∧ is_Some (str_find (quoted "valid" +:+ ":true") (body resp))
   else accountId = "")
  ∧ ∀ a, a ≠ "" → no_quote a → ok resp = true → body resp = valid_body a →
      valid = true ∧ accountId = a.
Proof.
  unfold validate. set (resp := get _). simpl. destruct (ok resp); [|by split].
  destruct (ParseValidateResponse (body resp)) as [a|] eqn:E; split.
  - by destruct (ParseValidateResponse_sound _ _ E) as (?&?&?).
  - intros b Hb Hq _ Hbody. split; [done|]. rewrite Hbody, parse_valid_body in E by done. by injection E.
  - done.
  - intros b Hb Hq _ Hbody. by rewrite Hbody, parse_valid_body in E.
Qed.

(** A session server that knows one token. *)
Definition demo_get (path : string) : Response :=
  if decide (path = "/auth/validate?token=t1") then mkResponse 200 (valid_body "alice")
  else mkResponse 401 "".
