(* ===== verification/AuthPool.v ===== *)
(** * The threads that validate tokens

    Models the queue and the threads of [Utils/AuthService.cpp]: [Start], [Stop],
    [ValidateAsync] and [WorkerLoop], with any number of threads that call the
    first three, interleaved one access to the shared state at a time.

    A wait on the condition variable has the positions of the standard: the
    predicate is evaluated while the mutex is held ([WEval]); if it is false the
    thread is about to block ([WParking]), releases the mutex and blocks in one
    step ([WParked]), and a notification sends it back to acquire the mutex.  A
    notification finds only threads that are blocked; [notify_one] wakes any one of
    them. *)
From S2P Require Import Prelude AuthService.

Section pool.
(** The callbacks. *)
Context {Cb : Type}.

(** [AuthService::Job]: the token and the callback. *)
Local Notation Job := (string * Cb)%type.

(** Where a worker is in [WorkerLoop]: acquiring the mutex; in [wait], evaluating
    the predicate, about to block, or blocked; testing the queue and taking a job;
    releasing the mutex; calling the session server and the callback. *)
Inductive PoolPc :=
  | WLock | WEval | WParking | WParked | WTake | WUnlock (job : Job) | WWork (job : Job) | WExited.

(** Where another thread is: in [ValidateAsync], acquiring the mutex, pushing,
    releasing, notifying; or in [Stop], notifying, or joining the threads [ts] that
    are left. *)
Inductive CallerPc :=
  | CIdle | CLock (job : Job) | CPush (job : Job) | CUnlock | CNotify | CStop | CJoin (ts : list nat).

(** Who may have the mutex. *)
Inductive Holder := Thread (k : nat) | Caller (t : nat).

#[local] Instance Holder_eq_dec : EqDecision Holder.
Proof. solve_decision. Defined.

(** [threads] are all threads that were started and [m_workers] the joinable ones.
    The last four members are the history: the jobs taken from the queue, the
    callbacks called with their arguments, the jobs submitted, and what had been
    submitted when [Stop] cleared the flag. *)
Record AuthState := mkAuthState {
  m_running : bool; m_queue : list Job; m_mutex : option Holder;
  threads : list PoolPc; m_workers : list nat; callers : nat → CallerPc;
  taken : list Job; called : list (Job * (bool * string)); submitted : list Job;
  cutoff : option (list Job) }.

Definition AuthState_new : AuthState :=
  mkAuthState false [] None [] [] (λ _, CIdle) [] [] [] None.

Definition set_thread (k : nat) (p : PoolPc) (s : AuthState) : AuthState :=
  mkAuthState (m_running s) (m_queue s) (m_mutex s) (<[k := p]> (threads s)) (m_workers s)
    (callers s) (taken s) (called s) (submitted s) (cutoff s).
Definition set_owner (m : option Holder) (s : AuthState) : AuthState :=
  mkAuthState (m_running s) (m_queue s) m (threads s) (m_workers s)
    (callers s) (taken s) (called s) (submitted s) (cutoff s).
Definition set_caller (t : nat) (p : CallerPc) (s : AuthState) : AuthState :=
  mkAuthState (m_running s) (m_queue s) (m_mutex s) (threads s) (m_workers s)
    (<[t := p]> (callers s)) (taken s) (called s) (submitted s) (cutoff s).

(** ** Operations *)

(** [Start]. *)
Definition Start (workerCount : nat) (s : AuthState) : AuthState :=
  mkAuthState true (m_queue s) (m_mutex s) (threads s ++ replicate workerCount WLock)
    (m_workers s ++ seq (length (threads s)) workerCount)
    (callers s) (taken s) (called s) (submitted s) (cutoff s).

(** [m_queue.push]. *)
Definition queue_push (job : Job) (s : AuthState) : AuthState :=
  mkAuthState (m_running s) (m_queue s ++ [job]) (m_mutex s) (threads s) (m_workers s)
    (callers s) (taken s) (called s) (submitted s ++ [job]) (cutoff s).

(** [front] and [pop]; [q] is the rest of the queue. *)
Definition queue_pop (job : Job) (q : list Job) (s : AuthState) : AuthState :=
  mkAuthState (m_running s) q (m_mutex s) (threads s) (m_workers s)
    (callers s) (taken s ++ [job]) (called s) (submitted s) (cutoff s).

(** The callback is called. *)
Definition call_back (job : Job) (answer : bool * string) (s : AuthState) : AuthState :=
  mkAuthState (m_running s) (m_queue s) (m_mutex s) (threads s) (m_workers s)
    (callers s) (taken s) (called s ++ [(job, answer)]) (submitted s) (cutoff s).

(** [m_running.exchange(false)] in [Stop] when it reads [true]. *)
Definition clear_running (s : AuthState) : AuthState :=
  mkAuthState false (m_queue s) (m_mutex s) (threads s) (m_workers s)
    (callers s) (taken s) (called s) (submitted s) (Some (submitted s)).

(** [m_workers.clear()]. *)
Definition clear_workers (s : AuthState) : AuthState :=
  mkAuthState (m_running s) (m_queue s) (m_mutex s) (threads s) []
    (callers s) (taken s) (called s) (submitted s) (cutoff s).

(** [m_cv.notify_all()]. *)
Definition wake (p : PoolPc) : PoolPc := match p with WParked => WLock | _ => p end.
Definition notify_all (s : AuthState) : AuthState :=
  mkAuthState (m_running s) (m_queue s) (m_mutex s) (wake <$> threads s) (m_workers s)
    (callers s) (taken s) (called s) (submitted s) (cutoff s).

Definition PendingCount (s : AuthState) : nat := length (m_queue s).

(** The predicate of the wait. *)
Definition has_work (s : AuthState) : bool :=
  negb (bool_decide (m_queue s = [])) || negb (m_running s).

(** ** Steps *)

(** [WorkerLoop]. *)
Inductive pool_step : AuthState → AuthState → Prop :=
  | p_lock s k :
      threads s !! k = Some WLock → m_mutex s = None →
      pool_step s (set_thread k WEval (set_owner (Some (Thread k)) s))
  | p_eval s k :
      threads s !! k = Some WEval →
      pool_step s (set_thread k (if has_work s then WTake else WParking) s)
  | p_park s k :
      threads s !! k = Some WParking → pool_step s (set_thread k WParked (set_owner None s))
  (** [break]; the guard releases the mutex. *)
  | p_break s k :
      threads s !! k = Some WTake → m_queue s = [] →
      pool_step s (set_thread k WExited (set_owner None s))
  | p_take s k job q :
      threads s !! k = Some WTake → m_queue s = job :: q →
      pool_step s (set_thread k (WUnlock job) (queue_pop job q s))
  | p_unlock s k job :
      threads s !! k = Some (WUnlock job) →
      pool_step s (set_thread k (WWork job) (set_owner None s))
  | p_work s k job get :
      threads s !! k = Some (WWork job) →
      pool_step s (set_thread k WLock (call_back job (validate get job.1) s)).

(** [ValidateAsync] and [Stop], after their first step. *)
Inductive caller_step : AuthState → AuthState → Prop :=
  | c_lock s t job :
      callers s t = CLock job → m_mutex s = None →
      caller_step s (set_caller t (CPush job) (set_owner (Some (Caller t)) s))
  | c_push s t job :
      callers s t = CPush job → caller_step s (set_caller t CUnlock (queue_push job s))
  | c_unlock s t :
      callers s t = CUnlock → caller_step s (set_caller t CNotify (set_owner None s))
  | c_notify s t k :
      callers s t = CNotify → threads s !! k = Some WParked →
      caller_step s (set_caller t CIdle (set_thread k WLock s))
  | c_notify_none s t :
      callers s t = CNotify → (∀ k, threads s !! k ≠ Some WParked) →
      caller_step s (set_caller t CIdle s)
  | c_notify_all s t :
      callers s t = CStop → caller_step s (set_caller t (CJoin (m_workers s)) (notify_all s))
  | c_join s t k ts :
      callers s t = CJoin (k :: ts) → threads s !! k = Some WExited →
      caller_step s (set_caller t (CJoin ts) s)
  | c_joined s t :
      callers s t = CJoin [] → caller_step s (set_caller t CIdle (clear_workers s)).

(** The calls.  The server starts the service once, when it is initialised; a
    [Stop] that reads [false] returns at once. *)
Inductive service_call : AuthState → AuthState → Prop :=
  | call_Start s n :
      threads s = [] → cutoff s = None → service_call s (Start n s)
  | call_ValidateAsync s t job :
      callers s t = CIdle → service_call s (set_caller t (CLock job) s)
  | call_Stop s t :
      callers s t = CIdle → m_running s = true →
      service_call s (set_caller t CStop (clear_running s)).

(** A wake-up without a notification. *)
Inductive wake_step : AuthState → AuthState → Prop :=
  | spurious_wake s k : threads s !! k = Some WParked → wake_step s (set_thread k WLock s).

Inductive auth_step : AuthState → AuthState → Prop :=
  | auth_pool s s' : pool_step s s' → auth_step s s'
  | auth_caller s s' : caller_step s s' → auth_step s s'
  | auth_call s s' : service_call s s' → auth_step s s'
  | auth_wake s s' : wake_step s s' → auth_step s s'.

(** ** The jobs *)

(** The jobs being worked on. *)
Definition job_of (p : PoolPc) : option Job :=
  match p with WUnlock job | WWork job => Some job | _ => None end.
Definition working (s : AuthState) : list Job := omap job_of (threads s).

(** Every job submitted is queued, being worked on, or has had its callback, with
    what the session server answered for its token. *)
Record auth_data (s : AuthState) : Prop := {
  ad_order : taken s ++ m_queue s = submitted s;
  ad_taken : taken s ≡ₚ (called s).*1 ++ working s;
  ad_answers : Forall (λ x, ∃ get, x.2 = validate get x.1.1) (called s) }.

Lemma omap_job_insert ws k p p' :
  ws !! k = Some p →
  option_list (job_of p) ++ omap job_of (<[k := p']> ws) ≡ₚ option_list (job_of p') ++ omap job_of ws.
Proof.
  revert k. induction ws as [|x ws IH]; intros k Hk; [done|]. destruct k as [|k]; simpl in *.
  - injection Hk as ->. destruct (job_of p), (job_of p'); simpl; try done. apply Permutation_swap.
  - specialize (IH k Hk). destruct (job_of x); [|done].
    rewrite <- !Permutation_middle. by rewrite IH.
Qed.

(** A thread moves on without taking or finishing a job. *)
Lemma working_move s s' k p p' :
  threads s !! k = Some p → threads s' = <[k := p']> (threads s) → job_of p' = job_of p →
  working s' ≡ₚ working s.
Proof.
  intros Hk Ht E. pose proof (omap_job_insert _ _ _ p' Hk) as H. rewrite E, <- Ht in H.
  by apply Permutation_app_inv_l in H.
Qed.

Lemma auth_data_move s s' :
  (m_queue s', taken s', called s', submitted s') = (m_queue s, taken s, called s, submitted s) →
  working s' ≡ₚ working s → auth_data s → auth_data s'.
Proof.
  intros [= E1 E2 E3 E4] Hw [H1 H2 H3]. split; [congruence| |congruence]. by rewrite E2, E3, Hw.
Qed.

Lemma working_wake s : working (notify_all s) = working s.
Proof.
  unfold working. simpl. induction (threads s) as [|p ws IH]; [done|].
  assert (E : job_of (wake p) = job_of p) by (by destruct p).
  rewrite fmap_cons. cbn. rewrite E. by destruct (job_of p); [f_equal|].
Qed.

Lemma auth_data_step s s' : auth_data s → auth_step s s' → auth_data s'.
Proof.
  intros Hd Hs. pose proof Hd as [H1 H2 H3]. destruct Hs as [s s' Hs|s s' Hs|s s' Hs|s s' Hs].
  - destruct Hs as [s k Hk Hm|s k Hk|s k Hk|s k Hk Hq|s k job q Hk Hq|s k job Hk|s k job get Hk];
      try (apply (auth_data_move s); [done| |done];
           eapply (working_move s _ k); [exact Hk|done|by repeat case_match]).
    + pose proof (omap_job_insert _ _ _ (WUnlock job) Hk) as Hw. simpl in Hw.
      split; simpl; [by rewrite <- H1, Hq, <- app_assoc| |done].
      unfold working. simpl. rewrite Hw, H2. rewrite <- app_assoc.
      apply Permutation_app_head. symmetry. apply Permutation_cons_append.
    + pose proof (omap_job_insert _ _ _ WLock Hk) as Hw. simpl in Hw.
      split; simpl; [done| |].
      * unfold working. simpl. rewrite H2, fmap_app, <- app_assoc. unfold working. by rewrite <- Hw.
      * apply Forall_app. split; [done|]. constructor; [by exists get|done].
  - destruct Hs as [| | |s t k Hc Hk| |s t Hc| |]; try by apply (auth_data_move s).
    + split; simpl; [by rewrite <- H1, app_assoc|done|done].
    + apply (auth_data_move s); [done| |done]. by apply (working_move s _ k WParked WLock).
    + apply (auth_data_move s); [done| |done].
      change (working (notify_all s) ≡ₚ working s). by rewrite working_wake.
  - destruct Hs as [s n Ht Hc| |]; try by apply (auth_data_move s).
    apply (auth_data_move s); [done| |done]. unfold working. simpl. rewrite omap_app.
    assert (omap job_of (replicate n WLock) = []) as ->; [by induction n|]. by rewrite app_nil_r.
  - destruct Hs as [s k Hk]. apply (auth_data_move s); [done| |done]. by apply (working_move s _ k WParked WLock).
Qed.

(** ** The mutex *)

Definition inside (p : PoolPc) : bool :=
  match p with WEval | WParking | WTake | WUnlock _ => true | _ => false end.
Definition in_push (p : CallerPc) : bool :=
  match p with CPush _ | CUnlock => true | _ => false end.

(** The positions in which a thread is in a critical section. *)
Definition holds (s : AuthState) (h : Holder) : Prop :=
  match h with
  | Thread k => ∃ p, threads s !! k = Some p ∧ inside p = true
  | Caller t => in_push (callers s t) = true
  end.

Definition auth_mutex (s : AuthState) : Prop := owned (holds s) (m_mutex s).

Lemma holds_thread s k p q :
  threads s !! k = Some q → holds (set_thread k p s) (Thread k) ↔ inside p = true.
Proof.
  intros Hk%lookup_lt_Some. simpl. rewrite list_lookup_insert_eq by done. naive_solver.
Qed.

Lemma holds_thread_now s k p : threads s !! k = Some p → holds s (Thread k) ↔ inside p = true.
Proof. intros Hk. simpl. rewrite Hk. naive_solver. Qed.

Lemma holds_thread_other s k p h : h ≠ Thread k → holds (set_thread k p s) h ↔ holds s h.
Proof.
  intros Hn. destruct h as [j|t]; simpl; [|done]. by rewrite list_lookup_insert_ne by congruence.
Qed.

Lemma holds_caller s t p : holds (set_caller t p s) (Caller t) ↔ in_push p = true.
Proof. simpl. by rewrite fn_lookup_insert. Qed.

Lemma holds_caller_other s t p h : h ≠ Caller t → holds (set_caller t p s) h ↔ holds s h.
Proof.
  intros Hn. destruct h as [j|u]; simpl; [done|]. by rewrite fn_lookup_insert_ne by congruence.
Qed.

(** A party moves between positions that are both inside or both outside. *)
Lemma owned_thread s k p q m :
  threads s !! k = Some q → inside p = inside q → owned (holds s) m → owned (holds (set_thread k p s)) m.
Proof.
  intros Hk E. apply owned_keep. intros h. destruct (decide (h = Thread k)) as [->|Hn].
  - by rewrite (holds_thread s k p q Hk), (holds_thread_now s k q Hk), E.
  - by apply holds_thread_other.
Qed.

Lemma owned_caller s t p m :
  in_push p = in_push (callers s t) → owned (holds s) m → owned (holds (set_caller t p s)) m.
Proof.
  intros E. apply owned_keep. intros h. destruct (decide (h = Caller t)) as [->|Hn].
  - by rewrite holds_caller, E.
  - by apply holds_caller_other.
Qed.

(** It acquires the mutex, or releases it. *)
Lemma owned_thread_take s k p q :
  threads s !! k = Some q → inside p = true → owned (holds s) None →
  owned (holds (set_thread k p s)) (Some (Thread k)).
Proof.
  intros Hk Hp. apply owned_take; [intros h; apply holds_thread_other|by apply (holds_thread s k p q)].
Qed.

Lemma owned_thread_release s k p q m :
  threads s !! k = Some q → inside q = true → inside p = false → owned (holds s) m →
  owned (holds (set_thread k p s)) None.
Proof.
  intros Hk Hq Hp. apply (owned_release (Thread k)); [by apply (holds_thread_now s k q)| |].
  - intros h. apply holds_thread_other.
  - rewrite (holds_thread s k p q Hk), Hp. done.
Qed.

Lemma holds_wake s h : holds (notify_all s) h ↔ holds s h.
Proof.
  destruct h as [k|t]; simpl; [|done]. rewrite list_lookup_fmap.
  destruct (threads s !! k) as [[]|]; simpl; naive_solver.
Qed.

Lemma auth_mutex_step s s' : auth_mutex s → auth_step s s' → auth_mutex s'.
Proof.
  intros Hm Hs. unfold auth_mutex in *. destruct Hs as [s s' Hs|s s' Hs|s s' Hs|s s' Hs].
  - destruct Hs as [s k Hk Hf|s k Hk|s k Hk|s k Hk Hq|s k job q Hk Hq|s k job Hk|s k job get Hk].
    + rewrite Hf in Hm. by apply (owned_thread_take s k _ WLock).
    + apply (owned_thread s k _ WEval); [done|by case_match|done].
    + by apply (owned_thread_release s k _ WParking (m_mutex s)).
    + by apply (owned_thread_release s k _ WTake (m_mutex s)).
    + by apply (owned_thread s k _ WTake).
    + by apply (owned_thread_release s k _ (WUnlock job) (m_mutex s)).
    + by apply (owned_thread s k _ (WWork job)).
  - destruct Hs as [s t job Hc Hf|s t job Hc|s t Hc|s t k Hc Hk|s t Hc Hn|s t Hc|s t k ts Hc Hk|s t Hc].
    + rewrite Hf in Hm. apply (owned_take (Caller t) (holds s)); [|by apply (holds_caller s t)|done].
      intros h. exact (holds_caller_other s t (CPush job) h).
    + apply (owned_caller s t); [by rewrite Hc|done].
    + apply (owned_release (Caller t) (holds s) _ (m_mutex s)); [simpl; by rewrite Hc| | |done].
      * intros h. exact (holds_caller_other s t CNotify h).
      * intros Hh. pose proof (proj1 (holds_caller s t CNotify) Hh). done.
    + apply (owned_caller (set_thread k WLock s) t); [simpl; by rewrite Hc|].
      by apply (owned_thread s k _ WParked).
    + apply (owned_caller s t); [by rewrite Hc|done].
    + apply (owned_caller (notify_all s) t); [simpl; by rewrite Hc|].
      apply (owned_keep (holds s)); [apply holds_wake|done].
    + apply (owned_caller s t); [by rewrite Hc|done].
    + apply (owned_caller s t); [by rewrite Hc|done].
  - destruct Hs as [s n Ht Hc|s t job Hc|s t Hc Hr].
    + apply (owned_keep (holds s)); [|done]. intros [k|t]; simpl; [|done]. rewrite Ht. simpl.
      split; [|naive_solver]. intros (p & Hp & Hi). apply lookup_replicate in Hp as [-> _]. done.
    + apply (owned_caller s t); [by rewrite Hc|done].
    + apply (owned_caller s t); [by rewrite Hc|done].
  - destruct Hs as [s k Hk]. by apply (owned_thread s k _ WParked).
Qed.

(** ** Waiting *)

(** A thread that will look at the queue before it blocks. *)
Definition awake (p : PoolPc) : bool := match p with WParked | WExited => false | _ => true end.

Definition will_look (s : AuthState) : Prop :=
  (∃ t, callers s t = CUnlock ∨ callers s t = CNotify) ∨ ∃ k p, threads s !! k = Some p ∧ awake p = true.

(** A thread about to block has seen the queue empty; while a job is queued and a
    thread is blocked, a notification is on its way or another thread will look. *)
Record auth_wait (s : AuthState) : Prop := {
  aw_parking : ∀ k, threads s !! k = Some WParking → m_queue s = [];
  aw_parked : ∀ k, threads s !! k = Some WParked → m_queue s = [] ∨ will_look s }.

(** A lookup of a thread after a thread has moved. *)
Lemma thread_insert (ws : list PoolPc) k j p q :
  <[k := p]> ws !! j = Some q → (j = k ∧ q = p) ∨ (j ≠ k ∧ ws !! j = Some q).
Proof.
  destruct (decide (j = k)) as [->|Hn].
  - intros Hj. left. split; [done|]. apply lookup_lt_Some in Hj as Hlt.
    rewrite length_insert in Hlt. rewrite list_lookup_insert_eq in Hj by done. congruence.
  - rewrite list_lookup_insert_ne by done. auto.
Qed.

Lemma thread_moved (ws : list PoolPc) k p q : ws !! k = Some q → <[k := p]> ws !! k = Some p.
Proof. intros Hk%lookup_lt_Some. by apply list_lookup_insert_eq. Qed.

Ltac thread_cases H := apply thread_insert in H as [[-> ?]|[? H]].

(** A caller between positions that promise nothing. *)
Lemma will_look_caller s s' t p :
  threads s' = threads s → callers s' = <[t := p]> (callers s) →
  callers s t ≠ CUnlock → callers s t ≠ CNotify → will_look s → will_look s'.
Proof.
  unfold will_look. intros -> -> H1 H2 [[u Hu]|Hk]; [left; exists u|by right].
  rewrite fn_lookup_insert_ne; [done|]. intros ->. naive_solver.
Qed.

Lemma auth_wait_pool s s' : auth_mutex s → auth_wait s → pool_step s s' → auth_wait s'.
Proof.
  intros Hm [H1 H2] Hs.
  assert (Hin : ∀ j k p q, threads s !! k = Some p → inside p = true →
            threads s !! j = Some q → inside q = true → j = k).
  { intros j k p q Hk Hp Hj Hq. assert (Thread j = Thread k) as [= ->]; [|done].
    apply (owned_unique (holds s) (m_mutex s)); [exact Hm|exists q; auto|exists p; auto]. }
  destruct Hs as [s k Hk Hf|s k Hk|s k Hk|s k Hk Hq|s k job q Hk Hq|s k job Hk|s k job get Hk];
    split; simpl; intros j Hj; thread_cases Hj; try done; eauto;
    try (right; right; do 2 eexists; split; [by eapply thread_moved|by repeat case_match]).
  - unfold has_work in *. case_match; [done|]. case_bool_decide; done.
  - exfalso. by pose proof (Hin j k WTake WParking Hk eq_refl Hj eq_refl).
Qed.

Lemma auth_wait_step s s' : auth_mutex s → auth_wait s → auth_step s s' → auth_wait s'.
Proof.
  intros Hm Hw Hs. destruct Hs as [s s' Hs|s s' Hs|s s' Hs|s s' Hs];
    [by eapply auth_wait_pool|destruct Hw as [H1 H2]..].
  - destruct Hs as [s t job Hc Hf|s t job Hc|s t Hc|s t k Hc Hk|s t Hc Hn|s t Hc|s t k ts Hc Hk|s t Hc];
      split; simpl; intros j Hj; eauto;
      try (destruct (H2 _ Hj); [by left|right; eapply (will_look_caller s _ t); [done..|congruence|congruence|done]]).
    + exfalso. assert (Thread j = Caller t); [|done].
      apply (owned_unique (holds s) (m_mutex s)); [exact Hm|by exists WParking|simpl; by rewrite Hc].
    + right. left. exists t. simpl. rewrite fn_lookup_insert. by left.
    + right. left. exists t. simpl. rewrite fn_lookup_insert. by right.
    + thread_cases Hj; [done|eauto].
    + right. right. exists k, WLock. by split; [eapply thread_moved|].
    + apply (H1 j). rewrite list_lookup_fmap in Hj. by destruct (threads s !! j) as [[]|].
    + rewrite list_lookup_fmap in Hj. by destruct (threads s !! j) as [[]|].
  - destruct Hs as [s n Ht Hc|s t job Hc|s t Hc Hr]; split; simpl; intros j Hj; eauto.
    + rewrite Ht in Hj. by apply lookup_replicate in Hj as [? _].
    + rewrite Ht in Hj. by apply lookup_replicate in Hj as [? _].
    + destruct (H2 _ Hj); [by left|right; eapply (will_look_caller s _ t); [done..|congruence|congruence|done]].
    + destruct (H2 _ Hj); [by left|right; eapply (will_look_caller s _ t); [done..|congruence|congruence|done]].
  - destruct Hs as [s k Hk]. split; simpl; intros j Hj; thread_cases Hj; try done; eauto.
    right. right. exists k, WLock. by split; [eapply thread_moved|].
Qed.

(** ** Stopping *)

Definition stopping (p : CallerPc) : bool := match p with CStop | CJoin _ => true | _ => false end.

(** The flag is cleared by [Stop] only; a worker breaks out of its loop only when
    the flag is cleared and the queue is empty, so after all jobs that were
    submitted before. *)
Record auth_stop (s : AuthState) : Prop := {
  as_cutoff : ∀ l, cutoff s = Some l → m_running s = false ∧ l `prefix_of` submitted s;
  as_running : cutoff s = None → threads s ≠ [] → m_running s = true;
  as_take : ∀ k, threads s !! k = Some WTake → m_queue s ≠ [] ∨ m_running s = false;
  as_exited : ∀ k, threads s !! k = Some WExited →
    ∃ l, cutoff s = Some l ∧ l `prefix_of` taken s }.

Lemma auth_stop_pool s s' :
  auth_data s → auth_mutex s → auth_stop s → pool_step s s' → auth_stop s'.
Proof.
  intros Hd Hm [H1 H2 H3 H4] Hs.
  assert (Hne : ∀ k p p', threads s !! k = Some p → cutoff s = None → <[k := p']> (threads s) ≠ [] →
            m_running s = true).
  { intros k p p' Hk Hc _. apply H2; [done|]. intros E. by rewrite E in Hk. }
  destruct Hs as [s k Hk Hf|s k Hk|s k Hk|s k Hk Hq|s k job q Hk Hq|s k job Hk|s k job get Hk];
    split; simpl; try (by eauto); try (intros j Hj; thread_cases Hj; try done; eauto).
  - unfold has_work in *. destruct (bool_decide_reflect (m_queue s = [])); [|by left].
    destruct (m_running s); [done|by right].
  - by case_match.
  - assert (Hr : m_running s = false) by (destruct (H3 _ Hk); done).
    destruct (cutoff s) as [l|] eqn:Ec.
    + exists l. split; [done|]. destruct (H1 l eq_refl) as [_ Hl].
      pose proof (ad_order s Hd) as Ho. rewrite Hq, app_nil_r in Ho. by rewrite Ho.
    + rewrite H2 in Hr; [done|done|]. intros E. by rewrite E in Hk.
  - exfalso. assert (Thread j = Thread k) as [= ->]; [|done].
    apply (owned_unique (holds s) (m_mutex s)); [exact Hm|by exists WTake..].
  - destruct (H4 _ Hj) as (l & Hl & Hp). exists l. split; [done|]. by apply prefix_app_r.
Qed.

Lemma auth_stop_step s s' :
  auth_data s → auth_mutex s → auth_stop s → auth_step s s' → auth_stop s'.
Proof.
  intros Hd Hm Hst Hs. destruct Hs as [s s' Hs|s s' Hs|s s' Hs|s s' Hs];
    [by eapply auth_stop_pool|destruct Hst as [H1 H2 H3 H4]..].
  - destruct Hs as [s t job Hc Hf|s t job Hc|s t Hc|s t k Hc Hk|s t Hc Hn|s t Hc|s t k ts Hc Hk|s t Hc];
      split; simpl; try done.
    + intros l Hl. destruct (H1 l Hl). split; [done|]. by apply prefix_app_r.
    + intros j Hj. left. by destruct (m_queue s).
    + intros Hc' _. apply H2; [done|]. intros E. by rewrite E in Hk.
    + intros j Hj. thread_cases Hj; [done|eauto].
    + intros j Hj. thread_cases Hj; [done|eauto].
    + intros Hc' Hne. apply H2; [done|]. intros E. by rewrite E in Hne.
    + intros j Hj. apply (H3 j). rewrite list_lookup_fmap in Hj. by destruct (threads s !! j) as [[]|].
    + intros j Hj. apply (H4 j). rewrite list_lookup_fmap in Hj. by destruct (threads s !! j) as [[]|].
  - destruct Hs as [s n Ht Hc|s t job Hc|s t Hc Hr]; split; simpl; try done.
    + intros l Hl. congruence.
    + intros j Hj. rewrite Ht in Hj. by apply lookup_replicate in Hj as [? _].
    + intros j Hj. rewrite Ht in Hj. by apply lookup_replicate in Hj as [? _].
    + intros l [= <-]. done.
    + intros j Hj. by right.
    + intros j Hj. exists (submitted s). split; [done|].
      destruct (H4 _ Hj) as (l & Hl & _). destruct (H1 l Hl). congruence.
  - destruct Hs as [s k Hk]. split; simpl; try done.
    + intros Hc _. apply H2; [done|]. intros E. by rewrite E in Hk.
    + intros j Hj. thread_cases Hj; [done|eauto].
    + intros j Hj. thread_cases Hj; [done|eauto].
Qed.

(** One caller is stopping, and the threads it has joined have left. *)
Record auth_join (s : AuthState) : Prop := {
  aj_workers : cutoff s = None ∨ (∃ t, callers s t = CStop) →
    m_workers s = seq 0 (length (threads s));
  aj_cutoff : ∀ t, stopping (callers s t) = true → cutoff s ≠ None;
  aj_one : ∀ t u, stopping (callers s t) = true → stopping (callers s u) = true → t = u;
  aj_joined : ∀ t ts k, callers s t = CJoin ts → (k < length (threads s))%nat →
    k ∈ ts ∨ threads s !! k = Some WExited }.

(** The steps of the workers: threads that have left stay so. *)
Lemma auth_join_threads s s' :
  (m_workers s', callers s', cutoff s') = (m_workers s, callers s, cutoff s) →
  length (threads s') = length (threads s) →
  (∀ k, threads s !! k = Some WExited → threads s' !! k = Some WExited) →
  auth_join s → auth_join s'.
Proof.
  intros [= E1 E2 E3] El Hx [H1 H2 H3 H4]. split; rewrite ?E1, ?E2, ?E3, ?El; auto.
  intros t ts k Hc Hk. destruct (H4 t ts k Hc Hk); auto.
Qed.

Lemma exited_stays (ws : list PoolPc) k j p q :
  ws !! k = Some q → q ≠ WExited → ws !! j = Some WExited → <[k := p]> ws !! j = Some WExited.
Proof. intros Hk Hq Hj. rewrite list_lookup_insert_ne; [done|]. intros ->. congruence. Qed.

(** A caller moves between positions outside [Stop]. *)
Lemma auth_join_caller s s' t p :
  (m_workers s', cutoff s', threads s') = (m_workers s, cutoff s, threads s) →
  callers s' = <[t := p]> (callers s) → stopping (callers s t) = false → stopping p = false →
  auth_join s → auth_join s'.
Proof.
  intros [= E1 E2 E3] Ec Ht Hp [H1 H2 H3 H4].
  assert (Hcs : ∀ u, stopping (callers s' u) = true → callers s' u = callers s u).
  { intros u. rewrite Ec. destruct (decide (u = t)) as [->|];
      [rewrite fn_lookup_insert; congruence|by rewrite fn_lookup_insert_ne]. }
  split; rewrite ?E1, ?E2, ?E3.
  - intros [Hc|[u Hu]]; apply H1; [by left|right; exists u]. by rewrite <- Hcs, Hu by (by rewrite Hu).
  - intros u Hu. apply (H2 u). by rewrite <- Hcs.
  - intros u v Hu Hv. apply H3; by rewrite <- Hcs.
  - intros u ts k Hu. apply (H4 u). by rewrite <- Hcs by (by rewrite Hu).
Qed.

(** The caller in [Stop] moves on. *)
Lemma auth_join_stop s s' t p :
  (cutoff s', threads s') = (cutoff s, threads s) → callers s' = <[t := p]> (callers s) →
  stopping (callers s t) = true → p ≠ CStop →
  (∀ ts k, p = CJoin ts → (k < length (threads s))%nat → k ∈ ts ∨ threads s !! k = Some WExited) →
  auth_join s → auth_join s'.
Proof.
  intros [= E2 E3] Ec Ht Hp Hj [H1 H2 H3 H4].
  assert (Hcs : ∀ u, stopping (callers s' u) = true → u = t).
  { intros u. rewrite Ec. destruct (decide (u = t)) as [->|]; [done|].
    rewrite fn_lookup_insert_ne by done. intros Hu. by apply H3. }
  assert (Hct : callers s' t = p) by (by rewrite Ec, fn_lookup_insert).
  split; rewrite ?E2, ?E3.
  - intros [Hc|[u Hu]]; [by apply H2 in Ht|]. assert (u = t) as -> by (apply Hcs; by rewrite Hu). congruence.
  - intros u ->%Hcs. by apply (H2 t).
  - intros u v ->%Hcs ->%Hcs. done.
  - intros u ts k Hu. assert (u = t) as -> by (apply Hcs; by rewrite Hu). apply Hj. congruence.
Qed.

Lemma auth_join_step s s' : auth_stop s → auth_join s → auth_step s s' → auth_join s'.
Proof.
  intros Hst Hj Hs. destruct Hs as [s s' Hs|s s' Hs|s s' Hs|s s' Hs].
  - destruct Hs; (apply (auth_join_threads s); [done|apply length_insert| |done]);
      intros j; by apply (exited_stays _ k j _ _ H).
  - destruct Hs as [s t job Hc Hf|s t job Hc|s t Hc|s t k Hc Hk|s t Hc Hn|s t Hc|s t k ts Hc Hk|s t Hc].
    + eapply (auth_join_caller s _ t); [done..|by rewrite Hc|done|done].
    + eapply (auth_join_caller s _ t); [done..|by rewrite Hc|done|done].
    + eapply (auth_join_caller s _ t); [done..|by rewrite Hc|done|done].
    + eapply (auth_join_caller (set_thread k WLock s) _ t); [done..|simpl; by rewrite Hc|done|].
      apply (auth_join_threads s); [done|apply length_insert| |done].
      intros j. by apply (exited_stays _ k j _ _ Hk).
    + eapply (auth_join_caller s _ t); [done..|by rewrite Hc|done|done].
    + assert (Hj' : auth_join (notify_all s)).
      { apply (auth_join_threads s); [done|apply length_fmap| |done].
        intros j Hx. simpl. by rewrite list_lookup_fmap, Hx. }
      eapply (auth_join_stop (notify_all s) _ t); [done..|simpl; by rewrite Hc|done| |done].
      intros ts k [= <-] Hk. left. rewrite (aj_workers _ Hj) by eauto.
      simpl in Hk. rewrite length_fmap in Hk. apply elem_of_seq. lia.
    + eapply (auth_join_stop s _ t); [done..|by rewrite Hc|done| |done].
      intros ts' j [= <-] Hlt. destruct (aj_joined _ Hj t _ j Hc Hlt) as [Hin|Hx]; [|by right].
      apply elem_of_cons in Hin as [->|]; [by right|by left].
    + by eapply (auth_join_stop s _ t); [done..|rewrite Hc|done| |].
  - destruct Hs as [s n Ht Hc|s t job Hc|s t Hc Hr].
    + destruct Hj as [H1 H2 H3 H4]. split; simpl; try done.
      * intros _. rewrite H1 by auto. by rewrite Ht, length_app, length_replicate.
      * intros t ts k Hcs. assert (Hx : cutoff s ≠ None) by (apply (H2 t); by rewrite Hcs). done.
    + eapply (auth_join_caller s _ t); [done..|by rewrite Hc|done|done].
    + assert (Hn : cutoff s = None).
      { destruct (cutoff s) as [l|] eqn:Ec; [|done]. destruct (as_cutoff _ Hst l Ec). congruence. }
      destruct Hj as [H1 H2 H3 H4].
      assert (Hcs : ∀ u, stopping ((<[t := CStop]> (callers s) : nat → CallerPc) u) = true → u = t).
      { intros u. destruct (decide (u = t)) as [->|]; [done|]. rewrite fn_lookup_insert_ne by done.
        by intros Hx%H2. }
      split; simpl.
      * intros _. auto.
      * done.
      * intros u v ->%Hcs ->%Hcs. done.
      * intros u ts k Hu. assert (u = t) as -> by (apply Hcs; by rewrite Hu).
        by rewrite fn_lookup_insert in Hu.
  - destruct Hs as [s k Hk]. apply (auth_join_threads s); [done|apply length_insert| |done].
    intros j. by apply (exited_stays _ k j _ _ Hk).
Qed.

Record auth_inv (s : AuthState) : Prop := {
  ai_data : auth_data s; ai_mutex : auth_mutex s; ai_wait : auth_wait s;
  ai_stop : auth_stop s; ai_join : auth_join s }.

Lemma auth_inv_step s s' : auth_inv s → auth_step s s' → auth_inv s'.
Proof.
  intros [Hd Hm Hw Hst Hj] Hs. split; [by eapply auth_data_step|by eapply auth_mutex_step|
    by eapply auth_wait_step|by eapply auth_stop_step|by eapply auth_join_step].
Qed.

Lemma auth_inv_reachable s : rtc auth_step AuthState_new s → auth_inv s.
Proof.
  apply rtc_invariant; [|intros a b; apply auth_inv_step].
  split; [by split| |by split|by split|by split].
  intros [k|t]; simpl; [|done]. split; [|done]. intros (p & Hp & _). by destruct k.
Qed.

(** ** Progress *)

(** The steps a worker has left before it blocks, looks again or leaves. *)
Definition pc_left (p : PoolPc) : nat :=
  match p with
  | WParked | WExited => 0 | WParking | WTake => 1 | WEval => 2 | WLock => 3
  | WWork _ => 4 | WUnlock _ => 5
  end.
Definition auth_left (s : AuthState) : nat :=
  sum_list_with pc_left (threads s) + 5 * length (m_queue s).

Lemma auth_left_step s s' : pool_step s s' → (auth_left s' < auth_left s)%nat.
Proof.
  intros Hs. unfold auth_left.
  destruct Hs as [s k Hk Hf|s k Hk|s k Hk|s k Hk Hq|s k job q Hk Hq|s k job Hk|s k job get Hk]; simpl;
    rewrite ?Hq; simpl; match goal with |- context [sum_list_with _ (<[_ := ?y]> _)] =>
      pose proof (sum_list_insert pc_left _ _ _ y Hk) as Hsum; simpl in Hsum end;
    try case_match; simpl in *; lia.
Qed.

(** Every other thread is done, or waits in [Stop]. *)
Definition quiet (s : AuthState) : Prop := ∀ t, callers s t = CIdle ∨ ∃ ts, callers s t = CJoin ts.

Lemma pool_nsteps n s s' :
  auth_inv s → quiet s → nsteps pool_step n s s' →
  auth_inv s' ∧ quiet s' ∧ length (threads s') = length (threads s) ∧ cutoff s' = cutoff s
  ∧ (n + auth_left s' ≤ auth_left s)%nat.
Proof.
  intros Hi Hq Hn. induction Hn as [s|n s s1 s2 Hs Hn IH]; [by split_and!|].
  pose proof (auth_left_step s s1 Hs). destruct IH as (Hi' & Hq' & Hl & Hc & Hm).
  - by eapply auth_inv_step, auth_pool.
  - by destruct Hs.
  - rewrite Hl, Hc. split_and!; [done|done| | |lia]; destruct Hs; simpl; [apply length_insert..|done|done|done|done|done|done|done].
Qed.

(** Only blocked and finished workers have no step. *)
Lemma pool_stuck s :
  auth_inv s → quiet s → (∀ s', ¬ pool_step s s') →
  Forall (λ p, p = WParked ∨ p = WExited) (threads s).
Proof.
  intros [_ Hm _ _ _] Hq Hn.
  assert (Hin : ∀ k p, threads s !! k = Some p → inside p = false).
  { intros k p Hk. destruct p as [| | | | |job|job|] eqn:Ep; try done; exfalso.
    - by eapply Hn, p_eval.
    - by eapply Hn, p_park.
    - destruct (m_queue s) eqn:Eq; [by eapply Hn, p_break|by eapply Hn, p_take].
    - by eapply Hn, p_unlock. }
  assert (Hf : m_mutex s = None).
  { destruct (m_mutex s) as [[k|t]|] eqn:E; [| |done]; apply Hm in E; simpl in E.
    - destruct E as (p & Hk & Hi). rewrite (Hin k p Hk) in Hi. done.
    - destruct (Hq t) as [Hc|[ts Hc]]; by rewrite Hc in E. }
  apply Forall_lookup. intros k p Hk.
  destruct p as [| | | | |job|job|]; auto; try (by apply Hin in Hk); exfalso.
  - by eapply Hn, p_lock.
  - by eapply Hn, (p_work _ _ _ (λ _, mkResponse 0 "")).
Qed.

Lemma working_none s :
  Forall (λ p, p = WParked ∨ p = WExited) (threads s) → working s = [].
Proof. unfold working. induction 1 as [|p ws [-> | ->] _ IH]; done. Qed.

Lemma prefix_called (l k : list Job) : l `prefix_of` k → l ⊆+ k.
Proof. intros [r ->]. apply submseteq_inserts_r. done. Qed.

(** When the workers are through, what was taken has been called; so has what was
    submitted while the service runs, and what was submitted before it was
    stopped. *)
Lemma pool_drained s :
  auth_inv s → quiet s → threads s ≠ [] →
  Forall (λ p, p = WParked ∨ p = WExited) (threads s) →
  (called s).*1 ≡ₚ taken s ∧ (m_running s = true → (called s).*1 ≡ₚ submitted s)
  ∧ (∀ l, cutoff s = Some l → l ⊆+ (called s).*1).
Proof.
  intros [[H1 H2 H3] Hm Hw Hst Hj] Hq Hne Hp. rewrite (working_none s Hp), app_nil_r in H2.
  assert (Hpk : ∀ k, threads s !! k = Some WParked → m_queue s = []).
  { intros k Hk. destruct (aw_parked _ Hw k Hk) as [|[[t Ht]|(j & p & Hjp & Ha)]]; [done| |].
    - destruct (Hq t) as [?|[??]]; naive_solver congruence.
    - rewrite Forall_lookup in Hp. destruct (Hp _ _ Hjp) as [-> | ->]; done. }
  destruct (threads s) as [|p ws] eqn:E; [done|].
  assert (H0 : threads s !! 0%nat = Some p) by (by rewrite E).
  rewrite <- E in Hpk. split; [done|].
  apply Forall_cons in Hp as [[-> | ->] _].
  - specialize (Hpk _ H0). rewrite Hpk, app_nil_r in H1. split; [by rewrite <- H1|].
    intros l Hl. rewrite <- H2, H1. apply prefix_called. by apply (as_cutoff _ Hst).
  - destruct (as_exited _ Hst _ H0) as (l & Hl & Hpre). destruct (as_cutoff _ Hst l Hl) as [Hr _].
    split; [congruence|]. intros l' Hl'. rewrite <- H2. apply prefix_called. congruence.
Qed.

(** A worker leaves its loop only after the stop signal, and only with an empty
    queue. *)
Lemma pool_leaves s s' k :
  auth_inv s → pool_step s s' → threads s !! k ≠ Some WExited → threads s' !! k = Some WExited →
  m_running s = false ∧ m_queue s = [].
Proof.
  intros Hi Hs Hk Hk'.
  destruct Hs as [s j Hj Hf|s j Hj|s j Hj|s j Hj Hq|s j job q Hj Hq|s j job Hj|s j job get Hj];
    simpl in Hk'; thread_cases Hk'; try done; try (by case_match).
  split; [|done]. by destruct (as_take _ (ai_stop _ Hi) _ Hj).
Qed.

(** Once the service is stopped, a worker that does not block now never will. *)
Definition leaving (s : AuthState) : Prop :=
  m_running s = false ∧ Forall (λ p, p ≠ WParked ∧ p ≠ WParking) (threads s).

Lemma leaving_step s s' : leaving s → pool_step s s' → leaving s'.
Proof.
  intros [Hr Hf] Hs.
  destruct Hs as [s k Hk Hm|s k Hk|s k Hk|s k Hk Hq|s k job q Hk Hq|s k job Hk|s k job get Hk];
    (split; [done|]); simpl; try (by apply Forall_insert).
  - apply Forall_insert; [done|]. unfold has_work. by rewrite Hr, orb_true_r.
  - rewrite Forall_lookup in Hf. by destruct (Hf _ _ Hk).
Qed.

Lemma leaving_nsteps n s s' : leaving s → nsteps pool_step n s s' → leaving s'.
Proof. intros Hl Hn. induction Hn as [|n s s1 s2 Hs _ IH]; eauto using leaving_step. Qed.

(** The notification of [Stop] leaves nobody blocked. *)
Lemma notify_all_wakes s : Forall (λ p, p ≠ WParked) (threads (notify_all s)).
Proof. simpl. apply Forall_fmap, Forall_true. by intros []. Qed.

Lemma stop_wakes s s' t :
  callers s t = CStop → caller_step s s' → callers s' t ≠ CStop →
  Forall (λ p, p ≠ WParked) (threads s').
Proof.
  intros Ht Hs Hn.
  destruct Hs as [s u job Hc Hf|s u job Hc|s u Hc|s u k Hc Hk|s u Hc Hp|s u Hc|s u k ts Hc Hk|s u Hc];
    try (exfalso; apply Hn; simpl; rewrite fn_lookup_insert_ne; [done|congruence]).
  exact (notify_all_wakes s).
Qed.

(** C27. Validations are neither lost nor repeated, whatever the interleaving of the
    callers, the workers, the notifications and [Stop].  Jobs leave the queue in
    the order of submission; each is worked on by one worker and has its callback
    once, with what [validate] makes of the session server's answer for its token.
    The queue is touched by one thread at a time.  A worker leaves its loop only
    when the service has been stopped and the queue is empty.  [Stop] wakes every
    worker that is blocked, and when it returns all workers have left and every
    job submitted before the stop has had its callback.  And no notification of a
    job is lost: once the callers are through, the workers come to rest after
    finitely many steps, and then every job submitted has had its callback if the
    service runs, and every job submitted before the stop if it does not.  If no
    worker is blocked or about to block when it has been stopped, all leave. *)
Theorem AuthService_exactly_once s :
  rtc auth_step AuthState_new s →
  taken s ++ m_queue s = submitted s
  ∧ taken s ≡ₚ (called s).*1 ++ working s
  ∧ Forall (λ x, ∃ get, x.2 = validate get x.1.1) (called s)
  ∧ (∀ h h', holds s h → holds s h' → h = h')
  ∧ (∀ s' k, pool_step s s' → threads s !! k ≠ Some WExited → threads s' !! k = Some WExited →
      m_running s = false ∧ m_queue s = [])
  ∧ (∀ s' t, callers s t = CStop → caller_step s s' → callers s' t ≠ CStop →
      Forall (λ p, p ≠ WParked) (threads s'))
  ∧ (∀ t, callers s t = CJoin [] → threads s ≠ [] →
      Forall (λ p, p = WExited) (threads s) ∧ ∃ l, cutoff s = Some l ∧ l ⊆+ (called s).*1)
  ∧ (quiet s → threads s ≠ [] → ∃ bound, ∀ n s', nsteps pool_step n s s' →
      (n ≤ bound)%nat
      ∧ ((∀ s'', ¬ pool_step s' s'') →
         Forall (λ p, p = WParked ∨ p = WExited) (threads s') ∧ (called s').*1 ≡ₚ taken s'
         ∧ (m_running s' = true → (called s').*1 ≡ₚ submitted s')
         ∧ (∀ l, cutoff s = Some l → l ⊆+ (called s').*1)
         ∧ (m_running s = false → Forall (λ p, p ≠ WParked ∧ p ≠ WParking) (threads s) →
            Forall (λ p, p = WExited) (threads s')))).
Proof.
  intros Hr%auth_inv_reachable. pose proof Hr as [[H1 H2 H3] Hm Hw Hst Hj].
  split_and!; [done|done|done|intros h h'; by apply (owned_unique _ (m_mutex s))| | | |].
  - intros s' k. by apply pool_leaves.
  - intros s' t. by apply stop_wakes.
  - intros t Ht Hne. assert (Hx : Forall (λ p, p = WExited) (threads s)).
    { apply Forall_lookup. intros k p Hk.
      destruct (aj_joined _ Hj t [] k Ht) as [Hin|]; [by eapply lookup_lt_Some| |congruence].
      by apply elem_of_nil in Hin. }
    split; [done|]. rewrite (working_none s), app_nil_r in H2
      by (eapply Forall_impl; [exact Hx|by right]).
    destruct (threads s) as [|p ws] eqn:E; [done|]. apply Forall_cons in Hx as [-> _].
    destruct (as_exited _ Hst 0%nat) as (l & Hl & Hp); [by rewrite E|].
    exists l. split; [done|]. rewrite <- H2. by apply prefix_called.
  - intros Hq Hne. exists (auth_left s). intros n s' Hn.
    destruct (pool_nsteps n s s' Hr Hq Hn) as (Hi' & Hq' & Hl & Hc & Hle). split; [lia|]. intros Hstuck.
    rewrite <- Hc. pose proof (pool_stuck s' Hi' Hq' Hstuck) as Hp. split; [done|].
    destruct (pool_drained s') as (D1 & D2 & D3); try done.
    { intros E. rewrite E in Hl. by destruct (threads s). }
    split_and!; try done. intros Hrun Hf.
    destruct (leaving_nsteps n s s' (conj Hrun Hf) Hn) as [_ Hf'].
    rewrite Forall_forall in *. intros p Hin. destruct (Hp p Hin) as [->|]; [|done].
    by destruct (Hf' _ Hin).
Qed.
End pool.

(** ** The lost stop signal *)

(** A client in [ValidateAsync]: the job queued, nobody waiting. *)
Definition validated {Cb} (t : nat) (job : string * Cb) (s : AuthState) : AuthState :=
  set_caller t CIdle (set_caller t CNotify (set_owner None (set_caller t CUnlock (queue_push job
    (set_caller t (CPush job) (set_owner (Some (Caller t)) (set_caller t (CLock job) s))))))).

Lemma validated_run {Cb} t (job : string * Cb) s :
  callers s t = CIdle → m_mutex s = None → (∀ k, threads s !! k ≠ Some WParked) →
  rtc auth_step s (validated t job s).
Proof.
  intros Hc Hm Hp.
  eapply rtc_l; [by apply auth_call, call_ValidateAsync|].
  eapply rtc_l; [by apply auth_caller, (c_lock _ t job); [apply fn_lookup_insert|]|].
  eapply rtc_l; [by apply auth_caller, (c_push _ t job), fn_lookup_insert|].
  eapply rtc_l; [by apply auth_caller, (c_unlock _ t), fn_lookup_insert|].
  eapply rtc_l; [by apply auth_caller, (c_notify_none _ t); [apply fn_lookup_insert|]|].
  apply rtc_refl.
Qed.

(** [Stop], up to its [join]s, when nobody is blocked. *)
Definition stopped {Cb} (t : nat) (s : @AuthState Cb) : AuthState :=
  set_caller t (CJoin (m_workers s)) (notify_all (set_caller t CStop (clear_running s))).

Lemma stopped_run {Cb} t (s : @AuthState Cb) :
  callers s t = CIdle → m_running s = true → rtc auth_step s (stopped t s).
Proof.
  intros Hc Hr. eapply rtc_l; [by apply auth_call, call_Stop|].
  eapply rtc_l; [by apply auth_caller, (c_notify_all _ t), fn_lookup_insert|]. apply rtc_refl.
Qed.

(** One worker, which has found the queue empty; then [Stop] comes by, and only
    then the worker blocks. *)
Definition lost_stop : @AuthState nat :=
  set_thread 0 WParked (set_owner None (stopped 0
    (set_thread 0 WParking (set_thread 0 WEval (set_owner (Some (Thread 0)) (Start 1 AuthState_new)))))).

Lemma lost_stop_reachable : rtc auth_step AuthState_new lost_stop.
Proof.
  eapply rtc_l; [by apply auth_call, (call_Start _ 1)|].
  eapply rtc_l; [by apply auth_pool, (p_lock _ 0)|]. eapply rtc_l; [by apply auth_pool, (p_eval _ 0)|].
  etrans; [by apply (stopped_run 0)|].
  eapply rtc_l; [by apply auth_pool, (p_park _ 0)|]. apply rtc_refl.
Qed.

(** The stop signal can be lost: [Stop] clears [m_running] without the mutex, so
    its notification may come between a worker's look at the predicate and its
    blocking.  Then [Stop] waits in [join] for a worker that is blocked, and no
    thread can take a step. *)
Theorem AuthService_lost_stop :
  ∃ s : @AuthState nat, rtc auth_step AuthState_new s ∧ callers s 0%nat = CJoin [0%nat]
    ∧ threads s = [WParked] ∧ (∀ t, t ≠ 0%nat → callers s t = CIdle)
    ∧ (∀ s', ¬ pool_step s s') ∧ (∀ s', ¬ caller_step s s').
Proof.
  assert (Hc : ∀ t, callers lost_stop t = if decide (t = 0)%nat then CJoin [0%nat] else CIdle).
  { intros t. simpl. case_decide as Ht; [by rewrite Ht|]. by rewrite !fn_lookup_insert_ne. }
  exists lost_stop. split; [apply lost_stop_reachable|]. split_and!; [done|done| | |].
  - intros t Ht. by rewrite Hc, decide_False.
  - intros s' Hs. inversion Hs as [? [|k] Hk|? [|k] Hk|? [|k] Hk|? [|k] Hk|? [|k] ? ? Hk|? [|k] ? Hk|? [|k] ? ? Hk];
      subst; discriminate Hk.
  - intros s' Hs. inversion Hs as [? t ? E|? t ? E|? t E|? t k E|? t E|? t E|? t k ts E Hk|? t E]; subst;
      rewrite Hc in E; case_decide; try discriminate E.
    injection E as <- <-. discriminate Hk.
Qed.

(** *** Witnesses *)

(** One worker, working on a first job; a second job is queued, and [Stop] waits. *)
Definition demo_first : string * nat := ("t1"%string, 1%nat).
Definition demo_second : string * nat := ("t2"%string, 2%nat).
Definition demo_pool : @AuthState nat :=
  stopped 1 (validated 0 demo_second (set_thread 0 (WWork demo_first) (set_owner None
    (set_thread 0 (WUnlock demo_first) (queue_pop demo_first [] (set_thread 0 WTake
      (set_thread 0 WEval (set_owner (Some (Thread 0))
        (validated 0 demo_first (Start 1 AuthState_new)))))))))).

Lemma demo_pool_reachable : rtc auth_step AuthState_new demo_pool.
Proof.
  eapply rtc_l; [by apply auth_call, (call_Start _ 1)|].
  etrans; [apply (validated_run 0 demo_first); [done|done|by intros [|k]]|].
  eapply rtc_l; [by apply auth_pool, (p_lock _ 0)|]. eapply rtc_l; [by apply auth_pool, (p_eval _ 0)|].
  eapply rtc_l; [by apply auth_pool, (p_take _ 0)|].
  eapply rtc_l; [by apply auth_pool, (p_unlock _ 0 demo_first)|].
  etrans; [apply (validated_run 0 demo_second); [done|done|by intros [|k]]|].
  by apply (stopped_run 1).
Qed.

Lemma demo_pool_quiet : quiet demo_pool.
Proof.
  intros t. destruct (decide (t = 1%nat)) as [->|Ht]; [right; by eexists|left].
  destruct (decide (t = 0%nat)) as [->|Ht']; [done|]. simpl. by rewrite !fn_lookup_insert_ne.
Qed.

Lemma AuthService_exactly_once_witness :
  taken demo_pool = [demo_first] ∧ m_queue demo_pool = [demo_second] ∧ called demo_pool = []
  ∧ ∃ bound, ∀ n s', nsteps pool_step n demo_pool s' →
      (n ≤ bound)%nat
      ∧ ((∀ s'', ¬ pool_step s' s'') →
         [demo_first; demo_second] ⊆+ (called s').*1 ∧ Forall (λ p, p = WExited) (threads s')).
Proof.
  split_and!; [reflexivity..|].
  destruct (AuthService_exactly_once demo_pool demo_pool_reachable) as (_&_&_&_&_&_&_&H).
  destruct (H demo_pool_quiet) as [bound Hb]; [discriminate|]. exists bound. intros n s' Hn.
  destruct (Hb n s' Hn) as [Hle Hs]. split; [exact Hle|]. intros Hstuck.
  destruct (Hs Hstuck) as (_ & _ & _ & Hl & Hx). split; [exact (Hl _ eq_refl)|].
  apply Hx; [reflexivity|]. repeat constructor; discriminate.
Defined.
