(* ===== verification/HttpClient.v ===== *)
(** * The HTTP client

    Models [Utils/HttpClient.h] and [Utils/HttpClient.cpp], the synchronous
    requests to the session server and the control plane.  WinHTTP is given from
    outside: [Outcome] says what its calls return during one request, and
    [WideText] is the conversion of text to wide characters.  The calls the
    client makes are recorded in order. *)
From Stdlib Require Import Ascii.
From S2P Require Import Prelude Strings AuthService.
Local Open Scope Z_scope.

(** [MultiByteToWideChar] with a length of -1: the units of the text and, since
    the terminator is converted too, a zero at the end. *)
Class WideText := {
  wide : string → list Z;
  wide_terminated : ∀ s, ∃ units, wide s = units ++ [0] ∧ 0 ∉ units }.

Section client.
Context `{WideText}.

(** The length the conversion reports counts the terminator, and the string is
    made that long. *)
Definition ToWide (s : string) : list Z := if decide (s = "") then [] else wide s.

Record Header := mkHeader { name : string; value : string }.

(** One turn of the loop over the body: [WinHttpQueryDataAvailable] fails, or it
    reports a number of bytes; if this is not zero, [WinHttpReadData] is called,
    which reads some bytes or fails. *)
Inductive Round := QueryFailed | Available (bytesAvail : Z) (data : option string).

(** What WinHTTP does in a request.  After the last of [rounds] no more bytes are
    available. *)
Record Outcome := mkOutcome {
  opened : bool; connected : bool; requested : bool; sent : bool; received : bool;
  status : option Z; rounds : list Round }.

Inductive Handle := HSession | HConnect | HRequest.
#[export] Instance Handle_eq_dec : EqDecision Handle.
Proof. solve_decision. Defined.

Inductive Call :=
  | CallOpen (ok : bool)
  | CallSetTimeouts (timeoutMs : Z)
  | CallConnect (host : list Z) (port : Z) (ok : bool)
  | CallOpenRequest (method path : list Z) (ok : bool)
  | CallSendRequest (headers : list Z) (body : string)
  | CallReceiveResponse
  | CallQueryHeaders
  | CallQueryDataAvailable
  | CallReadData
  | CallCloseHandle (h : Handle).

Definition crlf : string := String "013"%char (String "010"%char "").

Definition no_response : Response := mkResponse 0 "".

(** A wide string literal of ASCII characters, as a string: without terminator. *)
Definition literal (s : string) : list Z := map ascii_val (String.list_ascii_of_string s).

(** The header block. *)
Definition requestHeaders (body : string) (headers : list Header) : list Z :=
  (if decide (body = "") then [] else literal ("Content-Type: application/json" +:+ crlf))
  ++ concat (map (λ h, ToWide (name h +:+ ": " +:+ value h +:+ crlf)) headers).

(** The loop over the body.  A failed read leaves [bytesRead] at zero, so nothing
    is appended, and the loop goes on. *)
Fixpoint read_body (rs : list Round) : string * list Call :=
  match rs with
  | [] | QueryFailed :: _ => ("", [CallQueryDataAvailable])
  | Available bytesAvail data :: rs =>
      if decide (bytesAvail > 0) then
        let '(rest, calls) := read_body rs in
        (default "" data +:+ rest, CallQueryDataAvailable :: CallReadData :: calls)
      else ("", [CallQueryDataAvailable])
  end.

Definition DoRequest (e : Outcome) (method host : string) (port : Z) (path body : string)
    (timeoutMs : Z) (headers : list Header) : Response * list Call :=
  let calls := [CallOpen (opened e)] in
  if negb (opened e) then (no_response, calls)
  else
    let calls := calls ++ [CallSetTimeouts timeoutMs;
                           CallConnect (ToWide host) (u16 port) (connected e)] in
    if negb (connected e) then (no_response, calls ++ [CallCloseHandle HSession])
    else
      let calls := calls ++ [CallOpenRequest (ToWide method) (ToWide path) (requested e)] in
      if negb (requested e) then
        (no_response, calls ++ [CallCloseHandle HConnect; CallCloseHandle HSession])
      else
        let calls := calls ++ [CallSendRequest (requestHeaders body headers) body] in
        let calls := if sent e then calls ++ [CallReceiveResponse] else calls in
        if negb (sent e && received e) then
          (no_response, calls ++ [CallCloseHandle HRequest; CallCloseHandle HConnect;
                                  CallCloseHandle HSession])
        else
          let statusCode := i32 (default 0 (status e)) in
          let '(text, reads) := read_body (rounds e) in
          (mkResponse statusCode text,
           calls ++ [CallQueryHeaders] ++ reads
           ++ [CallCloseHandle HRequest; CallCloseHandle HConnect; CallCloseHandle HSession]).

Definition Get (e : Outcome) (host : string) (port : Z) (path : string) (timeoutMs : Z)
    (headers : list Header) : Response * list Call :=
  DoRequest e "GET" host port path "" timeoutMs headers.

Definition Post (e : Outcome) (host : string) (port : Z) (path body : string) (timeoutMs : Z)
    (headers : list Header) : Response * list Call :=
  DoRequest e "POST" host port path body timeoutMs headers.

(** ** Handles *)

(** The open handles after the calls, the last opened first; [None] if a handle
    is closed that is not the last one opened. *)
Fixpoint open_handles (calls : list Call) (hs : list Handle) : option (list Handle) :=
  match calls with
  | [] => Some hs
  | CallOpen true :: calls => open_handles calls (HSession :: hs)
  | CallConnect _ _ true :: calls => open_handles calls (HConnect :: hs)
  | CallOpenRequest _ _ true :: calls => open_handles calls (HRequest :: hs)
  | CallCloseHandle h :: calls =>
      match hs with
      | h' :: hs => if decide (h = h') then open_handles calls hs else None
      | [] => None
      end
  | _ :: calls => open_handles calls hs
  end.

Lemma open_handles_app calls calls' hs :
  open_handles (calls ++ calls') hs = (hs' ← open_handles calls hs; open_handles calls' hs').
Proof.
  revert hs. induction calls as [|c calls IH]; intros hs; [done|]. simpl.
  destruct c; try apply IH; try (destruct ok; apply IH).
  destruct hs as [|h' hs]; [done|]. case_decide; [apply IH|done].
Qed.

Lemma read_body_handles rs hs : open_handles (read_body rs).2 hs = Some hs.
Proof.
  induction rs as [|[|n d] rs IH]; simpl; [done..|]. case_decide; [|done].
  by destruct (read_body rs).
Qed.

(** A round in which the loop goes on, and what it appends. *)
Definition goes_on (r : Round) : Prop :=
  match r with QueryFailed => False | Available n _ => n > 0 end.
Definition round_text (r : Round) : string :=
  match r with Available _ (Some data) => data | _ => "" end.
Definition body_text (rs : list Round) : string := foldr (λ r rest, round_text r +:+ rest) "" rs.

(** The loop stops: at the end of the body, or because the query fails. *)
Definition at_end (rs : list Round) : Prop :=
  match rs with [] => True | Available n _ :: _ => n <= 0 | QueryFailed :: _ => False end.
Definition broken_off (rs : list Round) : Prop :=
  match rs with QueryFailed :: _ => True | _ => False end.

Lemma read_body_text rs rs' :
  Forall goes_on rs → at_end rs' ∨ broken_off rs' → (read_body (rs ++ rs')).1 = body_text rs.
Proof.
  intros Hrs Hn. induction Hrs as [|[|n d] rs Hr _ IH]; simpl in *; [|done|].
  - destruct rs' as [|[|n d] rs']; simpl in *; [done..|]. destruct Hn; [|done].
    by rewrite decide_False by lia.
  - rewrite decide_True by done. destruct (read_body (rs ++ rs')) as [t calls]. simpl in *.
    rewrite IH. by destruct d.
Qed.

(** Whether an answer came back. *)
Definition answered (e : Outcome) : bool :=
  opened e && connected e && requested e && sent e && received e.

(** C32. Requests leak nothing, and what they report is determined: whatever
    WinHTTP returns, every handle that was opened is closed, in the reverse order
    and once; without an answer the result is status 0 with an empty body; with one
    it is the server's status and, in order, the bytes of the reads that succeed
    until the loop stops, so the whole body if no read fails and the loop stops at
    the end of the body.  The loop also stops, without an error, when the query for
    more bytes fails, and it passes over a failed read: whether the body arrived
    plays no role for the status, and a result is [ok] exactly if an answer with
    such a status came back. *)
Theorem DoRequest_complete e method host port path body timeoutMs headers :
  let '(r, calls) := DoRequest e method host port path body timeoutMs headers in
  open_handles calls [] = Some []
  ∧ (answered e = false → r = no_response)
  ∧ (answered e = true →
     statusCode r = i32 (default 0 (status e))
     ∧ ∀ rs rs', rounds e = rs ++ rs' → Forall goes_on rs → at_end rs' ∨ broken_off rs' →
         AuthService.body r = body_text rs)
  ∧ (ok r = true ↔ answered e = true ∧ 200 ≤ i32 (default 0 (status e)) < 300).
Proof.
  assert (Hno : ∀ P : Prop, ok no_response = true ↔ false = true ∧ P) by (by intros P; split; [|intros []]).
  unfold DoRequest, answered.
  destruct (opened e) eqn:E1; [|by split_and!]. destruct (connected e) eqn:E2; [|by split_and!].
  destruct (requested e) eqn:E3; [|by split_and!].
  destruct (sent e) eqn:E4; [|by split_and!]. destruct (received e) eqn:E5; [|by split_and!].
  pose proof (read_body_handles (rounds e) [HRequest; HConnect; HSession]) as Hh.
  pose proof read_body_text as Ht.
  destruct (read_body (rounds e)) as [text reads] eqn:Er. simpl in *. split_and!; [|done| |].
  - by rewrite open_handles_app, Hh.
  - intros _. split; [done|]. intros rs rs' Ec Hrs Hn. specialize (Ht rs rs' Hrs Hn).
    rewrite <- Ec, Er in Ht. exact Ht.
  - unfold ok. rewrite bool_decide_eq_true. naive_solver.
Qed.

(** So a failed request need not have status 0: when the connection breaks after
    the first bytes of an answer with status 200, the result is [ok], with a part
    of the body; and if a read in the middle fails, with a gap in it. *)
Example broken_off_is_ok method host port path body timeoutMs headers :
  let run rs := (DoRequest (mkOutcome true true true true true (Some 200) rs)
                   method host port path body timeoutMs headers).1 in
  run [Available 3 (Some "abc"); QueryFailed] = mkResponse 200 "abc"
  ∧ run [Available 3 (Some "abc"); Available 3 None; Available 3 (Some "ghi")] = mkResponse 200 "abcghi".
Proof. by split. Qed.

(** ** The headers on the wire *)

(** Each extra header reaches WinHTTP with a terminator behind it: the string
    [ToWide] returns is one unit longer than its text, the last being zero, and
    the block is glued together from such strings.  So the block of a request
    with extra headers ends in a zero unit, and the second header of two stands
    behind one. *)
Theorem requestHeaders_terminators body hs h hs' :
  ∃ units, 0 ∉ units
    ∧ ToWide (name h +:+ ": " +:+ value h +:+ crlf) = units ++ [0]
    ∧ requestHeaders body (hs ++ h :: hs')
      = requestHeaders body hs ++ units ++ [0]
        ++ concat (map (λ h, ToWide (name h +:+ ": " +:+ value h +:+ crlf)) hs').
Proof.
  destruct (wide_terminated (name h +:+ ": " +:+ value h +:+ crlf)) as (units & Hu & Hz).
  assert (Hw : ToWide (name h +:+ ": " +:+ value h +:+ crlf) = units ++ [0]).
  { unfold ToWide. rewrite decide_False; [done|]. destruct (name h); discriminate. }
  exists units. split_and!; [done..|]. unfold requestHeaders.
  rewrite map_app, concat_app. cbn [map concat]. rewrite Hw. by rewrite <- !app_assoc.
Qed.
End client.

(** *** Witnesses *)

(** The conversion of text in Latin-1, up to the first zero byte as [c_str()]
    has it. *)
Fixpoint demo_units (s : string) : list Z :=
  match s with
  | String c s => if decide (ascii_val c = 0) then [] else ascii_val c :: demo_units s
  | EmptyString => []
  end.

Lemma demo_units_terminated s : ∃ units, demo_units s ++ [0] = units ++ [0] ∧ 0 ∉ units.
Proof.
  exists (demo_units s). split; [done|]. induction s as [|c s IH]; simpl; [set_solver|].
  case_decide; set_solver.
Qed.

#[export] Instance DemoWide : WideText := {
  wide s := demo_units s ++ [0];
  wide_terminated := demo_units_terminated }.

Definition demo_outcome : Outcome :=
  mkOutcome true true true true true (Some 200) [Available 3 (Some "abc"); Available 2 (Some "de")].

Lemma DoRequest_complete_witness :
  let '(r, calls) := Post demo_outcome "control" 443 "/report" "x" 3000 [mkHeader "X-Api-Key" "k"] in
  open_handles calls [] = Some [] ∧ statusCode r = 200 ∧ body r = "abcde" ∧ ok r = true.
Proof.
  pose proof (DoRequest_complete demo_outcome "POST" "control" 443 "/report" "x" 3000
    [mkHeader "X-Api-Key" "k"]) as H.
  unfold Post. destruct (DoRequest _ _ _ _ _ _ _ _) as [r calls] eqn:E.
  destruct H as (H1 & _ & H3 & H4). destruct H3 as [H3 H5]; [reflexivity|].
  split; [exact H1|split; [exact H3|split]].
  - apply (H5 (rounds demo_outcome) []); [reflexivity| |left; exact I]. repeat constructor.
  - apply H4. split; [reflexivity|]. vm_compute. split; [discriminate|reflexivity].
Defined.
