(* ===== verification/GameRoom.v ===== *)
(** * The game room

    Models [Game/GameRoom.h].  A room is changed only by [Tick], which first runs
    the queued jobs.  The closures the server pushes are the constructors of
    [RoomJob]; [run_job] is their bodies.  Operations act on the room and the
    shared [Net]; [this] is the address of the room, which [SetRoom] stores. *)
From S2P Require Import Prelude Bytes Platform Packet RecvBuffer Protobuf PbRuntimeDemo PacketPb Session PacketTraits JobQueue.
Local Open Scope Z_scope.

(** ** State *)

Inductive RoomState := WAITING | IN_GAME | FINISHED.

#[export] Instance RoomState_eq_dec : EqDecision RoomState.
Proof. solve_decision. Defined.

Definition RoomState_val (st : RoomState) : Z :=
  match st with WAITING => 0 | IN_GAME => 1 | FINISHED => 2 end.

(** The lambdas passed to [PushJob]. *)
Inductive RoomJob :=
  | JRejoin (session : nat)
  | JChat (sender message : string)
  | JLeave (session : nat)
  | JEnter (session : nat)
  | JLeaveAck (session : nat)
  | JMove (accountId : string) (x y : Z)
  | JReady (accountId : string).

Record GameRoom := mkGameRoom {
  m_name : string;
  m_maxPlayers : Z;
  m_jobQueue : list RoomJob;
  m_state : RoomState;
  m_finishedAt : Z;
  m_emptySinceMs : Z;
  m_readyPlayers : list string;
  m_members : list nat;
  m_pendingMoves : list (string * (Z * Z));
  (** The time stored in each [ReconnectSlot]. *)
  m_pendingReconnects : list (string * Z) }.

Definition GameRoom_new (name : string) (maxPlayers : Z) : GameRoom :=
  {| m_name := name; m_maxPlayers := maxPlayers; m_jobQueue := []; m_state := WAITING;
     m_finishedAt := 0; m_emptySinceMs := 0; m_readyPlayers := []; m_members := [];
     m_pendingMoves := []; m_pendingReconnects := [] |}.

Definition set_jobs (v : list RoomJob) (g : GameRoom) : GameRoom :=
  mkGameRoom (m_name g) (m_maxPlayers g) v (m_state g) (m_finishedAt g) (m_emptySinceMs g)
    (m_readyPlayers g) (m_members g) (m_pendingMoves g) (m_pendingReconnects g).
Definition set_state (v : RoomState) (g : GameRoom) : GameRoom :=
  mkGameRoom (m_name g) (m_maxPlayers g) (m_jobQueue g) v (m_finishedAt g) (m_emptySinceMs g)
    (m_readyPlayers g) (m_members g) (m_pendingMoves g) (m_pendingReconnects g).
Definition set_finishedAt (v : Z) (g : GameRoom) : GameRoom :=
  mkGameRoom (m_name g) (m_maxPlayers g) (m_jobQueue g) (m_state g) v (m_emptySinceMs g)
    (m_readyPlayers g) (m_members g) (m_pendingMoves g) (m_pendingReconnects g).
Definition set_emptySince (v : Z) (g : GameRoom) : GameRoom :=
  mkGameRoom (m_name g) (m_maxPlayers g) (m_jobQueue g) (m_state g) (m_finishedAt g) v
    (m_readyPlayers g) (m_members g) (m_pendingMoves g) (m_pendingReconnects g).
Definition set_ready (v : list string) (g : GameRoom) : GameRoom :=
  mkGameRoom (m_name g) (m_maxPlayers g) (m_jobQueue g) (m_state g) (m_finishedAt g)
    (m_emptySinceMs g) v (m_members g) (m_pendingMoves g) (m_pendingReconnects g).
Definition set_members (v : list nat) (g : GameRoom) : GameRoom :=
  mkGameRoom (m_name g) (m_maxPlayers g) (m_jobQueue g) (m_state g) (m_finishedAt g)
    (m_emptySinceMs g) (m_readyPlayers g) v (m_pendingMoves g) (m_pendingReconnects g).
Definition set_moves (v : list (string * (Z * Z))) (g : GameRoom) : GameRoom :=
  mkGameRoom (m_name g) (m_maxPlayers g) (m_jobQueue g) (m_state g) (m_finishedAt g)
    (m_emptySinceMs g) (m_readyPlayers g) (m_members g) v (m_pendingReconnects g).
Definition set_reconnects (v : list (string * Z)) (g : GameRoom) : GameRoom :=
  mkGameRoom (m_name g) (m_maxPlayers g) (m_jobQueue g) (m_state g) (m_finishedAt g)
    (m_emptySinceMs g) (m_readyPlayers g) (m_members g) (m_pendingMoves g) v.

Definition HasPendingReconnect (accountId : string) (g : GameRoom) : bool :=
  um_count accountId (m_pendingReconnects g).

Definition PushJob (job : RoomJob) (g : GameRoom) : GameRoom :=
  set_jobs (Push job (m_jobQueue g)) g.

(** ** Broadcasting *)
Section room.
Context `{Platform, PbRuntime}.

Definition Broadcast `{Message M, PacketTraits M} (message : M) (g : GameRoom) (n : Net) : Net :=
  foldl (λ n s, (Send s message n).2) n (m_members g).

Definition BroadcastExcept `{Message M, PacketTraits M} (message : M) (exclude : nat)
    (g : GameRoom) (n : Net) : Net :=
  foldl (λ n s, if decide (s ≠ exclude) then (Send s message n).2 else n) n (m_members g).

(** The buffer [BroadcastShared] builds.  The result of [SerializeToArray] is
    ignored: if it failed the zeroes of the new vector would stay. *)
Definition shared_packet `{Message M, PacketTraits M} (message : M) : list byte :=
  let payloadSize := i32 (ByteSizeLong message) in
  let totalSize := sizeof_PacketHeader + payloadSize in
  let buf := replicate (Z.to_nat totalSize) x00 in
  let h := {| packetSize := u16 payloadSize; packetId := PacketID_val (ID (M := M)) |} in
  let buf := mem_write 0 (header_bytes h) buf in
  match SerializeToArray message payloadSize with
  | Some bs => mem_write sizeof_PacketHeader bs buf
  | None => buf
  end.

Definition BroadcastShared `{Message M, PacketTraits M} (message : M) (g : GameRoom) (n : Net)
    : Net :=
  if decide (m_members g = []) then n
  else
    let buf := shared_packet message in
    foldl (λ n s, (SendShared s buf n).2) n (m_members g).

Definition SendRawBroadcast (id : Z) (data : option (list byte)) (dataSize : Z)
    (g : GameRoom) (n : Net) : Net :=
  foldl (λ n s, (SendRaw s id data dataSize n).2) n (m_members g).

Definition u16_bytes (v : Z) : list byte :=
  [byte_of_Z (Z.land v 255); byte_of_Z (Z.land (Z.shiftr v 8) 255)].

(** [S_ROOM_STATE]: state, number of members, number of ready players. *)
Definition room_state_data (g : GameRoom) : list byte :=
  byte_of_Z (RoomState_val (m_state g))
  :: u16_bytes (u16 (Z.of_nat (length (m_members g))))
  ++ u16_bytes (u16 (Z.of_nat (length (m_readyPlayers g)))).

Definition BroadcastRoomState (g : GameRoom) (n : Net) : Net :=
  if decide (m_members g = []) then n
  else SendRawBroadcast (PacketID_val S_ROOM_STATE) (Some (room_state_data g)) 5 g n.

(** The snapshot of the pending moves. *)
Definition moves_snapshot (moves : list (string * (Z * Z))) : Pb_S_MOVE_BROADCAST :=
  foldl (λ snapshot '(accountId, (x, y)),
           S_MOVE_BROADCAST_add_actors
             (MovedActor_set_y y (MovedActor_set_x x
               (MovedActor_set_account_id accountId MovedActor_SharedCtor))) snapshot)
    S_MOVE_BROADCAST_SharedCtor moves.

Definition BroadcastPendingMoves (g : GameRoom) (n : Net) : GameRoom * Net :=
  if decide (m_pendingMoves g = []) then (g, n)
  else
    let snapshot := moves_snapshot (m_pendingMoves g) in
    let g := set_moves [] g in
    (g, BroadcastShared snapshot g n).

(** ** The game *)

(** [S_GAME_RESULT]: the winner's name with its length. *)
Definition game_result_data (winnerId : string) : list byte :=
  u16_bytes (u16 (Z.of_nat (length (str_bytes winnerId)))) ++ str_bytes winnerId.

Definition HandleGameEnd (winnerId : string) (g : GameRoom) (n : Net) : GameRoom * Net :=
  let g := set_state FINISHED g in
  let '(now, n) := NowMs n in
  let g := set_finishedAt now g in
  let data := game_result_data winnerId in
  let n := SendRawBroadcast (PacketID_val S_GAME_RESULT) (Some data)
             (Z.of_nat (length data)) g n in
  (g, BroadcastRoomState g n).

Definition TryStartGame (g : GameRoom) (n : Net) : GameRoom * Net :=
  if decide (length (m_members g) < 2)%nat then (g, n)
  else if decide (length (m_readyPlayers g) < length (m_members g))%nat then (g, n)
  else
    let g := set_state IN_GAME g in
    let g := set_ready [] g in
    let n := SendRawBroadcast (PacketID_val S_GAME_START) None 0 g n in
    (g, BroadcastRoomState g n).

(** ** Handlers *)

Definition enter_ack (success : bool) (message : string) : Pb_S_ROOM_ENTER :=
  S_ROOM_ENTER_set_message message (S_ROOM_ENTER_set_success success S_ROOM_ENTER_SharedCtor).

(** What an accepted entrance and a reconnection have in common: the answer to
    the session, the notice to the others, the new state of the room. *)
Definition welcome (session : nat) (message : string) (g : GameRoom) (n : Net) : Net :=
  let ack := S_ROOM_ENTER_set_room_name (m_name g) (enter_ack true message) in
  let n := (Send session ack n).2 in
  let notice := S_ROOM_USER_ENTERED_set_account_id (GetAccountId session n)
                  S_ROOM_USER_ENTERED_SharedCtor in
  let n := BroadcastExcept notice session g n in
  BroadcastRoomState g n.

Definition HandleEnter (this session : nat) (g : GameRoom) (n : Net) : GameRoom * Net :=
  if decide (m_state g = IN_GAME) then
    (g, (Send session (enter_ack false "게임이 진행 중입니다.") n).2)
  else if decide (Z.of_nat (length (m_members g)) >= m_maxPlayers g) then
    (g, (Send session (enter_ack false
          ("방이 꽉 찼습니다. (" +:+ pretty (m_maxPlayers g) +:+ "명 제한)")) n).2)
  else
    let g := set_members (us_insert session (m_members g)) g in
    let g := set_emptySince 0 g in
    let n := upd_session session (SetRoom (Some this)) n in
    (g, welcome session "입장 성공" g n).

(** The end of [HandleLeave]: note when the room became empty. *)
Definition leave_finish (g : GameRoom) (n : Net) : GameRoom * Net :=
  let '(g, n) :=
    if decide (m_members g = []) then
      let '(now, n) := NowMs n in (set_emptySince now g, n)
    else (g, n) in
  (g, BroadcastRoomState g n).

(** Leaving a running game: a slot to come back, and the end of the game if
    somebody is left. *)
Definition leave_game (accountId : string) (g : GameRoom) (n : Net) : GameRoom * Net :=
  let '(now, n) := NowMs n in
  let g := set_reconnects (um_set accountId now (m_pendingReconnects g)) g in
  match m_members g with
  | winner :: _ => HandleGameEnd (GetAccountId winner n) g n
  | [] => leave_finish g n
  end.

Definition HandleLeave (session : nat) (g : GameRoom) (n : Net) : GameRoom * Net :=
  if us_count session (m_members g) then
    let g := set_members (us_erase session (m_members g)) g in
    let n := upd_session session (SetRoom None) n in
    let accountId := GetAccountId session n in
    let g := set_moves (um_erase accountId (m_pendingMoves g)) g in
    let g := set_ready (us_erase accountId (m_readyPlayers g)) g in
    let notice := S_ROOM_USER_LEFT_set_account_id accountId S_ROOM_USER_LEFT_SharedCtor in
    let n := Broadcast notice g n in
    if decide (m_state g = IN_GAME) then leave_game accountId g n else leave_finish g n
  else (g, n).

Definition HandleMove (accountId : string) (x y : Z) (g : GameRoom) (n : Net)
    : GameRoom * Net :=
  if decide (m_state g ≠ IN_GAME) then (g, n)
  else (set_moves (um_set accountId (x, y) (m_pendingMoves g)) g, n).

Definition HandleRejoin (this session : nat) (g : GameRoom) (n : Net) : GameRoom * Net :=
  let g := set_reconnects (um_erase (GetAccountId session n) (m_pendingReconnects g)) g in
  let g := set_members (us_insert session (m_members g)) g in
  let g := set_emptySince 0 g in
  let n := upd_session session (SetRoom (Some this)) n in
  (g, welcome session "reconnected" g n).

Definition HandleReady (accountId : string) (g : GameRoom) (n : Net) : GameRoom * Net :=
  if decide (m_state g ≠ WAITING) then (g, n)
  else
    let g := set_ready (if us_count accountId (m_readyPlayers g)
                        then us_erase accountId (m_readyPlayers g)
                        else us_insert accountId (m_readyPlayers g)) g in
    let n := BroadcastRoomState g n in
    TryStartGame g n.

(** ** The tick *)

Definition run_job (this : nat) (job : RoomJob) (gn : GameRoom * Net) : GameRoom * Net :=
  let '(g, n) := gn in
  match job with
  | JRejoin session => HandleRejoin this session g n
  | JChat sender message =>
      let res := S_CHAT_set_message message (S_CHAT_set_sender sender S_CHAT_SharedCtor) in
      (g, Broadcast res g n)
  | JLeave session => HandleLeave session g n
  | JEnter session => HandleEnter this session g n
  | JLeaveAck session =>
      let '(g, n) := HandleLeave session g n in
      (g, (Send session (S_ROOM_LEAVE_set_success true S_ROOM_LEAVE_SharedCtor) n).2)
  | JMove accountId x y => HandleMove accountId x y g n
  | JReady accountId => HandleReady accountId g n
  end.

Definition FlushJobs (this : nat) (gn : GameRoom * Net) : GameRoom * Net :=
  Flush (λ gn, m_jobQueue gn.1) (λ jobs gn, (set_jobs jobs gn.1, gn.2)) (run_job this) gn.

(** The loop that erases expired slots while iterating. *)
Definition ExpireReconnects (reconnectWindowMs : Z) (g : GameRoom) (n : Net) : GameRoom * Net :=
  if decide (m_pendingReconnects g = []) then (g, n)
  else
    let '(now, n) := NowMs n in
    (set_reconnects (filter (λ p, ¬ (now - p.2 > reconnectWindowMs)) (m_pendingReconnects g)) g, n).

Definition Tick (this : nat) (reconnectWindowMs : Z) (g : GameRoom) (n : Net) : GameRoom * Net :=
  let '(g, n) := FlushJobs this (g, n) in
  let '(g, n) := ExpireReconnects reconnectWindowMs g n in
  if decide (m_state g = FINISHED) then
    let '(now, n) := NowMs n in
    if decide (now - m_finishedAt g > 5000) then
      let g := set_state WAITING g in
      (g, BroadcastRoomState g n)
    else (g, n)
  else BroadcastPendingMoves g n.

(** The rest of the tick, after the jobs. *)
Definition finish_tick (w : Z) (g : GameRoom) (n : Net) : GameRoom * Net :=
  let '(g, n) := ExpireReconnects w g n in
  if decide (m_state g = FINISHED) then
    let '(now, n) := NowMs n in
    if decide (now - m_finishedAt g > 5000) then
      let g := set_state WAITING g in
      (g, BroadcastRoomState g n)
    else (g, n)
  else BroadcastPendingMoves g n.

Lemma Tick_split this w g n :
  Tick this w g n = let '(g, n) := FlushJobs this (g, n) in finish_tick w g n.
Proof. done. Qed.
End room.

(** ** What a room does to the rest of the state *)

(** Everything about a session that no room changes. *)
Definition outside_room (x : Session) : Session := SetRoom None (core x).

(** Rooms send, read the clock and set the room of sessions; nothing else. *)
Record plays (n n' : Net) : Prop := {
  plays_outside : ∀ s, outside_room (sess s n') = outside_room (sess s n);
  plays_disc : ∀ s, m_disconnected (sess s n) = true → m_disconnected (sess s n') = true;
  plays_sock : ∀ s, m_disconnected (sess s n') = false → m_sock (sess s n') = m_sock (sess s n);
  plays_wire : wire n `prefix_of` wire n';
  plays_conns : currentConnections (stats n') = currentConnections (stats n)
                ∧ totalConnections (stats n') = totalConnections (stats n);
  plays_recv : rx_pending n' = rx_pending n;
  plays_clock : (n_steady n ≤ n_steady n' ∧ n_system n ≤ n_system n')%nat }.

#[export] Instance plays_preorder : PreOrder plays.
Proof.
  split.
  - intros n. by split.
  - intros n1 n2 n3 [A1 A2 A2' A3 A4 A5] [B1 B2 B2' B3 B4 B5]. split.
    + intros s. by rewrite B1, A1.
    + eauto.
    + intros s Hs. rewrite B2', A2'; [done| |done].
      apply not_true_iff_false. intros Hd%B2. congruence.
    + by etrans.
    + naive_solver congruence.
    + congruence.
    + lia.
Qed.

Lemma sends_plays n n' : sends n n' → plays n n'.
Proof.
  intros []. split; try done; [|naive_solver..|lia].
  intros s. unfold outside_room. by rewrite sends_core.
Qed.

Lemma plays_field {A} (f : Session → A) n n' s :
  (∀ x, f (outside_room x) = f x) → plays n n' → f (sess s n') = f (sess s n).
Proof. intros Hf Hp. by rewrite <- Hf, (plays_outside _ _ Hp), Hf. Qed.

Section frame.
Context `{Platform}.

Lemma NowMs_plays n : plays n (NowMs n).2.
Proof. split; try done. simpl. lia. Qed.

Lemma SetRoom_plays s r n : plays n (upd_session s (SetRoom r) n).
Proof. split; try done; intros t; rewrite sess_upd_dec; by case_decide. Qed.

Lemma foldl_sends (f : Net → nat → Net) l n :
  (∀ n s, sends n (f n s)) → sends n (foldl f n l).
Proof.
  intros Hf. revert n. induction l as [|s l IH]; intros n; simpl; [done|].
  by etrans; [apply Hf|].
Qed.

Lemma foldl_wf (f : Net → nat → Net) l n :
  (∀ n s, net_wf n → net_wf (f n s)) → net_wf n → net_wf (foldl f n l).
Proof. intros Hf. revert n. induction l as [|s l IH]; intros n Hn; simpl; auto. Qed.

Lemma foldl_posts (P : nat → Prop) (f : Net → nat → Net) l n :
  (∀ n s, s ∈ l → net_wf n → posts P n (f n s)) → (∀ n s, net_wf n → net_wf (f n s)) →
  net_wf n → posts P n (foldl f n l).
Proof.
  intros Hf Hw. revert n. induction l as [|s l IH]; intros n Hn; simpl; [done|].
  etrans; [apply Hf; [by left|done]|]. apply IH; [|auto]. intros. apply Hf; [by right|done].
Qed.

Lemma net_wf_upd s f n : net_wf n → net_wf (upd_session s f n).
Proof. intros [Hp Hb]. by split. Qed.
End frame.

#[export] Hint Resolve SetRoom_plays NowMs_plays sends_plays SendInternal_wf SendRaw_wf
  SendShared_wf net_wf_upd : server.

Section room_frame.
Context `{Platform, PbRuntime}.

Lemma Broadcast_sends `{Message M, PacketTraits M} (m : M) g n : sends n (Broadcast m g n).
Proof. apply foldl_sends. eauto with server. Qed.

Lemma BroadcastExcept_sends `{Message M, PacketTraits M} (m : M) x g n :
  sends n (BroadcastExcept m x g n).
Proof. apply foldl_sends. intros. case_decide; [|done]. eauto with server. Qed.

Lemma SendRawBroadcast_sends id d k g n : sends n (SendRawBroadcast id d k g n).
Proof. apply foldl_sends. eauto with server. Qed.

Lemma BroadcastShared_sends `{Message M, PacketTraits M} (m : M) g n :
  sends n (BroadcastShared m g n).
Proof. unfold BroadcastShared. case_decide; [done|]. apply foldl_sends. eauto with server. Qed.

Lemma BroadcastRoomState_sends g n : sends n (BroadcastRoomState g n).
Proof. unfold BroadcastRoomState. case_decide; [done|]. apply SendRawBroadcast_sends. Qed.

Lemma welcome_sends s msg g n : sends n (welcome s msg g n).
Proof.
  unfold welcome. etrans; [eapply Send_sends|]. etrans; [eapply BroadcastExcept_sends|].
  apply BroadcastRoomState_sends.
Qed.

Lemma Broadcast_wf `{Message M, PacketTraits M} (m : M) g n :
  net_wf n → net_wf (Broadcast m g n).
Proof. apply foldl_wf. intros. by apply SendInternal_wf. Qed.

Lemma SendRawBroadcast_wf id d k g n : net_wf n → net_wf (SendRawBroadcast id d k g n).
Proof. apply foldl_wf. intros. by apply SendRaw_wf. Qed.

Lemma BroadcastRoomState_wf g n : net_wf n → net_wf (BroadcastRoomState g n).
Proof. unfold BroadcastRoomState. case_decide; [done|]. apply SendRawBroadcast_wf. Qed.

Lemma BroadcastShared_wf `{Message M, PacketTraits M} (m : M) g n :
  net_wf n → net_wf (BroadcastShared m g n).
Proof.
  unfold BroadcastShared. case_decide; [done|]. apply foldl_wf. intros. by apply SendShared_wf.
Qed.

Lemma welcome_wf s msg g n : net_wf n → net_wf (welcome s msg g n).
Proof.
  intros. unfold welcome. apply BroadcastRoomState_wf. apply foldl_wf.
  - intros. case_decide; [|done]. by apply SendInternal_wf.
  - by apply SendInternal_wf.
Qed.
(** Broadcasts go to the members. *)
Section to_members.
Context (P : nat → Prop) (g : GameRoom) (HP : ∀ s, s ∈ m_members g → P s).

Lemma Broadcast_posts `{Message M, PacketTraits M} (m : M) n :
  net_wf n → posts P n (Broadcast m g n).
Proof.
  apply foldl_posts; intros; [apply Send_posts; auto|by apply SendInternal_wf].
Qed.

Lemma BroadcastExcept_posts `{Message M, PacketTraits M} (m : M) x n :
  net_wf n → posts P n (BroadcastExcept m x g n).
Proof.
  apply foldl_posts; intros; case_decide; try done; [apply Send_posts; auto|by apply SendInternal_wf].
Qed.

Lemma SendRawBroadcast_posts id d k n : net_wf n → posts P n (SendRawBroadcast id d k g n).
Proof. apply foldl_posts; intros; [apply SendRaw_posts; auto|by apply SendRaw_wf]. Qed.

Lemma BroadcastShared_posts `{Message M, PacketTraits M} (m : M) n :
  net_wf n → posts P n (BroadcastShared m g n).
Proof.
  intros Hn. unfold BroadcastShared. case_decide; [done|].
  apply foldl_posts; [..|done]; intros; [apply SendShared_posts; auto|by apply SendShared_wf].
Qed.

Lemma BroadcastRoomState_posts n : net_wf n → posts P n (BroadcastRoomState g n).
Proof. unfold BroadcastRoomState. case_decide; [done|]. apply SendRawBroadcast_posts. Qed.

Lemma welcome_posts s msg n : P s → net_wf n → posts P n (welcome s msg g n).
Proof.
  intros Hs Hn. unfold welcome. set (n1 := (Send s _ n).2).
  assert (Hn1 : net_wf n1) by (by apply SendInternal_wf).
  etrans; [eapply Send_posts; done|]. fold n1.
  etrans; [eapply BroadcastExcept_posts; done|]. apply BroadcastRoomState_posts.
  apply foldl_wf; [|done]. intros. case_decide; [|done]. by apply SendInternal_wf.
Qed.
End to_members.
End room_frame.

#[export] Hint Resolve Broadcast_posts BroadcastExcept_posts SendRawBroadcast_posts
  BroadcastShared_posts BroadcastRoomState_posts welcome_posts SendRaw_posts
  SendShared_posts : server.
#[export] Hint Resolve Broadcast_sends BroadcastExcept_sends SendRawBroadcast_sends
  BroadcastShared_sends BroadcastRoomState_sends welcome_sends Broadcast_wf
  SendRawBroadcast_wf BroadcastRoomState_wf BroadcastShared_wf welcome_wf : server.

(** ** Every job keeps to the interface of rooms *)

(** The sessions that point to the room are members of it. *)
Definition points (this : nat) (g : GameRoom) (n : Net) : Prop :=
  ∀ s, m_room (sess s n) = Some this → s ∈ m_members g.

(** The session a job captures. *)
Definition job_session (j : RoomJob) : option nat :=
  match j with
  | JRejoin s | JLeave s | JEnter s | JLeaveAck s => Some s
  | _ => None
  end.

(** The sessions a room refers to are in [P]. *)
Record room_refs (P : nat → Prop) (g : GameRoom) : Prop := {
  rr_members : ∀ s, s ∈ m_members g → P s;
  rr_jobs : ∀ j s, j ∈ m_jobQueue g → job_session j = Some s → P s }.

(** What a room at address [this] promises to the rest of the server: it only
    [plays], keeps the contexts accounted for, never makes a session point to
    another room, keeps the sessions that point to it among its members, and
    refers and sends to no other sessions than those in [P]. *)
Record effect (this : nat) (P : nat → Prop) (gn gn' : GameRoom * Net) : Prop := {
  ef_plays : plays gn.2 gn'.2;
  ef_wf : net_wf gn.2 → net_wf gn'.2;
  ef_other : ∀ s r, r ≠ this → m_room (sess s gn'.2) = Some r → m_room (sess s gn.2) = Some r;
  ef_points : points this gn.1 gn.2 → points this gn'.1 gn'.2;
  ef_name : m_name gn'.1 = m_name gn.1 ∧ m_maxPlayers gn'.1 = m_maxPlayers gn.1;
  ef_refs : room_refs P gn.1 → room_refs P gn'.1;
  ef_posts : room_refs P gn.1 → net_wf gn.2 → posts P gn.2 gn'.2 }.

#[export] Instance effect_preorder this P : PreOrder (effect this P).
Proof.
  split.
  - intros gn. by split.
  - intros gn1 gn2 gn3 [A1 A2 A3 A4 A5 A6 A7] [B1 B2 B3 B4 B5 B6 B7].
    split; [by etrans|auto|auto|auto|naive_solver congruence|auto|].
    intros Hr Hn. etrans; auto.
Qed.

Lemma effect_sends this P g n n' :
  sends n n' → (net_wf n → net_wf n') →
  ((∀ s, s ∈ m_members g → P s) → net_wf n → posts P n n') → effect this P (g, n) (g, n').
Proof.
  intros Hs Hw Hp. split; simpl; try done; [by apply sends_plays|..].
  - intros s r _. by rewrite (sends_room Hs).
  - intros Hpt s. rewrite (sends_room Hs). apply Hpt.
  - intros [Hm _]. by apply Hp.
Qed.

Lemma effect_same this P g g' n :
  m_members g' = m_members g → m_jobQueue g' = m_jobQueue g →
  m_name g' = m_name g ∧ m_maxPlayers g' = m_maxPlayers g →
  effect this P (g, n) (g', n).
Proof.
  intros Hm Hj Hn. split; try done; unfold points; simpl; [by rewrite Hm|].
  intros [H1 H2]. split; by rewrite ?Hm, ?Hj.
Qed.

Lemma effect_jobs this (P : nat → Prop) jobs g n :
  (∀ j, j ∈ jobs → j ∈ m_jobQueue g ∨ ∀ s, job_session j = Some s → P s) →
  effect this P (g, n) (set_jobs jobs g, n).
Proof.
  intros Hj. split; try done. intros [H1 H2]. split; [done|]. simpl.
  intros j s [Hin|Hin]%Hj; eauto.
Qed.

Lemma effect_clock `{Platform} this P g n : effect this P (g, n) (g, (NowMs n).2).
Proof.
  split; try done; [apply NowMs_plays|intros [Hp Hb]; by split|]. intros _ _. by apply posts_same.
Qed.

Lemma effect_join `{Platform} this (P : nat → Prop) s g n :
  P s → effect this P (g, n) (set_members (us_insert s (m_members g)) g,
                              upd_session s (SetRoom (Some this)) n).
Proof.
  intros Hs. split; simpl; eauto with server; unfold points; simpl.
  - intros t r Hr. rewrite sess_upd_dec. case_decide; simpl; [congruence|done].
  - intros Hp t. rewrite sess_upd_dec, elem_of_us_insert. case_decide; simpl; [by left|].
    right. auto.
  - intros [H1 H2]. split; [|done]. simpl. intros t. rewrite elem_of_us_insert.
    intros [->|Ht]; auto.
  - intros _ _. by apply posts_upd.
Qed.

Lemma effect_leave `{Platform} this P s g n :
  effect this P (g, n) (set_members (us_erase s (m_members g)) g,
                        upd_session s (SetRoom None) n).
Proof.
  split; simpl; eauto with server; unfold points; simpl.
  - intros t r Hr. rewrite sess_upd_dec. by case_decide.
  - intros Hp t. rewrite sess_upd_dec, elem_of_us_erase. by case_decide; auto.
  - intros [H1 H2]. split; [|done]. simpl. intros t. rewrite elem_of_us_erase. intros [Ht _]. auto.
  - intros _ _. by apply posts_upd.
Qed.

#[export] Hint Resolve effect_sends effect_same effect_clock effect_join effect_leave : server.

(** Peel off the last thing a handler sends. *)
Ltac estep := etrans; [|apply effect_sends; [solve [eauto with server]..]].

Section effects.
Context `{Platform, PbRuntime}.
Context (P : nat → Prop).
Implicit Types (g : GameRoom) (n : Net).

Lemma HandleGameEnd_effect this w g n : effect this P (g, n) (HandleGameEnd w g n).
Proof.
  unfold HandleGameEnd. simpl. estep. estep.
  transitivity (set_state FINISHED g, n); [by apply effect_same|].
  transitivity (set_state FINISHED g, (NowMs n).2); [apply effect_clock|by apply effect_same].
Qed.

Lemma TryStartGame_effect this g n : effect this P (g, n) (TryStartGame g n).
Proof.
  unfold TryStartGame. repeat case_decide; try done. estep. estep. by apply effect_same.
Qed.

Lemma welcome_effect this s msg g n : P s → effect this P (g, n) (g, welcome s msg g n).
Proof. auto with server. Qed.

Lemma HandleEnter_effect this s g n : P s → effect this P (g, n) (HandleEnter this s g n).
Proof.
  intros Hs. unfold HandleEnter. repeat case_decide; [apply effect_sends; eauto with server..|].
  estep. etrans; [by apply (effect_join this P s)|]. by apply effect_same.
Qed.

Lemma HandleRejoin_effect this s g n : P s → effect this P (g, n) (HandleRejoin this s g n).
Proof.
  intros Hs. unfold HandleRejoin. estep.
  etrans; [by apply (effect_same this P _ (set_reconnects (um_erase (GetAccountId s n)
    (m_pendingReconnects g)) g))|].
  etrans; [by apply (effect_join this P s)|]. by apply effect_same.
Qed.

Lemma leave_finish_effect this g n : effect this P (g, n) (leave_finish g n).
Proof.
  unfold leave_finish. case_decide; simpl; estep; [|done].
  etrans; [apply effect_clock|]. by apply effect_same.
Qed.

Lemma leave_game_effect this a g n : effect this P (g, n) (leave_game a g n).
Proof.
  unfold leave_game. simpl. etrans; [apply effect_clock|]. simpl.
  etrans; [by apply (effect_same this P _ (set_reconnects (um_set a (steady_ms (n_steady n))
    (m_pendingReconnects g)) g))|].
  case_match; [apply leave_finish_effect|apply HandleGameEnd_effect].
Qed.

Lemma HandleLeave_effect this s g n : effect this P (g, n) (HandleLeave s g n).
Proof.
  unfold HandleLeave. destruct (us_count _ _); [|done].
  etrans; [apply (effect_leave this P s)|].
  case_decide; (etrans; [|first [apply leave_game_effect|apply leave_finish_effect]]);
    estep; by apply effect_same.
Qed.

Lemma HandleReady_effect this a g n : effect this P (g, n) (HandleReady a g n).
Proof.
  unfold HandleReady. case_decide; [done|]. etrans; [|apply TryStartGame_effect].
  estep. by apply effect_same.
Qed.

Lemma run_job_effect this j gn :
  (∀ s, job_session j = Some s → P s) → effect this P gn (run_job this j gn).
Proof.
  intros Hj. destruct gn as [g n], j; simpl in *.
  - apply HandleRejoin_effect. auto.
  - apply effect_sends; eauto with server.
  - apply HandleLeave_effect.
  - apply HandleEnter_effect. auto.
  - pose proof (HandleLeave_effect this session g n) as Hl.
    destruct (HandleLeave session g n) as [g' n']. etrans; [exact Hl|].
    apply effect_sends; eauto with server.
  - unfold HandleMove. case_decide; [done|]. by apply effect_same.
  - apply HandleReady_effect.
Qed.

Lemma FlushJobs_effect this g n :
  (∀ j s, j ∈ m_jobQueue g → job_session j = Some s → P s) →
  effect this P (g, n) (FlushJobs this (g, n)).
Proof.
  intros Hj. unfold FlushJobs. apply Flush_inv.
  - apply effect_jobs. intros j Hin. by apply elem_of_nil in Hin.
  - intros j gn' Hin Hgn. etrans; [exact Hgn|]. apply run_job_effect. eauto.
Qed.

Lemma ExpireReconnects_effect this w g n : effect this P (g, n) (ExpireReconnects w g n).
Proof.
  unfold ExpireReconnects. case_decide; [done|]. simpl.
  etrans; [apply effect_clock|]. by apply effect_same.
Qed.

Lemma finish_tick_effect this w g n : effect this P (g, n) (finish_tick w g n).
Proof.
  unfold finish_tick. etrans; [apply (ExpireReconnects_effect this w)|].
  destruct (ExpireReconnects w g n) as [g2 n2]. case_decide; simpl.
  - etrans; [apply effect_clock|]. case_decide; [|done]. estep. by apply effect_same.
  - unfold BroadcastPendingMoves. case_decide; [done|]. simpl.
    estep. by apply effect_same.
Qed.

Lemma Tick_effect this w g n :
  (∀ j s, j ∈ m_jobQueue g → job_session j = Some s → P s) →
  effect this P (g, n) (Tick this w g n).
Proof.
  intros Hj. rewrite Tick_split. etrans; [by apply (FlushJobs_effect this g n)|].
  destruct (FlushJobs this (g, n)) as [g1 n1]. apply finish_tick_effect.
Qed.
End effects.

(** ** The invariant of a room *)

Record room_wf (g : GameRoom) : Prop := {
  rw_members : NoDup (m_members g);
  rw_ready : NoDup (m_readyPlayers g);
  rw_moves : NoDup (um_keys (m_pendingMoves g));
  rw_slots : NoDup (um_keys (m_pendingReconnects g));
  (** A running game has two players. *)
  rw_game : m_state g = IN_GAME → (2 ≤ length (m_members g))%nat;
  (** Nobody is ready outside the waiting room. *)
  rw_idle : m_state g ≠ WAITING → m_readyPlayers g = [];
  (** A room marked as empty is empty. *)
  rw_empty : m_emptySinceMs g ≠ 0 → m_members g = [] }.

Lemma room_wf_new name max : room_wf (GameRoom_new name max).
Proof. by split; try apply NoDup_nil_2. Qed.

Section invariant.
Context `{Platform, PbRuntime}.
Implicit Types (g : GameRoom) (n : Net).

Lemma HandleGameEnd_room w g n :
  (HandleGameEnd w g n).1 = set_finishedAt (steady_ms (n_steady n)) (set_state FINISHED g).
Proof. done. Qed.

Lemma TryStartGame_room g n :
  (TryStartGame g n).1
  = if decide (2 ≤ length (m_members g) ∧ length (m_members g) ≤ length (m_readyPlayers g))%nat
    then set_ready [] (set_state IN_GAME g) else g.
Proof. unfold TryStartGame. repeat case_decide; try done; lia. Qed.

Lemma TryStartGame_wf g n : room_wf g → m_state g = WAITING → room_wf (TryStartGame g n).1.
Proof.
  rewrite TryStartGame_room. intros [] Hs. case_decide; split; simpl; try done.
  - apply NoDup_nil_2.
  - lia.
Qed.

Lemma HandleGameEnd_wf w g n :
  room_wf g → m_readyPlayers g = [] → room_wf (HandleGameEnd w g n).1.
Proof. intros [] Hr. by split. Qed.

Lemma join_wf s g :
  room_wf g → room_wf (set_emptySince 0 (set_members (us_insert s (m_members g)) g)).
Proof.
  intros []. split; simpl; try done; [by apply us_insert_NoDup|].
  intros Hg%rw_game0. rewrite us_insert_length. case_match; lia.
Qed.

Lemma HandleEnter_wf this s g n : room_wf g → room_wf (HandleEnter this s g n).1.
Proof. intros Hg. unfold HandleEnter. repeat case_decide; try done. by apply join_wf. Qed.

Lemma HandleRejoin_wf this s g n : room_wf g → room_wf (HandleRejoin this s g n).1.
Proof.
  intros [A B C D E F G]. apply join_wf. split; try done. simpl. by apply um_erase_NoDup.
Qed.

Lemma leave_finish_room g n :
  (leave_finish g n).1
  = if decide (m_members g = []) then set_emptySince (steady_ms (n_steady n)) g else g.
Proof. unfold leave_finish. by case_decide. Qed.

Lemma leave_game_room a g n :
  m_members g ≠ [] →
  (leave_game a g n).1
  = set_finishedAt (steady_ms (S (n_steady n))) (set_state FINISHED
      (set_reconnects (um_set a (steady_ms (n_steady n)) (m_pendingReconnects g)) g)).
Proof. intros Hm. unfold leave_game. simpl. by destruct (m_members g). Qed.

(** The room once [session] is out of the members, before the game reacts. *)
Definition without (session : nat) (accountId : string) (g : GameRoom) : GameRoom :=
  set_ready (us_erase accountId (m_readyPlayers g))
    (set_moves (um_erase accountId (m_pendingMoves g))
      (set_members (us_erase session (m_members g)) g)).

Lemma HandleLeave_room s g n :
  room_wf g → s ∈ m_members g →
  let acc := GetAccountId s n in
  let now := steady_ms (n_steady n) in
  (HandleLeave s g n).1
  = if decide (m_state g = IN_GAME) then
      set_finishedAt (steady_ms (S (n_steady n))) (set_state FINISHED
        (set_reconnects (um_set acc now (m_pendingReconnects g)) (without s acc g)))
    else if decide (us_erase s (m_members g) = []) then
      set_emptySince now (without s acc g)
    else without s acc g.
Proof.
  intros Hg Hs acc now. unfold HandleLeave, us_count. rewrite bool_decide_true by done.
  assert (Hacc : GetAccountId s (upd_session s (SetRoom None) n) = acc).
  { unfold GetAccountId. by rewrite sess_upd. }
  rewrite Hacc. set (nb := Broadcast _ _ _). fold (without s acc g).
  assert (Hnb : n_steady nb = n_steady n).
  { unfold nb. destruct (sends_clock _ _ (Broadcast_sends (S_ROOM_USER_LEFT_set_account_id
      acc S_ROOM_USER_LEFT_SharedCtor) (without s acc g) (upd_session s (SetRoom None) n)))
      as [E _]. exact E. }
  change (m_state (set_ready _ _)) with (m_state g). case_decide as Hst.
  - rewrite leave_game_room, Hnb; [done|]. simpl. intros E.
    pose proof (us_erase_length s _ (rw_members _ Hg) Hs) as Hl. rewrite E in Hl.
    pose proof (rw_game _ Hg Hst). simpl in *. lia.
  - rewrite leave_finish_room, Hnb. done.
Qed.

Lemma HandleLeave_members s g n :
  m_members (HandleLeave s g n).1 = us_erase s (m_members g).
Proof.
  unfold HandleLeave, us_count. case_bool_decide as Hs.
  - case_decide as Hst.
    + unfold leave_game. simpl. destruct (us_erase s (m_members g)) eqn:E; [|done].
      rewrite leave_finish_room. case_decide; simpl; by rewrite ?E.
    + rewrite leave_finish_room. by case_decide.
  - by rewrite us_erase_absent.
Qed.

Lemma without_wf s acc g :
  room_wf g → m_state g ≠ IN_GAME → room_wf (without s acc g).
Proof.
  intros [] Hs. split; simpl; eauto with server; [congruence|..].
  - intros Hw%rw_idle0. by rewrite Hw.
  - intros ->%rw_empty0. done.
Qed.

Lemma HandleLeave_wf s g n : room_wf g → room_wf (HandleLeave s g n).1.
Proof.
  intros Hg. destruct (decide (s ∈ m_members g)) as [Hs|Hs].
  2:{ unfold HandleLeave, us_count. by rewrite bool_decide_false. }
  rewrite HandleLeave_room by done. case_decide as Hst.
  - destruct Hg. split; simpl; eauto with server; [done|..].
    + intros _. rewrite rw_idle0 by congruence. done.
    + intros ->%rw_empty0. done.
  - pose proof (without_wf s (GetAccountId s n) g Hg Hst) as Hw. case_decide as He; [|done].
    destruct Hw. by split.
Qed.

Lemma HandleReady_wf a g n : room_wf g → room_wf (HandleReady a g n).1.
Proof.
  intros Hg. unfold HandleReady. case_decide as Hs; [done|]. apply TryStartGame_wf; [|done].
  destruct Hg. split; simpl; try done. case_match; eauto with server.
Qed.

Lemma run_job_wf this j gn : room_wf gn.1 → room_wf (run_job this j gn).1.
Proof.
  destruct gn as [g n], j; simpl; intros Hg; try done.
  - by apply (HandleRejoin_wf this session g n).
  - by apply HandleLeave_wf.
  - by apply (HandleEnter_wf this session g n).
  - pose proof (HandleLeave_wf session g n Hg) as Hl. by destruct (HandleLeave session g n).
  - unfold HandleMove. case_decide; [done|]. destruct Hg. split; simpl; eauto with server.
  - by apply HandleReady_wf.
Qed.

Lemma FlushJobs_wf this gn : room_wf gn.1 → room_wf (FlushJobs this gn).1.
Proof.
  intros Hg. unfold FlushJobs. apply (Flush_inv _ _ _ (λ gn, room_wf gn.1)).
  - destruct Hg. by split.
  - intros. by apply run_job_wf.
Qed.

Lemma ExpireReconnects_wf w g n : room_wf g → room_wf (ExpireReconnects w g n).1.
Proof.
  intros []. unfold ExpireReconnects. case_decide; [by split|]. split; simpl; try done.
  unfold um_keys in *. eapply sublist_NoDup; [exact rw_slots0|].
  apply fmap_sublist, sublist_filter.
Qed.

Lemma finish_tick_wf w g n : room_wf g → room_wf (finish_tick w g n).1.
Proof.
  intros Hg%(ExpireReconnects_wf w g n). unfold finish_tick.
  destruct (ExpireReconnects w g n) as [g2 n2]. cbn [fst] in Hg. case_decide as Hs.
  - cbn [NowMs]. case_decide; simpl; [|done]. destruct Hg. split; simpl; try done.
  - unfold BroadcastPendingMoves. case_decide; [done|]. destruct Hg. split; simpl; try done.
    apply NoDup_nil_2.
Qed.

Lemma Tick_wf this w g n : room_wf g → room_wf (Tick this w g n).1.
Proof.
  intros Hg%(FlushJobs_wf this (g, n)). rewrite Tick_split.
  destruct (FlushJobs this (g, n)) as [g1 n1]. by apply finish_tick_wf.
Qed.
End invariant.

(** ** Who receives a broadcast *)

(** [frame] went, once each and in order, to the sessions [reached]; the others
    are disconnected. *)
Definition delivered (frame : list byte) (ss : list nat) (n n' : Net) : Prop :=
  ∃ reached, reached `sublist_of` ss
    ∧ wire n' = wire n ++ map (λ s, (m_sock (sess s n), frame)) reached
    ∧ (∀ s, s ∈ reached → IsDisconnected s n = false)
    ∧ (∀ s, s ∈ ss → s ∉ reached → IsDisconnected s n' = true).

Section delivery.
Context `{Platform}.

Lemma transmitted_disc s t frame n n' :
  transmitted s frame n n' → t ≠ s → sess t n' = sess t n.
Proof.
  unfold transmitted. case_match; [|naive_solver]. intros [_ E] _. unfold sess. by rewrite E.
Qed.

Lemma foldl_delivered (f : Net → nat → Net) frame ss n :
  (∀ n s, sends n (f n s)) → (∀ n s, net_wf n → net_wf (f n s)) →
  (∀ n s, IsDisconnected s n = true → f n s = n) →
  (∀ n s, net_wf n → IsDisconnected s n = false → transmitted s frame n (f n s)) →
  NoDup ss → net_wf n → delivered frame ss n (foldl f n ss).
Proof.
  intros Hsends Hwf Hd Ht. revert n. induction ss as [|s ss IH]; intros n Hnd Hn; simpl.
  { exists []. rewrite app_nil_r. split_and!; [done|done|set_solver|set_solver]. }
  apply NoDup_cons in Hnd as [Hs Hnd].
  destruct (IH (f n s) Hnd (Hwf n s Hn)) as (rs & Hsub & Hw & Hr & Hnr).
  assert (Hin : ∀ t, t ∈ rs → t ≠ s).
  { intros t Ht' ->. destruct Hs. by eapply elem_of_sublist. }
  assert (Hmono : IsDisconnected s (f n s) = true →
                  IsDisconnected s (foldl f (f n s) ss) = true).
  { intros. by apply (sends_disc _ _ (foldl_sends f ss (f n s) Hsends)). }
  destruct (IsDisconnected s n) eqn:E.
  { rewrite Hd in * by done. exists rs. split_and!; [by apply sublist_cons|done|done|].
    intros t [->|Ht']%elem_of_cons Hnt; auto. }
  specialize (Ht n s Hn E). assert (Hext : map (λ t, (m_sock (sess t (f n s)), frame)) rs
                                          = map (λ t, (m_sock (sess t n), frame)) rs).
  { apply map_ext_in. intros t Ht'%list_elem_of_In. by rewrite (transmitted_disc s t frame n) by auto. }
  rewrite Hext in Hw.
  assert (Hr' : ∀ t, t ∈ rs → IsDisconnected t n = false).
  { intros t Ht'. unfold IsDisconnected. rewrite <- (transmitted_disc s t frame n (f n s)); auto.
    by apply Hr. }
  unfold transmitted in Ht. destruct (wsa_send _ _ _).
  - destruct Ht as [Hwire _]. exists (s :: rs). split_and!; [by apply sublist_skip|..].
    + rewrite Hw, Hwire. simpl. by rewrite <- app_assoc.
    + intros t [->|?]%elem_of_cons; auto.
    + intros t [->|?]%elem_of_cons; set_solver.
  - destruct Ht as (Hwire & Hdis & _). exists rs. split_and!; [by apply sublist_cons| |done|].
    + by rewrite Hw, Hwire.
    + intros t [->|?]%elem_of_cons; auto.
Qed.

Lemma SendRaw_disconnected s id d k n : IsDisconnected s n = true → (SendRaw s id d k n).2 = n.
Proof. unfold SendRaw. by intros ->. Qed.

Lemma SendShared_disconnected s bs n : IsDisconnected s n = true → (SendShared s bs n).2 = n.
Proof. unfold SendShared. by intros ->. Qed.
End delivery.

Section moves.
Context `{Platform, PbRuntimeLaws}.

Definition actor_of (p : string * (Z * Z)) : Pb_MovedActor :=
  {| MovedActor_account_id := p.1; MovedActor_x := p.2.1; MovedActor_y := p.2.2;
     MovedActor_unknown := uf_empty |}.

Lemma moves_snapshot_actors moves :
  moves_snapshot moves
  = {| S_MOVE_BROADCAST_actors := map actor_of moves; S_MOVE_BROADCAST_unknown := uf_empty |}.
Proof.
  unfold moves_snapshot. assert (Hgen : ∀ m,
    foldl (λ snapshot '(accountId, (x, y)), S_MOVE_BROADCAST_add_actors
      (MovedActor_set_y y (MovedActor_set_x x
        (MovedActor_set_account_id accountId MovedActor_SharedCtor))) snapshot) m moves
    = {| S_MOVE_BROADCAST_actors := S_MOVE_BROADCAST_actors m ++ map actor_of moves;
         S_MOVE_BROADCAST_unknown := S_MOVE_BROADCAST_unknown m |}).
  { induction moves as [|[a [x y]] moves IH]; intros m; simpl.
    - rewrite app_nil_r. by destruct m.
    - rewrite IH. simpl. by rewrite <- app_assoc. }
  by rewrite Hgen.
Qed.

Lemma shared_packet_frame `{MessageLaws M ok, PacketTraits M} (m : M) :
  ok m → ByteSizeLong m < 2147483648 →
  shared_packet m = header_bytes {| packetSize := u16 (ByteSizeLong m);
                                    packetId := PacketID_val (ID (M := M)) |} ++ Serialize m.
Proof.
  intros Hok Hsz. unfold shared_packet. rewrite i32_id.
  2:{ rewrite (ByteSizeLong_length m Hok) in *. lia. }
  unfold SerializeToArray. rewrite (ByteSizeLong_length m Hok).
  rewrite decide_False by lia. set (h := {| packetSize := _ |}).
  set (buf := replicate _ _).
  assert (Hb : Z.of_nat (length buf) = sizeof_PacketHeader + Z.of_nat (length (Serialize m))).
  { unfold buf. rewrite length_replicate. unfold sizeof_PacketHeader. lia. }
  unfold sizeof_PacketHeader in *.
  rewrite mem_write_split by (unfold in_range; rewrite length_mem_write; lia).
  rewrite (drop_ge (mem_write _ _ _)) by (rewrite length_mem_write; lia). rewrite app_nil_r. f_equal.
  rewrite mem_write_split by (unfold in_range; rewrite length_header_bytes; lia).
  change (Z.to_nat 0) with 0%nat. rewrite take_0, app_nil_l. by apply take_app_exact.
Qed.
End moves.

(** ** Properties of a room *)

(** The life of a room: jobs are queued, ticks run, and other threads change
    the rest of the state. *)
Inductive room_event := EvPush (job : RoomJob) | EvTick (reconnectWindowMs : Z) | EvNet (n : Net).

Section properties.
Context `{Platform, PbRuntime}.
Implicit Types (g : GameRoom) (n : Net).

Definition room_event_step (this : nat) (gn : GameRoom * Net) (e : room_event)
    : GameRoom * Net :=
  match e with
  | EvPush job => (PushJob job gn.1, gn.2)
  | EvTick w => Tick this w gn.1 gn.2
  | EvNet n => (gn.1, n)
  end.

(** C17. A room is never inconsistent: whatever jobs are queued and ticks run,
    members, ready players, pending moves and reconnection slots have no
    duplicates, a running game has at least two players, nobody counts as ready
    outside the waiting room, and a room marked as empty has no member. *)
Theorem room_invariant this name max n events :
  room_wf (foldl (room_event_step this) (GameRoom_new name max, n) events).1.
Proof.
  generalize (room_wf_new name max). change (GameRoom_new name max) with
    (GameRoom_new name max, n).1 at 1.
  generalize (GameRoom_new name max, n) as gn.
  induction events as [|e events IH]; intros gn Hg; [done|].
  simpl. apply IH. destruct gn as [g n0], e; simpl in *; [|by apply Tick_wf|done].
  destruct Hg. by split.
Qed.

(** The state machine of a room under one job: a game starts only out of
    the waiting room, by the [C_READY] of a player, with at least two members
    and at least as many ready accounts as members; it ends only because a
    member leaves, who gets a reconnection slot; a finished room stays so. *)
Theorem run_job_state this j g n :
  room_wf g →
  let g' := (run_job this j (g, n)).1 in
  match m_state g, m_state g' with
  | WAITING, WAITING | IN_GAME, IN_GAME => True
  | FINISHED, FINISHED => m_finishedAt g' = m_finishedAt g
  | WAITING, IN_GAME =>
      ∃ acc, j = JReady acc ∧ m_members g' = m_members g
        ∧ (2 ≤ length (m_members g))%nat
        ∧ (length (m_members g) ≤ length (us_insert acc (m_readyPlayers g)))%nat
  | IN_GAME, FINISHED =>
      ∃ s, (j = JLeave s ∨ j = JLeaveAck s) ∧ s ∈ m_members g
        ∧ m_members g' = us_erase s (m_members g)
        ∧ HasPendingReconnect (GetAccountId s n) g' = true
  | _, _ => False
  end.
Proof.
  intros Hg. assert (Hleave : ∀ s, (j = JLeave s ∨ j = JLeaveAck s) →
    let g' := (HandleLeave s g n).1 in
    match m_state g, m_state g' with
    | WAITING, WAITING | IN_GAME, IN_GAME => True
    | FINISHED, FINISHED => m_finishedAt g' = m_finishedAt g
    | IN_GAME, FINISHED => ∃ s, (j = JLeave s ∨ j = JLeaveAck s) ∧ s ∈ m_members g
        ∧ m_members g' = us_erase s (m_members g)
        ∧ HasPendingReconnect (GetAccountId s n) g' = true
    | _, _ => False
    end).
  { intros s Hj. destruct (decide (s ∈ m_members g)) as [Hs|Hs].
    - rewrite HandleLeave_room by done. destruct (m_state g) eqn:Es; simpl.
      + by case_decide; simpl; rewrite Es.
      + exists s. split_and!; [done..|]. unfold HasPendingReconnect, um_count. simpl.
        rewrite um_find_set by apply Hg. rewrite decide_True by done. done.
      + by case_decide; simpl; rewrite Es.
    - unfold HandleLeave, us_count. rewrite bool_decide_false by done. simpl.
      by destruct (m_state g). }
  destruct j; cbn [run_job].
  - unfold HandleRejoin. simpl. by destruct (m_state g).
  - simpl. by destruct (m_state g).
  - specialize (Hleave session). simpl in Hleave.
    destruct (m_state g), (m_state (HandleLeave session g n).1); naive_solver.
  - unfold HandleEnter. destruct (m_state g) eqn:Es; simpl; repeat case_decide; simpl;
      by rewrite ?Es.
  - specialize (Hleave session). destruct (HandleLeave session g n) as [g' n']. simpl in *.
    destruct (m_state g), (m_state g'); naive_solver.
  - unfold HandleMove. destruct (m_state g) eqn:Es; simpl; rewrite Es; done.
  - unfold HandleReady. destruct (m_state g) eqn:Es.
    + rewrite decide_False by (intros Hn; by apply Hn). rewrite TryStartGame_room. simpl.
      case_decide as Hc; simpl; [|by rewrite Es]. exists accountId. split_and!; [done|done|lia|].
      destruct Hc as [_ Hc]. etrans; [exact Hc|]. unfold us_insert.
      destruct (us_count _ _); [apply us_erase_length_le|done].
    + rewrite decide_True by done. simpl. by rewrite Es.
    + rewrite decide_True by done. simpl. by rewrite Es.
Qed.

(** The result screen lasts until the first tick more than 5000 ms after
    the end of the game, and that tick reopens the waiting room. *)
Theorem Tick_finished this w g n :
  let g1 := (FlushJobs this (g, n)).1 in
  let gn' := Tick this w g n in
  m_state g1 = FINISHED →
  let now := steady_ms (Nat.pred (n_steady gn'.2)) in
  m_state gn'.1 = (if decide (now - m_finishedAt g1 > 5000) then WAITING else FINISHED)
  ∧ m_members gn'.1 = m_members g1.
Proof.
  unfold Tick. destruct (FlushJobs this (g, n)) as [g1 n1]. simpl. intros Hf.
  destruct (ExpireReconnects w g1 n1) as [g2 n2] eqn:E.
  assert (m_state g2 = m_state g1 ∧ m_finishedAt g2 = m_finishedAt g1
          ∧ m_members g2 = m_members g1) as (E1 & E2 & E3).
  { unfold ExpireReconnects in E. by case_decide; simplify_eq/=. }
  rewrite decide_True by congruence. simpl. rewrite E2. case_decide as Hd; simpl.
  - rewrite (proj1 (sends_clock _ _ (BroadcastRoomState_sends _ _))). simpl.
    rewrite decide_True by done. done.
  - rewrite decide_False by done. by rewrite E1.
Qed.

(** No entrance exceeds the capacity: any job but a reconnection keeps the
    number of members within [m_maxPlayers]. *)
Theorem run_job_capacity this j g n :
  Z.of_nat (length (m_members g)) ≤ m_maxPlayers g →
  (∀ s, j ≠ JRejoin s) →
  let g' := (run_job this j (g, n)).1 in
  Z.of_nat (length (m_members g')) ≤ m_maxPlayers g'.
Proof.
  intros Hc Hj. assert (Hleave : ∀ s,
    (length (m_members (HandleLeave s g n).1) ≤ length (m_members g))%nat
    ∧ m_maxPlayers (HandleLeave s g n).1 = m_maxPlayers g).
  { intros s. split; [|by apply (ef_name _ _ _ _ (HandleLeave_effect (λ _, True) 0 s g n))].
    rewrite HandleLeave_members. apply us_erase_length_le. }
  destruct j; cbn [run_job].
  - by destruct (Hj session).
  - done.
  - simpl. destruct (Hleave session) as [? ->]. lia.
  - unfold HandleEnter. repeat case_decide; simpl; try done.
    rewrite us_insert_length. case_match; lia.
  - destruct (Hleave session) as [Hl E]. destruct (HandleLeave session g n). simpl in *.
    rewrite E. lia.
  - unfold HandleMove. by case_decide.
  - unfold HandleReady. case_decide; [done|]. rewrite TryStartGame_room. by case_decide.
Qed.

(** A reconnection slot lives exactly [reconnectWindowMs]: the expiry of a
    tick keeps it, unchanged, while it is not older, and removes it afterwards. *)
Theorem ExpireReconnects_window w g n a :
  room_wf g →
  let g' := (ExpireReconnects w g n).1 in
  um_find a (m_pendingReconnects g')
  = match um_find a (m_pendingReconnects g) with
    | Some storedAt =>
        if decide (steady_ms (n_steady n) - storedAt > w) then None else Some storedAt
    | None => None
    end.
Proof.
  intros Hg. unfold ExpireReconnects. case_decide as Hn; simpl; [by rewrite Hn|].
  pose proof (rw_slots _ Hg) as Hnd. clear Hn Hg.
  induction (m_pendingReconnects g) as [|[k t] l IH]; [done|].
  apply NoDup_cons in Hnd as [Hk Hnd]. rewrite filter_cons. simpl.
  destruct (decide (k = a)) as [->|Hka].
  - case_decide as H1; case_decide as H2; try tauto; simpl; [by rewrite decide_True by done|].
    rewrite IH by done. assert (um_find a l = None) as -> by (by apply um_find_None). done.
  - case_decide; simpl; rewrite ?decide_False by done; by apply IH.
Qed.

(** Coming back: a player who rejoins is a member again, the slot is
    consumed, and the game goes on undisturbed in the same state. *)
Theorem HandleRejoin_back this s g n :
  room_wf g →
  let '(g', n') := HandleRejoin this s g n in
  s ∈ m_members g' ∧ GetRoom s n' = Some this ∧ m_state g' = m_state g
  ∧ HasPendingReconnect (GetAccountId s n) g' = false
  ∧ ∀ t, t ∈ m_members g → t ∈ m_members g'.
Proof.
  intros Hg. unfold HandleRejoin. split_and!; simpl.
  - apply elem_of_us_insert. by left.
  - unfold GetRoom. rewrite (sends_room (welcome_sends _ _ _ _)). by rewrite sess_upd.
  - done.
  - unfold HasPendingReconnect, um_count. simpl. rewrite um_find_erase, decide_True by done.
    by apply bool_decide_false; intros [].
  - intros t Ht. apply elem_of_us_insert. by right.
Qed.

(** C36. The movement broadcast of a tick: the accumulated moves, all of them and
    with nothing else, go as one well-formed [S_MOVE_BROADCAST] frame, once each,
    to all members; a member that does not get it is disconnected.  The moves
    are then forgotten. *)
Theorem BroadcastPendingMoves_delivery `{!PbRuntimeLaws} g n :
  let snapshot := {| S_MOVE_BROADCAST_actors := map actor_of (m_pendingMoves g);
                     S_MOVE_BROADCAST_unknown := uf_empty |} in
  let frame := header_bytes {| packetSize := u16 (ByteSizeLong snapshot); packetId := 12 |}
               ++ Serialize snapshot in
  room_wf g → net_wf n → m_pendingMoves g ≠ [] → m_members g ≠ [] →
  S_MOVE_BROADCAST_ok snapshot → ByteSizeLong snapshot < 65536 →
  let '(g', n') := BroadcastPendingMoves g n in
  m_pendingMoves g' = []
  ∧ delivered frame (m_members g) n n'
  ∧ frames frame = ([frame], [])
  ∧ ParseFromArray (drop 4 frame) = Some snapshot.
Proof.
  intros snapshot frame Hg Hn Hmv Hmem Hok Hsz. unfold BroadcastPendingMoves.
  rewrite decide_False, moves_snapshot_actors by done. fold snapshot.
  pose proof (ByteSizeLong_length snapshot Hok) as HB.
  split_and!; [done|..].
  - unfold BroadcastShared. rewrite decide_False by done.
    rewrite (shared_packet_frame snapshot) by (done || lia).
    apply foldl_delivered; auto with server.
    + intros. by apply SendShared_disconnected.
    + intros. by apply SendShared_frame.
    + apply Hg.
  - unfold frame. rewrite HB. apply header_frame; lia.
  - unfold frame. rewrite drop_app_exact by done. apply Parse_Serialize; done.
Qed.

(** The room state packet: every member gets the state, the number of
    members and the number of ready players, as one frame of 9 bytes from which
    the three numbers can be read back. *)
Theorem BroadcastRoomState_delivery g n :
  room_wf g → net_wf n → m_members g ≠ [] →
  Z.of_nat (length (m_members g)) < 65536 → Z.of_nat (length (m_readyPlayers g)) < 65536 →
  let data := room_state_data g in
  let frame := header_bytes {| packetSize := 5; packetId := 18 |} ++ data in
  delivered frame (m_members g) n (BroadcastRoomState g n)
  ∧ frames frame = ([frame], [])
  ∧ le_val (mem_read 0 1 data) = RoomState_val (m_state g)
  ∧ le_val (mem_read 1 2 data) = Z.of_nat (length (m_members g))
  ∧ le_val (mem_read 3 2 data) = Z.of_nat (length (m_readyPlayers g)).
Proof.
  intros Hg Hn Hm Hlm Hlr data frame. unfold BroadcastRoomState. rewrite decide_False by done.
  assert (Hlen : Z.of_nat (length data) = 5) by done. split_and!.
  - apply foldl_delivered; auto with server.
    + intros. by apply SendRaw_disconnected.
    + intros n0 s Hn0 Hd0. pose proof (SendRaw_frame s 18 data n0 Hn0) as Hs.
      rewrite Hlen in Hs. specialize (Hs ltac:(lia) Hd0 ltac:(done)).
      simpl in *. destruct (SendRaw _ _ _ _ _). by destruct Hs as (_ & _ & Hs & _).
    + apply Hg.
  - unfold frame. by apply (header_frame 18 data).
  - simpl. destruct (m_state g); reflexivity.
  - change (mem_read 1 2 data) with (u16_bytes (u16 (Z.of_nat (length (m_members g))))).
    unfold u16_bytes. rewrite u16_id by lia. rewrite <- le_bytes_2_masks.
    apply le_val_bytes_small. simpl. lia.
  - change (mem_read 3 2 data) with (u16_bytes (u16 (Z.of_nat (length (m_readyPlayers g))))).
    unfold u16_bytes. rewrite u16_id by lia. rewrite <- le_bytes_2_masks.
    apply le_val_bytes_small. simpl. lia.
Qed.
End properties.

(** ** Witnesses *)

Definition demo_player (sock : Z) (account : string) : Session :=
  SetRoom (Some 0%nat) (SetAccountId account (set_sock (Some sock) Session_new)).

Definition demo_players : Net :=
  upd_session 1 (λ _, demo_player 11 "alice")
    (upd_session 2 (λ _, demo_player 12 "bob") Net_new).

Lemma demo_players_wf : net_wf demo_players.
Proof. apply net_wf_upd, net_wf_upd, net_wf_new. Qed.

Definition demo_lobby : GameRoom :=
  set_ready ["alice"] (set_members [1; 2]%nat (GameRoom_new "room1" 16)).

Definition demo_game : GameRoom :=
  set_moves [("alice", (1069547520, 0)); ("bob", (0, 1075838976))]
    (set_state IN_GAME (set_members [1; 2]%nat (GameRoom_new "room1" 16))).

Definition demo_over : GameRoom :=
  set_reconnects [("bob", 400); ("carol", 900)]
    (set_state FINISHED (set_members [1]%nat (GameRoom_new "room1" 16))).

Ltac solve_room_wf := split; simpl;
  try (solve [repeat (apply NoDup_cons_2; [set_solver|]); apply NoDup_nil_2]);
  (done || lia || congruence).

Lemma demo_lobby_wf : room_wf demo_lobby.
Proof. solve_room_wf. Qed.
Lemma demo_game_wf : room_wf demo_game.
Proof. solve_room_wf. Qed.
Lemma demo_over_wf : room_wf demo_over.
Proof. solve_room_wf. Qed.

Lemma BroadcastPendingMoves_delivery_witness :
  let snapshot := {| S_MOVE_BROADCAST_actors := map actor_of (m_pendingMoves demo_game);
                     S_MOVE_BROADCAST_unknown := uf_empty |} in
  let frame := header_bytes {| packetSize := u16 (ByteSizeLong snapshot); packetId := 12 |}
               ++ Serialize snapshot in
  let '(g', n') := BroadcastPendingMoves demo_game demo_players in
  m_pendingMoves g' = [] ∧ delivered frame [1; 2]%nat demo_players n'
  ∧ frames frame = ([frame], []) ∧ ParseFromArray (drop 4 frame) = Some snapshot.
Proof.
  apply (BroadcastPendingMoves_delivery demo_game demo_players demo_game_wf demo_players_wf).
  - discriminate.
  - discriminate.
  - split; [|reflexivity].
    repeat apply Forall_cons_2; [..|apply Forall_nil_2]; repeat split; vm_compute; done.
  - vm_compute. reflexivity.
Defined.

(** *** Behaviours the comments of the source do not mention *)

(** A [C_READY] that follows a [C_ROOM_LEAVE] before the tick counts although its
    sender is no member any more: Alice is not ready, and the game starts. *)
Example ready_of_a_leaver :
  let g := set_jobs [JLeaveAck 2; JReady "bob"; JReady "carol"]
             (set_members [1; 2; 3]%nat (GameRoom_new "room1" 16)) in
  let n := upd_session 3 (λ _, demo_player 13 "carol") demo_players in
  let g' := (FlushJobs 0 (g, n)).1 in
  m_state g' = IN_GAME ∧ m_members g' = [1; 3]%nat
  ∧ map (λ s, GetAccountId s n) (m_members g') = ["alice"; "carol"].
Proof. vm_compute. auto. Qed.

(** A reconnection is not subject to the capacity. *)
Example rejoin_over_capacity :
  let g := set_members [1; 2]%nat (GameRoom_new "room1" 2) in
  length (m_members (HandleRejoin 0 3 g demo_players).1) = 3%nat.
Proof. reflexivity. Qed.
