(* ===== verification/PacketManager.v ===== *)
(** * The packet dispatcher

    Models [Packet/PacketManager.h] and [Packet/PacketManager.cpp].  A handler
    takes the session, the payload and the state it acts on; [None] is the
    result of undefined behaviour in the handler. *)
From S2P Require Import Prelude Bytes Packet.
Local Open Scope Z_scope.

Section packet_manager.
Context {W : Type}.

Definition PacketHandlerFunc : Type := nat → list byte → W → option W.

(** [m_handlers]. *)
Definition PacketManager : Type := gmap Z PacketHandlerFunc.

Definition RegisterHandler (packetId : Z) (handler : PacketHandlerFunc) (pm : PacketManager)
    : PacketManager := <[packetId := handler]> pm.

(** [packetData] is the packet, [size] its length. *)
Definition HandlePacket (pm : PacketManager) (session : nat) (packetData : list byte) (w : W)
    : option W :=
  if decide (Z.of_nat (length packetData) < sizeof_PacketHeader) then Some w
  else
    let header := header_at 0 packetData in
    let payload := drop (Z.to_nat sizeof_PacketHeader) packetData in
    match pm !! packetId header with
    | None => Some w
    | Some handler => handler session payload w
    end.

(** A framed packet reaches the handler of its id, with its payload. *)
Lemma HandlePacket_frame pm s id payload w :
  0 ≤ id < 65536 → Z.of_nat (length payload) < 65536 →
  HandlePacket pm s (header_bytes {| packetSize := Z.of_nat (length payload); packetId := id |}
                       ++ payload) w
  = match pm !! id with Some handler => handler s payload w | None => Some w end.
Proof.
  intros Hi Hl. unfold HandlePacket, sizeof_PacketHeader.
  rewrite length_app, length_header_bytes, decide_False by lia.
  rewrite header_at_bytes by (simpl; lia). cbn [packetId].
  by rewrite drop_app_exact by done.
Qed.

(** The dispatcher keeps what all handlers keep. *)
Lemma HandlePacket_inv (P : W → Prop) pm s d w :
  map_Forall (λ _ h, ∀ s d w, P w → ∃ w', h s d w = Some w' ∧ P w') pm →
  P w → ∃ w', HandlePacket pm s d w = Some w' ∧ P w'.
Proof.
  intros Hpm Hw. unfold HandlePacket. case_decide; [by eauto|].
  destruct (pm !! _) as [h|] eqn:E; [|by eauto]. by apply (Hpm _ _ E).
Qed.
End packet_manager.

Arguments PacketHandlerFunc : clear implicits.
Arguments PacketManager : clear implicits.
