(* ===== verification/SessionManager.v ===== *)
(** * The session registry

    Models [Game/SessionManager.h] and [Game/SessionManager.cpp]: the live
    sessions by the number they were given. *)
From S2P Require Import Prelude Platform Session.
Local Open Scope Z_scope.

Record SessionManager := mkSessionManager {
  m_sessions : list (Z * nat);
  m_nextSessionId : Z }.

Definition SessionManager_new : SessionManager :=
  {| m_sessions := []; m_nextSessionId := 1 |}.

Section session_manager.
Context `{Platform}.

Definition Add (session : nat) (m : SessionManager) (n : Net) : Z * SessionManager * Net :=
  let id := m_nextSessionId m in
  let n := upd_session session (SetSessionId id) n in
  (id, {| m_sessions := um_emplace id session (m_sessions m);
          m_nextSessionId := u64 (id + 1) |}, n).

Definition Remove (sessionId : Z) (m : SessionManager) : SessionManager :=
  {| m_sessions := um_erase sessionId (m_sessions m);
     m_nextSessionId := m_nextSessionId m |}.

Definition Find (sessionId : Z) (m : SessionManager) : option nat :=
  um_find sessionId (m_sessions m).

Definition Count (m : SessionManager) : nat := length (m_sessions m).

Definition GetAll (m : SessionManager) : list nat := map snd (m_sessions m).

(** ** The invariant *)

(** Ids are unique and were all given out before [m_nextSessionId]. *)
Record sm_wf (m : SessionManager) : Prop := {
  sm_ids : NoDup (um_keys (m_sessions m));
  sm_given : ∀ id, id ∈ um_keys (m_sessions m) → 1 ≤ id < m_nextSessionId m;
  sm_next : 1 ≤ m_nextSessionId m }.

Lemma sm_wf_new : sm_wf SessionManager_new.
Proof. split; simpl; [apply NoDup_nil_2|set_solver|lia]. Qed.

Lemma um_keys_emplace id s (l : list (Z * nat)) :
  id ∉ um_keys l → um_keys (um_emplace id s l) ≡ₚ id :: um_keys l.
Proof.
  intros Hid. unfold um_emplace. rewrite (proj2 (um_find_None id l) Hid).
  apply um_keys_place.
Qed.

Lemma um_emplace_perm id s (l : list (Z * nat)) :
  id ∉ um_keys l → um_emplace id s l ≡ₚ (id, s) :: l.
Proof. intros Hid. unfold um_emplace. rewrite (proj2 (um_find_None id l) Hid). apply place_perm. Qed.

Lemma Add_fresh m :
  sm_wf m → m_nextSessionId m ∉ um_keys (m_sessions m).
Proof. intros [_ Hg _] Hin%Hg. lia. Qed.

Lemma Add_wf s m n :
  sm_wf m → m_nextSessionId m < 2 ^ 64 - 1 → sm_wf (Add s m n).1.2.
Proof.
  intros Hm Hb. pose proof (Add_fresh m Hm) as Hf. destruct Hm as [H1 H2 H3].
  simpl in Hb. assert (E : u64 (m_nextSessionId m + 1) = m_nextSessionId m + 1).
  { apply wrapU_id. simpl. lia. }
  split; simpl; rewrite ?E; [by apply um_emplace_NoDup| |lia].
  intros id. rewrite um_keys_emplace by done. intros [->|Hid%H2]%elem_of_cons; lia.
Qed.

Lemma Remove_wf id m : sm_wf m → sm_wf (Remove id m).
Proof.
  intros [H1 H2 H3]. split; simpl; [by apply um_erase_NoDup| |done].
  intros k. rewrite um_erase_keys, elem_of_us_erase. naive_solver.
Qed.

Lemma Find_Remove id id' m :
  Find id (Remove id' m) = if decide (id = id') then None else Find id m.
Proof. apply um_find_erase. Qed.

Lemma Count_Remove id m : sm_wf m → is_Some (Find id m) → S (Count (Remove id m)) = Count m.
Proof.
  intros Hm [s Hs]. unfold Count. simpl.
  rewrite <- !(length_fmap fst). change (fst <$> ?l) with (um_keys l).
  rewrite um_erase_keys. apply us_erase_length; [apply Hm|].
  apply dec_stable. intros Hn%um_find_None. unfold Find in Hs. congruence.
Qed.

Lemma Count_Add s m n : sm_wf m → Count (Add s m n).1.2 = S (Count m).
Proof.
  intros Hm. unfold Count. simpl. unfold um_emplace.
  rewrite (proj2 (um_find_None _ (m_sessions m)) (Add_fresh m Hm)). by rewrite place_perm.
Qed.

Lemma Find_Add s m n id :
  sm_wf m → Find id (Add s m n).1.2
            = if decide (m_nextSessionId m = id) then Some s else Find id m.
Proof.
  intros Hm. unfold Find. simpl. unfold um_emplace.
  rewrite (proj2 (um_find_None _ (m_sessions m)) (Add_fresh m Hm)).
  apply um_find_place; [apply Hm|]. by apply Add_fresh.
Qed.
End session_manager.
