(* ===== verification/RoomManager.v ===== *)
(** * The room registry

    Models [Game/RoomManager.h] and [Game/RoomManager.cpp].  The registry owns
    the rooms ([unique_ptr]); everybody else holds their addresses.  An address
    is never given out twice here, so an access through the pointer to a
    destroyed room is visible: [deref] fails, and the operation is undefined
    behaviour ([None]). *)
From S2P Require Import Prelude Platform Protobuf PbRuntimeDemo Session PacketTraits JobQueue GameRoom.
Local Open Scope Z_scope.

(** [m_rooms], with the address of each room. *)
Record RoomManager := mkRoomManager {
  m_rooms : list (string * (nat * GameRoom));
  next_room : nat }.

Definition RoomManager_new : RoomManager := {| m_rooms := []; next_room := 0 |}.

Definition set_rooms (l : list (string * (nat * GameRoom))) (R : RoomManager) : RoomManager :=
  {| m_rooms := l; next_room := next_room R |}.

Record RoomInfo := mkRoomInfo {
  ri_name : string; ri_playerCount : Z; ri_maxPlayers : Z; ri_state : RoomState }.

Section room_manager.
Context `{Platform, PbRuntime}.
Implicit Types (R : RoomManager) (n : Net) (r s : nat).

(** The room at an address. *)
Definition deref r R : option GameRoom := um_find r (map snd (m_rooms R)).

Definition store r (g : GameRoom) R : RoomManager :=
  set_rooms (map (λ e, if decide (e.2.1 = r) then (e.1, (r, g)) else e) (m_rooms R)) R.

(** [room->PushJob(job)]. *)
Definition room_PushJob r (job : RoomJob) R : option RoomManager :=
  g ← deref r R; Some (store r (PushJob job g) R).

Definition GetOrCreate (maxRoomPlayers : Z) (name : string) R : nat * RoomManager :=
  match um_find name (m_rooms R) with
  | Some (r, _) => (r, R)
  | None =>
      let r := next_room R in
      (r, {| m_rooms := um_emplace name (r, GameRoom_new name maxRoomPlayers) (m_rooms R);
             next_room := S r |})
  end.

Definition Find (name : string) R : option nat := fst <$> um_find name (m_rooms R).

(** The loop over the pointers collected under the lock. *)
Fixpoint tick_rooms (reconnectWindowMs : Z) (rooms : list nat) R n : option (RoomManager * Net) :=
  match rooms with
  | [] => Some (R, n)
  | r :: rooms =>
      g ← deref r R;
      let '(g, n) := Tick r reconnectWindowMs g n in
      tick_rooms reconnectWindowMs rooms (store r g R) n
  end.

Definition TickAll (reconnectWindowMs : Z) R n : option (RoomManager * Net) :=
  let rooms := map (λ e, e.2.1) (m_rooms R) in
  tick_rooms reconnectWindowMs rooms R n.

Definition is_idle (now idleMs : Z) (e : string * (nat * GameRoom)) : Prop :=
  let emptySince := m_emptySinceMs e.2.2 in
  emptySince > 0 ∧ now - emptySince > idleMs.

#[export] Instance is_idle_dec now idleMs e : Decision (is_idle now idleMs e).
Proof. unfold is_idle. apply _. Defined.

Definition RemoveIdleRooms (idleMs : Z) R n : Z * RoomManager * Net :=
  let '(now, n) := NowMs n in
  (Z.of_nat (length (filter (is_idle now idleMs) (m_rooms R))),
   set_rooms (filter (λ e, ¬ is_idle now idleMs e) (m_rooms R)) R, n).

Definition FindReconnect (accountId : string) R : option nat :=
  (λ e, e.2.1) <$> head (filter (λ e, HasPendingReconnect accountId e.2.2 = true) (m_rooms R)).

Definition GetRoomInfoList R : list RoomInfo :=
  map (λ e, {| ri_name := e.1; ri_playerCount := Z.of_nat (length (m_members e.2.2));
               ri_maxPlayers := m_maxPlayers e.2.2; ri_state := m_state e.2.2 |}) (m_rooms R).

(** ** The invariant *)

Record rm_wf R : Prop := {
  rm_names : NoDup (um_keys (m_rooms R));
  rm_addrs : NoDup (um_keys (map snd (m_rooms R)));
  rm_next : ∀ r, r ∈ um_keys (map snd (m_rooms R)) → (r < next_room R)%nat;
  rm_room : ∀ r g, deref r R = Some g → room_wf g }.

(** No session points to a room that does not exist or does not know it. *)
Definition linked R n : Prop :=
  ∀ s r, m_room (sess s n) = Some r → ∃ g, deref r R = Some g ∧ s ∈ m_members g.

Lemma rm_wf_new : rm_wf RoomManager_new.
Proof. split; simpl; try apply NoDup_nil_2; try set_solver. Qed.

Lemma m_rooms_store r g R :
  map snd (m_rooms (store r g R))
  = map (λ p, if decide (p.1 = r) then (r, g) else p) (map snd (m_rooms R)).
Proof.
  simpl. rewrite !map_map. apply map_ext. intros [name [a x]]. simpl. by case_decide.
Qed.

Lemma deref_store r r' g R :
  deref r' (store r g R) = if decide (r = r') then (λ _, g) <$> deref r' R else deref r' R.
Proof. unfold deref. rewrite m_rooms_store. apply um_find_map. Qed.

Lemma names_store r g R : um_keys (m_rooms (store r g R)) = um_keys (m_rooms R).
Proof.
  unfold um_keys. simpl. rewrite map_map. apply map_ext. intros e. by case_decide.
Qed.

Lemma addrs_store r g R : um_keys (map snd (m_rooms (store r g R))) = um_keys (map snd (m_rooms R)).
Proof.
  rewrite m_rooms_store. unfold um_keys. rewrite map_map. apply map_ext.
  intros [a x]. simpl. by case_decide.
Qed.

Lemma store_wf r g g0 R :
  rm_wf R → deref r R = Some g0 → room_wf g → rm_wf (store r g R).
Proof.
  intros [H1 H2 H3 H4] Hr Hg. split.
  - by rewrite names_store.
  - by rewrite addrs_store.
  - intros a. rewrite addrs_store. apply H3.
  - intros a x. rewrite deref_store. case_decide; [|apply H4]. subst. rewrite Hr.
    simpl. congruence.
Qed.

(** What one room does keeps everybody linked. *)
Lemma effect_linked r P g R n gn' :
  deref r R = Some g → effect r P (g, n) gn' → linked R n → linked (store r gn'.1 R) gn'.2.
Proof.
  intros Hr Hef Hl s a Ha. rewrite deref_store. case_decide as Hra.
  - subst a. rewrite Hr. eexists. split; [done|]. apply (ef_points _ _ _ _ Hef); [|done].
    intros t Ht. simpl in *. destruct (Hl t r Ht) as (x & Hx & Hm). congruence.
  - apply Hl. apply (ef_other _ _ _ _ Hef); congruence.
Qed.

Lemma room_PushJob_wf r j R :
  rm_wf R → is_Some (deref r R) → ∃ R', room_PushJob r j R = Some R' ∧ rm_wf R'.
Proof.
  intros HR [g Hg]. unfold room_PushJob. rewrite Hg. simpl. eexists. split; [done|].
  eapply store_wf; [done..|]. destruct (rm_room _ HR _ _ Hg). by split.
Qed.

Lemma room_PushJob_linked r j R R' n :
  room_PushJob r j R = Some R' → linked R n → linked R' n.
Proof.
  unfold room_PushJob. destruct (deref r R) as [g|] eqn:Hg; simpl; [|done]. intros [= <-].
  apply (effect_linked r (λ _, True) g R n (PushJob j g, n) Hg). apply effect_jobs. by right.
Qed.

(** ** References *)

(** The sessions the rooms refer to are in [P]. *)
Definition rooms_refs (P : nat → Prop) R : Prop := ∀ r g, deref r R = Some g → room_refs P g.

Lemma store_refs P r g R : rooms_refs P R → room_refs P g → rooms_refs P (store r g R).
Proof.
  intros HR Hg a x. rewrite deref_store. case_decide; [|apply HR].
  destruct (deref a R); [|done]. by intros [= <-].
Qed.

Lemma room_PushJob_refs (P : nat → Prop) r j R R' :
  (∀ s, job_session j = Some s → P s) → room_PushJob r j R = Some R' →
  rooms_refs P R → rooms_refs P R'.
Proof.
  intros Hj. unfold room_PushJob. destruct (deref r R) as [g|] eqn:Hg; [|done].
  simpl. intros [= <-] HR. apply store_refs; [done|]. destruct (HR r g Hg) as [H1 H2].
  split; [done|]. simpl. intros j' s. unfold Push. rewrite elem_of_app, list_elem_of_singleton.
  intros [Hin| ->]; eauto.
Qed.

(** ** The operations *)

(** What the tick of a room does to the rest of the state. *)
Lemma Tick_plays r w g n :
  plays n (Tick r w g n).2 ∧ (net_wf n → net_wf (Tick r w g n).2).
Proof.
  pose proof (Tick_effect (λ _, True) r w g n (λ _ _ _ _, I)) as He.
  split; [apply (ef_plays _ _ _ _ He)|apply (ef_wf _ _ _ _ He)].
Qed.

Lemma tick_rooms_plays w rooms R n R' n' :
  tick_rooms w rooms R n = Some (R', n') → plays n n' ∧ (net_wf n → net_wf n').
Proof.
  revert R n. induction rooms as [|r rooms IH]; intros R n; cbn [tick_rooms]; [by intros [= <- <-]|].
  destruct (deref r R) as [g|]; [|done]. cbn [mbind option_bind].
  pose proof (Tick_plays r w g n) as [Hp Hw]. destruct (Tick r w g n) as [g1 n1].
  intros [Hp' Hw']%IH. split; [by etrans|auto].
Qed.

(** A tick of rooms that exist finds them all. *)
Lemma tick_rooms_ok w rooms R n :
  rm_wf R → linked R n → net_wf n → (∀ r, r ∈ rooms → is_Some (deref r R)) →
  ∃ R' n', tick_rooms w rooms R n = Some (R', n') ∧ rm_wf R' ∧ linked R' n' ∧ net_wf n'
    ∧ plays n n' ∧ um_keys (m_rooms R') = um_keys (m_rooms R)
    ∧ ∀ P, rooms_refs P R → rooms_refs P R' ∧ posts P n n'.
Proof.
  revert R n. induction rooms as [|r rooms IH]; intros R n HR Hl Hn Hin; simpl.
  { exists R, n. by split_and!. }
  destruct (Hin r) as [g Hg]; [set_solver|]. rewrite Hg. cbn [mbind option_bind].
  assert (He : ∀ P, (∀ j s, j ∈ m_jobQueue g → job_session j = Some s → P s) →
    effect r P (g, n) (Tick r w g n)) by (intros P; apply Tick_effect).
  pose proof (Tick_wf r w g n (rm_room _ HR _ _ Hg)) as Hw.
  destruct (Tick r w g n) as [g' n1]. simpl in Hw.
  assert (Ht : effect r (λ _, True) (g, n) (g', n1)) by (by apply He).
  destruct (IH (store r g' R) n1) as (R' & n' & E & H1 & H2 & H3 & H4 & H5 & H6).
  - by eapply store_wf.
  - by apply (effect_linked r (λ _, True) g R n (g', n1)).
  - by apply (ef_wf _ _ _ _ Ht).
  - intros a Ha. rewrite deref_store. case_decide; [|apply Hin; set_solver].
    subst. rewrite Hg. by eexists.
  - exists R', n'. split_and!; try done.
    + etrans; [apply (ef_plays _ _ _ _ Ht)|done].
    + rewrite H5. apply names_store.
    + intros P HP. assert (Hg' : room_refs P g) by (by eapply HP).
      specialize (He P (rr_jobs _ _ Hg')). destruct (H6 P) as [H7 H8].
      { apply store_refs; [done|]. by apply (ef_refs _ _ _ _ He). }
      split; [done|]. etrans; [by apply (ef_posts _ _ _ _ He)|done].
Qed.

Lemma deref_member r R : r ∈ map (λ e, e.2.1) (m_rooms R) → is_Some (deref r R).
Proof.
  intros Hr. unfold deref. apply not_eq_None_Some. rewrite um_find_None. intros Hn. apply Hn.
  unfold um_keys. by rewrite map_map.
Qed.

Lemma RemoveIdleRooms_deref idleMs R n r :
  rm_wf R →
  deref r (RemoveIdleRooms idleMs R n).1.2
  = match deref r R with
    | Some g => if decide (m_emptySinceMs g > 0
                           ∧ steady_ms (n_steady n) - m_emptySinceMs g > idleMs)
                then None else Some g
    | None => None
    end.
Proof.
  intros HR. unfold RemoveIdleRooms, deref. simpl. pose proof (rm_addrs _ HR) as Hnd. clear HR.
  induction (m_rooms R) as [|[name [a g]] l IH]; [done|]. simpl in Hnd.
  apply NoDup_cons in Hnd as [Ha Hnd]. rewrite filter_cons.
  destruct (decide (a = r)) as [->|Har].
  - assert (Hout : um_find r (map snd l) = None) by (by apply um_find_None).
    destruct (decide (¬ _)) as [Hi|Hi]; simpl;
      rewrite ?(decide_True (P := r = r)) by done.
    + by rewrite decide_False by exact Hi.
    + apply dec_stable in Hi. rewrite decide_True by exact Hi. by rewrite IH, Hout.
  - destruct (decide (¬ _)); simpl;
      rewrite ?(decide_False (P := a = r)) by done; by apply IH.
Qed.

Lemma RemoveIdleRooms_wf idleMs R n : rm_wf R → rm_wf (RemoveIdleRooms idleMs R n).1.2.
Proof.
  intros HR. pose proof (RemoveIdleRooms_deref idleMs R n) as Hd.
  destruct HR as [H1 H2 H3 H4]. unfold RemoveIdleRooms in *. simpl in *.
  assert (Hsub : ∀ (l : list (string * (nat * GameRoom))) P `{∀ x, Decision (P x)},
    map snd (filter P l) `sublist_of` map snd l) by (intros; apply fmap_sublist, sublist_filter).
  split; simpl.
  - unfold um_keys. eapply sublist_NoDup; [exact H1|]. apply fmap_sublist, sublist_filter.
  - unfold um_keys. eapply sublist_NoDup; [exact H2|]. apply fmap_sublist, Hsub.
  - intros r Hr. apply H3. unfold um_keys in *.
    eapply elem_of_sublist; [exact Hr|]. apply fmap_sublist, Hsub.
  - intros r g Hg. specialize (Hd r ltac:(by split)). rewrite Hd in Hg.
    destruct (deref r R) as [x|] eqn:Ex; [|done]. case_decide; simplify_eq. by eapply H4.
Qed.

Lemma RemoveIdleRooms_linked idleMs R n :
  rm_wf R → linked R n → linked (RemoveIdleRooms idleMs R n).1.2 (RemoveIdleRooms idleMs R n).2.
Proof.
  intros HR Hl s r Hr. destruct (Hl s r Hr) as (g & Hg & Hs).
  rewrite RemoveIdleRooms_deref by done. rewrite Hg. case_decide as Hi; [|by eauto].
  exfalso. assert (Hm : m_members g = []).
  { apply (rw_empty _ (rm_room _ HR _ _ Hg)). lia. }
  rewrite Hm in Hs. by apply elem_of_nil in Hs.
Qed.

Lemma RemoveIdleRooms_refs P idleMs R n :
  rm_wf R → rooms_refs P R → rooms_refs P (RemoveIdleRooms idleMs R n).1.2.
Proof.
  intros HR HP r g. rewrite RemoveIdleRooms_deref by done.
  destruct (deref r R) eqn:E; [|done]. case_decide; [done|]. intros [= <-]. by eapply HP.
Qed.

Lemma GetOrCreate_deref max name R :
  rm_wf R →
  let '(r, R') := GetOrCreate max name R in
  rm_wf R' ∧ is_Some (deref r R') ∧ (∀ a g, deref a R = Some g → deref a R' = Some g)
  ∧ ∀ P, rooms_refs P R → rooms_refs P R'.
Proof.
  intros HR. unfold GetOrCreate. destruct (um_find name (m_rooms R)) as [[r g]|] eqn:E.
  - split_and!; [done| |done..]. apply deref_member.
    apply um_find_Some in E; [|apply HR]. apply list_elem_of_fmap. by exists (name, (r, g)).
  - assert (Hnew : next_room R ∉ um_keys (map snd (m_rooms R))) by (intros Hin%(rm_next _ HR); lia).
    set (e := (next_room R, GameRoom_new name max)).
    assert (Hp : m_rooms {| m_rooms := um_emplace name e (m_rooms R); next_room := S (next_room R) |}
                 ≡ₚ (name, e) :: m_rooms R).
    { simpl. unfold um_emplace. rewrite E. apply place_perm. }
    set (R' := {| m_rooms := _ |}) in *.
    assert (Hk : um_keys (map snd (m_rooms R')) ≡ₚ next_room R :: um_keys (map snd (m_rooms R))).
    { unfold um_keys. by rewrite Hp. }
    assert (Hnd : NoDup (um_keys (map snd (m_rooms R')))).
    { rewrite Hk. constructor; [done|apply HR]. }
    assert (Hd : ∀ a, deref a R' = if decide (next_room R = a)
                                   then Some (GameRoom_new name max) else deref a R).
    { intros a. unfold deref. rewrite (um_find_perm a _ (map snd ((name, e) :: m_rooms R)))
        by (done || by rewrite Hp). done. }
    split_and!.
    + split.
      * unfold um_keys. rewrite Hp. constructor; [by apply um_find_None|apply HR].
      * done.
      * intros r. rewrite Hk. simpl. intros [->|Hr%(rm_next _ HR)]%elem_of_cons; lia.
      * intros r g. rewrite Hd. case_decide; [|apply HR]. intros [= <-]. apply room_wf_new.
    + rewrite Hd, decide_True by done. by eexists.
    + intros a g Ha. rewrite Hd, decide_False; [done|]. intros <-. apply Hnew.
      apply dec_stable. intros Hn%um_find_None. unfold deref in Ha. congruence.
    + intros P HP a g. rewrite Hd. case_decide; [|apply HP]. intros [= <-].
      split; simpl; intros ? *; by intros ?%elem_of_nil.
Qed.

(** What holds of a new room and of every old one holds of all of them. *)
Lemma GetOrCreate_all (Q : GameRoom → Prop) max name R :
  rm_wf R → Q (GameRoom_new name max) → (∀ r g, deref r R = Some g → Q g) →
  ∀ r g, deref r (GetOrCreate max name R).2 = Some g → Q g.
Proof.
  intros HR Hnew Hold r g. pose proof (GetOrCreate_deref max name R HR) as Hd. revert Hd.
  unfold GetOrCreate. destruct (um_find name (m_rooms R)) as [[r0 g0]|] eqn:E; [intros _; apply Hold|].
  intros (HR' & _). simpl. intros Hg. apply um_find_Some in Hg; [|apply HR'].
  apply list_elem_of_fmap in Hg as ([nm e] & He & Hin). simpl in *. subst e. unfold um_emplace in Hin.
  rewrite E in Hin. apply elem_of_place in Hin as [[= -> -> ->]|Hin]; [done|].
  apply (Hold r). apply um_find_Some; [apply HR|]. apply list_elem_of_fmap. by exists (nm, (r, g)).
Qed.

Lemma FindReconnect_alive a R r : FindReconnect a R = Some r → is_Some (deref r R).
Proof.
  unfold FindReconnect. destruct (head _) as [e|] eqn:E; [|done]. intros [= <-].
  apply deref_member. apply list_elem_of_fmap. exists e. split; [done|].
  destruct (filter _ _) as [|x l] eqn:Ef; [done|]. injection E as ->.
  assert (Hin : e ∈ e :: l) by set_solver. rewrite <- Ef in Hin.
  by apply list_elem_of_filter in Hin as [_ ?].
Qed.

(** ** Properties *)

(** A tick of all rooms never touches a destroyed room, and leaves the
    registry, the rooms and the links between sessions and rooms intact. *)
Theorem TickAll_safe w R n :
  rm_wf R → linked R n → net_wf n →
  ∃ R' n', TickAll w R n = Some (R', n') ∧ rm_wf R' ∧ linked R' n' ∧ net_wf n'
    ∧ um_keys (m_rooms R') = um_keys (m_rooms R).
Proof.
  intros HR Hl Hn. destruct (tick_rooms_ok w (map (λ e, e.2.1) (m_rooms R)) R n)
    as (R' & n' & E & H1 & H2 & H3 & _ & H5 & _); [done..|intros r; apply deref_member|].
  exists R', n'. by split_and!.
Qed.

(** C37. The collection of idle rooms destroys exactly the rooms that have been
    empty for more than [idleMs], none of which has a member; so no session is
    left with a pointer to a destroyed room. *)
Theorem RemoveIdleRooms_safe idleMs R n :
  rm_wf R → linked R n →
  let '(removed, R', n') := RemoveIdleRooms idleMs R n in
  rm_wf R' ∧ linked R' n'
  ∧ removed = Z.of_nat (length (m_rooms R)) - Z.of_nat (length (m_rooms R'))
  ∧ ∀ r g, deref r R = Some g →
      deref r R' = None ∧ m_members g = [] ∧ m_emptySinceMs g > 0
        ∧ steady_ms (n_steady n) - m_emptySinceMs g > idleMs
      ∨ deref r R' = Some g
        ∧ ¬ (m_emptySinceMs g > 0 ∧ steady_ms (n_steady n) - m_emptySinceMs g > idleMs).
Proof.
  intros HR Hl. pose proof (RemoveIdleRooms_wf idleMs R n HR) as H1.
  pose proof (RemoveIdleRooms_linked idleMs R n HR Hl) as H2.
  pose proof (RemoveIdleRooms_deref idleMs R n) as H3.
  destruct (RemoveIdleRooms idleMs R n) as [[removed R'] n'] eqn:E.
  simpl in *. split_and!; [done..| |].
  - unfold RemoveIdleRooms in E. injection E as <- <- <-. simpl.
    generalize (m_rooms R). intros l. induction l as [|e l IH]; [done|].
    rewrite !filter_cons. destruct (decide (is_idle _ _ e)); simpl.
    + rewrite decide_False by tauto. lia.
    + rewrite decide_True by tauto. simpl. lia.
  - intros r g Hg. rewrite (H3 r HR), Hg. case_decide as Hi; [left|by right].
    split_and!; [done| |tauto..]. apply (rw_empty _ (rm_room _ HR _ _ Hg)). lia.
Qed.
End room_manager.

(** ** Witnesses *)

(** A lobby with two players, and a room empty since 100 ms. *)
Definition demo_rooms : RoomManager :=
  {| m_rooms := [("lobby"%string, (0%nat, demo_lobby));
                 ("old"%string, (1%nat, set_emptySince 100 (GameRoom_new "old" 16)))];
     next_room := 2 |}.

Lemma demo_rooms_wf : rm_wf demo_rooms.
Proof.
  split; simpl; [compute_done..| |].
  - intros r Hr. repeat (apply elem_of_cons in Hr as [->|Hr]; [lia|]). by apply elem_of_nil in Hr.
  - intros r g. unfold deref. simpl. case_decide; [intros [= <-]; apply demo_lobby_wf|].
    case_decide; [|done]. intros [= <-]. solve_room_wf.
Qed.

Lemma demo_rooms_linked : linked demo_rooms demo_players.
Proof.
  intros s r. unfold demo_players. rewrite !sess_upd_dec.
  case_decide; [|case_decide]; subst; [intros [= <-]; exists demo_lobby; (split; [done|]); simpl; set_solver..|done].
Qed.

(** The first clock reading is 1000 ms: with a limit of 500 ms the old room goes. *)
Lemma RemoveIdleRooms_safe_witness :
  um_keys (m_rooms (RemoveIdleRooms 500 demo_rooms demo_players).1.2) = ["lobby"%string]
  ∧ deref 1 (RemoveIdleRooms 500 demo_rooms demo_players).1.2 = None.
Proof.
  split; [vm_compute; reflexivity|].
  pose proof (RemoveIdleRooms_safe 500 demo_rooms demo_players demo_rooms_wf demo_rooms_linked) as H.
  cbn [RemoveIdleRooms NowMs fst snd] in H. destruct H as (_ & _ & _ & H).
  destruct (H 1%nat (set_emptySince 100 (GameRoom_new "old" 16)) eq_refl) as [H'|[_ H']].
  - apply H'.
  - exfalso. apply H'. split; vm_compute; congruence.
Defined.
