(* ===== verification/Logic.v ===== *)
(** * The packet handlers

    Models [Packet/Logic/Logic.cpp].  [World] is what the handlers share: the
    sessions and the network, the rooms, the session registry, the validation
    requests waiting in [AuthService], and the configuration.  Each handler is
    one atomic action; [None] means an access to a destroyed room. *)
From S2P Require Import Prelude Bytes Strings Platform Packet RecvBuffer Protobuf PbRuntimeDemo PacketPb Session PacketTraits Config GameRoom PacketManager SessionManager RoomManager.
Local Open Scope Z_scope.

Record World := mkWorld {
  net : Net;
  rooms : RoomManager;
  smgr : SessionManager;
  (** The queued [ValidateAsync] calls: the token, and the session the callback
      captures. *)
  auth : list (string * nat);
  cfg : ServerConfig }.

Definition with_net (n : Net) (w : World) : World :=
  mkWorld n (rooms w) (smgr w) (auth w) (cfg w).
Definition with_rooms (R : RoomManager) (w : World) : World :=
  mkWorld (net w) R (smgr w) (auth w) (cfg w).
Definition with_smgr (m : SessionManager) (w : World) : World :=
  mkWorld (net w) (rooms w) m (auth w) (cfg w).
Definition with_auth (l : list (string * nat)) (w : World) : World :=
  mkWorld (net w) (rooms w) (smgr w) l (cfg w).

Section logic.
Context `{Platform, PbRuntime}.
Implicit Types (w : World) (s : nat) (payload : list byte).

Definition push_job (r : nat) (job : RoomJob) w : option World :=
  R ← room_PushJob r job (rooms w); Some (with_rooms R w).

Definition reply `{Message M, PacketTraits M} s (message : M) w : World :=
  with_net (Send s message (net w)).2 w.

Definition login_result (success : bool) (message : string) : Pb_S_LOGIN :=
  S_LOGIN_set_message message (S_LOGIN_set_success success S_LOGIN_SharedCtor).

Definition Handle_C_LOGIN s payload w : option World :=
  match ParseFromArray payload : option Pb_C_LOGIN with
  | None => Some w
  | Some pkt =>
      let token := C_LOGIN_password pkt in
      if decide (token = "") then
        Some (reply s (login_result false
          "session_token이 비어 있습니다. 먼저 session-server에 로그인하세요.") w)
      else Some (with_auth (auth w ++ [(token, s)]) w)
  end.

(** The callback passed to [ValidateAsync]. *)
Definition login_callback s (valid : bool) (accountId : string) w : option World :=
  if valid then
    let w := with_net (upd_session s (SetAccountId accountId) (net w)) w in
    match FindReconnect accountId (rooms w) with
    | Some reconnectRoom =>
        w ← push_job reconnectRoom (JRejoin s) w;
        Some (reply s (login_result true "reconnected") w)
    | None => Some (reply s (login_result true "Login OK.") w)
    end
  else Some (reply s (login_result false "유효하지 않은 session_token입니다.") w).

Definition Handle_C_CHAT s payload w : option World :=
  match ParseFromArray payload : option Pb_C_CHAT with
  | None => Some w
  | Some pkt =>
      match GetRoom s (net w) with
      | None => Some w
      | Some room =>
          let sender := GetAccountId s (net w) in
          let message := C_CHAT_message pkt in
          push_job room (JChat sender message) w
      end
  end.

Definition Handle_C_ROOM_ENTER s payload w : option World :=
  match ParseFromArray payload : option Pb_C_ROOM_ENTER with
  | None => Some w
  | Some pkt =>
      if decide (GetAccountId s (net w) = "") then
        Some (reply s (enter_ack false "로그인 후 입장해주세요.") w)
      else
        w ← match GetRoom s (net w) with
            | Some prev => push_job prev (JLeave s) w
            | None => Some w
            end;
        let '(room, R) := GetOrCreate (maxRoomPlayers (cfg w)) (C_ROOM_ENTER_room_name pkt)
                            (rooms w) in
        push_job room (JEnter s) (with_rooms R w)
  end.

Definition Handle_C_ROOM_LEAVE s (payload : list byte) w : option World :=
  match GetRoom s (net w) with
  | None => Some (reply s (S_ROOM_LEAVE_set_success false S_ROOM_LEAVE_SharedCtor) w)
  | Some room => push_job room (JLeaveAck s) w
  end.

Definition Handle_C_MOVE s payload w : option World :=
  match ParseFromArray payload : option Pb_C_MOVE with
  | None => Some w
  | Some pkt =>
      match GetRoom s (net w) with
      | None => Some w
      | Some room =>
          push_job room (JMove (GetAccountId s (net w)) (C_MOVE_x pkt) (C_MOVE_y pkt)) w
      end
  end.

Definition pong_data (clientTs : list byte) (serverTs : Z) : list byte :=
  clientTs ++ le_bytes 8 (u64 serverTs).

Definition Handle_C_PING s payload w : option World :=
  if decide (Z.of_nat (length payload) < 8) then Some w
  else
    let clientTs := mem_read 0 8 payload in
    let '(now, n) := UnixTimeMsNow (net w) in
    Some (with_net (SendRaw s (PacketID_val S_PONG) (Some (pong_data clientTs now)) 16 n).2 w).

Definition room_info_bytes (r : RoomInfo) : list byte :=
  u16_bytes (u16 (Z.of_nat (length (str_bytes (ri_name r))))) ++ str_bytes (ri_name r)
  ++ u16_bytes (u16 (ri_playerCount r)) ++ u16_bytes (u16 (ri_maxPlayers r))
  ++ [byte_of_Z (RoomState_val (ri_state r))].

Definition room_list_data (l : list RoomInfo) : list byte :=
  u16_bytes (u16 (Z.of_nat (length l))) ++ concat (map room_info_bytes l).

Definition Handle_C_ROOM_LIST s (payload : list byte) w : option World :=
  let data := room_list_data (GetRoomInfoList (rooms w)) in
  Some (with_net (SendRaw s (PacketID_val S_ROOM_LIST) (Some data)
                    (Z.of_nat (length data)) (net w)).2 w).

Definition Handle_C_READY s (payload : list byte) w : option World :=
  if decide (GetAccountId s (net w) = "") then Some w
  else
    match GetRoom s (net w) with
    | None => Some w
    | Some room => push_job room (JReady (GetAccountId s (net w))) w
    end.

Definition RegisterHandlers (pm : PacketManager World) : PacketManager World :=
  let pm := RegisterHandler (PacketID_val C_LOGIN) Handle_C_LOGIN pm in
  let pm := RegisterHandler (PacketID_val C_CHAT) Handle_C_CHAT pm in
  let pm := RegisterHandler (PacketID_val C_ROOM_ENTER) Handle_C_ROOM_ENTER pm in
  let pm := RegisterHandler (PacketID_val C_ROOM_LEAVE) Handle_C_ROOM_LEAVE pm in
  let pm := RegisterHandler (PacketID_val C_MOVE) Handle_C_MOVE pm in
  let pm := RegisterHandler (PacketID_val C_PING) Handle_C_PING pm in
  let pm := RegisterHandler (PacketID_val C_ROOM_LIST) Handle_C_ROOM_LIST pm in
  RegisterHandler (PacketID_val C_READY) Handle_C_READY pm.

(** ** What every handler keeps *)

Record world_wf w : Prop := {
  ww_rooms : rm_wf (rooms w);
  ww_linked : linked (rooms w) (net w);
  ww_net : net_wf (net w);
  ww_smgr : sm_wf (smgr w) }.

(** The sessions that anything refers to are in [P]: the rooms, the validations,
    and the outstanding operations of the kernel. *)
Record refs (P : nat → Prop) w : Prop := {
  rf_rooms : rooms_refs P (rooms w);
  rf_auth : ∀ token s, (token, s) ∈ auth w → P s;
  rf_recv : ∀ s, s ∈ rx_pending (net w) → P s;
  rf_send : ∀ a, a ∈ inflight (net w) →
              ∃ s, P s ∧ ctx_session (ctx_at a (net w)) = Some s }.

Definition handlers : PacketManager World := RegisterHandlers ∅.

(** The frame of the handlers: they [play], leave the registry of sessions and
    the configuration alone, and refer and send to sessions in [P] only. *)
Record handles (P : nat → Prop) w w' : Prop := {
  hs_plays : plays (net w) (net w');
  hs_smgr : smgr w' = smgr w;
  hs_cfg : cfg w' = cfg w;
  hs_posts : posts P (net w) (net w');
  hs_rooms : rooms_refs P (rooms w) → rooms_refs P (rooms w');
  hs_auth : (∀ token s, (token, s) ∈ auth w → P s) → ∀ token s, (token, s) ∈ auth w' → P s }.

#[export] Instance handles_preorder P : PreOrder (handles P).
Proof.
  split; [by intros w; split|].
  intros w1 w2 w3 [] []. split; [by etrans|congruence|congruence|by etrans|..].
  - intros HR. by apply hs_rooms1, hs_rooms0.
  - intros Ha. by apply hs_auth1, hs_auth0.
Qed.

Lemma posts_send (P : nat → Prop) n n' :
  posts P n n' →
  (∀ a, a ∈ inflight n → ∃ s, P s ∧ ctx_session (ctx_at a n) = Some s) →
  ∀ a, a ∈ inflight n' → ∃ s, P s ∧ ctx_session (ctx_at a n') = Some s.
Proof.
  intros [H1 H2] Hn a [Ha|?]%H2; [|done]. destruct (H1 a Ha) as [_ ->]. auto.
Qed.

Lemma handles_refs P w w' : handles P w w' → refs P w → refs P w'.
Proof.
  intros [] []. split; [by apply hs_rooms0|by apply hs_auth0| |by eapply posts_send].
  by rewrite (plays_recv _ _ hs_plays0).
Qed.

(** A safe action: it does not fail, and keeps the invariant. *)
Definition safe (P : nat → Prop) w (o : option World) : Prop :=
  ∃ w', o = Some w' ∧ world_wf w' ∧ handles P w w'.

Section handlers.
Context (P : nat → Prop).

Lemma safe_ret w w' : world_wf w' → handles P w w' → safe P w (Some w').
Proof. intros. by exists w'. Qed.

Lemma safe_same w : world_wf w → safe P w (Some w).
Proof. intros. by apply safe_ret. Qed.

Lemma safe_bind w o f :
  safe P w o → (∀ w', handles P w w' → world_wf w' → safe P w' (f w')) → safe P w (o ≫= f).
Proof.
  intros (w1 & -> & Hw1 & Hh1) Hf. simpl. destruct (Hf w1) as (w2 & E & Hw2 & Hh2); [done..|].
  exists w2. split_and!; [done..|by etrans].
Qed.

Lemma linked_sends R n n' : sends n n' → linked R n → linked R n'.
Proof. intros Hs Hl s r. rewrite (sends_room Hs). apply Hl. Qed.

Lemma with_net_ok w n :
  sends (net w) n → posts P (net w) n → net_wf n → world_wf w → world_wf (with_net n w) ∧ handles P w (with_net n w).
Proof.
  intros Hs Hp Hn []. split; split; simpl; eauto using linked_sends, sends_plays.
Qed.

Lemma reply_ok `{Message M, PacketTraits M} s (m : M) w :
  P s → world_wf w → world_wf (reply s m w) ∧ handles P w (reply s m w).
Proof.
  intros Hs Hw.
  apply with_net_ok; [apply Send_sends|by apply Send_posts, Hw|apply SendInternal_wf, Hw|done].
Qed.

Lemma safe_reply `{Message M, PacketTraits M} s (m : M) w :
  P s → world_wf w → safe P w (Some (reply s m w)).
Proof. intros Hs Hw. by apply safe_ret; apply reply_ok. Qed.

Lemma safe_push_job s r j w :
  P s → job_session j = None ∨ job_session j = Some s → world_wf w →
  is_Some (deref r (rooms w)) → safe P w (push_job r j w).
Proof.
  intros Hs Hor [] Hr.
  assert (Hj : ∀ t, job_session j = Some t → P t) by (destruct Hor; naive_solver congruence).
  unfold push_job. destruct (room_PushJob_wf r j (rooms w)) as (R' & E & HR'); [done..|].
  rewrite E. simpl. apply safe_ret; [|by split; eauto using room_PushJob_refs].
  split; simpl; eauto using room_PushJob_linked.
Qed.

(** A session's room exists. *)
Lemma GetRoom_alive s r w : world_wf w → GetRoom s (net w) = Some r → is_Some (deref r (rooms w)).
Proof. intros [_ Hl _ _] Hr. destruct (Hl s r Hr) as (g & -> & _). by eexists. Qed.

#[local] Hint Resolve safe_same safe_reply safe_push_job GetRoom_alive : server.

Lemma Handle_C_LOGIN_safe s d w : P s → world_wf w → safe P w (Handle_C_LOGIN s d w).
Proof.
  intros Hs Hw. unfold Handle_C_LOGIN. destruct (ParseFromArray d); [|by apply safe_same].
  case_decide; [by apply safe_reply|]. destruct Hw. apply safe_ret; split; try done.
  simpl. intros Ha token t. rewrite elem_of_app, list_elem_of_singleton.
  intros [Hin|[= -> ->]]; eauto.
Qed.

Lemma Handle_C_CHAT_safe s d w : P s → world_wf w → safe P w (Handle_C_CHAT s d w).
Proof.
  intros Hs Hw. unfold Handle_C_CHAT. destruct (ParseFromArray d); [|by apply safe_same].
  destruct (GetRoom s (net w)) eqn:E; eauto with server.
Qed.

Lemma Handle_C_ROOM_ENTER_safe s d w : P s → world_wf w → safe P w (Handle_C_ROOM_ENTER s d w).
Proof.
  intros Hs Hw. unfold Handle_C_ROOM_ENTER. destruct (ParseFromArray d) as [pkt|]; [|by apply safe_same].
  case_decide; [by apply safe_reply|]. apply safe_bind.
  { destruct (GetRoom s (net w)) eqn:E; eauto with server. }
  intros w1 Hh Hw1.
  pose proof (GetOrCreate_deref (maxRoomPlayers (cfg w1)) (C_ROOM_ENTER_room_name pkt)
    (rooms w1) (ww_rooms _ Hw1)) as Hg.
  destruct (GetOrCreate _ _ _) as [r R]. destruct Hg as (HR & Hr & Hext & Hrefs).
  assert (Hw2 : world_wf (with_rooms R w1)).
  { destruct Hw1 as [_ Hl Hn Hm]. split; simpl; try done. intros t a Ht.
    destruct (Hl t a Ht) as (g & Hg & Hin). eauto. }
  destruct (safe_push_job s r (JEnter s) (with_rooms R w1)) as (w2 & E & Hw3 & Hh3);
    [auto..|].
  exists w2. split_and!; [done..|]. etrans; [|exact Hh3]. by split; eauto.
Qed.

Lemma Handle_C_ROOM_LEAVE_safe s d w : P s → world_wf w → safe P w (Handle_C_ROOM_LEAVE s d w).
Proof.
  intros Hs Hw. unfold Handle_C_ROOM_LEAVE. destruct (GetRoom s (net w)) eqn:E; [|by apply safe_reply].
  eauto with server.
Qed.

Lemma Handle_C_MOVE_safe s d w : P s → world_wf w → safe P w (Handle_C_MOVE s d w).
Proof.
  intros Hs Hw. unfold Handle_C_MOVE. destruct (ParseFromArray d); [|by apply safe_same].
  destruct (GetRoom s (net w)) eqn:E; eauto with server.
Qed.

Lemma safe_raw s id data k n w :
  P s → world_wf w → plays (net w) n → posts P (net w) n → net_wf n → sessions n = sessions (net w) →
  safe P w (Some (with_net (SendRaw s id data k n).2 w)).
Proof.
  intros Ps [HR Hl Hn Hm] Hp Hpo Hn' Hs. apply safe_ret; split; simpl; try done.
  - eapply linked_sends; [apply SendRaw_sends|]. intros t r. unfold sess. rewrite Hs. apply Hl.
  - by apply SendRaw_wf.
  - etrans; [exact Hp|]. apply sends_plays, SendRaw_sends.
  - etrans; [exact Hpo|]. by apply SendRaw_posts.
Qed.

Lemma Handle_C_PING_safe s d w : P s → world_wf w → safe P w (Handle_C_PING s d w).
Proof.
  intros Hs Hw. unfold Handle_C_PING. case_decide; [by apply safe_same|]. simpl.
  apply safe_raw; [done|done|by split; simpl; try lia|by apply posts_same| |done]. by destruct Hw as [_ _ [] _].
Qed.

Lemma Handle_C_ROOM_LIST_safe s d w : P s → world_wf w → safe P w (Handle_C_ROOM_LIST s d w).
Proof. intros Hs Hw. by apply safe_raw; try apply Hw. Qed.

Lemma Handle_C_READY_safe s d w : P s → world_wf w → safe P w (Handle_C_READY s d w).
Proof.
  intros Hs Hw. unfold Handle_C_READY. case_decide; [by apply safe_same|].
  destruct (GetRoom s (net w)) eqn:E; eauto with server.
Qed.

Lemma handlers_safe : map_Forall (λ _ h, ∀ s d w, P s → world_wf w → safe P w (h s d w)) handlers.
Proof.
  unfold handlers, RegisterHandlers, RegisterHandler.
  repeat (refine (map_Forall_insert_2 _ _ _ _ _ _);
    [intros s d w; first [ apply Handle_C_READY_safe | apply Handle_C_ROOM_LIST_safe
       | apply Handle_C_PING_safe | apply Handle_C_MOVE_safe | apply Handle_C_ROOM_LEAVE_safe
       | apply Handle_C_ROOM_ENTER_safe | apply Handle_C_CHAT_safe | apply Handle_C_LOGIN_safe ]|]).
  refine (map_Forall_empty _).
Qed.

Lemma HandlePacket_safe s d w : P s → world_wf w → safe P w (HandlePacket handlers s d w).
Proof.
  intros Hs Hw. unfold HandlePacket. case_decide; [by apply safe_same|].
  destruct (handlers !! _) as [h|] eqn:E; [|by apply safe_same].
  by apply (handlers_safe _ _ E).
Qed.

(** The callback may also change the account of its session. *)
Lemma login_callback_safe s valid accountId w :
  P s → world_wf w → ∃ w', login_callback s valid accountId w = Some w' ∧ world_wf w'
    ∧ smgr w' = smgr w ∧ cfg w' = cfg w
    ∧ handles P (with_net (upd_session s (if valid then SetAccountId accountId else id) (net w)) w) w'.
Proof.
  intros Hs Hw. unfold login_callback. destruct valid.
  - set (w1 := with_net _ w). assert (Hw1 : world_wf w1).
    { destruct Hw as [HR Hl Hn Hm]. split; simpl; try done; [|by apply net_wf_upd].
      intros t r. rewrite sess_upd_dec. case_decide; subst; simpl; apply Hl. }
    change (rooms w) with (rooms w1).
    assert (Hsafe : safe P w1 (match FindReconnect accountId (rooms w1) with
      | Some r => w2 ← push_job r (JRejoin s) w1; Some (reply s (login_result true "reconnected") w2)
      | None => Some (reply s (login_result true "Login OK.") w1)
      end)).
    { destruct (FindReconnect accountId (rooms w1)) as [r|] eqn:E; [|by apply safe_reply].
      apply safe_bind; [apply (safe_push_job s); auto; by eapply FindReconnect_alive|].
      intros. by apply safe_reply. }
    destruct Hsafe as (w' & E & Hw' & Hh). exists w'.
    split_and!; [exact E|done|by rewrite (hs_smgr _ _ _ Hh)|by rewrite (hs_cfg _ _ _ Hh)|exact Hh].
  - destruct (reply_ok s (login_result false "유효하지 않은 session_token입니다.") w Hs Hw) as [H1 H2].
    eexists. split_and!; [done|done|apply H2|apply H2|].
    assert (Hid : ∀ t, sess t (upd_session s id (net w)) = sess t (net w)).
    { intros t. rewrite sess_upd_dec. by case_decide; subst. }
    etrans; [|exact H2]. split; simpl; try done.
    + split; try done; intros t; by rewrite Hid.
    + apply posts_closes; [done..|]. apply closes_same; [done|]. intros t _.
      unfold IsDisconnected. by rewrite Hid.
Qed.
End handlers.

(** ** Wire formats *)

(** Reading an [S_ROOM_LIST] back, as its documentation describes it. *)
Definition read_u16 (s : list byte) : option (Z * list byte) :=
  if decide (length s < 2)%nat then None else Some (le_val (take 2 s), drop 2 s).

Definition read_room_info (s : list byte) : option ((list byte * Z * Z * Z) * list byte) :=
  '(nameLen, s) ← read_u16 s;
  let name := take (Z.to_nat nameLen) s in
  '(playerCount, s) ← read_u16 (drop (Z.to_nat nameLen) s);
  '(maxPlayers, s) ← read_u16 s;
  match s with
  | st :: s => Some ((name, playerCount, maxPlayers, byte_val st), s)
  | [] => None
  end.

Fixpoint read_room_infos (n : nat) (s : list byte) : option (list (list byte * Z * Z * Z)) :=
  match n with
  | O => Some []
  | S n => '(r, s) ← read_room_info s; rs ← read_room_infos n s; Some (r :: rs)
  end.

Definition read_room_list (s : list byte) : option (list (list byte * Z * Z * Z)) :=
  '(count, s) ← read_u16 s; read_room_infos (Z.to_nat count) s.

(** What fits the format. *)
Record info_ok (r : RoomInfo) : Prop := {
  io_name : Z.of_nat (length (str_bytes (ri_name r))) < 65536;
  io_players : 0 ≤ ri_playerCount r < 65536;
  io_max : 0 ≤ ri_maxPlayers r < 65536 }.

Lemma read_u16_bytes v (s : list byte) : 0 ≤ v < 65536 → read_u16 (u16_bytes (u16 v) ++ s) = Some (v, s).
Proof.
  intros Hv. unfold read_u16, u16_bytes. rewrite u16_id by done.
  rewrite <- le_bytes_2_masks. rewrite decide_False by (rewrite length_app; simpl; lia).
  rewrite take_app_exact, drop_app_exact by done. rewrite le_val_bytes_small; [done|]. simpl. lia.
Qed.

Lemma read_room_info_bytes r (s : list byte) :
  info_ok r →
  read_room_info (room_info_bytes r ++ s)
  = Some ((str_bytes (ri_name r), ri_playerCount r, ri_maxPlayers r, RoomState_val (ri_state r)), s).
Proof.
  intros [Hn Hp Hm]. unfold read_room_info, room_info_bytes. rewrite <- !app_assoc.
  rewrite read_u16_bytes by lia. cbn [mbind option_bind].
  rewrite take_app_exact, drop_app_exact by lia.
  rewrite read_u16_bytes by done. cbn [mbind option_bind].
  rewrite read_u16_bytes by done. cbn [mbind option_bind app].
  rewrite byte_val_of_Z. by destruct (ri_state r).
Qed.

(** The room list a client receives can be read back: in the layout that
    [Logic.cpp] writes it gives, for every room, its name, number of players,
    capacity and state. *)
Theorem room_list_roundtrip l :
  Forall info_ok l → Z.of_nat (length l) < 65536 →
  read_room_list (room_list_data l)
  = Some (map (λ r, (str_bytes (ri_name r), ri_playerCount r, ri_maxPlayers r,
                     RoomState_val (ri_state r))) l).
Proof.
  intros Hl Hlen. unfold read_room_list, room_list_data.
  rewrite read_u16_bytes by lia. cbn [mbind option_bind]. rewrite Nat2Z.id. clear Hlen.
  induction Hl as [|r l Hr Hl IH]; [done|]. cbn [length concat map read_room_infos].
  rewrite read_room_info_bytes by done. cbn [mbind option_bind]. rewrite IH. done.
Qed.

(** A ping is answered by one [S_PONG] frame of 20 bytes that carries the
    client's timestamp unchanged and the server's clock; a shorter payload is
    ignored. *)
Theorem Handle_C_PING_echo s payload w :
  world_wf w → IsDisconnected s (net w) = false →
  if decide (Z.of_nat (length payload) < 8) then Handle_C_PING s payload w = Some w
  else
    ∃ w', Handle_C_PING s payload w = Some w'
      ∧ let ts := u64 (system_ms (n_system (net w))) in
        let frame := header_bytes {| packetSize := 16; packetId := 14 |}
                     ++ take 8 payload ++ le_bytes 8 ts in
        frames frame = ([frame], [])
        ∧ transmitted s frame (UnixTimeMsNow (net w)).2 (net w').
Proof.
  intros Hw Hd. unfold Handle_C_PING. case_decide as Hlen; [done|]. simpl.
  eexists. split; [done|]. unfold pong_data.
  change (mem_read 0 8 payload) with (take 8 (drop 0 payload)). rewrite drop_0.
  set (ts := u64 _). set (data := take 8 payload ++ le_bytes 8 ts).
  assert (Hdata : Z.of_nat (length data) = 16).
  { unfold data. rewrite length_app, length_take, length_le_bytes. lia. }
  pose proof (SendRaw_frame s 14 data (UnixTimeMsNow (net w)).2) as Hs. rewrite Hdata in Hs.
  cbn [snd UnixTimeMsNow] in *.
  destruct (SendRaw s 14 (Some data) 16 _) as [b n'].
  destruct Hs as (_ & _ & Ht & Hf); [by destruct Hw as [_ _ [] _]|lia|done|done|].
  by split.
Qed.
End logic.

Definition demo_world : World :=
  mkWorld demo_players demo_rooms SessionManager_new [] ServerConfig_default.

Lemma demo_world_wf : world_wf demo_world.
Proof.
  split; [apply demo_rooms_wf|apply demo_rooms_linked|apply demo_players_wf|apply sm_wf_new].
Qed.

