(* ===== verification/TrafficPolicy.v ===== *)
(** * The global connection policy

    Models the traffic policy in [Core/ServerCore.cpp]: the two JSON helpers,
    [ConsumeGlobalConnectionToken] and [RefreshTrafficPolicy].  [Policy] holds the
    atomics of [ServerCore] they use. *)
From Stdlib Require Import Ascii.
From S2P Require Import Prelude Strings AuthService.
Local Open Scope Z_scope.

(** ** JSON *)

(** What follows the key and the white space after it, if the key occurs. *)
Definition json_value (json key : string) : option string :=
  let marker := quoted key +:+ ":" in
  match str_find marker json with
  | None => None
  | Some pos => Some (skip_while isspace (str_drop (pos + String.length marker) json))
  end.

Definition int_step (value d : Z) : Z := i32 (i32 (value * 10) + d).

Definition TryParseJsonIntByKey (json key : string) : option Z :=
  match json_value json key with
  | None => None
  | Some s =>
      if decide (s = "" ∨ str_take 4 s = "null") then None
      else
        let '(neg, s) :=
          match s with
          | String c r => if decide (c = "-"%char) then (true, r) else (false, s)
          | EmptyString => (false, s)
          end in
        let '(value, hasDigit) := read_digits int_step 0 s in
        if hasDigit : bool then Some (if neg : bool then i32 (- value) else value) else None
  end.

Definition IsJsonNullByKey (json key : string) : bool :=
  match json_value json key with
  | None => false
  | Some s => bool_decide (s ≠ "" ∧ str_take 4 s = "null")
  end.

(** ** The policy *)

Record Policy := mkPolicy {
  m_policyMaxConnectionsPerMinuteTotal : Z;
  m_globalConnTokens : Z;
  m_globalConnLastRefillMs : Z;
  m_lastPolicyPullStatusCode : Z;
  m_lastPolicyPullUnixMs : Z }.

Definition Policy_new : Policy := mkPolicy 0 0 0 0 0.

Definition set_tokens (tokens last : Z) (p : Policy) : Policy :=
  mkPolicy (m_policyMaxConnectionsPerMinuteTotal p) tokens last
    (m_lastPolicyPullStatusCode p) (m_lastPolicyPullUnixMs p).
Definition set_max (v : Z) (p : Policy) : Policy :=
  mkPolicy v (m_globalConnTokens p) (m_globalConnLastRefillMs p)
    (m_lastPolicyPullStatusCode p) (m_lastPolicyPullUnixMs p).
Definition set_pull (status unixMs : Z) (p : Policy) : Policy :=
  mkPolicy (m_policyMaxConnectionsPerMinuteTotal p) (m_globalConnTokens p)
    (m_globalConnLastRefillMs p) status unixMs.

Definition refillWindowMs : Z := 60000.

(** [ConsumeGlobalConnectionToken]; [nowMs] is read only when there is a limit. *)
Definition ConsumeGlobalConnectionToken (nowMs : Z) (p : Policy) : bool * Policy :=
  let limitPerMinute := m_policyMaxConnectionsPerMinuteTotal p in
  if decide (limitPerMinute <= 0) then (true, p)
  else
    let last := m_globalConnLastRefillMs p in
    let p :=
      if decide (last = 0) then set_tokens limitPerMinute nowMs p
      else if decide (nowMs - last >= refillWindowMs) then set_tokens limitPerMinute nowMs p
      else p in
    let prev := m_globalConnTokens p in
    (bool_decide (prev > 0), set_tokens (i32 (prev - 1)) (m_globalConnLastRefillMs p) p).

(** [RefreshTrafficPolicy]: [resp] is the answer of the control plane, [t1] and
    [t2] the two readings of the clock. *)
Definition RefreshTrafficPolicy (gameServerApiKey : string) (resp : Response) (t1 t2 : Z)
    (p : Policy) : Policy :=
  if decide (gameServerApiKey = "") then p
  else
    let p := set_pull (statusCode resp) t1 p in
    if ok resp then
      let key := "maxConnectionsPerMinuteTotal" in
      match TryParseJsonIntByKey (body resp) key with
      | Some v =>
          if decide (v > 0) then set_tokens v t2 (set_max v p)
          else if IsJsonNullByKey (body resp) key then set_tokens 0 t2 (set_max 0 p) else p
      | None => if IsJsonNullByKey (body resp) key then set_tokens 0 t2 (set_max 0 p) else p
      end
    else p.

(** Whether an answer is applied, which reads the clock once more. *)
Definition policy_applies (resp : Response) : bool :=
  let key := "maxConnectionsPerMinuteTotal" in
  ok resp && (match TryParseJsonIntByKey (body resp) key with
              | Some v => bool_decide (v > 0) || IsJsonNullByKey (body resp) key
              | None => IsJsonNullByKey (body resp) key
              end).

(** ** Reading the policy *)

(** An answer of the control plane: the key somewhere in an object, preceded by
    text in which it does not occur. *)
Definition policy_body (pre spaces value post : string) : string :=
  pre +:+ quoted "maxConnectionsPerMinuteTotal" +:+ ":" +:+ spaces +:+ value +:+ post.

Lemma int_step_ok v d : 0 ≤ v → 0 ≤ d < 10 → v * 10 + d ≤ 2147483647 → int_step v d = v * 10 + d.
Proof. intros. unfold int_step. rewrite (i32_id (v * 10)) by lia. apply i32_id. lia. Qed.

Section reading.
Context (pre spaces post : string).
Let key : string := "maxConnectionsPerMinuteTotal".
Let marker : string := quoted key +:+ ":".

Lemma json_value_body value :
  str_find marker (policy_body pre spaces value post) = Some (String.length pre) →
  all_space spaces →
  json_value (policy_body pre spaces value post) key = Some (skip_while isspace (value +:+ post)).
Proof.
  intros Hf Hs. unfold json_value. fold marker. rewrite Hf.
  assert (E : policy_body pre spaces value post = (pre +:+ marker) +:+ (spaces +:+ value +:+ post)).
  { unfold policy_body, marker, key. by rewrite !str_app_assoc. }
  rewrite E. replace (String.length pre + String.length marker)%nat
    with (String.length (pre +:+ marker)) by apply str_length_app.
  rewrite str_drop_app. by rewrite skip_while_all.
Qed.

Lemma json_number value n :
  (∃ c r, value +:+ post = String c r ∧ isspace c = false ∧ c ≠ "n"%char) →
  str_find marker (policy_body pre spaces value post) = Some (String.length pre) →
  all_space spaces →
  (let '(neg, s) := match value +:+ post with
                    | String c r => if decide (c = "-"%char) then (true, r) else (false, value +:+ post)
                    | EmptyString => (false, value +:+ post)
                    end in
   read_digits int_step 0 s = (n, true) ∧ neg = false ∨ read_digits int_step 0 s = (- n, true) ∧ neg = true) →
  (- 2147483648 < n < 2147483648) →
  TryParseJsonIntByKey (policy_body pre spaces value post) key = Some n
  ∧ IsJsonNullByKey (policy_body pre spaces value post) key = false.
Proof.
  intros (c & r & E & Hsp & Hnull) Hf Hs Hn Hr. unfold TryParseJsonIntByKey, IsJsonNullByKey.
  rewrite json_value_body by done. rewrite E in *. cbn [skip_while]. rewrite Hsp.
  rewrite decide_False by (intros [?|Hs4]; [done|simpl in Hs4; congruence]).
  rewrite bool_decide_eq_false_2 by (intros [_ Hs4]; simpl in Hs4; congruence).
  split; [|done]. case_decide; destruct Hn as [[-> Hneg]|[-> Hneg]]; try done.
  rewrite Z.opp_involutive. by rewrite i32_id by lia.
Qed.

Lemma json_int (n : N) :
  str_find marker (policy_body pre spaces (pretty n) post) = Some (String.length pre) →
  all_space spaces → no_digit post → Z.of_N n ≤ 2147483647 →
  TryParseJsonIntByKey (policy_body pre spaces (pretty n) post) key = Some (Z.of_N n)
  ∧ IsJsonNullByKey (policy_body pre spaces (pretty n) post) key = false.
Proof.
  intros Hf Hs Hp Hn. destruct (pretty_N_no_sign n post) as (c & r & E & Hc).
  assert (isspace c = false ∧ c ≠ "-"%char ∧ c ≠ "n"%char) as (Hsp & Hm & Hnull).
  { unfold isspace. apply bool_decide_eq_true in Hc as Hv.
    split_and!; [apply bool_decide_eq_false; lia|by intros ->|by intros ->]. }
  apply json_number; [by exists c, r|done|done| |lia].
  rewrite E, decide_False, <- E by done. left. split; [|done].
  apply (read_pretty int_step 2147483647); try done. apply int_step_ok.
Qed.

Lemma json_negative (n : N) :
  str_find marker (policy_body pre spaces (String "-" (pretty n)) post) = Some (String.length pre) →
  all_space spaces → no_digit post → Z.of_N n ≤ 2147483647 →
  TryParseJsonIntByKey (policy_body pre spaces (String "-" (pretty n)) post) key = Some (- Z.of_N n)
  ∧ IsJsonNullByKey (policy_body pre spaces (String "-" (pretty n)) post) key = false.
Proof.
  intros Hf Hs Hp Hn. apply json_number; [by eexists _, _|done|done| |lia].
  rewrite str_app_cons, decide_True by done. right. split; [|done]. rewrite Z.opp_involutive.
  apply (read_pretty int_step 2147483647); try done. apply int_step_ok.
Qed.

Lemma json_null :
  str_find marker (policy_body pre spaces "null" post) = Some (String.length pre) →
  all_space spaces →
  TryParseJsonIntByKey (policy_body pre spaces "null" post) key = None
  ∧ IsJsonNullByKey (policy_body pre spaces "null" post) key = true.
Proof.
  intros Hf Hs. pose proof (json_value_body "null" Hf Hs) as Hv.
  assert (Hj : skip_while isspace ("null" +:+ post) = "null" +:+ post) by done.
  unfold TryParseJsonIntByKey, IsJsonNullByKey. rewrite Hv, Hj.
  rewrite decide_True by (by right). by rewrite bool_decide_true.
Qed.

(** Neither a number nor [null]. *)
Definition no_value (text : string) : Prop :=
  no_digit text ∧ str_take 4 text ≠ "null" ∧ skip_while isspace text = text
  ∧ match text with String c r => c = "-"%char → no_digit r | EmptyString => True end.

Lemma json_other text :
  post = "" → no_value text →
  str_find marker (policy_body pre spaces text post) = Some (String.length pre) →
  all_space spaces →
  TryParseJsonIntByKey (policy_body pre spaces text post) key = None
  ∧ IsJsonNullByKey (policy_body pre spaces text post) key = false.
Proof.
  intros Hp (Hd & Hnull & Hsk & Hm) Hf Hs.
  pose proof (json_value_body text Hf Hs) as Hv. rewrite Hp, str_app_nil_r, Hsk in Hv.
  unfold TryParseJsonIntByKey, IsJsonNullByKey. rewrite Hp in *. rewrite Hv.
  rewrite bool_decide_eq_false_2 by (by intros [_ ?]). split; [|done].
  case_decide; [done|]. destruct text as [|c r]; [done|].
  destruct (decide (c = "-"%char)); by rewrite read_digits_stop by auto.
Qed.
End reading.

(** What the text of an answer announces: a number as the value of the key, in
    the range of [int]; [null]; or nothing that is recognised. *)
Inductive Announcement := Limit (n : N) | Unlimited | Nothing.

Definition key_found (pre text : string) : Prop :=
  str_find (quoted "maxConnectionsPerMinuteTotal" +:+ ":") text = Some (String.length pre).

Inductive announces : string → Announcement → Prop :=
  | an_number pre spaces post (n : N) :
      key_found pre (policy_body pre spaces (pretty n) post) → all_space spaces → no_digit post →
      Z.of_N n ≤ 2147483647 →
      announces (policy_body pre spaces (pretty n) post) (if decide (n = 0%N) then Nothing else Limit n)
  | an_negative pre spaces post (n : N) :
      key_found pre (policy_body pre spaces (String "-" (pretty n)) post) → all_space spaces →
      no_digit post → Z.of_N n ≤ 2147483647 →
      announces (policy_body pre spaces (String "-" (pretty n)) post) Nothing
  | an_null pre spaces post :
      key_found pre (policy_body pre spaces "null" post) → all_space spaces →
      announces (policy_body pre spaces "null" post) Unlimited
  | an_other pre spaces text :
      key_found pre (policy_body pre spaces text "") → all_space spaces → no_value text →
      announces (policy_body pre spaces text "") Nothing
  | an_absent text :
      str_find (quoted "maxConnectionsPerMinuteTotal" +:+ ":") text = None → announces text Nothing.

(** C38. A policy pulled from the control plane takes effect as it is announced, and
    nothing else changes.  Without an API key nothing happens.  A pull records its
    status and its time; if it fails that is all.  A positive number becomes the
    limit, and the bucket is filled with as many tokens and starts a new window;
    [null] lifts the limit, empties the bucket and starts a new window; zero, a
    negative number, another value or an answer without the key leave limit and
    bucket alone.  White space before the value does not matter.  The bucket is
    filled by every pull that announces a limit, not only by one that changes it. *)
Theorem RefreshTrafficPolicy_applies apiKey resp t1 t2 p :
  let p' := RefreshTrafficPolicy apiKey resp t1 t2 p in
  (apiKey = "" → p' = p)
  ∧ (apiKey ≠ "" → ok resp = false → p' = set_pull (statusCode resp) t1 p)
  ∧ (apiKey ≠ "" → ok resp = true → ∀ a, announces (body resp) a →
     p' = match a with
          | Limit n => mkPolicy (Z.of_N n) (Z.of_N n) t2 (statusCode resp) t1
          | Unlimited => mkPolicy 0 0 t2 (statusCode resp) t1
          | Nothing => set_pull (statusCode resp) t1 p
          end).
Proof.
  unfold RefreshTrafficPolicy. split_and!.
  - intros ->. done.
  - intros Hk ->. by rewrite decide_False.
  - intros Hk -> a Ha. rewrite decide_False by done.
    remember (body resp) as text eqn:E. clear E.
    destruct Ha as [pre spaces post n Hf Hs Hp Hn|pre spaces post n Hf Hs Hp Hn|pre spaces post Hf Hs
                   |pre spaces text Hf Hs Hv|text Hf].
    + destruct (json_int pre spaces post n Hf Hs Hp Hn) as [-> ->].
      destruct (decide (n = 0%N)) as [->|Hz]; [done|]. by rewrite decide_True by lia.
    + destruct (json_negative pre spaces post n Hf Hs Hp Hn) as [-> ->]. by rewrite decide_False by lia.
    + by destruct (json_null pre spaces post Hf Hs) as [-> ->].
    + by destruct (json_other pre spaces "" text eq_refl Hv Hf Hs) as [-> ->].
    + unfold TryParseJsonIntByKey, IsJsonNullByKey, json_value. by rewrite Hf.
Qed.

(** ** The connection limit *)

Fixpoint consume (nows : list Z) (p : Policy) : list bool * Policy :=
  match nows with
  | [] => ([], p)
  | now :: nows =>
      let '(r, p) := ConsumeGlobalConnectionToken now p in
      let '(rs, p) := consume nows p in (r :: rs, p)
  end.

Definition accepted (rs : list bool) : Z := Z.of_nat (length (filter Is_true rs)).

Lemma accepted_consume now nows p :
  accepted (consume (now :: nows) p).1
  = (if (ConsumeGlobalConnectionToken now p).1 then 1 else 0)
    + accepted (consume nows (ConsumeGlobalConnectionToken now p).2).1.
Proof.
  cbn [consume]. destruct (ConsumeGlobalConnectionToken now p) as [r p'].
  destruct (consume nows p') as [rs p''] eqn:E. cbn [fst snd]. rewrite E.
  unfold accepted. rewrite filter_cons. destruct r; simpl; lia.
Qed.

(** A bucket that has been filled, with [k] more attempts to come. *)
Record policy_ok (limit k : Z) (p : Policy) : Prop := {
  po_limit : m_policyMaxConnectionsPerMinuteTotal p = limit;
  po_low : - 1000000000 + k ≤ m_globalConnTokens p;
  po_high : m_globalConnTokens p ≤ limit;
  po_range : 0 < limit ≤ 2147483647;
  po_k : 0 ≤ k ≤ 1000000000;
  po_last : m_globalConnLastRefillMs p ≠ 0 }.

Lemma consume_step limit k now p :
  policy_ok limit (1 + k) p → 0 ≤ k → now ≠ 0 → m_globalConnLastRefillMs p ≤ now →
  let '(r, p') := ConsumeGlobalConnectionToken now p in
  policy_ok limit k p' ∧ m_globalConnLastRefillMs p ≤ m_globalConnLastRefillMs p' ≤ now
  ∧ 60000 * ((if r then 1 else 0) + Z.max 0 (m_globalConnTokens p'))
    ≤ 60000 * Z.max 0 (m_globalConnTokens p)
      + limit * (m_globalConnLastRefillMs p' - m_globalConnLastRefillMs p).
Proof.
  intros [El Hlow Hhigh Hr Hk Hlast] Hk' Hnow Hle. unfold ConsumeGlobalConnectionToken.
  rewrite El, decide_False, decide_False by lia. unfold refillWindowMs.
  destruct (decide (now - m_globalConnLastRefillMs p >= 60000)) as [Hw|Hw]; cbn [set_tokens
    m_globalConnTokens m_globalConnLastRefillMs m_policyMaxConnectionsPerMinuteTotal].
  - rewrite (i32_id (limit - 1)) by lia. split_and!; [|lia|lia|].
    + split; simpl; lia.
    + rewrite bool_decide_true by lia. nia.
  - rewrite (i32_id (m_globalConnTokens p - 1)) by lia. split_and!; [|lia|lia|].
    + split; simpl; lia.
    + case_bool_decide; lia.
Qed.

Lemma consume_bound limit nows : ∀ p w,
  policy_ok limit (Z.of_nat (length nows)) p → 0 ≤ w →
  StronglySorted Z.le nows →
  (∀ now, now ∈ nows → now ≠ 0
     ∧ m_globalConnLastRefillMs p ≤ now ≤ m_globalConnLastRefillMs p + w) →
  60000 * accepted (consume nows p).1 ≤ 60000 * Z.max 0 (m_globalConnTokens p) + limit * w.
Proof.
  induction nows as [|now nows IH]; intros p w Hp Hw Hs Hin.
  { destruct Hp. unfold accepted. simpl. nia. }
  apply StronglySorted_inv in Hs as [Hs Hle]. rewrite accepted_consume.
  destruct (Hin now) as [Hn0 Hn]; [set_solver|].
  pose proof (consume_step limit (Z.of_nat (length nows)) now p) as Hst.
  destruct (ConsumeGlobalConnectionToken now p) as [r p'].
  destruct Hst as (Hp' & Hlast & Hb); [|lia|done|lia|].
  { by replace (1 + Z.of_nat (length nows)) with (Z.of_nat (length (now :: nows))) by (simpl; lia). }
  set (d := m_globalConnLastRefillMs p' - m_globalConnLastRefillMs p) in *. cbn [fst snd].
  specialize (IH p' (w - d) Hp' ltac:(lia) Hs).
  assert (60000 * accepted (consume nows p').1
          ≤ 60000 * Z.max 0 (m_globalConnTokens p') + limit * (w - d)).
  { apply IH. intros now' Hin'. rewrite Forall_forall in Hle. specialize (Hle now' Hin').
    destruct (Hin now' ltac:(set_solver)). lia. }
  lia.
Qed.

(** The connection policy: with a limit of [limit] per minute, no matter when
    clients connect, at most [limit] connections plus [limit] per minute are
    admitted in any period of [w] ms after the first one; so at most [limit]
    within a minute that starts with the bucket's refill. *)
Theorem connection_limit limit w t0 nows p :
  m_policyMaxConnectionsPerMinuteTotal p = limit → 0 < limit ≤ 2147483647 →
  m_globalConnLastRefillMs p = 0 → 0 < t0 → 0 ≤ w →
  Z.of_nat (length nows) < 1000000000 → StronglySorted Z.le (t0 :: nows) →
  (∀ now, now ∈ nows → now ≤ t0 + w) →
  60000 * accepted (consume (t0 :: nows) p).1 ≤ limit * (60000 + w).
Proof.
  intros El Hl Hlast Ht0 Hw Hlen Hs Hin. apply StronglySorted_inv in Hs as [Hs Hle].
  rewrite accepted_consume. unfold ConsumeGlobalConnectionToken. rewrite El, Hlast.
  rewrite decide_False by lia. rewrite decide_True by done. cbn [set_tokens m_globalConnTokens fst snd
    m_globalConnLastRefillMs]. rewrite (i32_id (limit - 1)) by lia.
  rewrite bool_decide_true by lia. set (p' := set_tokens _ _ _).
  pose proof (consume_bound limit nows p' w) as Hb.
  assert (60000 * accepted (consume nows p').1 ≤ 60000 * Z.max 0 (limit - 1) + limit * w).
  { apply Hb; [|done|done|].
    - split; simpl; try done; lia.
    - intros now Hn. rewrite Forall_forall in Hle. specialize (Hle now Hn).
      specialize (Hin now Hn). simpl. lia. }
  lia.
Qed.

(** *** Witnesses *)

Definition demo_policy : Policy := mkPolicy 3 0 0 0 0.

Lemma RefreshTrafficPolicy_applies_witness :
  let pull text := RefreshTrafficPolicy "key" (mkResponse 200 text) 5 6 demo_policy in
  pull (policy_body "{" " " (pretty 250%N) "}") = mkPolicy 250 250 6 200 5
  ∧ pull (policy_body "{" "" (pretty 0%N) "}") = mkPolicy 3 0 0 200 5
  ∧ pull (policy_body "{" "" "null" "}") = mkPolicy 0 0 6 200 5
  ∧ pull "{}" = mkPolicy 3 0 0 200 5.
Proof.
  assert (Hp : ∀ text a, announces text a → _) by
    (intros text a; apply (RefreshTrafficPolicy_applies "key" (mkResponse 200 text) 5 6 demo_policy);
     [discriminate|reflexivity]).
  split_and!.
  - apply (Hp _ (Limit 250)), (an_number "{" " " "}" 250%N); [reflexivity|compute_done|reflexivity|lia].
  - apply (Hp _ Nothing), (an_number "{" "" "}" 0%N); [reflexivity|compute_done|reflexivity|lia].
  - apply (Hp _ Unlimited), (an_null "{" "" "}"); [reflexivity|compute_done].
  - apply (Hp _ Nothing), an_absent. reflexivity.
Defined.

(** Pulling the same policy again refills the bucket: three connections a
    minute become six within half a second. *)
Example refresh_refills :
  let answer := mkResponse 200 (policy_body "{" "" "3" "}") in
  let '(rs1, p1) := consume [1000; 1000; 1000; 1000] demo_policy in
  let p2 := RefreshTrafficPolicy "key" answer 1200 1200 p1 in
  let '(rs2, p3) := consume [1500; 1500; 1500; 1500] p2 in
  rs1 = [true; true; true; false] ∧ rs2 = [true; true; true; false].
Proof. vm_compute. auto. Qed.
