(* ===== verification/ServerCore.v ===== *)
(** * The server core

    Models [Core/ServerCore.cpp]: accepting, receiving, disconnecting, and the
    bodies of the worker, tick, heartbeat and registry threads.  [Server] is the
    whole state; [server_event] are the things that can happen to it, with the
    choices of the environment as arguments; [handle_event] is the server's
    reaction.  Reactions are atomic; [None] is undefined behaviour. *)
From S2P Require Import Prelude Bytes Platform ObjectPool Packet RecvBuffer Protobuf PbRuntimeDemo PacketPb Session PacketTraits Config AuthService GameRoom PacketManager SessionManager RoomManager Logic TrafficPolicy.
Local Open Scope Z_scope.

Record Server := mkServer {
  world : World;
  policy : Policy;
  (** The next session object. *)
  next_session : nat;
  (** The socket of the outstanding [AcceptEx]. *)
  accepting : option Z;
  m_lastControlPlaneStatusCode : Z;
  m_lastControlPlaneReportUnixMs : Z;
  (** The locals of [RegistryThread]. *)
  prevTotalConnections : Z;
  prevTotalRejections : Z;
  lastPolicyRefreshMs : Z }.

Definition set_world (w : World) (v : Server) : Server :=
  mkServer w (policy v) (next_session v) (accepting v) (m_lastControlPlaneStatusCode v)
    (m_lastControlPlaneReportUnixMs v) (prevTotalConnections v) (prevTotalRejections v)
    (lastPolicyRefreshMs v).
Definition set_policy (p : Policy) (v : Server) : Server :=
  mkServer (world v) p (next_session v) (accepting v) (m_lastControlPlaneStatusCode v)
    (m_lastControlPlaneReportUnixMs v) (prevTotalConnections v) (prevTotalRejections v)
    (lastPolicyRefreshMs v).
Definition set_next (k : nat) (v : Server) : Server :=
  mkServer (world v) (policy v) k (accepting v) (m_lastControlPlaneStatusCode v)
    (m_lastControlPlaneReportUnixMs v) (prevTotalConnections v) (prevTotalRejections v)
    (lastPolicyRefreshMs v).
Definition set_accepting (sock : option Z) (v : Server) : Server :=
  mkServer (world v) (policy v) (next_session v) sock (m_lastControlPlaneStatusCode v)
    (m_lastControlPlaneReportUnixMs v) (prevTotalConnections v) (prevTotalRejections v)
    (lastPolicyRefreshMs v).

(** What the system answers to [PostAccept]: no socket, one that [AcceptEx]
    refuses, or one that waits for a connection. *)
Inductive AcceptOutcome := NoSocket | AcceptRefused (sock : Z) | AcceptPosted (sock : Z).

(** If it fails, no [AcceptEx] is outstanding any more. *)
Definition PostAccept (o : AcceptOutcome) (v : Server) : Server :=
  match o with
  | NoSocket => set_accepting None v
  | AcceptRefused sock =>
      set_accepting None (set_world (with_net (closesocket sock (net (world v))) (world v)) v)
  | AcceptPosted sock => set_accepting (Some sock) v
  end.

(** ** Statistics *)

Definition on_stats (f : ServerStats → ServerStats) (w : World) : World :=
  with_net (set_stats (f (stats (net w))) (net w)) w.

Definition inc_connections (t : ServerStats) : ServerStats :=
  mkServerStats (u64 (totalConnections t + 1)) (u64 (currentConnections t + 1))
    (totalPacketsReceived t) (totalPacketsSent t) (totalBytesReceived t) (totalBytesSent t)
    (totalRateLimitRejections t) (totalOversizedPacketRejections t)
    (totalPolicyConnectionRejections t).
Definition dec_currentConnections (t : ServerStats) : ServerStats :=
  mkServerStats (totalConnections t) (u64 (currentConnections t - 1))
    (totalPacketsReceived t) (totalPacketsSent t) (totalBytesReceived t) (totalBytesSent t)
    (totalRateLimitRejections t) (totalOversizedPacketRejections t)
    (totalPolicyConnectionRejections t).
Definition inc_packetsReceived (t : ServerStats) : ServerStats :=
  mkServerStats (totalConnections t) (currentConnections t)
    (u64 (totalPacketsReceived t + 1)) (totalPacketsSent t) (totalBytesReceived t)
    (totalBytesSent t) (totalRateLimitRejections t) (totalOversizedPacketRejections t)
    (totalPolicyConnectionRejections t).
Definition add_bytesReceived (k : Z) (t : ServerStats) : ServerStats :=
  mkServerStats (totalConnections t) (currentConnections t)
    (totalPacketsReceived t) (totalPacketsSent t) (u64 (totalBytesReceived t + k))
    (totalBytesSent t) (totalRateLimitRejections t) (totalOversizedPacketRejections t)
    (totalPolicyConnectionRejections t).
Definition inc_rateLimitRejections (t : ServerStats) : ServerStats :=
  mkServerStats (totalConnections t) (currentConnections t)
    (totalPacketsReceived t) (totalPacketsSent t) (totalBytesReceived t) (totalBytesSent t)
    (u64 (totalRateLimitRejections t + 1)) (totalOversizedPacketRejections t)
    (totalPolicyConnectionRejections t).
Definition inc_oversizedRejections (t : ServerStats) : ServerStats :=
  mkServerStats (totalConnections t) (currentConnections t)
    (totalPacketsReceived t) (totalPacketsSent t) (totalBytesReceived t) (totalBytesSent t)
    (totalRateLimitRejections t) (u64 (totalOversizedPacketRejections t + 1))
    (totalPolicyConnectionRejections t).
Definition inc_policyRejections (t : ServerStats) : ServerStats :=
  mkServerStats (totalConnections t) (currentConnections t)
    (totalPacketsReceived t) (totalPacketsSent t) (totalBytesReceived t) (totalBytesSent t)
    (totalRateLimitRejections t) (totalOversizedPacketRejections t)
    (u64 (totalPolicyConnectionRejections t + 1)).

Section core.
Context `{Platform, PbRuntime}.
Implicit Types (w : World) (s : nat) (v : Server).

(** ** Connections *)

Definition HandleDisconnect s w : option World :=
  let '(first, n) := Disconnect s (net w) in
  let w := with_net n w in
  if negb first then Some w
  else
    let w := on_stats dec_currentConnections w in
    let w := with_smgr (Remove (m_sessionId (sess s (net w))) (smgr w)) w in
    match GetRoom s (net w) with
    | Some room =>
        let w := with_net (upd_session s (SetRoom None) (net w)) w in
        push_job room (JLeave s) w
    | None => Some w
    end.

(** [WSARecv] with the window of the receive buffer. *)
Definition WSARecv s w : bool * World :=
  let n := net w in
  let r := wsa_recv (n_recvs n) in
  (r, with_net (mkNet (sessions n) (pool n) (stats n) (inflight n) (wire n) (closed n)
        (n_sends n) (n_steady n) (n_system n) (S (n_recvs n))
        (if r then rx_pending n ++ [s] else rx_pending n)) w).

Definition PostRecv s w : option World :=
  if IsDisconnected s (net w) then Some w
  else
    match m_recvContext (sess s (net w)) with
    | None => None
    | Some context =>
        let '(writePtr, recvBuf) := GetWriteBufferPtr (m_recvBuffer (sess s (net w))) in
        let writeSize := GetWriteBufferSize recvBuf in
        let w := with_net (upd_session s (set_recvBuffer recvBuf) (net w)) w in
        let w := with_net (upd_session s (set_recvContext
                   (Some (with_wsaBuf (RecvBuf writePtr) writeSize context))) (net w)) w in
        let '(r, w) := WSARecv s w in
        if r then Some w else HandleDisconnect s w
    end.

(** ** Receiving *)

Fixpoint recv_loop (fuel : nat) (maxPacketSize : Z) s w : option World :=
  match fuel with
  | O => None
  | S fuel =>
      let recvBuf := m_recvBuffer (sess s (net w)) in
      match TryGetPacket recvBuf with
      | None => PostRecv s w
      | Some (packetData, packetSize) =>
          if decide (packetSize > maxPacketSize) then
            HandleDisconnect s (on_stats inc_oversizedRejections w)
          else
            let '(r, n) := CheckRateLimit s (net w) in
            let w := with_net n w in
            if negb r then HandleDisconnect s (on_stats inc_rateLimitRejections w)
            else
              let w := on_stats inc_packetsReceived w in
              w ← HandlePacket handlers s (mem_read packetData packetSize (m_data recvBuf)) w;
              let w := with_net (upd_session s (λ x, set_recvBuffer
                         (Pop packetSize (m_recvBuffer x)) x) (net w)) w in
              recv_loop fuel maxPacketSize s w
      end
  end.

(** The fuel is one more than the number of unread bytes: every packet has a
    header of four. *)
Definition recv_fuel s w : nat :=
  S (Z.to_nat (GetDataSize (m_recvBuffer (sess s (net w))))).

Definition HandleRecv s (bytesTransferred : Z) w : option World :=
  let w := with_net (upd_session s (λ x, set_recvBuffer
             (Write bytesTransferred (m_recvBuffer x)) x) (net w)) w in
  let w := with_net (UpdateActivity s (net w)) w in
  let w := on_stats (add_bytesReceived bytesTransferred) w in
  recv_loop (recv_fuel s w) (maxPacketSize (cfg w)) s w.

(** ** Accepting *)

(** [sock'] is what the next [PostAccept] gets; [associated] whether the
    socket could be associated with the completion port. *)
Definition HandleAcceptCompletion (clientSocket : Z) (success associated : bool)
    (sock' : AcceptOutcome) v : option Server :=
  if negb success then
    Some (PostAccept sock' (set_world (with_net (closesocket clientSocket (net (world v)))
                                         (world v)) v))
  else
    let s := next_session v in
    let v := set_next (S s) v in
    let w := world v in
    let w := with_net (upd_session s (λ _, Session_new) (net w)) w in
    let w := with_net (Session_Init s clientSocket (net w)) w in
    if negb associated then
      Some (PostAccept sock' (set_world (with_net (closesocket clientSocket (net w)) w) v))
    else
      let '(sessionId, m, n) := Add s (smgr w) (net w) in
      let w := with_smgr m (with_net n w) in
      let '(now, n) := UnixTimeMsNow (net w) in
      let n := if decide (m_policyMaxConnectionsPerMinuteTotal (policy v) <= 0)
               then net w else n in
      let w := with_net n w in
      let '(r, p) := ConsumeGlobalConnectionToken now (policy v) in
      let v := set_policy p v in
      if negb r then
        let w := on_stats inc_policyRejections w in
        let w := with_net (Disconnect s (net w)).2 w in
        let w := with_smgr (Remove sessionId (smgr w)) w in
        Some (PostAccept sock' (set_world w v))
      else
        let w := with_net (InitRateLimit s (packetRateLimitPerSec (cfg w)) (net w)) w in
        let w := on_stats inc_connections w in
        w ← PostRecv s w;
        Some (PostAccept sock' (set_world w v)).

(** ** Reports to the control plane *)

Definition recent (total prev : Z) : Z := if decide (total >= prev) then total - prev else total.

Definition registry_body (currentPlayers maxPlayers recentConnections recentRejections : Z)
    (version : string) : string :=
  "{" +:+ quoted "currentPlayers" +:+ ":" +:+ pretty currentPlayers +:+ ","
  +:+ quoted "maxPlayers" +:+ ":" +:+ pretty maxPlayers +:+ ","
  +:+ quoted "version" +:+ ":" +:+ quoted version +:+ ","
  +:+ quoted "recentConnections" +:+ ":" +:+ pretty recentConnections +:+ ","
  +:+ quoted "recentRejections" +:+ ":" +:+ pretty recentRejections +:+ "}".

(** [RefreshTrafficPolicy] with its readings of the clock: none without a key,
    a second one when the answer is applied. *)
Definition refresh_policy (resp : Response) v : Server :=
  let apiKey := gameServerApiKey (cfg (world v)) in
  if decide (apiKey = "") then v
  else
    let '(t1, n1) := UnixTimeMsNow (net (world v)) in
    let '(t2, n2) := UnixTimeMsNow n1 in
    set_policy (RefreshTrafficPolicy apiKey resp t1 t2 (policy v))
      (set_world (with_net (if policy_applies resp then n2 else n1) (world v)) v).

(** One turn of [RegistryThread]: [policyResp] answers the policy request if one
    is made, [post] the report.  Returns the report that was sent. *)
Definition RegistryTurn (policyResp : Response) (post : string → Response) v
    : option string * Server :=
  let c := cfg (world v) in
  let '(nowMs, n) := UnixTimeMsNow (net (world v)) in
  let v := set_world (with_net n (world v)) v in
  let refresh := bool_decide (nowMs - lastPolicyRefreshMs v
                              >= Z.max 1000 (policyRefreshIntervalMs c)) in
  let v :=
    if refresh then
      let v := refresh_policy policyResp v in
      mkServer (world v) (policy v) (next_session v) (accepting v)
        (m_lastControlPlaneStatusCode v) (m_lastControlPlaneReportUnixMs v)
        (prevTotalConnections v) (prevTotalRejections v) nowMs
    else v in
  if decide (gameServerApiKey c = "") then (None, v)
  else
    let t := stats (net (world v)) in
    let totalRejections := u64 (totalRateLimitRejections t + totalOversizedPacketRejections t) in
    let body := registry_body (i32 (currentConnections t)) (maxTotalPlayers c)
                  (recent (totalConnections t) (prevTotalConnections v))
                  (recent totalRejections (prevTotalRejections v)) (gameServerVersion c) in
    (Some body,
     mkServer (world v) (policy v) (next_session v) (accepting v)
       (statusCode (post body)) nowMs (totalConnections t) totalRejections
       (lastPolicyRefreshMs v)).
(** ** The threads *)

Inductive server_event :=
  (** A completion dequeued by [WorkerThread]: an accept, a receive of [data]
      (none on an orderly close) or its failure, a send or its failure. *)
  | EvAccept (success associated : bool) (sock' : AcceptOutcome)
  | EvRecv (s : nat) (success : bool) (data : list byte)
  | EvSend (a : nat) (success : bool)
  (** One turn of [GameTickThread] and of [HeartbeatThread]. *)
  | EvGameTick
  | EvHeartbeat
  (** A worker of [AuthService] finishes the [i]-th queued validation. *)
  | EvAuth (i : nat) (get : string → Response)
  (** One turn of [RegistryThread], with the answers of the control plane. *)
  | EvRegistry (policyResp : Response) (post : string → Response).

(** The kernel's part of a receive: the data is in the posted window. *)
Definition kernel_receive s (data : list byte) w : World :=
  let n := net w in
  let n := mkNet (sessions n) (pool n) (stats n) (inflight n) (wire n) (closed n)
             (n_sends n) (n_steady n) (n_system n) (n_recvs n) (us_erase s (rx_pending n)) in
  with_net (upd_session s (λ x,
    match m_recvContext x with
    | Some c => match wsaBuf_buf c with
                | RecvBuf off => set_recvBuffer (os_store off data (m_recvBuffer x)) x
                | _ => x
                end
    | None => x
    end) n) w.

Definition GameTick w : option World :=
  '(R, n) ← TickAll (reconnectWindowMs (cfg w)) (rooms w) (net w);
  Some (with_rooms R (with_net n w)).

Fixpoint heartbeat_sessions (timeoutMs : Z) (ss : list nat) w : option World :=
  match ss with
  | [] => Some w
  | s :: ss =>
      let '(timedOut, n) := IsTimedOut s timeoutMs (net w) in
      let w := with_net n w in
      w ← if timedOut : bool then HandleDisconnect s w else Some w;
      heartbeat_sessions timeoutMs ss w
  end.

Definition Heartbeat w : option World :=
  w ← heartbeat_sessions (heartbeatTimeoutMs (cfg w)) (GetAll (smgr w)) w;
  let '(removed, R, n) := RemoveIdleRooms (idleRoomTimeoutMs (cfg w)) (rooms w) (net w) in
  Some (with_rooms R (with_net n w)).

Definition lift (o : option World) v : option Server := w ← o; Some (set_world w v).

Definition handle_event (e : server_event) v : option Server :=
  match e with
  | EvAccept success associated sock' =>
      match accepting v with
      | Some clientSocket => HandleAcceptCompletion clientSocket success associated sock' v
      | None => Some v
      end
  | EvRecv s success data =>
      let w := kernel_receive s data (world v) in
      if negb success then lift (HandleDisconnect s w) v
      else if decide (data = []) then lift (HandleDisconnect s w) v
      else lift (HandleRecv s (Z.of_nat (length data)) w) v
  | EvSend a success =>
      let w := world v in
      let owner := ctx_session (ctx_at a (net w)) in
      w ← match success, owner with
          | false, Some s => HandleDisconnect s w
          | _, _ => Some w
          end;
      Some (set_world (with_net (CompleteSend a (net w)) w) v)
  | EvGameTick => lift (GameTick (world v)) v
  | EvHeartbeat => lift (Heartbeat (world v)) v
  | EvAuth i get =>
      match auth (world v) !! i with
      | None => Some v
      | Some (token, s) =>
          let w := with_auth (delete i (auth (world v))) (world v) in
          let '(valid, accountId) := validate get token in
          lift (login_callback s valid accountId w) v
      end
  | EvRegistry policyResp post => Some (RegistryTurn policyResp post v).2
  end.

(** What the environment may do: only outstanding operations complete, and a
    receive stays within the window that was posted. *)
Definition event_ok (e : server_event) v : Prop :=
  match e with
  | EvAccept _ _ _ => is_Some (accepting v)
  | EvRecv s _ data =>
      s ∈ rx_pending (net (world v))
      ∧ ∃ c, m_recvContext (sess s (net (world v))) = Some c
             ∧ Z.of_nat (length data) ≤ wsaBuf_len c
  | EvSend a _ => a ∈ inflight (net (world v))
  | _ => True
  end.

(** A freshly started server; [o] is what [Start]'s [PostAccept] gets. *)
Definition Server_new (c : ServerConfig) (o : AcceptOutcome) : Server :=
  PostAccept o
    {| world := {| net := Net_new; rooms := RoomManager_new; smgr := SessionManager_new;
                   auth := []; cfg := c |};
       policy := Policy_new; next_session := 0; accepting := None;
       m_lastControlPlaneStatusCode := 0; m_lastControlPlaneReportUnixMs := 0;
       prevTotalConnections := 0; prevTotalRejections := 0; lastPolicyRefreshMs := 0 |}.

End core.
