(* ===== verification/Reports.v ===== *)
(** * The texts the server reports itself in

    Models the three texts that tell the state of the server: the JSON object of
    the health check and the metrics (the two callbacks that [ServerCore::Init]
    gives the health server), and the line of [ServerStats::Print].  Shows that
    the numbers can be read back from them, and from the report to the control
    plane ([ServerCore.registry_body]), by the JSON reader the server itself
    uses. *)
From Stdlib Require Import Ascii.
From S2P Require Import Prelude Strings Platform Protobuf Session Config AuthService RoomManager Logic TrafficPolicy Logger ServerCore.
Local Open Scope Z_scope.

(** ** JSON objects *)

(** A value of the objects written here: a printed number or a quoted text. *)
Definition plain_value (v : string) : Prop :=
  no_quote v ∨ ∃ s, v = quoted s ∧ no_quote s.

Fixpoint fields_text (fs : list (string * string)) : string :=
  match fs with
  | [] => ""
  | [(k, v)] => quoted k +:+ ":" +:+ v
  | (k, v) :: fs => quoted k +:+ ":" +:+ v +:+ "," +:+ fields_text fs
  end.
Definition object_text (fs : list (string * string)) : string := "{" +:+ fields_text fs +:+ "}".

(** A key that cannot be mistaken for the text around it. *)
Definition key_ok (k : string) : Prop :=
  match k with
  | String c _ => c ∉ [":"; ","; "}"]%char ∧ no_quote k
  | EmptyString => False
  end.

#[export] Instance key_ok_dec k : Decision (key_ok k).
Proof. destruct k; simpl; apply _. Defined.

Lemma no_quote_cons c s : no_quote (String c s) ↔ c ≠ dq ∧ no_quote s.
Proof. unfold no_quote. simpl. by rewrite Forall_cons. Qed.

Lemma no_quote_app s t : no_quote (s +:+ t) ↔ no_quote s ∧ no_quote t.
Proof.
  induction s as [|c s IH]; [rewrite str_app_nil; split; [split; [apply Forall_nil_2|done]|by intros []]|].
  rewrite str_app_cons, !no_quote_cons, IH. tauto.
Qed.

Lemma prefix_ne c d p t : c ≠ d → String.prefix (String c p) (String d t) = false.
Proof. intros Hn. simpl. by destruct (ascii_dec c d). Qed.

Lemma prefix_eq c p t : String.prefix (String c p) (String c t) = String.prefix p t.
Proof. simpl. by destruct (ascii_dec c c). Qed.

Lemma find_ne c d p t :
  c ≠ d → str_find (String c p) (String d t) = S <$> str_find (String c p) t.
Proof. intros Hn. cbn [str_find]. by rewrite prefix_ne. Qed.

(** A pattern that starts with a quote is not found in a text without one. *)
Lemma find_skip p s t :
  no_quote s → str_find (String dq p) (s +:+ t) = (λ n, String.length s + n)%nat <$> str_find (String dq p) t.
Proof.
  induction s as [|c s IH]; intros Hs.
  - rewrite str_app_nil. destruct (str_find (String dq p) t); reflexivity.
  - apply no_quote_cons in Hs as [Hc Hs]. rewrite str_app_cons, find_ne, IH by done.
    destruct (str_find (String dq p) t); reflexivity.
Qed.

Lemma find_quote p t :
  str_find (String dq p) (String dq t)
  = if String.prefix p t then Some 0%nat else S <$> str_find (String dq p) t.
Proof. cbn [str_find]. by rewrite prefix_eq. Qed.

(** After a quote, the rest of a marker matches only its own key. *)
Lemma prefix_key k s t c :
  no_quote k → no_quote s →
  String.prefix (k +:+ String dq ":") (s +:+ String dq (String c t)) = true → k = s ∧ c = ":"%char.
Proof.
  revert s. induction k as [|a k IH]; intros [|b s] Hk Hs; rewrite ?str_app_cons, ?str_app_nil.
  - rewrite prefix_eq. destruct (decide (c = ":"%char)) as [->|]; [done|]. by rewrite prefix_ne.
  - apply no_quote_cons in Hs as [Hb _]. by rewrite prefix_ne.
  - apply no_quote_cons in Hk as [Ha _]. by rewrite prefix_ne.
  - apply no_quote_cons in Hk as [_ Hk]. apply no_quote_cons in Hs as [_ Hs].
    destruct (decide (a = b)) as [->|]; [|by rewrite prefix_ne]. rewrite prefix_eq.
    intros Hp. by destruct (IH s Hk Hs Hp) as [-> ->].
Qed.

Section find_field.
Context (k : string) (Hk : key_ok k).
Let marker : string := quoted k +:+ ":".
Let p : string := k +:+ String dq ":".

Lemma marker_cons : marker = String dq p.
Proof. unfold marker, quoted, p. by rewrite str_app_cons, str_app_assoc. Qed.

Lemma key_no_quote : no_quote k.
Proof. by destruct k; [done|destruct Hk]. Qed.

(** The closing quote of a text, followed by a separator, starts no marker. *)
Lemma find_separator c t :
  c ∈ [":"; ","; "}"]%char →
  str_find marker (String dq (String c t)) = (λ n, 2 + n)%nat <$> str_find marker t.
Proof.
  intros Hc. rewrite marker_cons, find_quote.
  assert (String.prefix p (String c t) = false) as ->.
  { unfold p. destruct k as [|a k']; [done|]. destruct Hk as [Ha _]. rewrite str_app_cons.
    apply prefix_ne. set_solver. }
  rewrite find_ne by set_solver. by destruct (str_find (String dq p) t).
Qed.

(** A quoted text that is followed by a separator is passed over, unless it is
    the key. *)
Lemma find_quoted s c t :
  no_quote s → c ∈ [":"; ","; "}"]%char → (k = s → c ≠ ":"%char) →
  str_find marker (quoted s +:+ String c t)
  = (λ n, String.length (quoted s) + 1 + n)%nat <$> str_find marker t.
Proof.
  intros Hs Hc Hne. unfold quoted. rewrite str_app_cons, str_app_assoc.
  rewrite marker_cons, find_quote. rewrite (str_app_cons dq), str_app_nil.
  destruct (String.prefix p _) eqn:E.
  { apply prefix_key in E as [-> ->]; [by destruct Hne|apply key_no_quote|done]. }
  rewrite find_skip by done. rewrite <- marker_cons, find_separator by done.
  destruct (str_find marker t); [|done]. simpl. f_equal. rewrite str_length_app. simpl. lia.
Qed.

Lemma find_value v c t :
  plain_value v → c ∈ [","; "}"]%char →
  str_find marker (v +:+ String c t) = (λ n, String.length v + 1 + n)%nat <$> str_find marker t.
Proof.
  intros [Hv|(s & -> & Hs)] Hc.
  - rewrite marker_cons, find_skip by done. rewrite <- marker_cons.
    assert (str_find marker (String c t) = S <$> str_find marker t) as ->.
    { rewrite marker_cons. apply find_ne. set_solver. }
    destruct (str_find marker t); [|done]. simpl. f_equal. lia.
  - apply find_quoted; [done|set_solver|]. intros _ ->. set_solver.
Qed.
End find_field.

Lemma str_drop_more s n t : str_drop (String.length s + n) (s +:+ t) = str_drop n t.
Proof. induction s as [|c s IH]; [done|]. by rewrite str_app_cons. Qed.

Lemma fields_cons k v fs :
  fields_text ((k, v) :: fs) +:+ "}"
  = quoted k +:+ String ":" (v +:+ match fs with
                                   | [] => "}"
                                   | _ => String "," (fields_text fs +:+ "}")
                                   end).
Proof.
  destruct fs as [|f fs]; cbn [fields_text]; rewrite !str_app_assoc; [done|].
  by rewrite !str_app_cons, !str_app_nil.
Qed.

(** The first character after a field. *)
Definition ends_field (s : string) : Prop :=
  match s with String c _ => c ∈ [","; "}"]%char | EmptyString => False end.

Lemma fields_find k v fs :
  key_ok k → NoDup fs.*1 → Forall (λ f, no_quote f.1 ∧ plain_value f.2) fs → (k, v) ∈ fs →
  ∃ n rest, str_find (quoted k +:+ ":") (fields_text fs +:+ "}") = Some n
    ∧ str_drop (n + String.length (quoted k +:+ ":")) (fields_text fs +:+ "}") = v +:+ rest
    ∧ ends_field rest.
Proof.
  intros Hk. induction fs as [|[k' v'] fs IH]; intros Hnd Hfs Hin; [by apply elem_of_nil in Hin|].
  apply NoDup_cons in Hnd as [Hk' Hnd]. apply Forall_cons in Hfs as [[Hq Hv] Hfs]. simpl in Hq, Hv.
  rewrite fields_cons. apply elem_of_cons in Hin as [[= <- <-]|Hin].
  - exists 0%nat. eexists. rewrite <- str_app_nil with (t := v +:+ _).
    change (quoted k +:+ String ":" ("" +:+ ?x)) with (quoted k +:+ (":" +:+ x)).
    rewrite <- str_app_assoc. split_and!.
    + set (m := quoted k +:+ ":"). generalize (v +:+ match fs with [] => "}" | _ :: _ => String "," (fields_text fs +:+ "}") end).
      intros t. pose proof (prefix_app m t) as Hp. unfold str_find. destruct (m +:+ t); by rewrite Hp.
    + apply str_drop_app.
    + destruct fs; set_solver.
  - destruct (IH Hnd Hfs Hin) as (n & rest & Hf & Hd & He).
    assert (k ≠ k') as Hne.
    { intros ->. apply Hk'. apply list_elem_of_fmap. by exists (k', v). }
    destruct fs as [|f fs]; [by apply elem_of_nil in Hin|]. set (T := fields_text (f :: fs) +:+ "}") in *.
    exists (String.length (quoted k') + 1 + (String.length v' + 1 + n))%nat, rest. split_and!; [| |done].
    + rewrite (find_quoted k Hk k') by (done || set_solver).
      rewrite (find_value k Hk v') by (done || set_solver). by rewrite Hf.
    + replace (quoted k' +:+ String ":" (v' +:+ String "," T))
        with ((quoted k' +:+ ":" +:+ v' +:+ ",") +:+ T) by (by rewrite !str_app_assoc).
      replace (_ + _ + (_ + _ + _) + _)%nat
        with (String.length (quoted k' +:+ ":" +:+ v' +:+ ",") + (n + String.length (quoted k +:+ ":")))%nat
        by (rewrite !str_length_app; simpl; lia).
      by rewrite str_drop_more.
Qed.

(** The reader finds every field of an object. *)
Lemma object_field k v fs :
  key_ok k → NoDup fs.*1 → Forall (λ f, no_quote f.1 ∧ plain_value f.2) fs → (k, v) ∈ fs →
  ∃ rest, json_value (object_text fs) k = Some (skip_while isspace (v +:+ rest)) ∧ ends_field rest.
Proof.
  intros Hk Hnd Hfs Hin. destruct (fields_find k v fs Hk Hnd Hfs Hin) as (n & rest & Hf & Hd & He).
  exists rest. split; [|done]. unfold json_value, object_text. rewrite str_app_cons, str_app_nil.
  rewrite (marker_cons k), find_ne by done. rewrite <- (marker_cons k), Hf.
  do 2 f_equal. exact Hd.
Qed.

(** ** Numbers *)

Lemma chars_no_quote s : chars_ok isdigit s → no_quote s.
Proof. intros Hs. eapply Forall_impl; [exact Hs|]. by intros c Hc ->. Qed.

Lemma pretty_Z_plain (z : Z) : plain_value (pretty z).
Proof.
  left. destruct z as [|p|p]; [by repeat constructor|apply chars_no_quote, pretty_pos_digits|].
  change (no_quote (String "-"%char (pretty p))). apply no_quote_cons.
  split; [done|]. apply chars_no_quote, pretty_pos_digits.
Qed.

Lemma ends_field_no_digit s : ends_field s → no_digit s.
Proof. destruct s as [|c s]; [done|]. simpl. rewrite !elem_of_cons. by intros [->|[->|?%elem_of_nil]]. Qed.

(** A printed number starts with no white space, nor with [null]. *)
Lemma skip_space_pretty (z : Z) s :
  skip_while isspace (pretty z +:+ s) = pretty z +:+ s ∧ str_take 4 (pretty z +:+ s) ≠ "null"
  ∧ pretty z +:+ s ≠ "".
Proof.
  assert (Hd : ∀ n : N, skip_while isspace (pretty n +:+ s) = pretty n +:+ s
                        ∧ str_take 4 (pretty n +:+ s) ≠ "null" ∧ pretty n +:+ s ≠ "").
  { intros n. destruct (pretty_N_no_sign n s) as (c & r & -> & Hc).
    assert (c ≠ "n"%char) as Hn by (by intros ->). unfold isdigit in Hc. apply bool_decide_eq_true in Hc. cbn [skip_while].
    assert (isspace c = false) as -> by (apply bool_decide_eq_false; lia).
    split_and!; [done| |done]. simpl. congruence. }
  destruct z as [|p|p]; [apply (Hd 0%N)|apply (Hd (Npos p))|].
  change (pretty (Z.neg p)) with (String "-"%char (pretty (Npos p))). rewrite str_app_cons. by split_and!.
Qed.

(** The reader of the server reads a printed number that fits an [int]. *)
Lemma TryParse_field json k (z : Z) rest :
  json_value json k = Some (skip_while isspace (pretty z +:+ rest)) → ends_field rest →
  -2147483647 ≤ z ≤ 2147483647 → TryParseJsonIntByKey json k = Some z.
Proof.
  intros Hj He Hz. unfold TryParseJsonIntByKey. rewrite Hj.
  destruct (skip_space_pretty z rest) as (-> & Hnull & Hne).
  rewrite decide_False by naive_solver.
  assert (Hr : ∀ n : N, Z.of_N n ≤ 2147483647 →
    read_digits int_step 0 (pretty n +:+ rest) = (Z.of_N n, true)).
  { intros n Hn. apply (read_pretty int_step 2147483647); [apply int_step_ok|done|].
    by apply ends_field_no_digit. }
  assert (HN : ∀ n : N, Z.of_N n ≤ 2147483647 →
    (let '(neg, s) := match pretty n +:+ rest with
                      | String c r => if decide (c = "-"%char) then (true, r) else (false, pretty n +:+ rest)
                      | EmptyString => (false, pretty n +:+ rest)
                      end in
     let '(value, hasDigit) := read_digits int_step 0 s in
     if hasDigit : bool then Some (if neg : bool then i32 (- value) else value) else None) = Some (Z.of_N n)).
  { intros n Hn. specialize (Hr n Hn). destruct (pretty_N_no_sign n rest) as (c & r & E & Hc).
    rewrite E in *. rewrite decide_False by (by intros ->). by rewrite Hr. }
  destruct z as [|p|p]; [apply (HN 0%N); lia|apply (HN (Npos p)); lia|].
  change (pretty (Z.neg p)) with (String "-"%char (pretty (Npos p))). rewrite str_app_cons.
  rewrite decide_True by done. rewrite Hr by lia. f_equal. change (- Z.of_N (N.pos p)) with (Z.neg p).
  apply i32_id. lia.
Qed.

(** ** The texts *)

Definition metric (name : string) (z : Z) : string := name +:+ " " +:+ pretty z +:+ newline.

(** [ServerStats::Print], without the level and time the logger adds. *)
Definition Print (t : ServerStats) : string :=
  "[STATS] conns=" +:+ pretty (currentConnections t)
  +:+ " total_conns=" +:+ pretty (totalConnections t)
  +:+ " pkts_recv=" +:+ pretty (totalPacketsReceived t)
  +:+ " pkts_sent=" +:+ pretty (totalPacketsSent t)
  +:+ " bytes_recv=" +:+ pretty (totalBytesReceived t)
  +:+ " bytes_sent=" +:+ pretty (totalBytesSent t)
  +:+ " reject_rate=" +:+ pretty (totalRateLimitRejections t)
  +:+ " reject_oversize=" +:+ pretty (totalOversizedPacketRejections t)
  +:+ " reject_policy_conn=" +:+ pretty (totalPolicyConnectionRejections t).

Section texts.
Context `{Platform, PbRuntime}.
Implicit Types v : Server.

(** The callback for [GET /health]. *)
Definition HealthBody v : string :=
  let s := stats (net (world v)) in
  "{" +:+ quoted "status" +:+ ":" +:+ quoted "ok" +:+ ","
  +:+ quoted "sessions" +:+ ":" +:+ pretty (currentConnections s) +:+ ","
  +:+ quoted "total_connections" +:+ ":" +:+ pretty (totalConnections s) +:+ ","
  +:+ quoted "rooms" +:+ ":" +:+ pretty (Z.of_nat (length (GetRoomInfoList (rooms (world v))))) +:+ ","
  +:+ quoted "packets_received" +:+ ":" +:+ pretty (totalPacketsReceived s) +:+ ","
  +:+ quoted "packets_sent" +:+ ":" +:+ pretty (totalPacketsSent s) +:+ ","
  +:+ quoted "rate_limit_rejections" +:+ ":" +:+ pretty (totalRateLimitRejections s) +:+ ","
  +:+ quoted "oversized_rejections" +:+ ":" +:+ pretty (totalOversizedPacketRejections s) +:+ ","
  +:+ quoted "policy_connection_rejections" +:+ ":" +:+ pretty (totalPolicyConnectionRejections s) +:+ ","
  +:+ quoted "control_plane_status_code" +:+ ":" +:+ pretty (m_lastControlPlaneStatusCode v) +:+ ","
  +:+ quoted "last_report_unix_ms" +:+ ":" +:+ pretty (m_lastControlPlaneReportUnixMs v) +:+ ","
  +:+ quoted "policy_pull_status_code" +:+ ":" +:+ pretty (m_lastPolicyPullStatusCode (policy v)) +:+ ","
  +:+ quoted "last_policy_pull_unix_ms" +:+ ":" +:+ pretty (m_lastPolicyPullUnixMs (policy v)) +:+ ","
  +:+ quoted "max_conn_per_min_total" +:+ ":"
  +:+ pretty (m_policyMaxConnectionsPerMinuteTotal (policy v)) +:+ "}".

(** The callback for [GET /metrics]. *)
Definition MetricsBody v : string :=
  let s := stats (net (world v)) in
  metric "realtime_current_connections" (currentConnections s)
  +:+ metric "realtime_total_connections" (totalConnections s)
  +:+ metric "realtime_packets_received_total" (totalPacketsReceived s)
  +:+ metric "realtime_packets_sent_total" (totalPacketsSent s)
  +:+ metric "realtime_bytes_received_total" (totalBytesReceived s)
  +:+ metric "realtime_bytes_sent_total" (totalBytesSent s)
  +:+ metric "realtime_rate_limit_rejections_total" (totalRateLimitRejections s)
  +:+ metric "realtime_oversized_rejections_total" (totalOversizedPacketRejections s)
  +:+ metric "realtime_policy_connection_rejections_total" (totalPolicyConnectionRejections s)
  +:+ metric "realtime_control_plane_status_code" (m_lastControlPlaneStatusCode v)
  +:+ metric "realtime_last_report_unix_ms" (m_lastControlPlaneReportUnixMs v)
  +:+ metric "realtime_policy_pull_status_code" (m_lastPolicyPullStatusCode (policy v))
  +:+ metric "realtime_last_policy_pull_unix_ms" (m_lastPolicyPullUnixMs (policy v))
  +:+ metric "realtime_policy_max_connections_per_min_total"
        (m_policyMaxConnectionsPerMinuteTotal (policy v)).

(** ** What they say *)

Definition health_fields v : list (string * Z) :=
  let s := stats (net (world v)) in
  [("sessions", currentConnections s); ("total_connections", totalConnections s);
   ("rooms", Z.of_nat (length (m_rooms (rooms (world v)))));
   ("packets_received", totalPacketsReceived s); ("packets_sent", totalPacketsSent s);
   ("rate_limit_rejections", totalRateLimitRejections s);
   ("oversized_rejections", totalOversizedPacketRejections s);
   ("policy_connection_rejections", totalPolicyConnectionRejections s);
   ("control_plane_status_code", m_lastControlPlaneStatusCode v);
   ("last_report_unix_ms", m_lastControlPlaneReportUnixMs v);
   ("policy_pull_status_code", m_lastPolicyPullStatusCode (policy v));
   ("last_policy_pull_unix_ms", m_lastPolicyPullUnixMs (policy v));
   ("max_conn_per_min_total", m_policyMaxConnectionsPerMinuteTotal (policy v))].

Definition metric_fields v : list (string * Z) :=
  let s := stats (net (world v)) in
  [("realtime_current_connections", currentConnections s);
   ("realtime_total_connections", totalConnections s);
   ("realtime_packets_received_total", totalPacketsReceived s);
   ("realtime_packets_sent_total", totalPacketsSent s);
   ("realtime_bytes_received_total", totalBytesReceived s);
   ("realtime_bytes_sent_total", totalBytesSent s);
   ("realtime_rate_limit_rejections_total", totalRateLimitRejections s);
   ("realtime_oversized_rejections_total", totalOversizedPacketRejections s);
   ("realtime_policy_connection_rejections_total", totalPolicyConnectionRejections s);
   ("realtime_control_plane_status_code", m_lastControlPlaneStatusCode v);
   ("realtime_last_report_unix_ms", m_lastControlPlaneReportUnixMs v);
   ("realtime_policy_pull_status_code", m_lastPolicyPullStatusCode (policy v));
   ("realtime_last_policy_pull_unix_ms", m_lastPolicyPullUnixMs (policy v));
   ("realtime_policy_max_connections_per_min_total",
      m_policyMaxConnectionsPerMinuteTotal (policy v))].

(** A field with a number. *)
Definition num (f : string * Z) : string * string := (f.1, pretty f.2).

(** [z] is what a reader finds under [k]. *)
Definition reads_as (json k : string) (z : Z) : Prop :=
  (∃ rest, json_value json k = Some (pretty z +:+ rest) ∧ ends_field rest)
  ∧ (-2147483647 ≤ z ≤ 2147483647 → TryParseJsonIntByKey json k = Some z).

Lemma object_number k z fs :
  key_ok k → NoDup fs.*1 → Forall (λ f, no_quote f.1 ∧ plain_value f.2) fs → (k, pretty z) ∈ fs →
  reads_as (object_text fs) k z.
Proof.
  intros Hk Hnd Hfs Hin. destruct (object_field k _ fs Hk Hnd Hfs Hin) as (rest & Hj & He).
  split; [exists rest; split; [|done]|by eapply TryParse_field].
  rewrite Hj. by destruct (skip_space_pretty z rest) as (-> & _).
Qed.

Lemma HealthBody_object v :
  HealthBody v = object_text (("status", quoted "ok") :: map num (health_fields v)).
Proof.
  unfold HealthBody, GetRoomInfoList. rewrite length_map. unfold object_text, health_fields, num.
  cbn [map fields_text fst snd]. by rewrite !str_app_assoc.
Qed.
(** The keys of the objects are fit for reading. *)
Lemma keys_ok ks : bool_decide (Forall key_ok ks) = true → ∀ k, k ∈ ks → key_ok k.
Proof. intros Hks%bool_decide_eq_true k. by apply Forall_forall. Qed.

Lemma nums_plain fs :
  bool_decide (Forall no_quote fs.*1) = true →
  Forall (λ f, no_quote f.1 ∧ plain_value f.2) (map num fs).
Proof.
  intros Hks%bool_decide_eq_true. rewrite Forall_fmap in Hks.
  apply Forall_map. eapply Forall_impl; [exact Hks|]. intros [k z] Hk. split; [done|apply pretty_Z_plain].
Qed.

(** ** Reading the metrics *)

(** The pieces between the occurrences of a character. *)
Fixpoint split_on (c : ascii) (s : string) : list string :=
  match s with
  | EmptyString => [""]
  | String d s =>
      if decide (d = c) then "" :: split_on c s
      else match split_on c s with
           | p :: ps => String d p :: ps
           | [] => [String d ""]
           end
  end.

(** One sample per line: a name, a space, a value. *)
Definition read_metrics (text : string) : list (list string) :=
  map (split_on " "%char) (split_on "010"%char text).

Definition free_of (c : ascii) (s : string) : Prop :=
  Forall (λ d, d ≠ c) (String.list_ascii_of_string s).
#[local] Instance free_of_dec c s : Decision (free_of c s).
Proof. unfold free_of. apply _. Defined.

Lemma split_on_app c s t : free_of c s → split_on c (s +:+ String c t) = s :: split_on c t.
Proof.
  induction s as [|d s IH]; intros Hs.
  - rewrite str_app_nil. simpl. by rewrite decide_True.
  - apply Forall_cons in Hs as [Hd Hs]. rewrite str_app_cons. simpl. rewrite decide_False by done.
    by rewrite IH.
Qed.

Lemma split_on_free c s : free_of c s → split_on c s = [s].
Proof.
  induction s as [|d s IH]; intros Hs; [done|]. apply Forall_cons in Hs as [Hd Hs].
  simpl. rewrite decide_False by done. by rewrite IH.
Qed.

Lemma free_of_app c s t : free_of c s → free_of c t → free_of c (s +:+ t).
Proof.
  intros Hs Ht. induction s as [|d s IH]; [done|]. apply Forall_cons in Hs as [Hd Hs].
  rewrite str_app_cons. apply Forall_cons. split; [done|by apply IH].
Qed.

Lemma pretty_Z_free c (z : Z) : isdigit c = false → c ≠ "-"%char → free_of c (pretty z).
Proof.
  intros Hc Hm. assert (Hp : ∀ p : positive, free_of c (pretty p)).
  { intros p. eapply Forall_impl; [apply pretty_pos_digits|]. intros d Hd ->. congruence. }
  destruct z as [|p|p]; [|apply Hp|].
  - apply Forall_cons. split; [|apply Forall_nil_2]. intros <-. discriminate.
  - apply Forall_cons. split; [congruence|apply Hp].
Qed.

Lemma read_metric name z text :
  free_of "010"%char name → free_of " "%char name →
  read_metrics (metric name z +:+ text) = [name; pretty z] :: read_metrics text.
Proof.
  intros Hn Hsp. unfold read_metrics. assert (metric name z +:+ text
    = (name +:+ String " " (pretty z)) +:+ String "010" text) as ->.
  { unfold metric, newline. rewrite !str_app_assoc, !str_app_cons, !str_app_nil. by rewrite ?str_app_assoc. }
  rewrite split_on_app.
  - cbn [map]. f_equal. rewrite (split_on_app " "%char name) by done.
    by rewrite split_on_free by (by apply pretty_Z_free).
  - apply free_of_app; [done|]. apply Forall_cons. split; [done|by apply pretty_Z_free].
Qed.

(** The metrics can be read: one line per counter, in a fixed order, each the
    name and the value, and nothing else. *)
Theorem MetricsBody_readable v :
  read_metrics (MetricsBody v) = map (λ f, [f.1; pretty f.2]) (metric_fields v) ++ [[""]].
Proof.
  unfold MetricsBody. cbv zeta. rewrite <- (str_app_nil_r (metric _ (m_policyMaxConnectionsPerMinuteTotal _))).
  by rewrite !read_metric by compute_done.
Qed.

(** C35. The health check and the report to the control plane can be read: under
    every key a JSON reader finds the number the server means, followed by the
    end of the field, and the server's own reader returns it when it fits an
    [int].  The report needs a version without a quote, since it is not
    escaped.  The metrics are one line per counter, each its name and its value. *)
Theorem reports_readable v k z :
  ((k, z) ∈ health_fields v → reads_as (HealthBody v) k z)
  ∧ (∀ players max conns rejections version,
      no_quote version →
      (k, z) ∈ [("currentPlayers", players); ("maxPlayers", max);
                ("recentConnections", conns); ("recentRejections", rejections)] →
      reads_as (registry_body players max conns rejections version) k z)
  ∧ read_metrics (MetricsBody v) = map (λ f, [f.1; pretty f.2]) (metric_fields v) ++ [[""]].
Proof.
  split_and!; [| |apply MetricsBody_readable].
  - intros Hin. rewrite HealthBody_object. apply object_number.
    + apply (keys_ok (health_fields v).*1); [reflexivity|].
      apply list_elem_of_fmap. by exists (k, z).
    + apply (bool_decide_unpack _). reflexivity.
    + constructor; [split; [by compute_done|right; exists "ok"; by split; [|compute_done]]|].
      apply nums_plain. reflexivity.
    + right. apply list_elem_of_fmap. by exists (k, z).
  - intros players max conns rejections version Hv Hin.
    assert (registry_body players max conns rejections version
      = object_text [("currentPlayers", pretty players); ("maxPlayers", pretty max);
          ("version", quoted version); ("recentConnections", pretty conns);
          ("recentRejections", pretty rejections)]) as ->.
    { unfold registry_body, object_text. cbn [fields_text]. by rewrite !str_app_assoc. }
    apply object_number.
    + apply (keys_ok ["currentPlayers"; "maxPlayers"; "recentConnections"; "recentRejections"]); [reflexivity|].
      set_solver.
    + apply (bool_decide_unpack _). reflexivity.
    + repeat (apply Forall_cons; split;
        [split; [compute_done|first [apply pretty_Z_plain|right; by exists version]]|]).
      apply Forall_nil_2.
    + set_solver.
Qed.

End texts.
