(* ===== verification/HealthServer.v ===== *)
(** * The health server

    Models [Utils/HealthServer.h] and [Utils/HealthServer.cpp]: one thread that
    accepts a connection at a time, reads once, answers and closes.  The sockets
    and what arrives on them are given by the environment. *)
From Stdlib Require Import Ascii.
From S2P Require Import Prelude Strings Platform Protobuf Config AuthService ServerCore Reports.
Local Open Scope Z_scope.

Definition crlf : string := String "013"%char (String "010"%char "").

(** [request.rfind(prefix, 0) == 0]. *)
Definition starts_with (prefix s : string) : bool := String.prefix prefix s.

Definition response (contentType body : string) : string :=
  "HTTP/1.1 200 OK" +:+ crlf
  +:+ "Content-Type: " +:+ contentType +:+ crlf
  +:+ "Content-Length: " +:+ pretty (Z.of_nat (String.length body)) +:+ crlf
  +:+ "Connection: close" +:+ crlf
  +:+ crlf +:+ body.

(** The body without a callback. *)
Definition no_health : string := "{" +:+ quoted "status" +:+ ":" +:+ quoted "ok" +:+ "}".

(** The type and body of the answer; a callback is [None] when it is empty. *)
Definition page (healthFn metricsFn : option string) (request : string) : string * string :=
  if starts_with "GET /metrics" request
  then ("text/plain; version=0.0.4", default "" metricsFn)
  else ("application/json", default no_health healthFn).

Definition answer (healthFn metricsFn : option string) (request : string) : string :=
  let '(contentType, body) := page healthFn metricsFn request in response contentType body.

(** ** The server *)

(** [m_thread] says whether the thread is joinable; [closed] and [sent] are the
    history. *)
Record HealthServer := mkHealthServer {
  m_listenSocket : option Z; m_running : bool; m_thread : bool;
  closed : list Z; sent : list (Z * string) }.

Definition HealthServer_new : HealthServer := mkHealthServer None false false [] [].

(** [sock] is the new socket, if one could be made, and [bound] whether [bind]
    and [listen] succeed. *)
Definition Start (sock : option Z) (bound : bool) (s : HealthServer) : HealthServer :=
  match sock with
  | None => mkHealthServer None true (m_thread s) (closed s) (sent s)
  | Some k =>
      if bound then mkHealthServer (Some k) true true (closed s) (sent s)
      else mkHealthServer None true (m_thread s) (closed s ++ [k]) (sent s)
  end.

(** The thread leaves its loop once [m_running] is false; [Stop] joins it. *)
Definition Stop (s : HealthServer) : HealthServer :=
  if m_running s then
    mkHealthServer None false false (closed s ++ option_list (m_listenSocket s)) (sent s)
  else s.

(** One turn of [WorkerLoop]: [client] is the accepted socket, if any, and
    [received] what one [recv] of at most 1023 bytes returns, if anything. *)
Definition WorkerTurn (healthFn metricsFn : option string) (client : option Z)
    (received : option string) (s : HealthServer) : HealthServer :=
  if m_thread s && m_running s then
    match client with
    | None => s
    | Some c =>
        let request := default "" received in
        mkHealthServer (m_listenSocket s) (m_running s) (m_thread s) (closed s ++ [c])
          (sent s ++ [(c, answer healthFn metricsFn request)])
    end
  else s.

(** The thread of a server in the states [vs]: what it answers depends on the
    state at that time. *)
Section serving.
Context `{Platform, PbRuntime}.

Record Turn := mkTurn { t_server : Server; t_client : option Z; t_received : option string }.

Definition turn (t : Turn) (s : HealthServer) : HealthServer :=
  WorkerTurn (Some (HealthBody (t_server t))) (Some (MetricsBody (t_server t)))
    (t_client t) (t_received t) s.

Definition turns (ts : list Turn) (s : HealthServer) : HealthServer := foldl (flip turn) s ts.

(** The clients and what they get. *)
Definition answers (ts : list Turn) : list (Z * string) :=
  omap (λ t, c ← t_client t;
    Some (c, answer (Some (HealthBody (t_server t))) (Some (MetricsBody (t_server t)))
               (default "" (t_received t)))) ts.

Lemma turns_running ts s :
  m_thread s = true → m_running s = true →
  turns ts s = mkHealthServer (m_listenSocket s) true true (closed s ++ (answers ts).*1)
                 (sent s ++ answers ts).
Proof.
  revert s. induction ts as [|t ts IH]; intros s Ht Hr.
  - simpl. rewrite !app_nil_r. destruct s; simpl in *; by subst.
  - simpl. destruct s as [l r th cl se]; simpl in *; subst.
    destruct (t_client t) as [c|] eqn:Ec.
    + assert (turn t (mkHealthServer l true true cl se) = mkHealthServer l true true (cl ++ [c])
        (se ++ [(c, answer (Some (HealthBody (t_server t))) (Some (MetricsBody (t_server t)))
                      (default "" (t_received t)))])) as -> by (unfold turn, WorkerTurn; by rewrite Ec).
      rewrite IH by done. simpl. by rewrite <- !app_assoc.
    + assert (turn t (mkHealthServer l true true cl se) = mkHealthServer l true true cl se) as ->
        by (unfold turn, WorkerTurn; by rewrite Ec).
      by rewrite IH.
Qed.

(** C33. The health server answers every connection it accepts once, with the
    numbers of the moment, and closes it; nothing is leaked: after [Stop], which
    is effective once, the sockets closed are the accepted ones and the listening
    one, each once.  If it could not listen, it serves nobody and [Stop] has
    nothing left to close. *)
Theorem HealthServer_run sock bound ts :
  let s := Stop (turns ts (Start sock bound HealthServer_new)) in
  let listening := bound && bool_decide (is_Some sock) in
  sent s = (if listening then answers ts else [])
  ∧ closed s = (if listening then (answers ts).*1 else []) ++ option_list sock
  ∧ m_running s = false ∧ m_thread s = false ∧ m_listenSocket s = None ∧ Stop s = s.
Proof.
  assert (Hid : ∀ s, m_thread s = false → turns ts s = s).
  { induction ts as [|t ts' IH]; intros s Hs; [done|]. simpl.
    assert (turn t s = s) as -> by (unfold turn, WorkerTurn; by rewrite Hs). by apply IH. }
  destruct sock as [k|]; [destruct bound|]; simpl.
  - rewrite turns_running by done. by split_and!.
  - rewrite Hid by done. by split_and!.
  - rewrite Hid by done. destruct bound; by split_and!.
Qed.
End serving.

(** ** Reading an answer *)

(** A text of which no piece starts a given pattern, whatever follows. *)
Fixpoint clash (p s : string) : bool :=
  match p, s with
  | String a p, String b s => if decide (a = b) then clash p s else true
  | _, _ => false
  end.
Fixpoint clashes (p s : string) : bool :=
  match s with
  | EmptyString => true
  | String _ s' => clash p s && clashes p s'
  end.

Lemma clash_prefix p s t : clash p s = true → String.prefix p (s +:+ t) = false.
Proof.
  revert s. induction p as [|a p IH]; intros [|b s]; cbn [clash]; try done.
  rewrite str_app_cons. case_decide as E; [|by intros _; apply prefix_ne].
  subst. intros Hc. rewrite prefix_eq. by apply IH.
Qed.

Lemma find_clashes p s t :
  clashes p s = true → str_find p (s +:+ t) = (λ n, String.length s + n)%nat <$> str_find p t.
Proof.
  induction s as [|c s IH]; intros Hc.
  - rewrite str_app_nil. destruct (str_find p t); reflexivity.
  - apply andb_true_iff in Hc as [Hc Hs]. pose proof (clash_prefix _ _ t Hc) as Hp.
    rewrite str_app_cons in *. cbn [str_find]. rewrite Hp, IH by done.
    destruct (str_find p t); reflexivity.
Qed.

(** A pattern that starts with a character the text does not have. *)
Lemma clashes_free c p s : free_of c s → clashes (String c p) s = true.
Proof.
  induction s as [|d s IH]; intros Hs; [done|]. apply Forall_cons in Hs as [Hd Hs].
  cbn [clashes clash]. rewrite decide_False by congruence. by apply IH.
Qed.

Lemma find_here p t : str_find p (p +:+ t) = Some 0%nat.
Proof. pose proof (prefix_app p t) as Hp. unfold str_find. destruct (p +:+ t); by rewrite Hp. Qed.

(** The body of a message: what follows the first empty line. *)
Definition http_body (r : string) : option string :=
  n ← str_find (crlf +:+ crlf) r; Some (str_drop (n + 4) r).

(** The text after a header's name and colon. *)
Definition http_header (name r : string) : option string :=
  let line := crlf +:+ name +:+ ": " in
  n ← str_find line r; Some (str_drop (n + String.length line) r).

Definition content_types : list string := ["text/plain; version=0.0.4"; "application/json"].

(** The head of a response up to its first header's value, and up to the length. *)
Definition status_line : string := "HTTP/1.1 200 OK".
Definition head_text (contentType : string) : string :=
  status_line +:+ crlf +:+ "Content-Type: " +:+ contentType.

Lemma response_split ct body :
  response ct body
  = head_text ct +:+ (crlf +:+ "Content-Length: ") +:+ pretty (Z.of_nat (String.length body))
    +:+ (crlf +:+ "Connection: close") +:+ (crlf +:+ crlf) +:+ body.
Proof. unfold response, head_text, status_line. by rewrite !str_app_assoc. Qed.

Lemma http_header_here name pre v :
  clashes (crlf +:+ name +:+ ": ") pre = true →
  http_header name (pre +:+ (crlf +:+ name +:+ ": ") +:+ v) = Some v.
Proof.
  intros Hc. unfold http_header. rewrite find_clashes by done. rewrite find_here.
  cbn [fmap option_fmap option_map mbind option_bind].
  by rewrite Nat.add_0_r, str_drop_more, str_drop_app.
Qed.

Lemma response_body ct body : ct ∈ content_types → http_body (response ct body) = Some body.
Proof.
  intros Hct. rewrite response_split. unfold http_body.
  set (p := crlf +:+ crlf). set (n := pretty (Z.of_nat (String.length body))).
  assert (Hn : clashes p n = true) by (by apply clashes_free, pretty_Z_free).
  assert (Hh : clashes p (head_text ct +:+ (crlf +:+ "Content-Length: ")) = true).
  { unfold content_types in Hct. repeat (apply elem_of_cons in Hct as [->|Hct]; [reflexivity|]).
    by apply elem_of_nil in Hct. }
  rewrite <- (str_app_assoc (head_text ct)). rewrite find_clashes by done.
  rewrite find_clashes by done. rewrite (find_clashes p (crlf +:+ "Connection: close")) by reflexivity.
  rewrite find_here. cbn [fmap option_fmap option_map mbind option_bind]. f_equal.
  rewrite Nat.add_0_r, <- !Nat.add_assoc, !str_drop_more. apply (str_drop_app p body).
Qed.

Lemma pretty_Z_of_N (n : N) : pretty (Z.of_N n) = pretty n.
Proof. by destruct n. Qed.

(** C34. Any HTTP client can read the answer: it is a successful response whose
    [Content-Length] is the length of the body and whose body, after the first
    empty line, is the page: the metrics for a request that begins with
    [GET /metrics], the health for every other one, even none. *)
Theorem answer_readable healthFn metricsFn request :
  let r := answer healthFn metricsFn request in
  let body := (page healthFn metricsFn request).2 in
  starts_with (status_line +:+ crlf) r = true
  ∧ http_body r = Some body
  ∧ (∃ rest, http_header "Content-Length" r = Some rest
       ∧ read_digits (λ v d, v * 10 + d) 0 rest = (Z.of_nat (String.length body), true))
  ∧ (∃ rest, http_header "Content-Type" r
       = Some ((page healthFn metricsFn request).1 +:+ crlf +:+ rest))
  ∧ body = if starts_with "GET /metrics" request then default "" metricsFn
           else default no_health healthFn.
Proof.
  unfold answer. assert (Hct : (page healthFn metricsFn request).1 ∈ content_types).
  { unfold page, content_types. case_match; set_solver. }
  assert (Hb : (page healthFn metricsFn request).2 = if starts_with "GET /metrics" request
    then default "" metricsFn else default no_health healthFn) by (unfold page; by case_match).
  destruct (page healthFn metricsFn request) as [ct body]. cbv zeta. cbn [fst snd] in *.
  assert (Hcl : clashes (crlf +:+ "Content-Length" +:+ ": ") (head_text ct) = true).
  { unfold content_types in Hct. repeat (apply elem_of_cons in Hct as [->|Hct]; [reflexivity|]).
    by apply elem_of_nil in Hct. }
  split_and!; [|by apply response_body| | |done].
  - unfold response, starts_with. rewrite <- (str_app_assoc "HTTP/1.1 200 OK"). apply prefix_app.
  - rewrite response_split.
    change (crlf +:+ "Content-Length: ") with (crlf +:+ "Content-Length" +:+ ": ").
    eexists. split; [by apply http_header_here|].
    rewrite <- nat_N_Z, pretty_Z_of_N.
    apply (read_pretty _ (Z.of_N (N.of_nat (String.length body)))); [done|lia|reflexivity].
  - pose proof (http_header_here "Content-Type" status_line) as Hh. unfold response.
    eexists. rewrite <- Hh by reflexivity. f_equal.
Qed.
