(* ===== verification/Lifecycle.v ===== *)
(** * Starting and stopping

    Models the set-up and tear-down of [Core/ServerCore.cpp] and [main.cpp].  The
    first part is [ServerCore::Init] and the destructor of a server that was not
    started, with the resources they acquire and release.  The second part is the
    threads: [ServerCore::Start], the loops of the five kinds of threads,
    [ServerCore::Stop], the destructor with the destruction of the thread members,
    and the end of [main], as a step relation; [Stop] may also be called by a thread
    that the program does not have. *)
From S2P Require Import Prelude Platform Config AuthPool HealthServer.
Local Open Scope Z_scope.

(** ** Resources *)

(** [m_hIOCP]: [INVALID_HANDLE_VALUE], [NULL] or a handle. *)
Inductive IoHandle := HInvalid | HNull | HOpen (k : Z).

#[export] Instance IoHandle_eq_dec : EqDecision IoHandle.
Proof. solve_decision. Defined.

(** What the calls of [Init] return: a socket or handle if there is one. *)
Record InitOutcome := mkInitOutcome {
  o_wsa : bool; o_listen : option Z; o_bind : bool; o_backlog : bool; o_iocp : option Z;
  o_associate : bool; o_acceptEx : bool; o_health : option Z; o_health_bound : bool }.

(** The server's resources: [wsa_startups] are the successful calls of
    [WSAStartup], [wsa_cleanups] the calls of [WSACleanup], [logging] is the flag
    of the logger; the lists are the history. *)
Record Core := mkCore {
  m_listenSocket : option Z; m_hIOCP : IoHandle; m_acceptExFn : bool; handlers : bool;
  m_healthServer : HealthServer; auth : @AuthState nat;
  wsa_startups : nat; wsa_cleanups : nat; logging : bool;
  closed_sockets : list Z; closed_handles : list IoHandle }.

Definition Core_new : Core :=
  mkCore None HInvalid false false HealthServer_new AuthState_new 0 0 true [] [].

Definition wsa_started (c : Core) : Core :=
  mkCore (m_listenSocket c) (m_hIOCP c) (m_acceptExFn c) (handlers c) (m_healthServer c) (auth c)
    (S (wsa_startups c)) (wsa_cleanups c) (logging c) (closed_sockets c) (closed_handles c).

Definition set_listen (k : Z) (c : Core) : Core :=
  mkCore (Some k) (m_hIOCP c) (m_acceptExFn c) (handlers c) (m_healthServer c) (auth c)
    (wsa_startups c) (wsa_cleanups c) (logging c) (closed_sockets c) (closed_handles c).
Definition set_iocp (h : IoHandle) (c : Core) : Core :=
  mkCore (m_listenSocket c) h (m_acceptExFn c) (handlers c) (m_healthServer c) (auth c)
    (wsa_startups c) (wsa_cleanups c) (logging c) (closed_sockets c) (closed_handles c).

(** The services [Init] starts at its end. *)
Definition start_services (o : InitOutcome) (cfg : ServerConfig) (c : Core) : Core :=
  mkCore (m_listenSocket c) (m_hIOCP c) true true
    (HealthServer.Start (o_health o) (o_health_bound o) (m_healthServer c))
    (AuthPool.Start (Z.to_nat (authWorkerCount cfg)) (auth c))
    (wsa_startups c) (wsa_cleanups c) (logging c) (closed_sockets c) (closed_handles c).

Definition Init (o : InitOutcome) (cfg : ServerConfig) (c : Core) : bool * Core :=
  if negb (o_wsa o) then (false, c)
  else
    let c := wsa_started c in
    match o_listen o with
    | None => (false, c)
    | Some k =>
        let c := set_listen k c in
        if negb (o_bind o) then (false, c)
        else if negb (o_backlog o) then (false, c)
        else
          match o_iocp o with
          | None => (false, set_iocp HNull c)
          | Some h =>
              let c := set_iocp (HOpen h) c in
              if negb (o_associate o) then (false, c)
              else if negb (o_acceptEx o) then (false, c)
              else (true, start_services o cfg c)
          end
    end.

(** The stop signal of [AuthService::Stop]; what follows it is in [AuthPool]. *)
Definition auth_stopped (s : @AuthState nat) : AuthState :=
  if AuthPool.m_running s then clear_running s else s.

(** The destructor when no thread was started. *)
Definition destroy (c : Core) : Core :=
  mkCore (m_listenSocket c) (m_hIOCP c) (m_acceptExFn c) (handlers c)
    (HealthServer.Stop (m_healthServer c)) (auth_stopped (auth c))
    (wsa_startups c) (S (wsa_cleanups c)) false
    (closed_sockets c ++ option_list (m_listenSocket c))
    (closed_handles c ++ (if decide (m_hIOCP c = HInvalid) then [] else [m_hIOCP c])).

(** [main] up to [ServerCore::Start], or to its end when [Init] fails: whether the
    server is started, the configuration, and its resources.  [file] is the
    content of [server.cfg], [envApiKey] the variable [GAME_SERVER_API_KEY]. *)
Definition main_init (envApiKey : option string) (file : option (list string)) (o : InitOutcome)
    : bool * ServerConfig * Core :=
  let cfg := (Load envApiKey file ∅ ServerConfig_default).2 in
  let '(ok, server) := Init o cfg Core_new in
  (ok, cfg, if ok then server else destroy server).

(** Without the file the variable is not looked at: the API key is empty.  With
    an empty file it is. *)
Example env_key_without_file key o :
  gameServerApiKey (main_init (Some key) None o).1.2 = ""%string
  ∧ gameServerApiKey (main_init (Some key) (Some []) o).1.2 = key.
Proof. unfold main_init. split; by repeat case_match. Qed.

(** How far [Init] gets. *)
Definition listens (o : InitOutcome) : bool :=
  o_wsa o && bool_decide (is_Some (o_listen o)) && o_bind o && o_backlog o.
Definition succeeds (o : InitOutcome) : bool :=
  listens o && bool_decide (is_Some (o_iocp o)) && o_associate o && o_acceptEx o.

(** C31. Initialisation is all or nothing: it succeeds exactly if every call does,
    and only then are the handlers registered, the health server listening for
    requests and the validation threads started.  Whatever failed, the destructor
    closes each socket and handle that was acquired, once, and stops what was
    started.  It does two things more: it closes [NULL] when the completion port
    could not be made, because [NULL] is not [INVALID_HANDLE_VALUE], and it calls
    [WSACleanup] even when [WSAStartup] failed. *)
Theorem Init_releases o cfg :
  let '(r, c) := Init o cfg Core_new in
  let c' := destroy c in
  r = succeeds o ∧ handlers c = r ∧ m_acceptExFn c = r
  ∧ AuthPool.m_running (auth c) = r ∧ HealthServer.m_running (m_healthServer c) = r
  ∧ threads (auth c) = (if r then replicate (Z.to_nat (authWorkerCount cfg)) WLock else [])
  ∧ closed_sockets c = [] ∧ closed_handles c = [] ∧ wsa_cleanups c = 0%nat
  ∧ closed_sockets c' = (if o_wsa o then option_list (o_listen o) else [])
  ∧ closed (m_healthServer c') = (if r then option_list (o_health o) else [])
  ∧ closed_handles c' = (if listens o then [from_option HOpen HNull (o_iocp o)] else [])
  ∧ wsa_startups c' = (if o_wsa o then 1%nat else 0%nat) ∧ wsa_cleanups c' = 1%nat
  ∧ AuthPool.m_running (auth c') = false ∧ HealthServer.m_running (m_healthServer c') = false
  ∧ logging c' = false.
Proof.
  unfold Init, succeeds, listens.
  destruct o as [[] [k|] [] [] [h|] [] [] [hs|] []]; vm_compute; by split_and!.
Qed.

(** ** Threads *)

(** The number of workers; [hw] is [hardware_concurrency()]. *)
Definition threadCount (hw workerThreadMultiplier : Z) : Z :=
  let n := i32 (i32 hw * workerThreadMultiplier) in if decide (n <= 0) then 4 else n.

Lemma threadCount_pos hw m : 1 ≤ threadCount hw m.
Proof. unfold threadCount. case_decide; lia. Qed.

(** A worker waits for completions or has left its loop.  (Completions of I/O
    leave it in the loop: [ServerCore.handle_event].) *)
Inductive WorkerThread := Serving | Left.
#[export] Instance WorkerThread_eq_dec : EqDecision WorkerThread.
Proof. solve_decision. Defined.

Inductive LoopThread := TickLoop | HeartbeatLoop | StatsLoop | RegistryLoop.
#[export] Instance LoopThread_eq_dec : EqDecision LoopThread.
Proof. solve_decision. Defined.

(** A thread that repeats its body while [m_running]: not started, about to test,
    in its body, or out. *)
Inductive LoopPc := LNone | LTest | LBody | LOut.
#[export] Instance LoopPc_eq_dec : EqDecision LoopPc.
Proof. solve_decision. Defined.

(** A call of [Stop]: at the exchange, posting the [k] remaining null
    completions, joining the remaining threads, or returned. *)
Inductive StopPc := SNone | SExchange | SPost (k : nat) | SJoin (ts : list LoopThread) | SReturned.

(** Who calls it: the destructor, or some other thread. *)
Inductive Caller := Main | Other.
#[export] Instance Caller_eq_dec : EqDecision Caller.
Proof. solve_decision. Defined.

(** The main thread: before [Start]; creating the workers; creating the other
    threads; joining the [i]-th worker; in the destructor: in [Stop], joining the
    registry thread, destroying the remaining thread members, and at the end.  The
    destructor of a thread that is still joinable calls [std::terminate]. *)
Inductive MainPc :=
  | MBegin | MSpawn (k : nat) | MLoops (ts : list LoopThread) | MJoin (i : nat)
  | MStop | MRegistry | MMembers (ts : list LoopThread) | MEnd | MTerminate (t : LoopThread).

(** The thread members, in the order in which they are destroyed. *)
Definition members : list LoopThread := [RegistryLoop; StatsLoop; HeartbeatLoop; TickLoop].

(** [joinable] is that of the members; the workers are joined by [Start]. *)
Record Life := mkLife {
  m_running : bool; main : MainPc; workers : list WorkerThread; nulls : nat;
  loops : LoopThread → LoopPc; joinable : LoopThread → bool; stops : Caller → StopPc }.

Definition Life_new : Life :=
  mkLife false MBegin [] 0 (λ _, LNone) (λ _, false) (λ _, SNone).

Definition set_main (p : MainPc) (s : Life) : Life :=
  mkLife (m_running s) p (workers s) (nulls s) (loops s) (joinable s) (stops s).
Definition set_loop (t : LoopThread) (p : LoopPc) (s : Life) : Life :=
  mkLife (m_running s) (main s) (workers s) (nulls s) (<[t := p]> (loops s)) (joinable s) (stops s).
Definition set_stop (c : Caller) (p : StopPc) (s : Life) : Life :=
  mkLife (m_running s) (main s) (workers s) (nulls s) (loops s) (joinable s) (<[c := p]> (stops s)).

Definition set_joinable (t : LoopThread) (j : bool) (s : Life) : Life :=
  mkLife (m_running s) (main s) (workers s) (nulls s) (loops s) (<[t := j]> (joinable s)) (stops s).

Section threads.
(** The number of workers [Start] makes. *)
Context (n : nat).

Inductive thread_step : Life → Life → Prop :=
  (** [Start]. *)
  | start s :
      main s = MBegin →
      thread_step s (mkLife true (MSpawn n) (workers s) (nulls s) (loops s) (joinable s) (stops s))
  | start_worker s k :
      main s = MSpawn (S k) →
      thread_step s (mkLife (m_running s) (MSpawn k) (workers s ++ [Serving]) (nulls s)
                     (loops s) (joinable s) (stops s))
  | start_workers s :
      main s = MSpawn 0 →
      thread_step s (set_main (MLoops [TickLoop; HeartbeatLoop; StatsLoop; RegistryLoop]) s)
  | start_loop s t ts :
      main s = MLoops (t :: ts) →
      thread_step s (set_main (MLoops ts) (set_joinable t true (set_loop t LTest s)))
  | start_accept s :
      main s = MLoops [] → thread_step s (set_main (MJoin 0) s)
  | start_join s i :
      main s = MJoin i → workers s !! i = Some Left → thread_step s (set_main (MJoin (S i)) s)
  (** [Start] returns, and the destructor begins with [Stop]. *)
  | start_return s i :
      main s = MJoin i → i = length (workers s) →
      thread_step s (set_main MStop (set_stop Main SExchange s))
  | dtor_stopped s :
      main s = MStop → stops s Main = SReturned → thread_step s (set_main MRegistry s)
  | dtor_registry s :
      main s = MRegistry → joinable s RegistryLoop = true → loops s RegistryLoop = LOut →
      thread_step s (set_main (MMembers members) (set_joinable RegistryLoop false s))
  | dtor_no_registry s :
      main s = MRegistry → joinable s RegistryLoop = false →
      thread_step s (set_main (MMembers members) s)
  | dtor_member s t ts :
      main s = MMembers (t :: ts) →
      thread_step s (set_main (if joinable s t then MTerminate t else MMembers ts) s)
  | dtor_end s :
      main s = MMembers [] → thread_step s (set_main MEnd s)
  (** A worker dequeues a null completion. *)
  | worker_null s i k :
      workers s !! i = Some Serving → nulls s = S k →
      thread_step s (mkLife (m_running s) (main s) (<[i := Left]> (workers s)) k (loops s) (joinable s) (stops s))
  | loop_test s t :
      loops s t = LTest → thread_step s (set_loop t (if m_running s then LBody else LOut) s)
  | loop_body s t :
      loops s t = LBody → thread_step s (set_loop t LTest s)
  (** [Stop]. *)
  | stop_exchange s c :
      stops s c = SExchange →
      thread_step s (set_stop c (if m_running s then SPost (length (workers s)) else SReturned)
        (mkLife false (main s) (workers s) (nulls s) (loops s) (joinable s) (stops s)))
  | stop_post s c k :
      stops s c = SPost (S k) →
      thread_step s (set_stop c (SPost k)
        (mkLife (m_running s) (main s) (workers s) (S (nulls s)) (loops s) (joinable s) (stops s)))
  | stop_posted s c :
      stops s c = SPost 0 →
      thread_step s (set_stop c (SJoin [TickLoop; HeartbeatLoop; StatsLoop]) s)
  | stop_join s c t ts :
      stops s c = SJoin (t :: ts) → joinable s t = true → loops s t = LOut →
      thread_step s (set_stop c (SJoin ts) (set_joinable t false s))
  | stop_skip s c t ts :
      stops s c = SJoin (t :: ts) → joinable s t = false →
      thread_step s (set_stop c (SJoin ts) s)
  | stop_return s c :
      stops s c = SJoin [] → thread_step s (set_stop c SReturned s).

(** After [std::terminate] nothing runs. *)
Definition terminated (s : Life) : bool := match main s with MTerminate _ => true | _ => false end.

Definition life_step (s s' : Life) : Prop := terminated s = false ∧ thread_step s s'.

(** Another thread calls [Stop] once everything is started. *)
Inductive stop_call : Life → Life → Prop :=
  | other_stop s i :
      main s = MJoin i → stops s Other = SNone → stop_call s (set_stop Other SExchange s).

(** The cases of a step. *)
Ltac life_cases Hs :=
  destruct Hs as [s Hm|s k Hm|s Hm|s t ts Hm|s Hm|s i Hm Hl|s i Hm Hl|s Hm Hst|s Hm Hj Ho|s Hm Hj
    |s t ts Hm|s Hm|s i k Hl Hk|s t Ht|s t Ht|s c Hc|s c k Hc|s c Hc|s c t ts Hc Hj Ho|s c t ts Hc Hj|s c Hc].

(** ** The program by itself *)

(** Nobody has stopped the server. *)
Record unstopped (s : Life) : Prop := {
  us_running : main s ≠ MBegin → m_running s = true;
  us_nulls : nulls s = 0%nat;
  us_workers : Forall (λ w, w = Serving) (workers s);
  us_stops : stops s = λ _, SNone;
  us_main : match main s with
            | MBegin => workers s = []
            | MSpawn k => (length (workers s) + k)%nat = n
            | MLoops _ | MJoin 0 => length (workers s) = n
            | _ => False
            end }.

Lemma unstopped_step s s' : (0 < n)%nat → unstopped s → thread_step s s' → unstopped s'.
Proof.
  intros Hn [H1 H2 H3 H4 H5] Hs.
  assert (Hw : ∀ i w, workers s !! i = Some w → w = Serving).
  { intros i w Hi. rewrite Forall_lookup in H3. by eapply H3. }
  assert (Hno : ∀ c, stops s c = SNone) by (by rewrite H4).
  life_cases Hs;
    try (by rewrite Hno in Hc); try rewrite Hm in *; try done.
  - split; simpl; [done..|]. by rewrite H5.
  - split; simpl; auto; [|rewrite length_app; simpl; lia].
    apply Forall_app. split; [done|]. by constructor.
  - split; simpl; auto; lia.
  - split; simpl; auto.
  - split; simpl; auto.
  - by apply Hw in Hl.
  - destruct i; [lia|done].
  - congruence.
Qed.

(** C30. Nothing in the program stops the server: from its start on, whatever the
    threads do, no worker ever leaves its loop, no null completion is posted and
    [main] stays in the [join] of the first worker.  [Stop] is called by the
    destructor only, and the destructor runs after the joins. *)
Theorem server_never_stops s :
  (0 < n)%nat → rtc life_step Life_new s →
  Forall (λ w, w = Serving) (workers s) ∧ nulls s = 0%nat
  ∧ main s ∉ [MStop; MRegistry; MEnd] ∧ (∀ ts, main s ≠ MMembers ts) ∧ (∀ t, main s ≠ MTerminate t)
  ∧ (∀ i, main s = MJoin i → i = 0%nat)
  ∧ (main s ≠ MBegin → m_running s = true).
Proof.
  intros Hn Hr. assert (unstopped s) as [H1 H2 H3 H4 H5].
  { revert Hr. apply rtc_invariant; [by split|]. intros a b Ha [_ Hs]. by eapply unstopped_step. }
  split_and!; [done|done| | | | |done].
  - intros Hin. repeat (apply elem_of_cons in Hin as [Hin|Hin]; [by rewrite Hin in H5|]).
    by apply elem_of_nil in Hin.
  - intros ts Hm. by rewrite Hm in H5.
  - intros t Hm. by rewrite Hm in H5.
  - intros i Hm. rewrite Hm in H5. by destruct i.
Qed.

(** ** Stopping *)



(** One step with or without a call of [Stop] by another thread. *)
Definition step s s' : Prop := life_step s s' ∨ stop_call s s'.



















(** *** Joining *)










(** *** The steps that are left *)















End threads.

(** ** Runs *)

(** One worker, everything started. *)
Definition demo_loops : LoopThread → LoopPc :=
  <[RegistryLoop := LTest]> (<[StatsLoop := LTest]> (<[HeartbeatLoop := LTest]>
    (<[TickLoop := LTest]> (λ _, LNone)))).
Definition demo_joinable : LoopThread → bool :=
  <[RegistryLoop := true]> (<[StatsLoop := true]> (<[HeartbeatLoop := true]>
    (<[TickLoop := true]> (λ _, false)))).
Definition demo_started : Life :=
  mkLife true (MJoin 0) [Serving] 0 demo_loops demo_joinable (λ _, SNone).

Lemma life_go n s s' s'' :
  terminated s = false → thread_step n s s' → rtc (step n) s' s'' → rtc (step n) s s''.
Proof. intros Ht Hs. apply rtc_l. by left. Qed.

(** One more step of a run. *)
Tactic Notation "life_run" uconstr(rule) := eapply life_go; [reflexivity|eapply rule; reflexivity|].

Lemma demo_started_reachable : rtc (life_step 1) Life_new demo_started.
Proof.
  eapply rtc_l; [by split; [|by apply start]|].
  eapply rtc_l; [by split; [|by apply (start_worker 1 _ 0)]|].
  eapply rtc_l; [by split; [|by apply start_workers]|].
  do 4 (eapply rtc_l; [by split; [|by eapply start_loop]|]).
  eapply rtc_l; [by split; [|by apply start_accept]|]. apply rtc_refl.
Qed.




(** But nothing waits for it.  When the last worker has left, [main] comes to the
    destructor; its own call of [Stop] finds the flag cleared and returns at once,
    the registry thread is joined, and then the destructor of the statistics thread,
    which is asleep, terminates the process. *)
Theorem Stop_can_terminate :
  ∃ s, rtc (step 1) Life_new s ∧ main s = MTerminate StatsLoop ∧ loops s StatsLoop = LBody
    ∧ stops s Other = SPost 0 ∧ ∀ s', ¬ step 1 s s'.
Proof.
  eexists. split.
  - etrans; [eapply rtc_subrel; [|exact demo_started_reachable]; by left|].
    life_run (loop_test 1 _ StatsLoop).
    eapply rtc_l; [right; by eapply other_stop|]. life_run (stop_exchange 1 _ Other).
    life_run (stop_post 1 _ Other). life_run (worker_null 1 _ 0).
    life_run start_join. life_run start_return. life_run (stop_exchange 1 _ Main).
    life_run dtor_stopped. life_run (loop_test 1 _ RegistryLoop). life_run dtor_registry.
    do 2 life_run dtor_member. apply rtc_refl.
  - split_and!; [reflexivity..|]. intros s' [[Ht _]|Hs]; [discriminate Ht|].
    inversion Hs as [? i Hm]. discriminate Hm.
Qed.

(** *** Witnesses *)

Lemma server_never_stops_witness :
  Forall (λ w, w = Serving) (workers demo_started) ∧ main demo_started = MJoin 0.
Proof.
  destruct (server_never_stops 1 demo_started) as (H & _);
    [apply Nat.lt_0_1|exact demo_started_reachable|]. split; [exact H|reflexivity].
Defined.

