(* ===== verification/ServerConn.v ===== *)
(** * Connections and received bytes

    The invariant of connections: what an outstanding receive relies on, and
    that the registry of sessions agrees with the sessions.  Every action of
    [ServerCore] on a connection keeps it, and what [HandleRecv] does with the
    bytes is exactly [serve] on the frames they complete. *)
From S2P Require Import Prelude Bytes Platform ObjectPool Packet RecvBuffer Protobuf PbRuntimeDemo PacketPb Session PacketTraits Config AuthService GameRoom PacketManager SessionManager RoomManager Logic TrafficPolicy ServerCore.
Local Open Scope Z_scope.

(** ** The invariant of connections *)

(** What a session's outstanding receive relies on: the posted window is the
    free space of its buffer. *)
Definition posted (x : Session) : Prop :=
  ∃ c, m_recvContext x = Some c ∧ wsaBuf_buf c = RecvBuf (m_head (m_recvBuffer x))
    ∧ wsaBuf_len c = GetWriteBufferSize (m_recvBuffer x).

Record conn_wf `{Platform} (w : World) : Prop := {
  cw_world : world_wf w;
  cw_bufs : ∀ t, rb_wf (m_recvBuffer (sess t (net w)));
  cw_pending : NoDup (rx_pending (net w));
  cw_posted : ∀ t, t ∈ rx_pending (net w) → posted (sess t (net w));
  cw_ids : ∀ id t, SessionManager.Find id (smgr w) = Some t → m_sessionId (sess t (net w)) = id }.

(** Actions that do not interfere with receiving. *)
Record quiet `{Platform} (w w' : World) : Prop := {
  q_buf : ∀ t, m_recvBuffer (sess t (net w')) = m_recvBuffer (sess t (net w));
  q_ctx : ∀ t, m_recvContext (sess t (net w')) = m_recvContext (sess t (net w));
  q_id : ∀ t, m_sessionId (sess t (net w')) = m_sessionId (sess t (net w));
  q_pending : rx_pending (net w') = rx_pending (net w);
  q_find : ∀ id t, SessionManager.Find id (smgr w') = Some t → SessionManager.Find id (smgr w) = Some t;
  q_next : m_nextSessionId (smgr w') = m_nextSessionId (smgr w);
  q_cfg : cfg w' = cfg w }.

#[export] Instance quiet_preorder `{Platform} : PreOrder quiet.
Proof.
  split; [by intros w; split|]. intros w1 w2 w3 [] [].
  split; intros; try congruence; eauto.
Qed.

(** Only the first [k] sessions exist as far as the world knows. *)
Record within `{Platform} (k : nat) (w : World) : Prop := {
  wi_pending : ∀ t, t ∈ rx_pending (net w) → (t < k)%nat;
  wi_find : ∀ id t, SessionManager.Find id (smgr w) = Some t → (t < k)%nat;
  wi_next : m_nextSessionId (smgr w) ≤ Z.of_nat k + 1 }.

Section safety.
Context `{Platform, PbRuntime}.
Implicit Types (w : World) (s : nat) (v : Server).

Lemma conn_quiet w w' : conn_wf w → quiet w w' → world_wf w' → conn_wf w'.
Proof.
  intros [] [] Hw. split; [done|..].
  - intros t. by rewrite q_buf0.
  - by rewrite q_pending0.
  - intros t. rewrite q_pending0. intros (c & E & Hb & Hl)%cw_posted0. exists c.
    by rewrite q_ctx0, q_buf0.
  - intros id t Hid. rewrite q_id0. by apply cw_ids0, q_find0.
Qed.

Lemma plays_quiet w w' :
  plays (net w) (net w') → smgr w' = smgr w → cfg w' = cfg w → quiet w w'.
Proof.
  intros Hp Hm Hc. split; [| | |apply Hp|by rewrite Hm|by rewrite Hm|done]; intros t;
    by apply (plays_field _ (net w) (net w')).
Qed.

Lemma handles_quiet P w w' : handles P w w' → quiet w w'.
Proof. intros []. by apply plays_quiet. Qed.

Lemma stats_ok f w : world_wf w → world_wf (on_stats f w) ∧ quiet w (on_stats f w).
Proof. intros [? ? [] ?]. by split; split. Qed.

Lemma clock_ok w n :
  world_wf w → sessions n = sessions (net w) → pool n = pool (net w) →
  inflight n = inflight (net w) → rx_pending n = rx_pending (net w) →
  world_wf (with_net n w) ∧ quiet w (with_net n w).
Proof.
  intros [HR Hl [Hp Hb] Hm] Es Ep Ei Er. split; split; simpl; try done; unfold sess; try by rewrite Es.
  - intros s r. unfold sess. rewrite Es. apply Hl.
  - split; [by rewrite Ep, Ei|]. unfold bufs_ok. by rewrite Ep.
Qed.

(** Changing a session other than in its room. *)
Lemma upd_ok s f w :
  world_wf w → (∀ x, m_room (f x) = m_room x) →
  world_wf (with_net (upd_session s f (net w)) w).
Proof.
  intros [HR Hl Hn Hm] Hf. split; simpl; try done; [|by apply net_wf_upd].
  intros t r. rewrite sess_upd_dec. case_decide; [rewrite Hf|]; apply Hl.
Qed.

Lemma upd_quiet s f w :
  (∀ x, m_recvBuffer (f x) = m_recvBuffer x ∧ m_recvContext (f x) = m_recvContext x
        ∧ m_sessionId (f x) = m_sessionId x) →
  quiet w (with_net (upd_session s f (net w)) w).
Proof. intros Hf. split; simpl; try done; intros t; rewrite sess_upd_dec; case_decide; try done; apply Hf. Qed.

Lemma HandleDisconnect_safe s w :
  conn_wf w → ∃ w', HandleDisconnect s w = Some w' ∧ conn_wf w' ∧ quiet w w'.
Proof.
  intros Hc. unfold HandleDisconnect. destruct (Disconnect s (net w)) as [first n] eqn:E.
  pose proof (Disconnect_sends s (net w)) as Hs. pose proof (Disconnect_wf s (net w)) as Hwf.
  pose proof (Disconnect_posts (λ _, True) s (net w) I) as Hp.
  rewrite E in Hs, Hwf, Hp. cbn [snd] in *.
  destruct (with_net_ok (λ _, True) w n Hs) as [Hw1 Hh1]; [done|apply Hwf, Hc|apply Hc|].
  assert (Hq1 : quiet w (with_net n w)) by (by eapply handles_quiet).
  destruct first; cbn [negb].
  2:{ eexists. split_and!; [done|by eapply conn_quiet|done]. }
  set (w1 := with_net n w) in *.
  destruct (stats_ok dec_currentConnections w1 Hw1) as [Hw2 Hq2].
  set (w2 := on_stats _ w1) in *. set (id := m_sessionId _).
  set (w3 := with_smgr (Remove id (smgr w2)) w2).
  assert (Hw3 : world_wf w3) by (destruct Hw2; split; simpl; try done; by apply Remove_wf).
  assert (Hq3 : quiet w2 w3).
  { split; simpl; try done. intros k t. rewrite Find_Remove. by case_decide. }
  assert (Hq : quiet w w3) by (etrans; [exact Hq1|]; etrans; [exact Hq2|exact Hq3]).
  destruct (GetRoom s (net w3)) as [r|] eqn:Er.
  2:{ eexists. split_and!; [done|by eapply conn_quiet|done]. }
  set (w4 := with_net (upd_session s (SetRoom None) (net w3)) w3).
  assert (Hw4 : world_wf w4).
  { destruct Hw3 as [HR Hl Hn Hm]. split; simpl; try done; [|by apply net_wf_upd].
    intros t a. rewrite sess_upd_dec. case_decide; [done|]. apply Hl. }
  assert (Hq4 : quiet w3 w4) by (by apply upd_quiet).
  destruct (safe_push_job (λ _, True) s r (JLeave s) w4) as (w' & E' & Hw' & Hh'); [auto..|].
  { apply (GetRoom_alive s r w3 Hw3 Er). }
  exists w'. assert (quiet w w') by (etrans; [exact Hq|]; etrans; [exact Hq4|by eapply handles_quiet]).
  split_and!; [done|by eapply conn_quiet|done].
Qed.

Lemma PostRecv_safe s w :
  conn_wf w → s ∉ rx_pending (net w) → is_Some (m_recvContext (sess s (net w))) →
  ∃ w', PostRecv s w = Some w' ∧ conn_wf w'.
Proof.
  intros Hc Hs [c Ec]. unfold PostRecv. destruct (IsDisconnected s (net w)); [by exists w|].
  rewrite Ec. pose proof (GetWriteBufferPtr_spec _ (cw_bufs _ Hc s)) as Hb.
  destruct (GetWriteBufferPtr _) as [off b']. destruct Hb as (-> & Hb' & _ & _).
  set (w1 := with_net (upd_session s (set_recvBuffer b') (net w)) w).
  set (w2 := with_net (upd_session s (set_recvContext _) (net w1)) w1).
  assert (Hw2 : world_wf w2).
  { apply (upd_ok s _ w1); [|done]. apply (upd_ok s _ w); [apply Hc|done]. }
  assert (Hsess : ∀ t, t ≠ s → sess t (net w2) = sess t (net w)).
  { intros t Ht. unfold w2, w1. simpl. by rewrite !sess_upd_ne. }
  assert (Hposted : posted (sess s (net w2)) ∧ m_recvBuffer (sess s (net w2)) = b').
  { unfold w2, w1. simpl. rewrite !sess_upd. split; [|done]. by eexists. }
  assert (Hid : ∀ t, m_sessionId (sess t (net w2)) = m_sessionId (sess t (net w))).
  { intros t. unfold w2, w1. simpl. rewrite !sess_upd_dec. by case_decide; subst. }
  set (pend := if wsa_recv (n_recvs (net w2)) then rx_pending (net w2) ++ [s]
               else rx_pending (net w2)).
  assert (Hc' : conn_wf (WSARecv s w2).2).
  { destruct Hc as [_ Hbufs Hnd Hpost Hids]. split.
    - unfold WSARecv. simpl. by destruct Hw2 as [? ? [] ?]; split; try done.
    - intros t. change (rb_wf (m_recvBuffer (sess t (net w2)))).
      destruct (decide (t = s)) as [->|Ht]; [by rewrite (proj2 Hposted)|by rewrite Hsess].
    - simpl. case_match; [|done]. apply NoDup_app. split_and!; [done| |apply NoDup_singleton].
      intros t Ht Hin. apply list_elem_of_singleton in Hin. congruence.
    - intros t Ht. change (posted (sess t (net w2))).
      destruct (decide (t = s)) as [->|Hne]; [apply Hposted|].
      rewrite Hsess by done. apply Hpost. simpl in Ht. case_match; [|done].
      apply elem_of_app in Ht as [Ht|Ht]; [done|]. by apply list_elem_of_singleton in Ht.
    - intros id t Hf. change (m_sessionId (sess t (net w2)) = id). rewrite Hid. by apply Hids. }
  destruct (WSARecv s w2) as [r w3] eqn:E. cbn [snd] in Hc'.
  destruct r; [by exists w3|].
  destruct (HandleDisconnect_safe s w3 Hc') as (w' & E' & Hc'' & _). by exists w'.
Qed.
Lemma within_quiet k w w' : quiet w w' → within k w → within k w'.
Proof.
  intros Hq [Hp Hf Hn]. split.
  - by rewrite (q_pending _ _ Hq).
  - intros id t Hid%(q_find _ _ Hq). by eapply Hf.
  - by rewrite (q_next _ _ Hq).
Qed.

(** Disconnecting leaves what is outstanding alone. *)
Lemma HandleDisconnect_quiet s w w' :
  HandleDisconnect s w = Some w' →
  quiet w w' ∧ inflight (net w') = inflight (net w) ∧ next_room (rooms w') = next_room (rooms w).
Proof.
  unfold HandleDisconnect. pose proof (Disconnect_sends s (net w)) as Hs.
  destruct (Disconnect_inflight s (net w)) as [Hi _].
  destruct (Disconnect s (net w)) as [first n]. cbn [snd] in *.
  assert (Hq : quiet w (with_net n w)).
  { split; simpl; try done; try (intros t; by apply (sends_field Hs)). apply (sends_recv _ _ Hs). }
  destruct first; cbn [negb]; [|by intros [= <-]].
  set (id := m_sessionId _).
  set (w1 := with_smgr _ _).
  assert (Hq1 : quiet w w1).
  { etrans; [exact Hq|]. split; simpl; try done. intros i t. rewrite Find_Remove. by case_decide. }
  destruct (GetRoom s (net w1)) as [room|]; [|by intros [= <-]].
  unfold push_job, room_PushJob. destruct (deref _ _); [|done]. simpl. intros [= <-].
  split_and!; [|done..]. etrans; [exact Hq1|]. etrans; [by apply (upd_quiet s (SetRoom None) w1)|]. by split.
Qed.

(** What the receiving of session [s] does to the bounds. *)
Definition stays s w w' : Prop := ∀ k, (s < k)%nat → within k w → within k w'.

#[export] Instance stays_preorder s : PreOrder (stays s).
Proof. split; [by intros w k|]. intros w1 w2 w3 H1 H2 k Hk Hw. by apply H2, H1. Qed.

Lemma quiet_stays s w w' : quiet w w' → stays s w w'.
Proof. intros Hq k _. by apply within_quiet. Qed.

Lemma PostRecv_stays s w w' : PostRecv s w = Some w' → stays s w w'.
Proof.
  intros E k Hk Hw. revert E. unfold PostRecv. destruct (IsDisconnected s (net w)); [by intros [= <-]|].
  destruct (m_recvContext _); [|done]. destruct (GetWriteBufferPtr _) as [off b'].
  destruct (WSARecv s _) as [r w2] eqn:E. unfold WSARecv in E. injection E as Er Ew.
  assert (Hw2 : within k w2).
  { subst w2. destruct Hw as [Hp Hf Hn]. split; simpl; [|done..].
    intros t. case_match; [|apply Hp]. rewrite elem_of_app, list_elem_of_singleton.
    intros [Ht| ->]; [by apply Hp|done]. }
  destruct r; [by intros [= <-]|]. intros [E _]%HandleDisconnect_quiet. by eapply within_quiet.
Qed.

(** The end of a connection, when it is the first: the session is
    disconnected and its socket closed, it is taken out of the registry (nobody
    else is), one connection less is counted, and if it was in a room its leave
    is queued there and its room pointer cleared. *)
Theorem HandleDisconnect_first s w :
  conn_wf w → IsDisconnected s (net w) = false →
  ∃ w', HandleDisconnect s w = Some w' ∧ conn_wf w'
    ∧ IsDisconnected s (net w') = true
    ∧ closed (net w') = closed (net w) ++ option_list (m_sock (sess s (net w)))
    ∧ (∀ id, SessionManager.Find id (smgr w')
             = if decide (id = m_sessionId (sess s (net w))) then None
               else SessionManager.Find id (smgr w))
    ∧ currentConnections (stats (net w')) = u64 (currentConnections (stats (net w)) - 1)
    ∧ GetRoom s (net w') = None
    ∧ match GetRoom s (net w) with
      | Some r => ∃ g, deref r (rooms w) = Some g
                       ∧ rooms w' = store r (PushJob (JLeave s) g) (rooms w)
      | None => rooms w' = rooms w
      end.
Proof.
  intros Hc Hd. destruct (HandleDisconnect_safe s w Hc) as (w' & E & Hc' & _).
  exists w'. split; [done|]. split; [done|]. revert E. unfold HandleDisconnect.
  destruct (Disconnect_first s (net w) Hd) as (Hb & Hx & Hcl & Hst).
  pose proof (GetRoom_alive s) as Halive.
  destruct (Disconnect s (net w)) as [b n]. cbn [fst snd] in *. subst b. cbn [negb].
  set (w1 := on_stats _ _). change (net w1) with (set_stats (dec_currentConnections (stats n)) n).
  change (sess s (set_stats ?a ?b)) with (sess s b). rewrite Hx. simpl (m_sessionId _).
  set (w2 := with_smgr _ w1). unfold GetRoom at 1. change (sess s (net w2)) with (sess s n).
  rewrite Hx. simpl (m_room _). fold (GetRoom s (net w)).
  destruct (GetRoom s (net w)) as [r|] eqn:Er.
  - destruct (Halive r w (cw_world _ Hc) Er) as [g Hg]. unfold push_job, room_PushJob.
    simpl (rooms _). rewrite Hg. simpl. intros [= <-]. simpl. unfold IsDisconnected, GetRoom.
    rewrite sess_upd. change (sess s (set_stats ?a ?b)) with (sess s b). rewrite Hx, Hcl, Hst.
    split_and!; try done; [apply (λ id, Find_Remove id _ (smgr w))|by eexists].
  - intros [= <-]. unfold IsDisconnected, GetRoom. simpl.
    change (sess s (set_stats ?a ?b)) with (sess s b). rewrite Hx, Hcl, Hst.
    split_and!; try done. apply (λ id, Find_Remove id _ (smgr w)).
Qed.

(** A send that the socket refuses ends the connection without its
    bookkeeping: [PostSend] disconnects the session itself, so the completion
    that later reports the loss finds it disconnected and does nothing; the
    session stays registered, and counted. *)
Theorem PostSend_zombie s a w :
  IsDisconnected s (net w) = false →
  wsa_send (n_sends (net w)) (m_sock (sess s (net w))) (wsa_bytes (ctx_at a (net w))) = false →
  SessionManager.Find (m_sessionId (sess s (net w))) (smgr w) = Some s →
  let w' := with_net (PostSend s a (net w)) w in
  IsDisconnected s (net w') = true
  ∧ HandleDisconnect s w' = Some w'
  ∧ SessionManager.Find (m_sessionId (sess s (net w'))) (smgr w') = Some s
  ∧ currentConnections (stats (net w')) = currentConnections (stats (net w)).
Proof.
  intros Hd Hsend Hfind w'.
  assert (Hd' : IsDisconnected s (net w') = true).
  { simpl. unfold PostSend. rewrite Hd. unfold WSASend. rewrite Hsend. apply Disconnect_disconnected. }
  pose proof (PostSend_sends s a (net w)) as Hs. split_and!; [done|..].
  - unfold HandleDisconnect. rewrite Disconnect_again by done. simpl. by destruct w.
  - simpl. rewrite (sends_sessionId Hs). done.
  - apply (sends_conns _ _ Hs).
Qed.
End safety.

(** ** Receiving *)

Section receiving.
Context `{Platform, PbRuntime}.
Implicit Types (w : World) (s : nat) (v : Server) (p : list byte).

Definition pop_packet s (size : Z) w : World :=
  with_net (upd_session s (λ x, set_recvBuffer (Pop size (m_recvBuffer x)) x) (net w)) w.

(** The specification of the receive loop: the packets are taken one after the
    other; the first one that is too large or over the rate limit ends the
    connection, every other one is dispatched; then the next receive is posted. *)
Fixpoint serve (maxPacketSize : Z) s (packets : list (list byte)) w : option World :=
  match packets with
  | [] => PostRecv s w
  | p :: packets =>
      if decide (Z.of_nat (length p) > maxPacketSize) then
        HandleDisconnect s (on_stats inc_oversizedRejections w)
      else
        let '(r, n) := CheckRateLimit s (net w) in
        let w := with_net n w in
        if negb r then HandleDisconnect s (on_stats inc_rateLimitRejections w)
        else
          w ← HandlePacket handlers s p (on_stats inc_packetsReceived w);
          serve maxPacketSize s packets (pop_packet s (Z.of_nat (length p)) w)
  end.

(** The state in which the loop is, between two packets. *)
Record serving s w : Prop := {
  sg_conn : conn_wf w;
  sg_idle : s ∉ rx_pending (net w);
  sg_ctx : is_Some (m_recvContext (sess s (net w))) }.

Lemma serving_quiet s w w' : serving s w → quiet w w' → world_wf w' → serving s w'.
Proof.
  intros [Hc Hi Hx] Hq Hw. split; [by eapply conn_quiet|..].
  - by rewrite (q_pending _ _ Hq).
  - by rewrite (q_ctx _ _ Hq).
Qed.

Lemma CheckRateLimit_ok s w :
  world_wf w → let w' := with_net (CheckRateLimit s (net w)).2 w in world_wf w' ∧ quiet w w'.
Proof.
  intros Hw. unfold CheckRateLimit. cbn [NowMs].
  set (n1 := mkNet _ _ _ _ _ _ _ _ _ _ _).
  destruct (clock_ok w n1 Hw) as [Hw1 Hq1]; [done..|].
  destruct (CheckRateLimit_at _ _) as [r x] eqn:E.
  assert (Hx : m_room x = m_room (sess s n1) ∧ m_recvBuffer x = m_recvBuffer (sess s n1)
    ∧ m_recvContext x = m_recvContext (sess s n1) ∧ m_sessionId x = m_sessionId (sess s n1)).
  { unfold CheckRateLimit_at in E. injection E as _ <-. by repeat case_decide. }
  destruct Hx as (X1 & X2 & X3 & X4). cbn [snd]. split.
  - destruct Hw1 as [HR Hl Hn Hm]. split; simpl; try done; [|by apply net_wf_upd].
    intros t a. rewrite sess_upd_dec. case_decide; [subst; rewrite X1|]; apply Hl.
  - etrans; [exact Hq1|]. split; simpl; try done; intros t; rewrite sess_upd_dec;
      case_decide; congruence.
Qed.

Lemma serving_pop s size w :
  serving s w → 0 ≤ size ≤ GetDataSize (m_recvBuffer (sess s (net w))) →
  serving s (pop_packet s size w).
Proof.
  intros [Hc Hi Hx] Hs. unfold pop_packet. split; [|done|].
  - split.
    + by apply upd_ok; [apply Hc|].
    + intros t. simpl. rewrite sess_upd_dec. case_decide; [subst|apply Hc].
      simpl. apply Pop_ok; [apply Hc|done].
    + apply Hc.
    + intros t Ht. simpl. rewrite sess_upd_ne; [by apply Hc|]. by intros ->.
    + intros id t Hf. simpl. rewrite sess_upd_dec. case_decide; subst; by apply (cw_ids _ Hc).
  - simpl. by rewrite sess_upd.
Qed.

Lemma HandlePacket_serving (P : nat → Prop) s p w :
  P s → serving s w →
  ∃ w', HandlePacket handlers s p w = Some w' ∧ serving s w' ∧ quiet w w' ∧ handles P w w'.
Proof.
  intros Ps Hs. destruct (HandlePacket_safe P s p w Ps) as (w' & E & Hw' & Hh); [apply Hs|].
  pose proof (handles_quiet _ _ _ Hh). exists w'.
  split_and!; [done|by eapply serving_quiet|done|done].
Qed.

(** The state in which a packet is dispatched. *)
Lemma serving_admit s w :
  serving s w →
  let w' := on_stats inc_packetsReceived (with_net (CheckRateLimit s (net w)).2 w) in
  serving s w' ∧ quiet w w'.
Proof.
  intros Hs. destruct (CheckRateLimit_ok s w) as [Hw1 Hq1]; [apply Hs|].
  destruct (stats_ok inc_packetsReceived _ Hw1) as [Hw2 Hq2].
  assert (Hq : quiet w (on_stats inc_packetsReceived (with_net (CheckRateLimit s (net w)).2 w)))
    by (etrans; [exact Hq1|exact Hq2]).
  split; [by eapply serving_quiet|exact Hq].
Qed.

(** The loop implements its specification, for the frames in the buffer. *)
Lemma recv_loop_serve fuel max s w :
  serving s w →
  GetDataSize (m_recvBuffer (sess s (net w))) < Z.of_nat fuel →
  recv_loop fuel max s w
  = serve max s (frames (contents (m_recvBuffer (sess s (net w))))).1 w.
Proof.
  revert w. induction fuel as [|fuel IH]; intros w Hs Hf.
  { pose proof (cw_bufs _ (sg_conn _ _ Hs) s) as Hb. destruct Hb. unfold GetDataSize in Hf. lia. }
  cbn [recv_loop]. set (b := m_recvBuffer (sess s (net w))) in *.
  assert (Hb : rb_wf b) by apply Hs. rewrite frames_unfold.
  pose proof (TryGetPacket_frame b Hb) as Ht. destruct (split_frame (contents b)) as [[p r]|].
  2:{ by rewrite Ht. }
  destruct Ht as (-> & Hp & Hcont & Hlen). cbn [fst serve]. case_decide; [done|].
  destruct (serving_admit s w Hs) as [Hs1 Hq1].
  destruct (CheckRateLimit s (net w)) as [ok n]. cbn [snd] in *. destruct ok; cbn [negb]; [|done].
  rewrite Hp. destruct (HandlePacket_serving (λ _, True) s p _ I Hs1) as (w2 & -> & Hs2 & Hq2 & _).
  cbn [mbind option_bind]. fold (pop_packet s (Z.of_nat (length p)) w2).
  assert (Hb2 : m_recvBuffer (sess s (net w2)) = b).
  { by rewrite (q_buf _ _ Hq2), (q_buf _ _ Hq1). }
  assert (Hsize : 0 ≤ Z.of_nat (length p) ≤ GetDataSize b).
  { rewrite <- (length_contents b Hb), Hcont, length_app. lia. }
  destruct (Pop_ok (Z.of_nat (length p)) b Hb Hsize) as [_ Hpop].
  assert (Hb3 : m_recvBuffer (sess s (net (pop_packet s (Z.of_nat (length p)) w2)))
                = Pop (Z.of_nat (length p)) b).
  { unfold pop_packet. simpl. rewrite sess_upd. simpl. by rewrite Hb2. }
  rewrite IH.
  - rewrite Hb3, Hpop, Hcont, drop_app_exact by lia. done.
  - apply serving_pop; [done|]. by rewrite Hb2.
  - rewrite Hb3. destruct (Pop_ok (Z.of_nat (length p)) b Hb Hsize) as [Hw3 _].
    rewrite <- length_contents, Hpop, Hcont, drop_app_exact by (done || lia).
    rewrite <- (length_contents b Hb), Hcont, length_app in Hf. lia.
Qed.

Lemma frames_nonempty str : [] ∉ (frames str).1.
Proof.
  induction str as [str Hsf|str q r Hsf IH] using frames_ind; rewrite frames_unfold, Hsf.
  - set_solver.
  - simpl. intros [<-|Hin]%elem_of_cons; [|by apply IH].
    apply split_frame_Some in Hsf as [_ Hsf]. simpl in Hsf. lia.
Qed.

(** A served packet is the first one in the buffer, and is taken out of it. *)
Lemma serving_next s p packets rest w w2 :
  contents (m_recvBuffer (sess s (net w))) = concat (p :: packets) ++ rest →
  quiet w w2 → serving s w2 →
  let w3 := pop_packet s (Z.of_nat (length p)) w2 in
  serving s w3 ∧ contents (m_recvBuffer (sess s (net w3))) = concat packets ++ rest.
Proof.
  intros Hcont Hq Hs. assert (Hb : rb_wf (m_recvBuffer (sess s (net w2)))) by apply Hs.
  assert (Hc2 : contents (m_recvBuffer (sess s (net w2))) = p ++ concat packets ++ rest).
  { rewrite (q_buf _ _ Hq), Hcont. simpl. by rewrite <- app_assoc. }
  assert (Hsize : 0 ≤ Z.of_nat (length p) ≤ GetDataSize (m_recvBuffer (sess s (net w2)))).
  { rewrite <- (length_contents _ Hb), Hc2, length_app. lia. }
  split; [by apply serving_pop|]. unfold pop_packet. simpl. rewrite sess_upd. simpl.
  destruct (Pop_ok _ _ Hb Hsize) as [_ ->]. rewrite Hc2, drop_app_exact by lia. done.
Qed.

Lemma serve_safe max s packets rest w :
  serving s w → (∀ p, p ∈ packets → p ≠ []) →
  contents (m_recvBuffer (sess s (net w))) = concat packets ++ rest →
  ∃ w', serve max s packets w = Some w' ∧ conn_wf w' ∧ stays s w w'.
Proof.
  revert w. induction packets as [|p packets IH]; intros w Hs Hne Hcont; cbn [serve].
  { destruct (PostRecv_safe s w) as (w' & E & Hc); [apply Hs..|]. exists w'.
    split_and!; [done..|]. by apply PostRecv_stays. }
  assert (Hdis : ∀ w1, world_wf w1 → quiet w w1 →
    ∃ w', HandleDisconnect s w1 = Some w' ∧ conn_wf w' ∧ stays s w w').
  { intros w1 Hw1 Hq1. destruct (HandleDisconnect_safe s w1) as (w' & E & Hc & Hq').
    { eapply conn_quiet; [apply Hs|done..]. }
    exists w'. split_and!; [done..|]. apply quiet_stays. by etrans. }
  case_decide as Hsz.
  { destruct (stats_ok inc_oversizedRejections w) as [Hw1 Hq1]; [apply Hs|]. by apply Hdis. }
  destruct (serving_admit s w Hs) as [Hs1 Hq1].
  destruct (CheckRateLimit_ok s w) as [Hw0 Hq0]; [apply Hs|].
  destruct (CheckRateLimit s (net w)) as [ok n]. cbn [snd] in *. destruct ok; cbn [negb].
  2:{ destruct (stats_ok inc_rateLimitRejections _ Hw0) as [Hw1 Hq2].
      apply Hdis; [done|]. by etrans. }
  destruct (HandlePacket_serving (λ _, True) s p _ I Hs1) as (w2 & -> & Hs2 & Hq2 & _). cbn [mbind option_bind].
  destruct (serving_next s p packets rest w w2 Hcont) as [Hs3 Hcont3]; [etrans; [exact Hq1|exact Hq2]|done|].
  assert (Hst : stays s w (pop_packet s (Z.of_nat (length p)) w2)).
  { etrans; [apply quiet_stays; etrans; [exact Hq1|exact Hq2]|]. intros k _ []. by split. }
  destruct (IH (pop_packet s (Z.of_nat (length p)) w2)) as (w' & E & Hc & Hst'); [done| |done|].
  { intros q Hq. apply Hne. set_solver. }
  exists w'. split_and!; [done..|]. by etrans.
Qed.

(** The bytes the session has received but not consumed. *)
Definition unread s w : list byte := contents (m_recvBuffer (sess s (net w))).

(** A receive that completes with [data] in the posted window. *)
Lemma kernel_receive_ok s data w :
  conn_wf w → s ∈ rx_pending (net w) →
  (∃ c, m_recvContext (sess s (net w)) = Some c ∧ Z.of_nat (length data) ≤ wsaBuf_len c) →
  let w1 := kernel_receive s data w in
  serving s w1
  ∧ Z.of_nat (length data) ≤ GetWriteBufferSize (m_recvBuffer (sess s (net w1)))
  ∧ contents (Write (Z.of_nat (length data)) (m_recvBuffer (sess s (net w1))))
    = unread s w ++ data
  ∧ cfg w1 = cfg w ∧ smgr w1 = smgr w.
Proof.
  intros Hc Hs (c & Ec & Hlen). destruct (cw_posted _ Hc s Hs) as (c' & Ec' & Eb & El).
  assert (c' = c) as -> by congruence. pose proof (cw_bufs _ Hc s) as Hb.
  set (b := m_recvBuffer (sess s (net w))) in *. intros w1.
  assert (Hsess : sess s (net w1) = set_recvBuffer (os_store (m_head b) data b) (sess s (net w))).
  { unfold w1, kernel_receive. simpl. rewrite sess_upd.
    change (sess s (mkNet (sessions (net w)) _ _ _ _ _ _ _ _ _ _)) with (sess s (net w)).
    by rewrite Ec, Eb. }
  assert (Hne : ∀ t, t ≠ s → sess t (net w1) = sess t (net w)).
  { intros t Ht. unfold w1, kernel_receive. simpl. by rewrite sess_upd_ne. }
  assert (Hroom : ∀ t, m_room (sess t (net w1)) = m_room (sess t (net w))
                       ∧ m_sessionId (sess t (net w1)) = m_sessionId (sess t (net w))).
  { intros t. destruct (decide (t = s)) as [->|Ht]; [by rewrite Hsess|by rewrite Hne]. }
  split_and!; [|rewrite Hsess; etrans; [exact Hlen|]; by rewrite El| |done..].
  - split; [split| |].
    + destruct (cw_world _ Hc) as [HR Hl [Hp Hbf] Hm]. split; simpl; try done.
      intros t r Hr. apply Hl. by rewrite <- (proj1 (Hroom t)).
    + intros t. destruct (decide (t = s)) as [->|Ht]; [|rewrite Hne by done; apply Hc].
      rewrite Hsess. by apply os_store_wf.
    + simpl. apply us_erase_NoDup, Hc.
    + intros t [Ht Hts]%elem_of_us_erase. rewrite Hne by done. by apply Hc.
    + intros id t Hf. rewrite (proj2 (Hroom t)). by apply (cw_ids _ Hc).
    + simpl. rewrite elem_of_us_erase. tauto.
    + rewrite Hsess. simpl. by rewrite Ec.
  - rewrite Hsess. apply contents_append; [done|]. by rewrite <- El.
Qed.

(** [HandleRecv] up to its loop. *)
Definition received s (k : Z) w : World :=
  on_stats (add_bytesReceived k)
    (let w := with_net (upd_session s (λ x, set_recvBuffer (Write k (m_recvBuffer x)) x) (net w)) w in
     with_net (UpdateActivity s (net w)) w).

Lemma received_ok s k w :
  serving s w → 0 ≤ k ≤ GetWriteBufferSize (m_recvBuffer (sess s (net w))) →
  serving s (received s k w)
  ∧ m_recvBuffer (sess s (net (received s k w))) = Write k (m_recvBuffer (sess s (net w)))
  ∧ cfg (received s k w) = cfg w.
Proof.
  intros [Hc Hi Hx] Hk. unfold received.
  set (w1 := with_net (upd_session s _ (net w)) w).
  assert (Hw1 : world_wf w1) by (by apply upd_ok; [apply Hc|]).
  assert (Hb1 : m_recvBuffer (sess s (net w1)) = Write k (m_recvBuffer (sess s (net w)))).
  { unfold w1. simpl. by rewrite sess_upd. }
  assert (Hs1 : serving s w1).
  { split; [split| |]; try done.
    - intros t. unfold w1. simpl. rewrite sess_upd_dec. case_decide; [|apply Hc]. subst. simpl.
      by apply Write_wf; [apply Hc|].
    - apply Hc.
    - intros t Ht. unfold w1. simpl. rewrite sess_upd_ne by (by intros ->). by apply Hc.
    - intros id t Hf. unfold w1. simpl. rewrite sess_upd_dec.
      case_decide; subst; by apply (cw_ids _ Hc).
    - unfold w1. simpl. by rewrite sess_upd. }
  cbv zeta. unfold UpdateActivity. cbn [NowMs]. set (n2 := mkNet _ _ _ _ _ _ _ _ _ _ _).
  destruct (clock_ok w1 n2 Hw1) as [Hw2 Hq2]; [done..|].
  set (f := set_lastActivity _).
  set (w3 := with_net (upd_session s f n2) w1).
  assert (Hw3 : world_wf w3) by (by apply (upd_ok s f (with_net n2 w1))).
  assert (Hq3 : quiet (with_net n2 w1) w3) by (by apply (upd_quiet s f (with_net n2 w1))).
  destruct (stats_ok (add_bytesReceived k) w3 Hw3) as [Hw4 Hq4].
  assert (Hq : quiet w1 (on_stats (add_bytesReceived k) w3))
    by (etrans; [exact Hq2|]; etrans; [exact Hq3|exact Hq4]).
  split_and!; [by eapply serving_quiet|by rewrite (q_buf _ _ Hq)|by rewrite (q_cfg _ _ Hq)].
Qed.

Lemma kernel_receive_stays s data w : stays s w (kernel_receive s data w).
Proof.
  intros k _ [Hp Hf Hn]. split; simpl; [|done..].
  intros t [Ht _]%elem_of_us_erase. by apply Hp.
Qed.

Lemma HandleRecv_ok s data w :
  conn_wf w → s ∈ rx_pending (net w) →
  (∃ c, m_recvContext (sess s (net w)) = Some c ∧ Z.of_nat (length data) ≤ wsaBuf_len c) →
  let k := Z.of_nat (length data) in
  let w1 := kernel_receive s data w in
  HandleRecv s k w1
  = serve (maxPacketSize (cfg w)) s (frames (unread s w ++ data)).1 (received s k w1)
  ∧ ∃ w', HandleRecv s k w1 = Some w' ∧ conn_wf w' ∧ stays s w w'.
Proof.
  intros Hc Hs Hx. destruct (kernel_receive_ok s data w Hc Hs Hx) as (Hs1 & Hk & Hcont & Ecfg & _).
  intros k w1. destruct (received_ok s k w1 Hs1) as (Hs2 & Hb2 & Ecfg2); [split; [unfold k; lia|exact Hk]|].
  assert (Hcont2 : contents (m_recvBuffer (sess s (net (received s k w1)))) = unread s w ++ data)
    by (rewrite Hb2; exact Hcont).
  assert (E : HandleRecv s k w1
    = serve (maxPacketSize (cfg w)) s (frames (unread s w ++ data)).1 (received s k w1)).
  { unfold HandleRecv. fold (received s k w1). rewrite recv_loop_serve; [|done|].
    - by rewrite Hcont2, Ecfg2, <- Ecfg.
    - unfold recv_fuel. rewrite <- (length_contents _ (cw_bufs _ (sg_conn _ _ Hs2) s)). lia. }
  split; [exact E|]. rewrite E.
  assert (Hst : stays s w (received s k w1)).
  { etrans; [apply (kernel_receive_stays s data)|]. intros m _ []. by split. }
  destruct (serve_safe (maxPacketSize (cfg w)) s (frames (unread s w ++ data)).1
    (frames (unread s w ++ data)).2 (received s k w1)) as (w' & E' & Hc' & Hst'); [done|..].
  3:{ exists w'. split_and!; [done..|]. by etrans. }
  - intros p Hp ->. by apply (frames_nonempty (unread s w ++ data)).
  - rewrite Hcont2. apply frames_concat.
Qed.

(** C2. What happens to received bytes: whatever the segmentation of the stream,
    the loop serves exactly the complete packets of the unread bytes followed by
    the new ones, each once and in order; and it terminates without touching a
    destroyed room. *)
Theorem HandleRecv_serves s data w :
  conn_wf w → s ∈ rx_pending (net w) →
  (∃ c, m_recvContext (sess s (net w)) = Some c ∧ Z.of_nat (length data) ≤ wsaBuf_len c) →
  let k := Z.of_nat (length data) in
  let w1 := kernel_receive s data w in
  HandleRecv s k w1
  = serve (maxPacketSize (cfg w)) s (frames (unread s w ++ data)).1 (received s k w1)
  ∧ ∃ w', HandleRecv s k w1 = Some w' ∧ conn_wf w'.
Proof.
  intros Hc Hs Hx k w1. destruct (HandleRecv_ok s data w Hc Hs Hx) as (E & w' & E' & Hc' & _).
  split; [exact E|]. by exists w'.
Qed.
End receiving.
