(* ===== verification/ServerSafety.v ===== *)
(** * The server never goes wrong

    The invariant of the whole server, kept by every event ([server_ok]): no
    event reaches a destroyed room, whatever the environment does, and every
    outstanding receive writes into free space of its session's buffer. *)
From S2P Require Import Prelude Bytes Platform ObjectPool Packet RecvBuffer Protobuf PbRuntimeDemo PacketPb Session PacketTraits JobQueue Config AuthService GameRoom PacketManager SessionManager RoomManager Logic TrafficPolicy ServerCore ServerConn.
Local Open Scope Z_scope.

(** The invariant of the server. *)
Record server_wf `{Platform} (v : Server) : Prop := {
  sw_conn : conn_wf (world v);
  sw_within : within (next_session v) (world v) }.

(** Fewer than [2^64 - 1] connections have been accepted. *)
Definition ids_left (v : Server) : Prop := Z.of_nat (next_session v) < 2 ^ 64 - 2.

Section server.
Context `{Platform, PbRuntime}.
Implicit Types (w : World) (s k : nat) (v : Server).

(** ** Accepting *)

Lemma within_mono k k' w : (k ≤ k')%nat → within k w → within k' w.
Proof.
  intros Hk [Hp Hf Hn]. split; [|intros id|lia].
  - intros t Ht%Hp. lia.
  - intros t Ht%Hf. lia.
Qed.

(** Changing a session that nothing refers to. *)
Lemma conn_upd s f w :
  conn_wf w → within s w → m_room (f (sess s (net w))) = None →
  rb_wf (m_recvBuffer (f (sess s (net w)))) →
  conn_wf (with_net (upd_session s f (net w)) w) ∧ within s (with_net (upd_session s f (net w)) w).
Proof.
  intros [[HR Hl Hn Hm] Hb Hnd Hpost Hids] [Hp Hf Hx] Hroom Hbuf.
  split; [split|split]; simpl; try done.
  - split; simpl; try done; [|by apply net_wf_upd].
    intros t r. rewrite sess_upd_dec. case_decide; [subst; by rewrite Hroom|apply Hl].
  - intros t. rewrite sess_upd_dec. case_decide; by subst.
  - intros t Ht. rewrite sess_upd_ne; [by apply Hpost|]. apply Hp in Ht. lia.
  - intros id t Hid. rewrite sess_upd_ne; [by apply Hids|]. apply Hf in Hid. lia.
Qed.

Lemma conn_clock w n :
  conn_wf w → sessions n = sessions (net w) → pool n = pool (net w) →
  inflight n = inflight (net w) → rx_pending n = rx_pending (net w) →
  conn_wf (with_net n w) ∧ quiet w (with_net n w).
Proof.
  intros Hc ? ? ? ?. destruct (clock_ok w n) as [Hw Hq]; [apply Hc|done..|].
  split; [by eapply conn_quiet|done].
Qed.

Lemma conn_stats f w : conn_wf w → conn_wf (on_stats f w) ∧ quiet w (on_stats f w).
Proof.
  intros Hc. destruct (stats_ok f w) as [Hw Hq]; [apply Hc|]. split; [by eapply conn_quiet|done].
Qed.

(** A new session object and its [Init]. *)
Definition opened s (sock : Z) w : World :=
  with_net (Session_Init s sock (upd_session s (λ _, Session_new) (net w))) w.

Lemma opened_ok s sock w :
  conn_wf w → within s w →
  let w' := opened s sock w in
  conn_wf w' ∧ within s w' ∧ is_Some (m_recvContext (sess s (net w')))
  ∧ m_room (sess s (net w')) = None.
Proof.
  intros Hc Hw. unfold opened, Session_Init, UpdateActivity. cbn [NowMs].
  set (n1 := upd_session s (λ _, Session_new) (net w)).
  set (n2 := upd_session s (set_sock (Some sock)) n1).
  set (n3 := mkNet _ _ _ _ _ _ _ _ _ _ _).
  destruct (conn_upd s (λ _, Session_new) w) as [Hc1 Hw1]; [done..|by apply RecvBuffer_new_wf|].
  destruct (conn_upd s (set_sock (Some sock)) (with_net n1 w)) as [Hc2 Hw2]; [done..| |apply Hc1|].
  { unfold n1. simpl. by rewrite sess_upd. }
  destruct (conn_clock (with_net n2 w) n3) as [Hc3 Hq3]; [done..|].
  pose proof (within_quiet _ _ _ Hq3 Hw2) as Hw3.
  assert (Hr3 : m_room (sess s n3) = None).
  { change (m_room (sess s n2) = None). unfold n2, n1. by rewrite !sess_upd. }
  set (f4 := set_lastActivity _). set (n4 := upd_session s f4 n3).
  destruct (conn_upd s f4 (with_net n3 w)) as [Hc4 Hw4]; [done..|apply Hc3|].
  assert (Hr4 : m_room (sess s n4) = None) by (unfold n4; by rewrite sess_upd).
  set (f5 := set_recvContext _).
  destruct (conn_upd s f5 (with_net n4 w)) as [Hc5 Hw5]; [done..|apply Hc4|].
  split_and!; [exact Hc5|exact Hw5|..]; simpl; rewrite sess_upd; [by eexists|done].
Qed.

(** Registering it. *)
Lemma enrolled_ok s w :
  conn_wf w → within s w → Z.of_nat s < 2 ^ 64 - 2 →
  m_room (sess s (net w)) = None → is_Some (m_recvContext (sess s (net w))) →
  let '(id, m, n) := Add s (smgr w) (net w) in
  let w' := with_smgr m (with_net n w) in
  conn_wf w' ∧ within (S s) w' ∧ s ∉ rx_pending (net w')
  ∧ is_Some (m_recvContext (sess s (net w'))).
Proof.
  intros Hc Hw Hk Hroom Hctx. pose proof Hw as [Hp Hf Hn].
  pose proof (ww_smgr _ (cw_world _ Hc)) as Hm.
  pose proof (Add_wf s (smgr w) (net w) Hm ltac:(lia)) as Hm'.
  pose proof (λ id, Find_Add s (smgr w) (net w) id Hm) as Hfind.
  assert (Hnext : m_nextSessionId (Add s (smgr w) (net w)).1.2 = m_nextSessionId (smgr w) + 1).
  { simpl. apply wrapU_id. change (2 ^ 64) with 18446744073709551616 in *.
    pose proof (sm_next _ Hm). lia. }
  destruct (conn_upd s (SetSessionId (m_nextSessionId (smgr w))) w) as [Hc1 Hw1];
    [done..|apply Hc|].
  cbn [Add fst snd] in *. set (n := upd_session s _ (net w)) in *.
  set (m := {| m_sessions := _ |}) in *. destruct Hc1 as [[HR Hl Hn1 _] Hb Hnd Hpost Hids].
  destruct Hw1 as [Hp1 Hf1 _]. split_and!.
  - split; simpl; try done. intros id t. rewrite Hfind.
    case_decide as Hid; [|apply Hids]. intros [= <-]. unfold n. by rewrite sess_upd.
  - split; simpl; [| |change (m_nextSessionId m ≤ Z.of_nat (S s) + 1); lia].
    + intros t Ht%Hp. lia.
    + intros id t. rewrite Hfind. case_decide; [intros [= <-]; lia|]. intros Ht%Hf. lia.
  - simpl. intros Hin%Hp. lia.
  - simpl. unfold n. rewrite sess_upd. by simpl.
Qed.

(** The stages of an accept after the registration: the policy's reading of the
    clock, and the two ways to go on. *)
Definition policy_clock (p : Policy) w : World :=
  with_net (if decide (m_policyMaxConnectionsPerMinuteTotal p <= 0) then net w
            else (UnixTimeMsNow (net w)).2) w.
Definition rejected s (id : Z) w : World :=
  let w := on_stats inc_policyRejections w in
  with_smgr (Remove id (smgr w)) (with_net (Disconnect s (net w)).2 w).
Definition admitted s w : World :=
  on_stats inc_connections
    (with_net (InitRateLimit s (packetRateLimitPerSec (cfg w)) (net w)) w).

Lemma HandleAcceptCompletion_stages sock associated sock' v :
  HandleAcceptCompletion sock true associated sock' v
  = let s := next_session v in
    let v := set_next (S s) v in
    let w := opened s sock (world v) in
    if negb associated then
      Some (PostAccept sock' (set_world (with_net (closesocket sock (net w)) w) v))
    else
      let '(id, m, n) := Add s (smgr w) (net w) in
      let w := policy_clock (policy v) (with_smgr m (with_net n w)) in
      let '(r, p) := ConsumeGlobalConnectionToken (UnixTimeMsNow n).1 (policy v) in
      let v := set_policy p v in
      if negb r then Some (PostAccept sock' (set_world (rejected s id w) v))
      else w ← PostRecv s (admitted s w); Some (PostAccept sock' (set_world w v)).
Proof. reflexivity. Qed.

Lemma policy_clock_ok p w : conn_wf w → conn_wf (policy_clock p w) ∧ quiet w (policy_clock p w).
Proof. intros Hc. unfold policy_clock. case_decide; by apply conn_clock. Qed.

Lemma rejected_ok s id w : conn_wf w → conn_wf (rejected s id w) ∧ quiet w (rejected s id w).
Proof.
  intros Hc. destruct (conn_stats inc_policyRejections w Hc) as [Hc1 Hq1]. unfold rejected.
  set (w1 := on_stats _ w) in *. pose proof (Disconnect_sends s (net w1)) as Hs.
  destruct (with_net_ok (λ _, True) w1 (Disconnect s (net w1)).2 Hs) as [Hw2 Hh2];
    [by apply Disconnect_posts|apply Disconnect_wf, Hc1|apply Hc1|].
  apply handles_quiet in Hh2. set (w2 := with_net _ w1) in *.
  assert (Hq3 : quiet w2 (with_smgr (Remove id (smgr w1)) w2)).
  { split; simpl; try done. intros i t. rewrite Find_Remove. by case_decide. }
  split; [|etrans; [exact Hq1|]; etrans; [exact Hh2|exact Hq3]].
  eapply conn_quiet; [eapply conn_quiet; [exact Hc1|exact Hh2|done]|exact Hq3|].
  destruct Hw2. split; simpl; try done. by apply Remove_wf.
Qed.

Lemma admitted_ok s w : conn_wf w → conn_wf (admitted s w) ∧ quiet w (admitted s w).
Proof.
  intros Hc. unfold admitted, InitRateLimit. cbn [NowMs].
  set (n1 := mkNet _ _ _ _ _ _ _ _ _ _ _). set (f := InitRateLimit_at _ _).
  destruct (conn_clock w n1) as [Hc1 Hq1]; [done..|]. set (w1 := with_net n1 w) in *.
  assert (Hw2 : world_wf (with_net (upd_session s f (net w1)) w1)) by (apply upd_ok; [apply Hc1|done]).
  assert (Hq2 : quiet w1 (with_net (upd_session s f (net w1)) w1)) by (by apply upd_quiet).
  destruct (conn_stats inc_connections _ (conn_quiet _ _ Hc1 Hq2 Hw2)) as [Hc3 Hq3].
  split; [exact Hc3|]. etrans; [exact Hq1|]. etrans; [exact Hq2|exact Hq3].
Qed.

Lemma PostAccept_next o v : next_session (PostAccept o v) = next_session v.
Proof. by destruct o. Qed.

Lemma PostAccept_ok o v :
  conn_wf (world v) → within (next_session v) (world v) → server_wf (PostAccept o v).
Proof.
  intros Hc Hw. destruct o as [|sock|sock]; [by split| |by split].
  destruct (conn_clock (world v) (closesocket sock (net (world v)))) as [Hc' Hq]; [done..|].
  split; [exact Hc'|]. by eapply (within_quiet _ (world v)).
Qed.

Lemma HandleAcceptCompletion_ok sock success associated sock' v :
  server_wf v → ids_left v →
  ∃ v', HandleAcceptCompletion sock success associated sock' v = Some v' ∧ server_wf v'.
Proof.
  intros [Hc Hw] Hk. destruct success.
  2:{ eexists. split; [done|]. apply PostAccept_ok;
        destruct (conn_clock (world v) (closesocket sock (net (world v)))) as [Hc' Hq]; try done.
      by eapply (within_quiet _ (world v)). }
  rewrite HandleAcceptCompletion_stages. cbv zeta. simpl (world (set_next _ _)).
  destruct (opened_ok (next_session v) sock (world v) Hc Hw) as (Hc1 & Hw1 & Hx1 & Hr1).
  set (s := next_session v) in *. set (w1 := opened s sock (world v)) in *.
  destruct associated; cbn [negb].
  2:{ eexists. split; [done|].
      destruct (conn_clock w1 (closesocket sock (net w1))) as [Hc' Hq]; [done..|].
      apply PostAccept_ok; [exact Hc'|]. eapply (within_mono s); [simpl; lia|]. by eapply (within_quiet _ w1). }
  pose proof (enrolled_ok s w1 Hc1 Hw1 Hk Hr1 Hx1) as He.
  destruct (Add s (smgr w1) (net w1)) as [[id m] n]. destruct He as (Hc2 & Hw2 & Hi2 & Hx2).
  set (w2 := with_smgr m (with_net n w1)) in *. simpl (policy (set_next _ _)).
  destruct (policy_clock_ok (policy v) w2 Hc2) as [Hc3 Hq3]. set (w3 := policy_clock _ w2) in *.
  destruct (ConsumeGlobalConnectionToken _ _) as [r p]. destruct r; cbn [negb].
  - destruct (admitted_ok s w3 Hc3) as [Hc4 Hq4]. set (w4 := admitted s w3) in *.
    assert (Hq : quiet w2 w4) by (by etrans).
    destruct (PostRecv_safe s w4) as (w5 & E5 & Hc5);
      [done|by rewrite (q_pending _ _ Hq)|by rewrite (q_ctx _ _ Hq)|].
    rewrite E5. eexists. split; [done|]. apply PostAccept_ok; [done|].
    apply (PostRecv_stays _ _ _ E5); simpl; [lia|]. by eapply within_quiet.
  - destruct (rejected_ok s id w3 Hc3) as [Hc4 Hq4]. eexists. split; [done|].
    apply PostAccept_ok; [exact Hc4|]. by eapply within_quiet, within_quiet.
Qed.

(** ** The other events *)

(** A safe reaction of the world. *)
Definition world_ok k w (o : option World) : Prop :=
  ∃ w', o = Some w' ∧ conn_wf w' ∧ within k w'.

Lemma ok_quiet k w w' : within k w → conn_wf w' → quiet w w' → world_ok k w (Some w').
Proof. intros Hw Hc Hq. exists w'. split_and!; [done..|by eapply within_quiet]. Qed.

Lemma HandleDisconnect_ok k s w : conn_wf w → within k w → world_ok k w (HandleDisconnect s w).
Proof.
  intros Hc Hw. destruct (HandleDisconnect_safe s w Hc) as (w' & E & Hc' & Hq).
  rewrite E. by apply ok_quiet.
Qed.

Lemma GameTick_ok k w : conn_wf w → within k w → world_ok k w (GameTick w).
Proof.
  intros Hc Hw. destruct (cw_world _ Hc) as [HR Hl Hn Hm]. unfold GameTick, TickAll.
  destruct (tick_rooms_ok (reconnectWindowMs (cfg w)) (map (λ e, e.2.1) (m_rooms (rooms w)))
    (rooms w) (net w)) as (R' & n' & E & H1 & H2 & H3 & H4 & _); [done..|intros r; apply deref_member|].
  rewrite E. simpl. assert (Hq : quiet w (with_rooms R' (with_net n' w))) by (by apply plays_quiet).
  apply ok_quiet; [done| |done]. by eapply conn_quiet.
Qed.

Lemma heartbeat_sessions_ok k timeoutMs ss w :
  conn_wf w → within k w → world_ok k w (heartbeat_sessions timeoutMs ss w).
Proof.
  revert w. induction ss as [|s ss IH]; intros w Hc Hw; cbn [heartbeat_sessions].
  { by apply ok_quiet. }
  unfold IsTimedOut. cbn [NowMs]. set (n := mkNet _ _ _ _ _ _ _ _ _ _ _).
  destruct (conn_clock w n) as [Hc1 Hq1]; [done..|].
  pose proof (within_quiet _ _ _ Hq1 Hw) as Hw1. case_bool_decide; simpl; [|by apply IH].
  destruct (HandleDisconnect_ok k s (with_net n w)) as (w2 & -> & Hc2 & Hw2); [done..|].
  by apply IH.
Qed.

Lemma Heartbeat_ok k w : conn_wf w → within k w → world_ok k w (Heartbeat w).
Proof.
  intros Hc Hw. unfold Heartbeat.
  destruct (heartbeat_sessions_ok k (heartbeatTimeoutMs (cfg w)) (GetAll (smgr w)) w)
    as (w1 & -> & Hc1 & Hw1); [done..|]. cbn [mbind option_bind].
  set (idle := idleRoomTimeoutMs (cfg w1)). destruct (cw_world _ Hc1) as [HR Hl Hn Hm].
  pose proof (RemoveIdleRooms_wf idle (rooms w1) (net w1) HR) as HR'.
  pose proof (RemoveIdleRooms_linked idle (rooms w1) (net w1) HR Hl) as Hl'.
  assert (Hn' : net_wf (RemoveIdleRooms idle (rooms w1) (net w1)).2) by (by destruct Hn).
  assert (Hp' : plays (net w1) (RemoveIdleRooms idle (rooms w1) (net w1)).2) by (apply NowMs_plays).
  destruct (RemoveIdleRooms idle (rooms w1) (net w1)) as [[removed R'] n']. simpl in *.
  assert (Hq : quiet w1 (with_rooms R' (with_net n' w1))) by (by apply plays_quiet).
  eexists. split_and!; [done|by eapply conn_quiet|by eapply within_quiet].
Qed.

Lemma CompleteSend_ok k a w :
  conn_wf w → within k w → a ∈ inflight (net w) →
  conn_wf (with_net (CompleteSend a (net w)) w) ∧ within k (with_net (CompleteSend a (net w)) w).
Proof.
  intros Hc Hw Ha. set (w' := with_net _ w). assert (Hq : quiet w w') by (by split).
  split; [|by eapply within_quiet]. eapply conn_quiet; [done..|].
  destruct (cw_world _ Hc) as [HR Hl Hn Hm]. split; try done. by apply CompleteSend_wf.
Qed.

(** Reports only read the clock, as far as the world is concerned. *)
Definition clock_only v v' : Prop :=
  next_session v' = next_session v ∧ ∃ j, (n_system (net (world v)) ≤ j)%nat ∧ world v' = with_net (mkNet (sessions (net (world v)))
    (pool (net (world v))) (stats (net (world v))) (inflight (net (world v))) (wire (net (world v)))
    (closed (net (world v))) (n_sends (net (world v))) (n_steady (net (world v))) j
    (n_recvs (net (world v))) (rx_pending (net (world v)))) (world v).

#[export] Instance clock_only_preorder : PreOrder clock_only.
Proof.
  split.
  - intros v. split; [done|]. exists (n_system (net (world v))). split; [done|]. by destruct v as [[[] ? ? ? ?]].
  - intros v1 v2 v3 [E1 (j1 & L1 & W1)] [E2 (j2 & L2 & W2)]. split; [congruence|]. exists j2.
    rewrite W1 in L2. simpl in L2. split; [lia|]. by rewrite W2, W1.
Qed.

Lemma refresh_policy_clock resp v : clock_only v (refresh_policy resp v).
Proof.
  unfold refresh_policy. case_decide; [done|]. cbn [UnixTimeMsNow].
  generalize (RefreshTrafficPolicy (gameServerApiKey (cfg (world v))) resp). intros f.
  destruct (policy_applies resp); (split; [done|]); (eexists; split; [|reflexivity]); simpl; lia.
Qed.

Lemma RegistryTurn_clock policyResp post v : clock_only v (RegistryTurn policyResp post v).2.
Proof.
  unfold RegistryTurn. cbn [UnixTimeMsNow].
  set (v1 := set_world _ v). assert (H1 : clock_only v v1) by (split; [done|]; eexists; split; [|reflexivity]; simpl; lia).
  etrans; [exact H1|]. pose proof (refresh_policy_clock policyResp v1) as H2.
  set (v2 := refresh_policy policyResp v1) in *. clearbody v2.
  destruct (bool_decide _); case_decide; try done; destruct H2 as [E2 W2]; split; try done.
  all: simpl; exists (n_system (net (world v1))); done.
Qed.

Lemma clock_only_ok v v' : clock_only v v' → server_wf v → server_wf v'.
Proof.
  intros [E (j & _ & W)] [Hc Hw]. set (n := mkNet _ _ _ _ _ _ _ _ _ _ _) in W.
  destruct (conn_clock (world v) n) as [Hc' Hq]; [done..|]. split; rewrite W, ?E; [done|].
  by eapply within_quiet.
Qed.

Lemma lift_ok v o :
  world_ok (next_session v) (world v) o →
  ∃ v', lift o v = Some v' ∧ server_wf v' ∧ (next_session v ≤ next_session v')%nat.
Proof. intros (w' & -> & Hc & Hw). eexists. split; [done|]. split; [by split|done]. Qed.

Lemma login_callback_ok s valid acc w :
  conn_wf w → ∃ w', login_callback s valid acc w = Some w' ∧ conn_wf w' ∧ quiet w w'.
Proof.
  intros Hc. destruct (login_callback_safe (λ _, True) s valid acc w I (cw_world _ Hc))
    as (w' & E & Hw' & _ & _ & Hh).
  assert (Hq : quiet w w').
  { etrans; [|eapply handles_quiet, Hh]. apply upd_quiet. intros x. by case_match. }
  exists w'. split_and!; [done|by eapply conn_quiet|done].
Qed.

(** What the completion of a send does. *)
Lemma send_completed a success v v' :
  handle_event (EvSend a success) v = Some v' →
  ∃ w', (w' = world v ∨ ∃ s, HandleDisconnect s (world v) = Some w')
    ∧ v' = set_world (with_net (CompleteSend a (net w')) w') v.
Proof.
  cbn [handle_event]. destruct success, (ctx_session (ctx_at a (net (world v)))) as [s|];
    try (intros [= <-]; exists (world v); by auto).
  destruct (HandleDisconnect s (world v)) as [w'|] eqn:E; [|done]. intros [= <-]. exists w'. eauto.
Qed.

Lemma event_safe e v :
  server_wf v → ids_left v → event_ok e v → ∃ v', handle_event e v = Some v' ∧ server_wf v'.
Proof.
  intros Hv Hk He. pose proof Hv as [Hc Hw].
  assert (Hlift : ∀ o, world_ok (next_session v) (world v) o →
                       ∃ v', lift o v = Some v' ∧ server_wf v').
  { intros o Ho. destruct (lift_ok v o Ho) as (v' & ? & ? & _). by exists v'. }
  destruct e as [success associated sock'|s success data|a success| | |i get|resp post];
    cbn [handle_event event_ok] in *.
  - destruct (accepting v); [by apply HandleAcceptCompletion_ok|by exists v].
  - destruct He as [Hs Hx].
    destruct (kernel_receive_ok s data (world v) Hc Hs Hx) as (Hs1 & _).
    pose proof (kernel_receive_stays s data (world v) (next_session v)
      (wi_pending _ _ Hw s Hs) Hw) as Hw1.
    assert (Hd : world_ok (next_session v) (world v)
      (HandleDisconnect s (kernel_receive s data (world v)))).
    { apply HandleDisconnect_ok; [apply Hs1|done]. }
    destruct success; cbn [negb]; [|by apply Hlift]. case_decide; [by apply Hlift|].
    destruct (HandleRecv_ok s data (world v) Hc Hs Hx) as (_ & w' & E & Hc' & Hst).
    apply Hlift. exists w'. split_and!; [done..|]. apply Hst; [|done]. by apply (wi_pending _ _ Hw).
  - assert (Hd : ∃ w', (match success, ctx_session (ctx_at a (net (world v))) with
                        | false, Some s => HandleDisconnect s (world v)
                        | _, _ => Some (world v)
                        end) = Some w' ∧ conn_wf w' ∧ within (next_session v) w'
                      ∧ a ∈ inflight (net w')).
    { destruct success, (ctx_session (ctx_at a (net (world v)))) as [s|]; try by exists (world v).
      destruct (HandleDisconnect_ok (next_session v) s (world v)) as (w' & E & Hc' & Hw'); [done..|].
      exists w'. split_and!; [done..|]. apply HandleDisconnect_quiet in E as (_ & -> & _). done. }
    destruct Hd as (w' & -> & Hc' & Hw' & Ha). cbn [mbind option_bind].
    destruct (CompleteSend_ok (next_session v) a w') as [? ?]; [done..|].
    eexists. split; [done|]. by split.
  - by apply Hlift, GameTick_ok.
  - by apply Hlift, Heartbeat_ok.
  - destruct (auth (world v) !! i) as [[token s]|]; [|by exists v].
    destruct (validate get token) as [valid acc]. set (w1 := with_auth _ _).
    assert (Hq1 : quiet (world v) w1) by done.
    assert (Hw1 : world_wf w1) by (destruct (cw_world _ Hc); by split).
    destruct (login_callback_ok s valid acc w1) as (w' & E & Hc' & Hq); [by eapply conn_quiet|].
    apply Hlift. rewrite E. apply ok_quiet; [done..|by etrans].
  - eexists. split; [done|]. eapply clock_only_ok; [apply RegistryTurn_clock|done].
Qed.
Lemma Server_new_wf c o : server_wf (Server_new c o).
Proof.
  apply PostAccept_ok.
  - split.
    + split; [apply rm_wf_new|done|apply net_wf_new|apply sm_wf_new].
    + intros t. by apply RecvBuffer_new_wf.
    + apply NoDup_nil_2.
    + intros t Ht. by apply elem_of_nil in Ht.
    + done.
  - split; simpl; [|done..]. intros t Ht. by apply elem_of_nil in Ht.
Qed.

(** ** Runs *)

(** The server reacts to one event. *)
Inductive server_step : relation Server :=
  | step_event e v v' :
      event_ok e v → ids_left v → handle_event e v = Some v' → server_step v v'.

Lemma reachable_wf c sock v : rtc server_step (Server_new c sock) v → server_wf v.
Proof.
  intros Hr. apply (rtc_invariant server_step server_wf (Server_new c sock)); [| |exact Hr].
  - apply Server_new_wf.
  - intros v1 v2 H1 Hs. revert H1. destruct Hs as [e v1 v2 He Hk E]. intros H1.
    destruct (event_safe e v1 H1 Hk He) as (v' & E' & H2). congruence.
Qed.

(** C1. The server cannot get stuck and is never in an inconsistent state.  In
    every state that any sequence of completions, ticks, validations and reports
    can lead to, whatever the outcome of the system calls: the next event is
    handled without touching a destroyed room; every session's room exists and
    has it as a member; every room satisfies its invariant; and every
    outstanding receive has as its window the free space of the session's own
    buffer, at most one per session. *)
Theorem server_never_stuck c sock v :
  rtc server_step (Server_new c sock) v → ids_left v →
  (∀ e, event_ok e v → is_Some (handle_event e v))
  ∧ (∀ s r, GetRoom s (net (world v)) = Some r →
       ∃ g, deref r (rooms (world v)) = Some g ∧ s ∈ m_members g)
  ∧ (∀ r g, deref r (rooms (world v)) = Some g → room_wf g)
  ∧ NoDup (rx_pending (net (world v)))
  ∧ (∀ s, s ∈ rx_pending (net (world v)) → posted (sess s (net (world v)))).
Proof.
  intros Hr Hk. pose proof (reachable_wf _ _ _ Hr) as Hv. pose proof Hv as [Hc Hw].
  destruct Hc as [[HR Hl Hn Hm] Hb Hnd Hp Hids]. split_and!; [|exact Hl|apply HR|done..].
  intros e He. destruct (event_safe e v Hv Hk He) as (v' & E & _). by exists v'.
Qed.
End server.
