(* ===== verification/Accounts.v ===== *)
(** * Accounting for connections

    Every session that anything in the server refers to has been accepted, so a
    disconnect always finds its session in the registry, and the number of
    connections the server reports is the number of registered sessions.  The
    relation [acct] collects what every action of the server keeps. *)
From S2P Require Import Prelude Bytes Platform ObjectPool Packet RecvBuffer Protobuf PbRuntimeDemo PacketPb Session PacketTraits JobQueue Config AuthService GameRoom PacketManager SessionManager RoomManager Logic TrafficPolicy ServerCore ServerConn ServerSafety.
Local Open Scope Z_scope.

Section accounts.
Context `{Platform, PbRuntime}.
Implicit Types (w : World) (s t k : nat) (v : Server).

(** A session whose connection is over, or that is registered under its id. *)
Definition accepted s w : Prop :=
  IsDisconnected s (net w) = true
  ∨ SessionManager.Find (m_sessionId (sess s (net w))) (smgr w) = Some s.

(** Disconnected, and still registered. *)
Definition zombie s w : Prop :=
  IsDisconnected s (net w) = true
  ∧ SessionManager.Find (m_sessionId (sess s (net w))) (smgr w) = Some s.

(** [currentConnections] is the number of registered sessions, up to [d]. *)
Definition counted (d : Z) w : Prop :=
  currentConnections (stats (net w)) = u64 (Z.of_nat (Count (smgr w)) + d).

(** The accepted ones among the first [k] sessions. *)
Definition acc k w s : Prop := (s < k)%nat ∧ accepted s w.

(** What every action keeps, with [k] sessions: accepted sessions stay accepted,
    zombies stay zombies, contexts in flight are not touched, and nothing refers
    to a session that is not accepted. *)
Record tracks k w w' : Prop := {
  tr_accepted : ∀ s, acc k w s → acc k w' s;
  tr_zombie : ∀ s, (s < k)%nat → zombie s w → zombie s w';
  tr_kept : ∀ a, a ∈ inflight (net w) → a ∈ inflight (net w') ∧ ctx_at a (net w') = ctx_at a (net w);
  tr_refs : refs (acc k w) w → refs (acc k w') w' }.

(** What becomes of the sockets: sessions leave the registry without one, none
    is entered, and the sockets lost are closed. *)
Record settled k w w' : Prop := {
  se_id : ∀ s, (s < k)%nat → m_sessionId (sess s (net w')) = m_sessionId (sess s (net w));
  se_back : ∀ id s, (s < k)%nat →
    SessionManager.Find id (smgr w') = Some s → SessionManager.Find id (smgr w) = Some s;
  se_gone : ∀ id s, (s < k)%nat → SessionManager.Find id (smgr w) = Some s →
    SessionManager.Find id (smgr w') = Some s ∨ m_sock (sess s (net w')) = None;
  se_closes : closes (λ s, (s < k)%nat) (acc k w) (net w) (net w') }.

Lemma settled_trans k w1 w2 w3 : settled k w1 w2 → settled k w2 w3 → settled k w1 w3.
Proof.
  intros [A1 A2 A3 A4] [B1 B2 B3 B4]. split; [|by eauto| |].
  - intros s Hs. by rewrite B1, A1.
  - intros id s Hs Hf. destruct (A3 id s Hs Hf) as [H2|H2]; [by apply B3|right].
    destruct B4 as [l [_ _ _ Hsock _]]. rewrite Hsock by done. by case_decide.
  - apply (closes_trans_weak _ _ (acc k w2) _ (net w2)); [|done|done].
    intros s Hs [_ [Hd|Hf]] Hn; [congruence|]. split; [done|right]. rewrite <- A1 by done. by apply A2.
Qed.

(** What every action but an accept keeps. *)
Record acct k w w' : Prop := {
  ac_tracks : tracks k w w';
  ac_count : ∀ d, counted d w → counted d w';
  ac_settled : refs (acc k w) w → settled k w w' }.

#[export] Instance tracks_preorder k : PreOrder (tracks k).
Proof.
  split; [by intros w; split; auto|]. intros w1 w2 w3 [A1 A2 A3 A4] [B1 B2 B3 B4].
  split; auto. intros a Ha. destruct (A3 a Ha) as [Ha' <-]. auto.
Qed.

#[export] Instance acct_preorder k : PreOrder (acct k).
Proof.
  split.
  - intros w. split; [done|done|]. intros _. split; auto. done.
  - intros w1 w2 w3 [A1 A2 A3] [B1 B2 B3]. split; [by etrans|auto|].
    intros Hr. eapply settled_trans; [by apply A3|]. by apply B3, (tr_refs _ _ _ A1).
Qed.

Lemma ac_accepted k w w' s : acct k w w' → acc k w s → acc k w' s.
Proof. intros [[Ha _ _ _] _ _]. apply Ha. Qed.

Lemma room_refs_mono (P Q : nat → Prop) g : (∀ s, P s → Q s) → room_refs P g → room_refs Q g.
Proof. intros HPQ [H1 H2]. split; eauto. Qed.

Lemma refs_mono (P Q : nat → Prop) w : (∀ s, P s → Q s) → refs P w → refs Q w.
Proof.
  intros HPQ [H1 H2 H3 H4]. split; eauto.
  - intros r g Hg. eapply room_refs_mono; [done|]. by eapply H1.
  - intros a Ha. destruct (H4 a Ha) as (s & Hs & E). eauto.
Qed.

(** An action that leaves the registry and the ids of sessions alone. *)
Lemma tracks_frame k w w' :
  (∀ s, (s < k)%nat → m_sessionId (sess s (net w')) = m_sessionId (sess s (net w))) →
  (∀ s, (s < k)%nat → IsDisconnected s (net w) = true → IsDisconnected s (net w') = true) →
  smgr w' = smgr w →
  (∀ a, a ∈ inflight (net w) → a ∈ inflight (net w') ∧ ctx_at a (net w') = ctx_at a (net w)) →
  (refs (acc k w) w → refs (acc k w) w') → tracks k w w'.
Proof.
  intros Hid Hd Hm Hkept HR.
  assert (Hacc : ∀ s, acc k w s → acc k w' s).
  { intros s [Hk [Hs|Hs]]; (split; [done|]); [left; auto|right]. by rewrite Hid, Hm. }
  split; [done| |done|].
  - intros s Hk [Hz1 Hz2]. split; [auto|]. by rewrite Hid, Hm.
  - intros Hr. apply (refs_mono (acc k w)); [exact Hacc|]. auto.
Qed.

Lemma counted_frame d w w' :
  smgr w' = smgr w →
  currentConnections (stats (net w')) = currentConnections (stats (net w)) →
  counted d w → counted d w'.
Proof. unfold counted. by intros -> ->. Qed.

Lemma acct_frame k w w' :
  (∀ s, (s < k)%nat → m_sessionId (sess s (net w')) = m_sessionId (sess s (net w))) →
  (∀ s, (s < k)%nat → IsDisconnected s (net w) = true → IsDisconnected s (net w') = true) →
  smgr w' = smgr w →
  currentConnections (stats (net w')) = currentConnections (stats (net w)) →
  (∀ a, a ∈ inflight (net w) → a ∈ inflight (net w') ∧ ctx_at a (net w') = ctx_at a (net w)) →
  (refs (acc k w) w → closes (λ s, (s < k)%nat) (acc k w) (net w) (net w')) →
  (refs (acc k w) w → refs (acc k w) w') → acct k w w'.
Proof.
  intros Hid Hd Hm Hc Hkept Hcl HR. split.
  - by apply tracks_frame.
  - intros d. by apply counted_frame.
  - intros Hr. split; [done|by rewrite Hm|rewrite Hm; by left|by apply Hcl].
Qed.

(** A step of the world as a whole closes sockets of accepted sessions. *)
Lemma posts_below k w n' :
  posts (acc k w) (net w) n' → closes (λ s, (s < k)%nat) (acc k w) (net w) n'.
Proof. intros Hp. eapply closes_mono, po_closes, Hp; [done|done|]. by intros s []. Qed.

Lemma acct_intro k w w' :
  (∀ s, (s < k)%nat → m_sessionId (sess s (net w')) = m_sessionId (sess s (net w))) →
  (∀ s, (s < k)%nat → IsDisconnected s (net w) = true → IsDisconnected s (net w') = true) →
  smgr w' = smgr w →
  currentConnections (stats (net w')) = currentConnections (stats (net w)) →
  posts (acc k w) (net w) (net w') →
  (rooms_refs (acc k w) (rooms w) → rooms_refs (acc k w) (rooms w')) →
  ((∀ token s, (token, s) ∈ auth w → acc k w s) → ∀ token s, (token, s) ∈ auth w' → acc k w s) →
  (∀ s, s ∈ rx_pending (net w') → s ∈ rx_pending (net w) ∨ acc k w s) →
  acct k w w'.
Proof.
  intros Hid Hd Hm Hc Hp HR Ha Hx. apply acct_frame; try done; [apply Hp|intros _; by apply posts_below|].
  intros [R1 R2 R3 R4]. split.
  - by apply HR.
  - by apply Ha.
  - intros s [Hin|Hs]%Hx; [by apply R3|done].
  - by eapply posts_send.
Qed.

Lemma handles_acct k w w' : handles (acc k w) w w' → acct k w w'.
Proof.
  intros [Hp Hm Hc Hpo HR Ha]. apply acct_intro; try done.
  - intros s _. by apply (plays_field m_sessionId (net w) (net w')).
  - intros s _. apply Hp.
  - apply (plays_conns _ _ Hp).
  - rewrite (plays_recv _ _ Hp). by left.
Qed.

(** Changing a session in other respects, and counting other things. *)
Lemma acct_upd k s f w :
  (∀ x, m_sessionId (f x) = m_sessionId x ∧ m_disconnected (f x) = m_disconnected x
        ∧ m_sock (f x) = m_sock x) →
  acct k w (with_net (upd_session s f (net w)) w).
Proof.
  intros Hf. apply acct_intro; try done.
  - intros t _. simpl. rewrite sess_upd_dec. case_decide; [apply Hf|done].
  - intros t _. unfold IsDisconnected. simpl. rewrite sess_upd_dec. case_decide; [|done].
    by rewrite (proj1 (proj2 (Hf _))).
  - apply posts_upd. intros x. by destruct (Hf x) as (_ & -> & ->).
  - by left.
Qed.

Lemma acct_net k n w :
  sessions n = sessions (net w) → pool n = pool (net w) → inflight n = inflight (net w) →
  rx_pending n = rx_pending (net w) → closed n = closed (net w) →
  currentConnections (stats n) = currentConnections (stats (net w)) →
  acct k w (with_net n w).
Proof.
  intros Es Ep Ei Er Ek Ec.
  assert (Hsess : ∀ t, sess t n = sess t (net w)) by (intros t; unfold sess; by rewrite Es).
  apply acct_intro; try done.
  - intros t _. simpl. by rewrite Hsess.
  - intros t _. unfold IsDisconnected. simpl. by rewrite Hsess.
  - by apply posts_same.
  - simpl. rewrite Er. by left.
Qed.

(** A socket that no session has is closed. *)
Lemma closesocket_tracks k sock w :
  tracks k w (with_net (closesocket sock (net w)) w)
  ∧ ∀ d, counted d w → counted d (with_net (closesocket sock (net w)) w).
Proof.
  split; [|done]. apply tracks_frame; try done. by intros [].
Qed.

(** ** Disconnecting *)

Lemma u64_pred c d : u64 (u64 (c + d) - 1) = u64 (c - 1 + d).
Proof. unfold u64, wrapU. rewrite Zminus_mod_idemp_l. f_equal. lia. Qed.

(** What [HandleDisconnect] does before it tells the room. *)
Definition unregistered s w : World :=
  with_smgr (Remove (m_sessionId (sess s (net w))) (smgr w))
    (on_stats dec_currentConnections (with_net (Disconnect s (net w)).2 w)).

Lemma unregistered_accepted k s w t :
  IsDisconnected s (net w) = false →
  SessionManager.Find (m_sessionId (sess s (net w))) (smgr w) = Some s →
  acc k w t → acc k (unregistered s w) t.
Proof.
  intros Hd Hfind [Htk Ht]. pose proof (Disconnect_sends s (net w)) as Hs. split; [done|].
  destruct (decide (t = s)) as [->|Hts].
  { left. unfold IsDisconnected. simpl.
    change (sess s (set_stats ?a ?b)) with (sess s b). apply Disconnect_disconnected. }
  destruct Ht as [Ht|Ht]; [left|right]; unfold IsDisconnected; simpl;
    change (sess t (set_stats ?a ?b)) with (sess t b); rewrite Disconnect_ne by done; [done|].
  rewrite Find_Remove. case_decide as E; [|done]. rewrite E in Ht. congruence.
Qed.

(** A session is disconnected and taken out of the registry. *)
Lemma dropped_settled k s id w w' :
  (s < k)%nat → IsDisconnected s (net w) = false →
  SessionManager.Find (m_sessionId (sess s (net w))) (smgr w) = Some s →
  SessionManager.Find id (smgr w) = Some s →
  sessions (net w') = sessions (Disconnect s (net w)).2 →
  closed (net w') = closed (Disconnect s (net w)).2 →
  smgr w' = Remove id (smgr w) → settled k w w'.
Proof.
  intros Hk Hd Hself Hfind Es Ec Em. pose proof (Disconnect_sends s (net w)) as Hs.
  assert (Hsess : ∀ t, sess t (net w') = sess t (Disconnect s (net w)).2)
    by (intros t; unfold sess; by rewrite Es).
  split; rewrite ?Em.
  - intros t _. rewrite Hsess. apply (sends_sessionId Hs).
  - intros i t _. rewrite Find_Remove. by case_decide.
  - intros i t _ Hf. rewrite Find_Remove. case_decide as E; [|by left]. right. subst i.
    assert (t = s) as -> by congruence. rewrite Hsess.
    destruct (Disconnect_first s (net w) Hd) as (_ & -> & _). done.
  - etrans; [apply (Disconnect_closes _ (acc k w) s)|]; [done|by split; [done|right]|].
    apply closes_same; [done|]. intros t _. unfold IsDisconnected. by rewrite Hsess.
Qed.

Lemma unregistered_acct k s w :
  (s < k)%nat → sm_wf (smgr w) → IsDisconnected s (net w) = false →
  SessionManager.Find (m_sessionId (sess s (net w))) (smgr w) = Some s →
  acct k w (unregistered s w).
Proof.
  intros Hk Hm Hd Hfind. destruct (Disconnect_first s (net w) Hd) as (_ & _ & _ & Hst).
  destruct (Disconnect_inflight s (net w)) as [Hi Hp].
  pose proof (Disconnect_sends s (net w)) as Hs.
  split; [split| |].
  - intros t. by apply unregistered_accepted.
  - intros t _ [Ht1 Ht2]. assert (Hts : t ≠ s) by (intros ->; congruence).
    unfold zombie, IsDisconnected. simpl. change (sess t (set_stats ?a ?b)) with (sess t b).
    rewrite Disconnect_ne by done. split; [done|]. rewrite Find_Remove.
    case_decide as E; [|done]. rewrite E in Ht2. congruence.
  - intros a Ha. simpl. unfold ctx_at. simpl. by rewrite Hi, Hp.
  - intros [R1 R2 R3 R4]. apply (refs_mono (acc k w)).
    { intros t. by apply unregistered_accepted. }
    split; try done.
    + simpl. by rewrite (proj2 (sends_recv _ _ Hs)).
    + intros a. simpl. unfold ctx_at. simpl. rewrite Hi, Hp. apply R4.
  - unfold counted. simpl. rewrite Hst. intros d ->.
    rewrite <- (Count_Remove (m_sessionId (sess s (net w))) (smgr w)) by (done || by eexists).
    rewrite u64_pred. f_equal. lia.
  - intros _. by apply (dropped_settled k s (m_sessionId (sess s (net w)))).
Qed.

Lemma HandleDisconnect_acct k s w w' :
  sm_wf (smgr w) → acc k w s → HandleDisconnect s w = Some w' → acct k w w'.
Proof.
  intros Hm Hs. pose proof Hs as [Hk Hor]. unfold HandleDisconnect.
  destruct (IsDisconnected s (net w)) eqn:Hd.
  { rewrite Disconnect_again by done. simpl. intros [= <-]. by destruct w. }
  destruct Hor as [?|Hfind]; [congruence|].
  pose proof (unregistered_acct k s w Hk Hm Hd Hfind) as H1.
  destruct (Disconnect_first s (net w) Hd) as (Hb & Hx & _ & _). unfold unregistered in H1.
  destruct (Disconnect s (net w)) as [b n]. cbn [fst snd] in *. subst b. cbn [negb].
  change (net (on_stats dec_currentConnections (with_net n w)))
    with (set_stats (dec_currentConnections (stats n)) n).
  change (sess s (set_stats ?a ?b)) with (sess s b). rewrite Hx. simpl (m_sessionId _).
  change (smgr (on_stats dec_currentConnections (with_net n w))) with (smgr w).
  set (w1 := with_smgr _ _) in *.
  destruct (GetRoom s (net w1)) as [r|]; [|by intros [= <-]].
  unfold push_job. destruct (room_PushJob _ _ _) as [R|] eqn:E; [|done]. intros [= <-].
  pose proof (acct_upd k s (SetRoom None) w1 ltac:(done)) as H2.
  set (w2 := with_net _ w1) in *. assert (H12 : acct k w w2) by (by etrans).
  etrans; [exact H12|]. apply acct_intro; try done; [|by left].
  apply (λ Hj, room_PushJob_refs _ _ (JLeave s) _ _ Hj E).
  intros ? [= <-]. by apply (ac_accepted _ _ _ _ H12).
Qed.

(** ** Receiving *)

Lemma PostRecv_acct k s w w' :
  sm_wf (smgr w) → acc k w s → PostRecv s w = Some w' → acct k w w'.
Proof.
  intros Hm Hs. unfold PostRecv. destruct (IsDisconnected s (net w)); [by intros [= <-]|].
  destruct (m_recvContext _) as [c|]; [|done]. destruct (GetWriteBufferPtr _) as [off b'].
  set (w1 := with_net (upd_session s (set_recvBuffer b') (net w)) w).
  assert (H1 : acct k w w1) by (by apply acct_upd).
  set (f := set_recvContext _). set (w2 := with_net (upd_session s f (net w1)) w1).
  assert (H2 : acct k w1 w2) by (by apply acct_upd).
  assert (H12 : acct k w w2) by (by etrans).
  assert (H3 : acct k w2 (WSARecv s w2).2).
  { apply acct_intro; try done; [by apply posts_same|].
    intros t. simpl. case_match; [|by left]. rewrite elem_of_app, list_elem_of_singleton.
    intros [Ht| ->]; [by left|right]. by apply (ac_accepted _ _ _ _ H12). }
  assert (Hm3 : sm_wf (smgr (WSARecv s w2).2)) by done.
  destruct (WSARecv s w2) as [r w3]. cbn [snd] in *.
  assert (H13 : acct k w w3) by (by etrans). destruct r; [by intros [= <-]|].
  intros E. etrans; [exact H13|]. eapply HandleDisconnect_acct; [done| |exact E].
  by apply (ac_accepted _ _ _ _ H13).
Qed.

Lemma CheckRateLimit_acct k s w : acct k w (with_net (CheckRateLimit s (net w)).2 w).
Proof.
  unfold CheckRateLimit. cbn [NowMs]. set (n1 := mkNet _ _ _ _ _ _ _ _ _ _ _).
  assert (H1 : acct k w (with_net n1 w)) by (by apply acct_net).
  destruct (CheckRateLimit_at _ _) as [r x] eqn:E. cbn [snd].
  assert (Hx : m_sessionId x = m_sessionId (sess s n1) ∧ m_disconnected x = m_disconnected (sess s n1)
               ∧ m_sock x = m_sock (sess s n1)).
  { unfold CheckRateLimit_at in E. injection E as _ <-. by repeat case_decide. }
  destruct Hx as (X1 & X2 & X3). etrans; [exact H1|].
  apply acct_intro; try done; [| | |by left].
  - intros t _. simpl. rewrite sess_upd_dec. case_decide; [by subst|done].
  - intros t _. unfold IsDisconnected. simpl. rewrite sess_upd_dec. case_decide; [|done].
    subst. by rewrite X2.
  - apply posts_closes; [done..|]. apply closes_same; [done|]. intros t _.
    unfold IsDisconnected. simpl. rewrite sess_upd_dec. case_decide; [|done]. subst. by rewrite X2, X3.
Qed.

Lemma stats_acct k f w :
  (∀ x : ServerStats, currentConnections (f x) = currentConnections x) → acct k w (on_stats f w).
Proof. intros Hf. apply acct_intro; try done; [apply Hf|by apply posts_same|by left]. Qed.

Lemma serve_acct k max s packets w w' :
  serving s w → (∀ p, p ∈ packets → p ≠ []) →
  (∃ rest, contents (m_recvBuffer (sess s (net w))) = concat packets ++ rest) →
  acc k w s → serve max s packets w = Some w' → acct k w w'.
Proof.
  revert w. induction packets as [|p packets IH]; intros w Hs Hne [rest Hcont] Ha; cbn [serve].
  { apply PostRecv_acct; [apply Hs|done]. }
  assert (Hdis : ∀ w1, smgr w1 = smgr w → acct k w w1 → HandleDisconnect s w1 = Some w' → acct k w w').
  { intros w1 Em H1 E. etrans; [exact H1|]. eapply HandleDisconnect_acct, E.
    - rewrite Em. apply Hs.
    - by apply (ac_accepted _ _ _ _ H1). }
  case_decide as Hsz; [apply Hdis; [done|by apply stats_acct]|].
  destruct (serving_admit s w Hs) as [Hs1 Hq1].
  pose proof (CheckRateLimit_acct k s w) as Hcr.
  assert (Hm : smgr (with_net (CheckRateLimit s (net w)).2 w) = smgr w) by done.
  destruct (CheckRateLimit s (net w)) as [ok n]. cbn [snd] in *. destruct ok; cbn [negb].
  2:{ apply Hdis; [done|]. etrans; [exact Hcr|]. by apply stats_acct. }
  set (w1 := on_stats inc_packetsReceived (with_net n w)) in *.
  assert (H1 : acct k w w1) by (etrans; [exact Hcr|]; by apply stats_acct).
  destruct (HandlePacket_serving (acc k w1) s p w1) as (w2 & -> & Hs2 & Hq2 & Hh);
    [by apply (ac_accepted _ _ _ _ H1)|done|]. cbn [mbind option_bind].
  apply handles_acct in Hh. set (w3 := pop_packet s (Z.of_nat (length p)) w2).
  assert (H3 : acct k w2 w3) by (by apply acct_upd).
  assert (H13 : acct k w w3) by (etrans; [exact H1|]; etrans; [exact Hh|exact H3]).
  destruct (serving_next s p packets rest w w2 Hcont) as [Hs3 Hcont3]; [etrans; [exact Hq1|exact Hq2]|done|].
  intros E. etrans; [exact H13|]. eapply IH; [exact Hs3| |by exists rest| |exact E].
  - intros q Hq. apply Hne. set_solver.
  - by apply (ac_accepted _ _ _ _ H13).
Qed.
(** The kernel's part of a receive, and what [HandleRecv] notes about it. *)
Lemma kernel_receive_acct k s data w : acct k w (kernel_receive s data w).
Proof.
  unfold kernel_receive. set (n1 := mkNet _ _ _ _ _ _ _ _ _ _ _).
  assert (H1 : acct k w (with_net n1 w)).
  { apply acct_intro; try done; [by apply posts_same|].
    intros t. simpl. rewrite elem_of_us_erase. tauto. }
  etrans; [exact H1|]. apply (acct_upd k s _ (with_net n1 w)).
  intros x. by repeat case_match.
Qed.

Lemma received_acct k s d w : acct k w (received s d w).
Proof.
  unfold received. set (w1 := with_net (upd_session s _ (net w)) w).
  assert (H1 : acct k w w1) by (by apply acct_upd).
  cbv zeta. unfold UpdateActivity. cbn [NowMs]. set (n2 := mkNet _ _ _ _ _ _ _ _ _ _ _).
  assert (H2 : acct k w1 (with_net n2 w1)) by (by apply acct_net).
  set (f := set_lastActivity _).
  assert (H3 : acct k (with_net n2 w1) (with_net (upd_session s f n2) w1))
    by (by apply (acct_upd k s f (with_net n2 w1))).
  etrans; [exact H1|]. etrans; [exact H2|]. etrans; [exact H3|]. by apply stats_acct.
Qed.

Lemma HandleRecv_acct k s data w w' :
  conn_wf w → s ∈ rx_pending (net w) →
  (∃ c, m_recvContext (sess s (net w)) = Some c ∧ Z.of_nat (length data) ≤ wsaBuf_len c) →
  acc k w s → HandleRecv s (Z.of_nat (length data)) (kernel_receive s data w) = Some w' →
  acct k w w'.
Proof.
  intros Hc Hs Hx Ha. destruct (HandleRecv_ok s data w Hc Hs Hx) as (-> & _).
  destruct (kernel_receive_ok s data w Hc Hs Hx) as (Hs1 & Hl & Hcont & _).
  set (w1 := kernel_receive s data w) in *.
  destruct (received_ok s (Z.of_nat (length data)) w1 Hs1) as (Hs2 & Hb2 & _); [split; [lia|exact Hl]|].
  assert (H2 : acct k w (received s (Z.of_nat (length data)) w1)).
  { etrans; [apply (kernel_receive_acct k s data)|]. apply received_acct. }
  intros E. etrans; [exact H2|]. eapply serve_acct; [exact Hs2| | | |exact E].
  - intros p Hp ->. by apply (frames_nonempty (unread s w ++ data)).
  - exists (frames (unread s w ++ data)).2. rewrite Hb2, Hcont. apply frames_concat.
  - by apply (ac_accepted _ _ _ _ H2).
Qed.
(** ** Accepting *)

Lemma acct_fresh k f w : acct k w (with_net (upd_session k f (net w)) w).
Proof.
  assert (Hsess : ∀ s, (s < k)%nat → sess s (upd_session k f (net w)) = sess s (net w)).
  { intros s Hs. apply sess_upd_ne. lia. }
  apply acct_frame; try done.
  - intros s Hs. simpl. by rewrite Hsess.
  - intros s Hs. unfold IsDisconnected. simpl. by rewrite Hsess.
  - intros _. apply closes_same; [done|]. intros s Hs. unfold IsDisconnected. by rewrite Hsess.
  - by intros [].
Qed.

Lemma opened_acct k sock w : acct k w (opened k sock w).
Proof.
  unfold opened, Session_Init, UpdateActivity. cbn [NowMs].
  set (n1 := upd_session k (λ _, Session_new) (net w)).
  set (n2 := upd_session k (set_sock (Some sock)) n1).
  set (n3 := mkNet _ _ _ _ _ _ _ _ _ _ _).
  etrans; [apply (acct_fresh k (λ _, Session_new) w)|].
  etrans; [apply (acct_fresh k (set_sock (Some sock)) (with_net n1 w))|].
  etrans; [by apply (acct_net k n3 (with_net n2 w))|].
  etrans; [apply (acct_fresh k (set_lastActivity (steady_ms (n_steady n2))) (with_net n3 w))|].
  apply (acct_fresh k _ (with_net (upd_session k _ n3) w)).
Qed.

(** Registering the next session. *)
Lemma Add_tracks k w :
  conn_wf w → within k w →
  let '(id, m, n) := Add k (smgr w) (net w) in
  let w' := with_smgr m (with_net n w) in
  tracks k w w' ∧ (∀ d, counted d w → counted (d - 1) w')
  ∧ id = m_sessionId (sess k (net w')) ∧ SessionManager.Find id (smgr w') = Some k.
Proof.
  intros Hc Hw. pose proof (ww_smgr _ (cw_world _ Hc)) as Hm.
  pose proof (λ id, Find_Add k (smgr w) (net w) id Hm) as Hfind.
  pose proof (Count_Add k (smgr w) (net w) Hm) as Hcount.
  cbn [Add fst snd] in *. set (id := m_nextSessionId (smgr w)) in *.
  set (m := {| m_sessions := _ |}) in *. set (n := upd_session k _ (net w)).
  set (w' := with_smgr m (with_net n w)).
  assert (Hsess : ∀ s, (s < k)%nat → sess s (net w') = sess s (net w)).
  { intros s Hs. apply sess_upd_ne. lia. }
  assert (Hold : ∀ i s, SessionManager.Find i (smgr w) = Some s → SessionManager.Find i m = Some s).
  { intros i s Hi. rewrite Hfind. case_decide as E; [|done]. subst i. exfalso.
    apply (Add_fresh _ Hm). apply dec_stable. intros Hn%um_find_None.
    unfold SessionManager.Find in Hi. fold id in Hn. congruence. }
  assert (Hacc : ∀ s, acc k w s → acc k w' s).
  { intros s [Hs [Hd|Hd]]; (split; [done|]); unfold accepted, IsDisconnected;
      rewrite Hsess by done; [by left|right; by apply Hold]. }
  split_and!.
  - split; [done| |done|].
    + intros s Hs [H1 H2]. unfold zombie, IsDisconnected. rewrite Hsess by done.
      split; [done|by apply Hold].
    + intros HR. apply (refs_mono (acc k w)); [done|]. by destruct HR.
  - unfold counted. intros d Hd. simpl. rewrite Hd. f_equal. rewrite Hcount. lia.
  - simpl. unfold n. by rewrite sess_upd.
  - simpl. rewrite Hfind. by rewrite decide_True.
Qed.

Lemma policy_clock_acct k p w : acct k w (policy_clock p w).
Proof. unfold policy_clock. case_decide; by apply acct_net. Qed.

(** Closing and unregistering it again. *)
Lemma rejected_tracks k id w :
  sm_wf (smgr w) → SessionManager.Find id (smgr w) = Some k →
  tracks k w (rejected k id w) ∧ (∀ d, counted d w → counted (d + 1) (rejected k id w)).
Proof.
  intros Hm Hid. unfold rejected. set (w1 := on_stats inc_policyRejections w).
  destruct (Disconnect_inflight k (net w1)) as [Hi Hp].
  pose proof (Disconnect_sends k (net w1)) as Hs. set (w' := with_smgr _ _).
  assert (Hi' : inflight (net w') = inflight (net w)) by exact Hi.
  assert (Hp' : pool (net w') = pool (net w)) by exact Hp.
  assert (Hr' : rx_pending (net w') = rx_pending (net w)) by exact (proj2 (sends_recv _ _ Hs)).
  assert (Hc' : currentConnections (stats (net w')) = currentConnections (stats (net w)))
    by exact (proj1 (sends_conns _ _ Hs)).
  assert (Hsess : ∀ s, (s < k)%nat → sess s (net w') = sess s (net w)).
  { intros s Hsk. simpl. rewrite Disconnect_ne; [done|lia]. }
  assert (Hfind : ∀ s, (s < k)%nat → SessionManager.Find (m_sessionId (sess s (net w))) (smgr w) = Some s →
    SessionManager.Find (m_sessionId (sess s (net w))) (smgr w') = Some s).
  { intros s Hsk Hf. simpl. rewrite Find_Remove. case_decide as E; [|done]. exfalso.
    rewrite E in Hf. change (smgr w1) with (smgr w) in *. assert (s = k) as -> by congruence. lia. }
  assert (Hacc : ∀ s, acc k w s → acc k w' s).
  { intros s [Hsk [Hd|Hd]]; (split; [done|]); unfold accepted, IsDisconnected;
      rewrite Hsess by done; [by left|right; by apply Hfind]. }
  split; [split; [done| | |]|].
  - intros s Hsk [H1 H2]. unfold zombie, IsDisconnected. rewrite Hsess by done. auto.
  - intros a Ha. unfold ctx_at. by rewrite Hi', Hp'.
  - intros HR. apply (refs_mono (acc k w)); [done|]. destruct HR as [R1 R2 R3 R4].
    split; try done.
    + by rewrite Hr'.
    + intros a. unfold ctx_at. rewrite Hi', Hp'. apply R4.
  - unfold counted. intros d Hd. rewrite Hc', Hd. simpl.
    f_equal. rewrite <- (Count_Remove id (smgr w)) by (done || by eexists). lia.
Qed.

(** Counting it. *)
Lemma admitted_tracks k s w :
  tracks k w (admitted s w) ∧ (∀ d, counted d w → counted (d + 1) (admitted s w)).
Proof.
  unfold admitted, InitRateLimit. cbn [NowMs].
  set (n1 := mkNet _ _ _ _ _ _ _ _ _ _ _). set (f := InitRateLimit_at _ _).
  assert (H1 : acct k w (with_net (upd_session s f n1) w)).
  { etrans; [by apply (acct_net k n1 w)|]. by apply (acct_upd k s f (with_net n1 w)). }
  set (w1 := with_net _ w) in *. split.
  - etrans; [apply H1|]. split; [done|done|done|].
    intros HR. apply (refs_mono (acc k w1)); [done|]. by destruct HR.
  - intros d Hd. pose proof (ac_count _ _ _ H1 _ Hd) as Hd1. unfold counted in *. simpl in *.
    rewrite Hd1. unfold u64, wrapU. rewrite Zplus_mod_idemp_l. f_equal. lia.
Qed.

(** What every event keeps for the first [k] sessions. *)
Record stable k w w' : Prop := {
  sb_zombie : ∀ s, (s < k)%nat → zombie s w → zombie s w';
  sb_kept : ∀ a, a ∈ inflight (net w) → a ∈ inflight (net w') ∧ ctx_at a (net w') = ctx_at a (net w) }.

Lemma tracks_stable k w w' : tracks k w w' → stable k w w'.
Proof. by intros []. Qed.

(** The server's accounts are in order. *)
Record accounted v : Prop := {
  at_count : counted 0 (world v);
  at_refs : refs (acc (next_session v) (world v)) (world v) }.

Lemma refs_more k k' w : (k ≤ k')%nat → refs (acc k w) w → refs (acc k' w) w.
Proof. intros Hk. apply refs_mono. intros s [Hs ?]. split; [lia|done]. Qed.

Lemma accounted_tracks k v v' :
  next_session v = k → (k ≤ next_session v')%nat → accounted v →
  tracks k (world v) (world v') → counted 0 (world v') → accounted v'.
Proof.
  intros <- Hk [_ Hr] Ht Hc. split; [done|]. eapply refs_more; [done|]. by apply (tr_refs _ _ _ Ht).
Qed.

Lemma accounted_acct v w' :
  accounted v → acct (next_session v) (world v) w' → accounted (set_world w' v).
Proof.
  intros Hv [Ht Hc _]. apply (accounted_tracks (next_session v) v); [done|done|done|exact Ht|]. apply Hc, Hv.
Qed.

Lemma PostAccept_accounted o v0 v :
  accounted v ∧ stable (next_session v0) (world v0) (world v) →
  accounted (PostAccept o v)
  ∧ stable (next_session v0) (world v0) (world (PostAccept o v)).
Proof.
  intros [Hv Hs]. destruct o as [|sock|sock]; [by split; [destruct Hv|]| |by split; [destruct Hv|]].
  destruct (closesocket_tracks (next_session v) sock (world v)) as [Ht Hc]. split.
  - eapply (accounted_tracks (next_session v) v); [done|done|done|exact Ht|]. apply Hc, Hv.
  - by destruct Hs.
Qed.

(** A registered session waits for its first bytes. *)
Lemma admitted_accounted v v1 s w w' :
  accounted v → next_session v = s → next_session v1 = S s →
  sm_wf (smgr w) → tracks s (world v) w → counted (-1) w →
  SessionManager.Find (m_sessionId (sess s (net w))) (smgr w) = Some s →
  PostRecv s (admitted s w) = Some w' →
  let v' := set_world w' v1 in
  accounted v' ∧ stable s (world v) (world v').
Proof.
  intros Hv Es E1 Hm Ht Hd Hfind E v'. destruct (admitted_tracks s s w) as [H1 Hc1].
  destruct (admitted_tracks (S s) s w) as [H2 _]. set (w1 := admitted s w) in *.
  assert (Ha : acc (S s) w1 s) by (apply (tr_accepted _ _ _ H2); split; [lia|by right]).
  pose proof (PostRecv_acct (S s) s w1 w' Hm Ha E) as H3.
  assert (Ht1 : tracks s (world v) w1) by (by etrans).
  assert (Hr1 : refs (acc (S s) w1) w1).
  { apply (refs_more s); [lia|]. rewrite <- Es in Ht1 |- *. by apply (tr_refs _ _ _ Ht1), Hv. }
  split; [split|]; simpl.
  - apply (ac_count _ _ _ H3 0), (Hc1 (-1)), Hd.
  - rewrite E1. by apply (tr_refs _ _ _ (ac_tracks _ _ _ H3)).
  - destruct Ht1 as [_ Z1 K1 _], (ac_tracks _ _ _ H3) as [_ Z3 K3 _]. split.
    + intros t Hts Hz. apply Z3; [lia|]. by apply Z1.
    + intros a Hin. destruct (K1 a Hin) as [Hin' <-]. by apply K3.
Qed.

Lemma HandleAcceptCompletion_accounted sock success associated sock' v v' :
  server_wf v → ids_left v → accounted v →
  HandleAcceptCompletion sock success associated sock' v = Some v' →
  accounted v' ∧ stable (next_session v) (world v) (world v').
Proof.
  intros [Hc Hw] Hk Hv. destruct success.
  2:{ intros [= <-]. apply PostAccept_accounted.
      destruct (closesocket_tracks (next_session v) sock (world v)) as [Ht Hct].
      split; [|by apply tracks_stable]. eapply (accounted_tracks (next_session v) v);
        [done|done|done|exact Ht|]. apply Hct, Hv. }
  rewrite HandleAcceptCompletion_stages. cbv zeta. simpl (world (set_next _ _)).
  destruct (opened_ok (next_session v) sock (world v) Hc Hw) as (Hc1 & Hw1 & Hx1 & Hr1).
  pose proof (opened_acct (next_session v) sock (world v)) as H1.
  set (s := next_session v) in *. set (w1 := opened s sock (world v)) in *.
  destruct associated; cbn [negb].
  2:{ intros [= <-]. apply PostAccept_accounted. destruct (closesocket_tracks s sock w1) as [Ht2 Hct].
      assert (Ht : tracks s (world v) (with_net (closesocket sock (net w1)) w1))
        by (etrans; [apply H1|exact Ht2]).
      split; [|by apply tracks_stable]. eapply (accounted_tracks s v); [done|simpl; lia|done|exact Ht|].
      apply Hct, H1, Hv. }
  pose proof (Add_tracks s w1 Hc1 Hw1) as H2. pose proof (enrolled_ok s w1 Hc1 Hw1 Hk Hr1 Hx1) as He.
  destruct (Add s (smgr w1) (net w1)) as [[id m] n].
  destruct H2 as (H2 & Hcnt & Hid & Hfind). destruct He as (Hc2 & _).
  set (w2 := with_smgr m (with_net n w1)) in *. simpl (policy (set_next _ _)).
  pose proof (policy_clock_acct s (policy v) w2) as H3.
  assert (Hsess : sess s (net (policy_clock (policy v) w2)) = sess s (net w2))
    by (unfold policy_clock; by case_decide).
  assert (Hm3 : sm_wf (smgr (policy_clock (policy v) w2))) by apply Hc2.
  assert (Ef : smgr (policy_clock (policy v) w2) = smgr w2) by done.
  set (w3 := policy_clock _ w2) in *.
  assert (Ht3 : tracks s (world v) w3) by (etrans; [apply H1|]; etrans; [exact H2|apply H3]).
  assert (Hd3 : counted (-1) w3) by (apply H3, (Hcnt 0), H1, Hv).
  destruct (ConsumeGlobalConnectionToken _ _) as [r p]. destruct r; cbn [negb].
  - destruct (PostRecv s (admitted s w3)) as [w5|] eqn:E; [|done]. intros [= <-].
    apply PostAccept_accounted. eapply (admitted_accounted v _ s w3); try done.
    by rewrite Hsess, Ef, <- Hid.
  - intros [= <-]. destruct (rejected_tracks s id w3) as [H4 Hc4]; [done|by rewrite Ef|].
    assert (Ht4 : tracks s (world v) (rejected s id w3)) by (by etrans).
    apply PostAccept_accounted. split; [|by apply tracks_stable].
    eapply (accounted_tracks s v); [done|simpl; lia|done|exact Ht4|]. apply (Hc4 (-1)), Hd3.
Qed.

(** ** The other events *)

Lemma GetAll_accepted k w s : conn_wf w → within k w → s ∈ GetAll (smgr w) → acc k w s.
Proof.
  intros Hc Hw Hs. apply list_elem_of_fmap in Hs as ([id t] & -> & Hin).
  assert (Hf : SessionManager.Find id (smgr w) = Some t).
  { apply um_find_Some; [apply (ww_smgr _ (cw_world _ Hc))|done]. }
  split; [by eapply (wi_find _ _ Hw)|]. right. simpl. by rewrite (cw_ids _ Hc id t Hf).
Qed.

Lemma heartbeat_sessions_acct k timeoutMs ss w w' :
  conn_wf w → (∀ s, s ∈ ss → acc k w s) →
  heartbeat_sessions timeoutMs ss w = Some w' → acct k w w'.
Proof.
  revert w. induction ss as [|s ss IH]; intros w Hc Hss; cbn [heartbeat_sessions].
  { by intros [= <-]. }
  unfold IsTimedOut. cbn [NowMs]. set (n := mkNet _ _ _ _ _ _ _ _ _ _ _).
  destruct (conn_clock w n) as [Hc1 Hq1]; [done..|].
  assert (H1 : acct k w (with_net n w)) by (by apply acct_net).
  case_bool_decide as Hto; simpl.
  2:{ intros E. etrans; [exact H1|]. eapply IH; [exact Hc1| |exact E].
      intros t Ht. apply (ac_accepted _ _ _ _ H1), Hss. by right. }
  destruct (HandleDisconnect_safe s (with_net n w) Hc1) as (w2 & E2 & Hc2 & _).
  rewrite E2. simpl. intros E.
  assert (H2 : acct k (with_net n w) w2).
  { eapply HandleDisconnect_acct; [apply (cw_world _ Hc1)| |exact E2].
    apply (ac_accepted _ _ _ _ H1), Hss. by left. }
  assert (H12 : acct k w w2) by (by etrans). etrans; [exact H12|].
  eapply IH; [exact Hc2| |exact E]. intros t Ht. apply (ac_accepted _ _ _ _ H12), Hss. by right.
Qed.

Lemma Heartbeat_acct k w w' :
  conn_wf w → within k w → Heartbeat w = Some w' → acct k w w'.
Proof.
  intros Hc Hw. unfold Heartbeat.
  destruct (heartbeat_sessions_ok k (heartbeatTimeoutMs (cfg w)) (GetAll (smgr w)) w)
    as (w1 & E & Hc1 & Hw1); [done..|]. rewrite E. cbn [mbind option_bind].
  apply (heartbeat_sessions_acct k) in E;
    [|done|intros s; by apply GetAll_accepted].
  pose proof (λ P, RemoveIdleRooms_refs P (idleRoomTimeoutMs (cfg w1)) (rooms w1) (net w1)
    (ww_rooms _ (cw_world _ Hc1))) as HR.
  intros [= <-]. etrans; [exact E|]. apply acct_intro; try done; [by apply posts_same|apply HR|by left].
Qed.

Lemma GameTick_acct k w w' : conn_wf w → GameTick w = Some w' → acct k w w'.
Proof.
  intros Hc. destruct (cw_world _ Hc) as [HR Hl Hn Hm]. unfold GameTick, TickAll.
  destruct (tick_rooms_ok (reconnectWindowMs (cfg w)) (map (λ e, e.2.1) (m_rooms (rooms w)))
    (rooms w) (net w)) as (R' & n' & -> & _ & _ & _ & Hp & _ & HP); [done..|intros r; apply deref_member|].
  intros [= <-]. apply acct_frame; simpl; try done.
  - intros s _. by apply (plays_field m_sessionId (net w) n').
  - intros s _. apply (plays_disc _ _ Hp).
  - apply (plays_conns _ _ Hp).
  - apply (HP (λ _, True)). intros r g _. by split.
  - intros [R1 _ _ _]. apply posts_below, (HP (acc k w) R1).
  - intros [R1 R2 R3 R4]. destruct (HP (acc k w) R1) as [H1 H2]. split; simpl; try done.
    + by rewrite (plays_recv _ _ Hp).
    + by eapply posts_send.
Qed.

Lemma CompleteSend_accounted a v :
  accounted v → accounted (set_world (with_net (CompleteSend a (net (world v))) (world v)) v).
Proof.
  intros [Hc [R1 R2 R3 R4]]. split; [done|]. split; try done. simpl.
  intros b [Hb _]%elem_of_us_erase. apply (R4 b Hb).
Qed.

Lemma login_acct k i token s valid accountId w w' :
  world_wf w → acc k w s → auth w !! i = Some (token, s) →
  login_callback s valid accountId (with_auth (delete i (auth w)) w) = Some w' → acct k w w'.
Proof.
  intros Hw Hs Hi. set (w1 := with_auth _ w).
  assert (H1 : acct k w w1).
  { apply acct_frame; try done.
    intros [R1 R2 R3 R4]. split; try done. simpl. intros tok t Hin. apply (R2 tok t). eapply elem_of_sublist; [exact Hin|apply sublist_delete]. }
  assert (Hw1 : world_wf w1) by (by destruct Hw).
  assert (H2 : acct k w1 (with_net (upd_session s (if valid then SetAccountId accountId else id)
                                      (net w1)) w1)) by (apply acct_upd; by destruct valid).
  assert (H12 : acct k w (with_net (upd_session s (if valid then SetAccountId accountId else id)
                                      (net w1)) w1)) by (by etrans).
  set (w2 := with_net _ w1) in *.
  destruct (login_callback_safe (acc k w2) s valid accountId w1) as (w3 & -> & _ & _ & _ & Hh);
    [by apply (ac_accepted _ _ _ _ H12)|done|].
  intros [= <-]. etrans; [exact H12|]. by apply handles_acct.
Qed.

Lemma clock_only_accounted v v' :
  clock_only v v' → accounted v →
  accounted v' ∧ stable (next_session v) (world v) (world v')
  ∧ settled (next_session v) (world v) (world v').
Proof.
  intros [E (j & _ & W)] Hv. set (n := mkNet _ _ _ _ _ _ _ _ _ _ _) in W.
  pose proof (acct_net (next_session v) n (world v) eq_refl eq_refl eq_refl eq_refl eq_refl eq_refl) as Ha.
  destruct (accounted_acct v _ Hv Ha) as [Hc Hr]. rewrite W.
  split_and!; [split; by rewrite W, ?E|by apply tracks_stable, Ha|apply Ha, Hv].
Qed.
(** ** Every event *)

Lemma lift_accounted v v' o :
  accounted v → lift o v = Some v' → (∀ w', o = Some w' → acct (next_session v) (world v) w') →
  accounted v' ∧ stable (next_session v) (world v) (world v')
  ∧ settled (next_session v) (world v) (world v').
Proof.
  intros Hv E Ho. destruct o as [w'|]; [|done]. injection E as <-.
  pose proof (Ho w' eq_refl) as Ha.
  split_and!; [by apply (accounted_acct v)|by apply tracks_stable, Ha|apply Ha, Hv].
Qed.

Definition is_accept (e : server_event) : bool :=
  match e with EvAccept _ _ _ => true | _ => false end.


(** The contexts an event completes. *)
Definition completes (e : server_event) (a : nat) : Prop := ∃ success, e = EvSend a success.

Lemma event_accounted e v v' :
  server_wf v → ids_left v → accounted v → event_ok e v → handle_event e v = Some v' →
  accounted v' ∧ (∀ s, (s < next_session v)%nat → zombie s (world v) → zombie s (world v'))
  ∧ (∀ a, a ∈ inflight (net (world v)) → ¬ completes e a →
      a ∈ inflight (net (world v')) ∧ ctx_at a (net (world v')) = ctx_at a (net (world v)))
  ∧ (is_accept e = false → settled (next_session v) (world v) (world v')).
Proof.
  intros Hv Hk Hac He E. pose proof Hv as [Hc Hw]. pose proof Hac as [Hcnt [R1 R2 R3 R4]].
  assert (Hsuff : (is_accept e = false → accounted v' ∧ stable (next_session v) (world v) (world v')
                     ∧ settled (next_session v) (world v) (world v')) →
    (is_accept e = true → accounted v' ∧ stable (next_session v) (world v) (world v')) →
    accounted v' ∧ (∀ s, (s < next_session v)%nat → zombie s (world v) → zombie s (world v'))
    ∧ (∀ a, a ∈ inflight (net (world v)) → ¬ completes e a →
        a ∈ inflight (net (world v')) ∧ ctx_at a (net (world v')) = ctx_at a (net (world v)))
    ∧ (is_accept e = false → settled (next_session v) (world v) (world v'))).
  { intros Hf Ht. destruct (is_accept e); [destruct (Ht eq_refl) as [? []]|destruct (Hf eq_refl) as (? & [] & ?)];
      split_and!; auto; done. }
  destruct e as [success associated sock'|s success data|a success| | |i get|resp post];
    cbn [handle_event event_ok] in *.
  - apply Hsuff; [done|intros _]. destruct (accepting v); [by eapply HandleAcceptCompletion_accounted|].
    by injection E as <-.
  - apply Hsuff; [intros _|done]. destruct He as [Hs Hx]. pose proof (R3 s Hs) as Ha.
    pose proof (kernel_receive_acct (next_session v) s data (world v)) as H1.
    assert (Hm : sm_wf (smgr (kernel_receive s data (world v)))) by apply Hc.
    assert (Hd : ∀ w', HandleDisconnect s (kernel_receive s data (world v)) = Some w' →
      acct (next_session v) (world v) w').
    { intros w' Ew. etrans; [exact H1|]. eapply HandleDisconnect_acct; [done| |exact Ew].
      by apply (ac_accepted _ _ _ _ H1). }
    destruct success; cbn [negb] in E; [|by eapply lift_accounted].
    case_decide; (eapply lift_accounted; [done|exact E|]); [done|].
    intros w' Ew. by eapply HandleRecv_acct.
  - destruct (R4 a He) as (s & Hs & Ho). rewrite Ho in E.
    assert (Hd : ∃ w', (match success, Some s with
                        | false, Some s => HandleDisconnect s (world v)
                        | _, _ => Some (world v)
                        end) = Some w' ∧ acct (next_session v) (world v) w').
    { destruct success; [by exists (world v)|].
      destruct (HandleDisconnect_safe s (world v) Hc) as (w' & Ew & _). exists w'.
      split; [done|]. eapply HandleDisconnect_acct; [apply Hc|done|exact Ew]. }
    destruct Hd as (w' & Ew & Ha). rewrite Ew in E. injection E as <-.
    split_and!; [by apply (CompleteSend_accounted a (set_world w' v)), (accounted_acct v)|..|].
    + intros t Ht Hz. apply (tr_zombie _ _ _ (ac_tracks _ _ _ Ha) t Ht Hz).
    + intros b Hb Hn. destruct (tr_kept _ _ _ (ac_tracks _ _ _ Ha) b Hb) as [Hb' <-].
      split; [|done]. simpl. apply elem_of_us_erase. split; [done|]. intros ->. apply Hn. by eexists.
    + intros _. pose proof (ac_settled _ _ _ Ha (at_refs _ Hac)) as [S1 S2 S3 S4].
      split; [done|done|done|]. etrans; [exact S4|]. by apply closes_same.
  - apply Hsuff; [intros _|done]. eapply lift_accounted; [done|exact E|]. intros w'. by apply GameTick_acct.
  - apply Hsuff; [intros _|done]. eapply lift_accounted; [done|exact E|]. intros w'. by apply Heartbeat_acct.
  - apply Hsuff; [intros _|done]. destruct (auth (world v) !! i) as [[token s]|] eqn:Ei; [|injection E as <-; split_and!; [done|by split|by apply (ac_settled _ _ _ (reflexivity _)), Hac]].
    destruct (validate get token) as [valid acc0]. eapply lift_accounted; [done|exact E|].
    intros w'. apply (login_acct _ _ token); [apply Hc| |done].
    eapply R2. by eapply list_elem_of_lookup_2.
  - apply Hsuff; [intros _|done]. injection E as <-. by apply clock_only_accounted; [apply RegistryTurn_clock|].
Qed.

Lemma Server_new_accounted c o : accounted (Server_new c o).
Proof.
  split; [by destruct o|]. split; destruct o; simpl; try done.
  all: first [by intros token s ?%elem_of_nil|by intros s ?%elem_of_nil].
Qed.

Lemma reachable_accounted c sock v :
  rtc server_step (Server_new c sock) v → server_wf v ∧ accounted v.
Proof.
  intros Hr. apply (rtc_invariant server_step (λ v, server_wf v ∧ accounted v) (Server_new c sock));
    [| |exact Hr].
  - split; [apply Server_new_wf|apply Server_new_accounted].
  - intros v1 v2 Hi Hs. revert Hi. destruct Hs as [e v1 v2 He Hk E]. intros [Hw Ha].
    destruct (event_safe e v1 Hw Hk He) as (v' & E' & Hw'). split.
    + congruence.
    + apply (event_accounted e v1 v2 Hw Hk Ha He E).
Qed.
(** Ids are counted out, so there are no more sessions than ids. *)
Lemma Count_le k w : sm_wf (smgr w) → within k w → (Count (smgr w) ≤ k)%nat.
Proof.
  intros [Hnd Hg _] [_ _ Hn]. unfold Count. rewrite <- (length_fmap fst).
  change (fst <$> ?l) with (um_keys l).
  assert (Hsub : um_keys (m_sessions (smgr w)) ⊆+ seqZ 1 (Z.of_nat k)).
  { apply NoDup_submseteq; [done|]. intros id Hid%Hg. apply elem_of_seqZ. lia. }
  apply submseteq_length in Hsub. rewrite length_seqZ in Hsub. lia.
Qed.

(** ** Properties *)

(** The number of connections reported. *)
Lemma reachable_count c sock v :
  rtc server_step (Server_new c sock) v → ids_left v →
  currentConnections (stats (net (world v))) = Z.of_nat (Count (smgr (world v))).
Proof.
  intros Hr Hk. destruct (reachable_accounted _ _ _ Hr) as [[Hc Hw] [Hcnt Hrefs]].
  unfold counted in Hcnt. rewrite Hcnt, Z.add_0_r. apply wrapU_id.
  pose proof (Count_le _ _ (ww_smgr _ (cw_world _ Hc)) Hw). unfold ids_left in Hk.
  change (2 ^ 64) with 18446744073709551616 in *. lia.
Qed.

(** C3. The books balance: in every reachable state the number of connections
    the server counts and reports is exactly the number of sessions in the
    registry; and every session that still matters (it has a receive outstanding,
    owns a context in flight, is a member of a room, is waiting in a room's queue
    or for a validation) is registered under its own id, unless its connection is
    over. *)
Theorem connections_counted c sock v :
  rtc server_step (Server_new c sock) v → ids_left v →
  currentConnections (stats (net (world v))) = Z.of_nat (Count (smgr (world v)))
  ∧ refs (λ s, IsDisconnected s (net (world v)) = true
               ∨ SessionManager.Find (m_sessionId (sess s (net (world v)))) (smgr (world v)) = Some s)
      (world v).
Proof.
  intros Hr Hk. split; [by eapply reachable_count|].
  destruct (reachable_accounted _ _ _ Hr) as [_ [_ Hrefs]]. eapply refs_mono, Hrefs. by intros s [_ Hs].
Qed.

(** C12. The memory of a send is left alone until the kernel has reported its
    completion: whatever the server does meanwhile, the context stays in flight
    with the same buffer, length and owner; and no context is handed out twice. *)
Theorem inflight_untouched c sock v e v' a :
  rtc server_step (Server_new c sock) v → ids_left v → event_ok e v →
  handle_event e v = Some v' → a ∈ inflight (net (world v)) →
  NoDup (inflight (net (world v')))
  ∧ (¬ completes e a →
     a ∈ inflight (net (world v')) ∧ ctx_at a (net (world v')) = ctx_at a (net (world v))).
Proof.
  intros Hr Hk He E Ha. destruct (reachable_accounted _ _ _ Hr) as [Hv Hac].
  destruct (event_safe e v Hv Hk He) as (v2 & E2 & Hv2).
  assert (v2 = v') as -> by congruence. split.
  - destruct (ww_net _ (cw_world _ (sw_conn _ Hv2))) as [[Hnd _ _] _].
    by apply NoDup_app in Hnd as [? _].
  - intros Hn. destruct (event_accounted e v v' Hv Hk Hac He E) as (_ & _ & Hkept & _). auto.
Qed.

(** No event takes a zombie out of the registry. *)
Lemma zombie_forever c sock v v' s :
  rtc server_step (Server_new c sock) v → zombie s (world v) →
  rtc server_step v v' → zombie s (world v').
Proof.
  intros Hr Hz Hs. destruct (reachable_accounted _ _ _ Hr) as [Hv Hac].
  assert (Hi : server_wf v' ∧ accounted v' ∧ zombie s (world v')); [|tauto].
  apply (rtc_invariant server_step (λ v, server_wf v ∧ accounted v ∧ zombie s (world v)) v);
    [done| |done].
  clear. intros v1 v2 Hi Hs. revert Hi. destruct Hs as [e v1 v2 He Hk E]. intros (Hw & Ha & Hz).
  destruct (event_accounted e v1 v2 Hw Hk Ha He E) as (Ha2 & Hz2 & _).
  destruct (event_safe e v1 Hw Hk He) as (v3 & E3 & Hw3). split_and!; [congruence|done|].
  apply Hz2; [|done]. by eapply (wi_find _ _ (sw_within _ Hw)), Hz.
Qed.
End accounts.
