(* ===== verification/Sockets.v ===== *)
(** * Sockets

    Every socket the server gets from the system is in one place: it waits for a
    connection, a registered session has it, or it has been closed. *)
From S2P Require Import Prelude Bytes Platform ObjectPool Packet RecvBuffer Protobuf PbRuntimeDemo PacketPb Session PacketTraits JobQueue Config AuthService GameRoom PacketManager SessionManager RoomManager Logic TrafficPolicy ServerCore ServerConn ServerSafety Accounts.
Local Open Scope Z_scope.

Section sockets.
Context `{Platform, PbRuntime}.
Implicit Types (w : World) (s t k : nat) (v : Server).

(** The sockets closed, and those of the registered sessions. *)
Definition world_sockets w : list Z := closed (net w) ++ sockets (GetAll (smgr w)) (net w).
Definition all_sockets v : list Z := world_sockets (world v) ++ option_list (accepting v).

(** What the system hands out: to [PostAccept], and in an event. *)
Definition handed (o : AcceptOutcome) : list Z :=
  match o with NoSocket => [] | AcceptRefused sock | AcceptPosted sock => [sock] end.
Definition handed_in (e : server_event) : list Z :=
  match e with EvAccept _ _ o => handed o | _ => [] end.

(** ** Lists *)

(** Dropping elements without an image. *)
Lemma omap_drop {A B} `{EqDecision A} (f : A → option B) l l' :
  NoDup l → NoDup l' → (∀ x, x ∈ l' → x ∈ l) → (∀ x, x ∈ l → x ∉ l' → f x = None) →
  omap f l ≡ₚ omap f l'.
Proof.
  intros Hl Hl' Hsub Hnone.
  assert (Hp : l ≡ₚ l' ++ filter (λ x, x ∉ l') l).
  { apply NoDup_Permutation; [done| |].
    - apply NoDup_app. split_and!; [done| |by apply NoDup_filter].
      intros x Hx Hf. by apply list_elem_of_filter in Hf as [? _].
    - intros x. rewrite elem_of_app, list_elem_of_filter. destruct (decide (x ∈ l')); naive_solver. }
  rewrite Hp at 1. rewrite omap_app.
  assert (omap f (filter (λ x, x ∉ l') l) = []) as ->; [|by rewrite app_nil_r].
  assert (Hall : ∀ x, x ∈ filter (λ x, x ∉ l') l → f x = None).
  { intros x [? ?]%list_elem_of_filter. auto. }
  revert Hall. clear. induction (filter _ l) as [|x r IH]; intros Hall; [done|]. simpl.
  rewrite Hall by (by left). apply IH. intros y Hy. apply Hall. by right.
Qed.

(** Taking away the images of some elements. *)
Lemma omap_take_out {A B} `{EqDecision A} (f f' : A → option B) l g :
  NoDup l → NoDup g → (∀ x, x ∈ l → x ∈ g) →
  (∀ x, x ∈ g → f' x = if decide (x ∈ l) then None else f x) →
  omap f l ++ omap f' g ≡ₚ omap f g.
Proof.
  intros Hl Hg Hsub Hf. rewrite (omap_drop f' g (filter (λ x, x ∉ l) g)).
  - assert (omap f' (filter (λ x, x ∉ l) g) = omap f (filter (λ x, x ∉ l) g)) as ->.
    { apply list_omap_ext, Forall_Forall2_diag, Forall_forall.
      intros x [Hn Hx]%list_elem_of_filter. rewrite Hf by done. by rewrite decide_False. }
    rewrite <- omap_app. apply omap_Permutation. apply NoDup_Permutation; [|done|].
    + apply NoDup_app. split_and!; [done| |by apply NoDup_filter].
      intros x Hx Hf'. by apply list_elem_of_filter in Hf' as [? _].
    + intros x. rewrite elem_of_app, list_elem_of_filter. destruct (decide (x ∈ l)); naive_solver.
  - done.
  - by apply NoDup_filter.
  - by intros x [_ ?]%list_elem_of_filter.
  - intros x Hx Hn. rewrite Hf by done. case_decide as Hd; [done|]. destruct Hn. by apply list_elem_of_filter.
Qed.
(** ** Events other than accepts *)

Lemma elem_of_GetAll m s : sm_wf m → s ∈ GetAll m ↔ ∃ id, SessionManager.Find id m = Some s.
Proof.
  intros Hm. unfold GetAll. rewrite list_elem_of_fmap. split.
  - intros ([id t] & -> & Hin). exists id. by apply um_find_Some; [apply Hm|].
  - intros [id Hf]. exists (id, s). split; [done|]. by apply um_find_Some in Hf; [|apply Hm].
Qed.

Lemma GetAll_NoDup w : conn_wf w → NoDup (GetAll (smgr w)).
Proof.
  intros Hc. pose proof (ww_smgr _ (cw_world _ Hc)) as Hm. apply NoDup_fmap_2_strong.
  - intros [i s] [j t] Hi Hj E. simpl in E. subst t.
    apply um_find_Some in Hi; [|apply Hm]. apply um_find_Some in Hj; [|apply Hm].
    pose proof (cw_ids _ Hc i s Hi). pose proof (cw_ids _ Hc j s Hj). congruence.
  - eapply (NoDup_fmap_1 fst), (sm_ids _ Hm).
Qed.

Lemma settled_sockets k w w' :
  conn_wf w → conn_wf w' → within k w → within k w' → settled k w w' → world_sockets w' ≡ₚ world_sockets w.
Proof.
  intros Hc Hc' Hw Hw' [Hid Hback Hgone (l & [Hnd Hwho Hclosed Hsock _])].
  pose proof (ww_smgr _ (cw_world _ Hc)) as Hm. pose proof (ww_smgr _ (cw_world _ Hc')) as Hm'.
  assert (Hk : ∀ s, s ∈ GetAll (smgr w) → (s < k)%nat).
  { intros s [id Hf]%elem_of_GetAll; [|done]. by eapply (wi_find _ _ Hw). }
  unfold world_sockets, sockets. rewrite Hclosed, <- app_assoc. apply Permutation_app_head.
  assert (Hdrop : omap (λ s, m_sock (sess s (net w'))) (GetAll (smgr w'))
                  ≡ₚ omap (λ s, m_sock (sess s (net w'))) (GetAll (smgr w))).
  { symmetry. apply omap_drop; [by apply GetAll_NoDup..| |].
    - intros s [id Hf]%elem_of_GetAll; [|done]. apply elem_of_GetAll; [done|]. exists id.
      apply Hback; [|done]. by eapply (wi_find _ _ Hw').
    - intros s Hs Hn. pose proof (Hk s Hs). apply elem_of_GetAll in Hs as [id Hf]; [|done].
      destruct (Hgone id s) as [Hf'|?]; [done..| |done]. destruct Hn. apply elem_of_GetAll; eauto. }
  rewrite Hdrop. apply omap_take_out; [done|by apply GetAll_NoDup| |].
  - intros s (_ & [_ [Hd|Hf]] & Hn & _)%Hwho; [congruence|]. apply elem_of_GetAll; eauto.
  - intros s Hs. by apply Hsock, Hk.
Qed.
(** ** Accepting *)

Lemma PostAccept_sockets o v :
  all_sockets (PostAccept o v) ≡ₚ world_sockets (world v) ++ handed o.
Proof.
  unfold all_sockets, world_sockets. destruct o as [|sock|sock]; simpl; [done| |done].
  rewrite <- !app_assoc. apply Permutation_app_head. simpl. rewrite app_nil_r. apply Permutation_cons_append.
Qed.

Lemma closesocket_sockets sock w :
  world_sockets (with_net (closesocket sock (net w)) w) ≡ₚ world_sockets w ++ [sock].
Proof.
  unfold world_sockets. simpl. rewrite <- !app_assoc. apply Permutation_app_head.
  simpl. apply Permutation_cons_append.
Qed.

(** Steps that touch no socket. *)
Lemma world_sockets_same w w' :
  smgr w' = smgr w → closed (net w') = closed (net w) →
  (∀ s, m_sock (sess s (net w')) = m_sock (sess s (net w))) → world_sockets w' = world_sockets w.
Proof.
  intros Em Ec Es. unfold world_sockets. rewrite Em, Ec. f_equal. by apply sockets_ext.
Qed.

Lemma opened_session s sock w :
  m_sock (sess s (net (opened s sock w))) = Some sock
  ∧ IsDisconnected s (net (opened s sock w)) = false.
Proof.
  unfold opened, Session_Init, UpdateActivity, IsDisconnected. cbn [NowMs with_net net].
  set (n2 := upd_session s (set_sock (Some sock)) _). set (n3 := mkNet _ _ _ _ _ _ _ _ _ _ _).
  rewrite !sess_upd. change (sess s n3) with (sess s n2). unfold n2. by rewrite !sess_upd.
Qed.

Lemma Add_sockets s sock w :
  conn_wf w → within s w → m_sock (sess s (net w)) = Some sock →
  let '(id, m, n) := Add s (smgr w) (net w) in
  world_sockets (with_smgr m (with_net n w)) ≡ₚ world_sockets w ++ [sock].
Proof.
  intros Hc Hw Hs. pose proof (ww_smgr _ (cw_world _ Hc)) as Hm. simpl.
  unfold world_sockets. simpl. rewrite <- app_assoc. apply Permutation_app_head.
  set (n := upd_session s _ (net w)). set (m := {| m_sessions := _ |}).
  assert (Hp : GetAll m ≡ₚ s :: GetAll (smgr w)).
  { unfold GetAll. simpl. by rewrite um_emplace_perm by (by apply Add_fresh). }
  assert (Hsess : ∀ t, m_sock (sess t n) = m_sock (sess t (net w))).
  { intros t. unfold n. rewrite sess_upd_dec. by case_decide; subst. }
  etrans; [by apply omap_Permutation, Hp|]. simpl. rewrite Hsess, Hs.
  etrans; [apply Permutation_cons_append|]. apply Permutation_app_tail.
  by apply reflexive_eq, (sockets_ext (GetAll (smgr w)) (net w) n).
Qed.

Lemma policy_clock_sockets p w : world_sockets (policy_clock p w) = world_sockets w.
Proof. unfold policy_clock. by case_decide; apply world_sockets_same. Qed.

Lemma admitted_sockets s w : world_sockets (admitted s w) = world_sockets w.
Proof.
  unfold admitted, InitRateLimit. cbn [NowMs]. apply world_sockets_same; [done..|].
  intros t. simpl. set (n := mkNet _ _ _ _ _ _ _ _ _ _ _).
  change (sess t (set_stats ?a ?b)) with (sess t b). rewrite sess_upd_dec. by case_decide; subst.
Qed.
(** A registered session whose connection policy lets it in: nothing is lost,
    though the first receive may already fail. *)
Lemma admitted_recv_sockets s w w' :
  conn_wf w → within (S s) w → s ∉ rx_pending (net w) → is_Some (m_recvContext (sess s (net w))) →
  SessionManager.Find (m_sessionId (sess s (net w))) (smgr w) = Some s →
  refs (acc (S s) (admitted s w)) (admitted s w) →
  PostRecv s (admitted s w) = Some w' → world_sockets w' ≡ₚ world_sockets w.
Proof.
  intros Hc Hw Hi Hx Hfind Hr E. rewrite <- (admitted_sockets s w).
  destruct (admitted_ok s w Hc) as [Hc1 Hq1]. destruct (admitted_tracks (S s) s w) as [Ht _].
  set (w1 := admitted s w) in *.
  assert (Hw1 : within (S s) w1) by (by eapply within_quiet).
  assert (Ha : acc (S s) w1 s) by (apply (tr_accepted _ _ _ Ht); split; [lia|by right]).
  destruct (PostRecv_safe s w1) as (w2 & E2 & Hc2);
    [done|by rewrite (q_pending _ _ Hq1)|by rewrite (q_ctx _ _ Hq1)|].
  assert (w2 = w') as -> by congruence.
  apply (settled_sockets (S s)); [done|done|done| |].
  - apply (PostRecv_stays _ _ _ E); [lia|done].
  - apply (ac_settled _ _ _ (PostRecv_acct (S s) s w1 w' (ww_smgr _ (cw_world _ Hc1)) Ha E)), Hr.
Qed.

Lemma Disconnect_set_stats s st n :
  (Disconnect s (set_stats st n)).2 = set_stats st (Disconnect s n).2.
Proof.
  unfold Disconnect. change (sess s (set_stats st n)) with (sess s n).
  change (sess s (upd_session s ?f (set_stats st n))) with (sess s (upd_session s f n)).
  by repeat case_match.
Qed.

Lemma rejected_sockets s id w :
  conn_wf w → within (S s) w → IsDisconnected s (net w) = false →
  id = m_sessionId (sess s (net w)) → SessionManager.Find id (smgr w) = Some s →
  world_sockets (rejected s id w) ≡ₚ world_sockets w.
Proof.
  intros Hc Hw Hd Hid Hf. destruct (rejected_ok s id w Hc) as [Hc' Hq].
  apply (settled_sockets (S s)); [done|done|done|by eapply within_quiet|]. subst id.
  apply (dropped_settled (S s) s (m_sessionId (sess s (net w)))); try done; [lia|..];
    unfold rejected; cbn [with_smgr with_net on_stats net]; by rewrite Disconnect_set_stats.
Qed.

Lemma accept_sockets sock success associated o v v' :
  server_wf v → ids_left v → accounted v → accepting v = Some sock →
  HandleAcceptCompletion sock success associated o v = Some v' →
  all_sockets v' ≡ₚ all_sockets v ++ handed o.
Proof.
  intros [Hc Hw] Hk Hac Hacc.
  assert (Hsuff : ∀ v1, world_sockets (world v1) ≡ₚ world_sockets (world v) ++ [sock] →
    Some (PostAccept o v1) = Some v' → all_sockets v' ≡ₚ all_sockets v ++ handed o).
  { intros v1 Hv1 [= <-]. rewrite PostAccept_sockets, Hv1. unfold all_sockets. by rewrite Hacc. }
  destruct success; [|apply Hsuff, (closesocket_sockets sock (world v))].
  rewrite HandleAcceptCompletion_stages. cbv zeta. simpl (world (set_next _ _)).
  destruct (opened_ok (next_session v) sock (world v) Hc Hw) as (Hc1 & Hw1 & Hx1 & Hr1).
  pose proof (opened_acct (next_session v) sock (world v)) as H1.
  destruct (opened_session (next_session v) sock (world v)) as [Hs1 Hd1].
  set (s := next_session v) in *. set (w1 := opened s sock (world v)) in *.
  assert (E1 : world_sockets w1 ≡ₚ world_sockets (world v)).
  { apply (settled_sockets s); [done..|]. apply (ac_settled _ _ _ H1), Hac. }
  destruct associated; cbn [negb].
  2:{ apply Hsuff. etrans; [apply closesocket_sockets|]. by rewrite E1. }
  pose proof (Add_tracks s w1 Hc1 Hw1) as H2. pose proof (enrolled_ok s w1 Hc1 Hw1 Hk Hr1 Hx1) as He.
  pose proof (Add_sockets s sock w1 Hc1 Hw1 Hs1) as E2.
  assert (Hd2 : IsDisconnected s (Add s (smgr w1) (net w1)).2 = false).
  { unfold IsDisconnected. simpl. by rewrite sess_upd. }
  destruct (Add s (smgr w1) (net w1)) as [[id m] n]. cbn [snd] in Hd2.
  destruct H2 as (H2 & _ & Hid & Hfind). destruct He as (Hc2 & Hw2 & Hi2 & Hx2).
  set (w2 := with_smgr m (with_net n w1)) in *. simpl (policy (set_next _ _)).
  destruct (policy_clock_ok (policy v) w2 Hc2) as [Hc3 Hq3].
  pose proof (policy_clock_sockets (policy v) w2) as E3.
  pose proof (policy_clock_acct s (policy v) w2) as H3.
  assert (Hsess : sess s (net (policy_clock (policy v) w2)) = sess s (net w2))
    by (unfold policy_clock; by case_decide).
  assert (Ef : smgr (policy_clock (policy v) w2) = smgr w2) by done.
  assert (Hw3 : within (S s) (policy_clock (policy v) w2)) by (by eapply within_quiet).
  rewrite <- (q_pending _ _ Hq3) in Hi2. rewrite <- (q_ctx _ _ Hq3) in Hx2.
  set (w3 := policy_clock _ w2) in *.
  assert (E13 : world_sockets w3 ≡ₚ world_sockets (world v) ++ [sock]) by (by rewrite E3, E2, E1).
  destruct (ConsumeGlobalConnectionToken _ _) as [r p]. destruct r; cbn [negb].
  - destruct (PostRecv s (admitted s w3)) as [w5|] eqn:E; [|done]. apply Hsuff. simpl.
    rewrite <- E13. apply (admitted_recv_sockets s w3 w5); try done.
    + by rewrite Hsess, Ef, <- Hid.
    + apply (refs_more s); [lia|]. destruct (admitted_tracks s s w3) as [H4 _].
      apply (tr_refs s (world v)); [|apply Hac].
      etrans; [apply H1|]. etrans; [exact H2|]. etrans; [apply H3|exact H4].
  - apply Hsuff. simpl. rewrite <- E13. apply rejected_sockets; [done|done| |by rewrite Hsess|by rewrite Ef].
    unfold IsDisconnected. by rewrite Hsess.
Qed.

(** ** Every event *)

Lemma lift_keeps (o : option World) v v' :
  lift o v = Some v' → next_session v' = next_session v ∧ accepting v' = accepting v.
Proof. destruct o as [w'|]; [|done]. by intros [= <-]. Qed.

Lemma refresh_policy_accepting resp v : accepting (refresh_policy resp v) = accepting v.
Proof. unfold refresh_policy. cbn [UnixTimeMsNow]. by case_decide. Qed.

Lemma RegistryTurn_keeps resp post v :
  next_session (RegistryTurn resp post v).2 = next_session v
  ∧ accepting (RegistryTurn resp post v).2 = accepting v.
Proof.
  split; [apply (RegistryTurn_clock resp post v)|]. unfold RegistryTurn. cbn [UnixTimeMsNow].
  repeat case_match; simplify_eq/=; by rewrite ?refresh_policy_accepting.
Qed.

Lemma event_keeps e v v' :
  is_accept e = false → handle_event e v = Some v' →
  next_session v' = next_session v ∧ accepting v' = accepting v.
Proof.
  destruct e as [| | | | |i get|]; try done; intros _; cbn [handle_event].
  - repeat case_match; apply lift_keeps.
  - cbv zeta. by intros (w' & _ & [= <-])%bind_Some.
  - apply lift_keeps.
  - apply lift_keeps.
  - destruct (auth (world v) !! i) as [[token s]|]; [|by intros [= <-]].
    destruct (validate get token). apply lift_keeps.
  - intros [= <-]. apply RegistryTurn_keeps.
Qed.

Lemma event_sockets e v v' :
  server_wf v → ids_left v → accounted v → event_ok e v → handle_event e v = Some v' →
  all_sockets v' ≡ₚ all_sockets v ++ handed_in e.
Proof.
  intros Hv Hk Hac He E. destruct (is_accept e) eqn:Ea.
  - destruct e as [success associated o| | | | | |]; try done. simpl in *.
    destruct (accepting v) as [sock|] eqn:Hacc; [|by destruct He].
    by eapply accept_sockets.
  - destruct (event_accounted e v v' Hv Hk Hac He E) as (_ & _ & _ & Hset).
    destruct (event_safe e v Hv Hk He) as (v2 & E2 & [Hc2 Hw2]).
    assert (v2 = v') as -> by congruence. destruct Hv as [Hc Hw].
    assert (Hn : next_session v' = next_session v ∧ accepting v' = accepting v ∧ handed_in e = []).
    { split_and!; [| |by destruct e]; by apply (event_keeps e). }
    destruct Hn as (Hn & Hacc & ->). rewrite app_nil_r. unfold all_sockets. rewrite Hacc.
    apply Permutation_app_tail. apply (settled_sockets (next_session v)); [done|done|done| |by apply Hset].
    by rewrite <- Hn.
Qed.
(** A run of the server, with the sockets the system has handed out. *)
Inductive served (c : ServerConfig) : list Z → Server → Prop :=
  | served_start o : served c (handed o) (Server_new c o)
  | served_event l e v v' :
      served c l v → ids_left v → event_ok e v → handle_event e v = Some v' →
      served c (l ++ handed_in e) v'.

Lemma served_ok c l v :
  served c l v → server_wf v ∧ accounted v ∧ all_sockets v ≡ₚ l.
Proof.
  intros Hs. induction Hs as [o|l e v v' Hs (Hw & Hac & Hl) Hk He E].
  - split_and!; [apply Server_new_wf|apply Server_new_accounted|].
    unfold Server_new. by rewrite PostAccept_sockets.
  - destruct (event_safe e v Hw Hk He) as (v2 & E2 & Hw2). assert (v2 = v') as -> by congruence.
    split_and!; [done|by apply (event_accounted e v v')|]. rewrite (event_sockets e v v') by done. by rewrite Hl.
Qed.

(** C11. No socket is leaked and none is closed twice: whatever happens, the
    sockets the system has handed out so far are, one by one, those that have
    been closed, those of the sessions in the registry, and the one that waits
    for a connection.  So if they are different ones, no socket is closed twice,
    and none that a session or the accept uses is closed. *)
Theorem sockets_conserved c l v :
  served c l v →
  let held := sockets (GetAll (smgr (world v))) (net (world v)) ++ option_list (accepting v) in
  closed (net (world v)) ++ held ≡ₚ l
  ∧ (NoDup l → NoDup (closed (net (world v))) ∧ ∀ sock, sock ∈ held → sock ∉ closed (net (world v))).
Proof.
  intros Hs held. destruct (served_ok c l v Hs) as (_ & _ & Hl).
  unfold all_sockets, world_sockets in Hl. rewrite <- app_assoc in Hl. fold held in Hl.
  split; [exact Hl|]. rewrite <- Hl. intros (Hn & Hd & _)%NoDup_app. split; [done|].
  intros sock Hh Hc. by apply (Hd sock).
Qed.
(** A failing [PostAccept] is not repeated: from then on the server accepts
    nobody any more. *)
Lemma accepting_stops v v' :
  accepting v = None → rtc server_step v v' →
  accepting v' = None ∧ next_session v' = next_session v.
Proof.
  intros Ha Hr.
  apply (rtc_invariant server_step
    (λ u, accepting u = None ∧ next_session u = next_session v) v); [done| |done].
  intros v1 v2 [A1 N1] Hs. destruct Hs as [e v1 v2 He Hk E].
  assert (Hne : is_accept e = false).
  { destruct e; try done. simpl in He. rewrite A1 in He. by destruct He. }
  destruct (event_keeps e v1 v2 Hne E) as [-> ->]. done.
Qed.
End sockets.
