(* ===== verification/RoomSpec.v ===== *)
(** * The abstract room

    What a game room promises, without containers in iteration order, sessions
    or sockets: a set of members, a phase, the pending moves and the slots to
    come back by account.  [Tick] of [Game/GameRoom.h] implements it: the
    refinement is a function from rooms to abstract rooms that every job and
    every tick follows. *)
From S2P Require Import Prelude Platform Session PacketTraits JobQueue Protobuf PbRuntimeDemo GameRoom.
From stdpp Require Import fin_sets fin_maps.
Local Open Scope Z_scope.

(** ** The specification *)

(** The lobby, with the accounts that are ready; a running game; the result on
    display since some time. *)
Inductive Phase := Lobby (ready : gset string) | Playing | Result (since : Z).

Record Room := mkRoom {
  members : gset nat;
  phase : Phase;
  moves : gmap string (Z * Z);
  slots : gmap string Z;
  (** When the room became empty; a time of 0 counts as never. *)
  empty_since : option Z }.

Definition Room_new : Room := mkRoom ∅ (Lobby ∅) ∅ ∅ None.

Definition mark (t : Z) : option Z := if decide (t = 0) then None else Some t.

Section spec.
(** The account of a session, and the capacity of the room. *)
Context (acc : nat → string) (capacity : Z).

Definition spec_join (s : nat) (r : Room) : Room :=
  mkRoom ({[s]} ∪ members r) (phase r) (moves r) (slots r) None.

Definition spec_enter (s : nat) (r : Room) : Room :=
  match phase r with
  | Playing => r
  | _ => if decide (Z.of_nat (size (members r)) < capacity) then spec_join s r else r
  end.

(** Leaving at time [t1]; the game that ends by it ends at [t2]. *)
Definition spec_leave (t1 t2 : Z) (s : nat) (r : Room) : Room :=
  if decide (s ∈ members r) then
    let ms := members r ∖ {[s]} in
    let mv := delete (acc s) (moves r) in
    let away := if decide (ms = ∅) then mark t1 else empty_since r in
    match phase r with
    | Lobby R => mkRoom ms (Lobby (R ∖ {[acc s]})) mv (slots r) away
    | Playing => mkRoom ms (Result t2) mv (<[acc s := t1]> (slots r)) (empty_since r)
    | Result t => mkRoom ms (Result t) mv (slots r) away
    end
  else r.

Definition toggle (a : string) (R : gset string) : gset string :=
  if decide (a ∈ R) then R ∖ {[a]} else {[a]} ∪ R.

Definition spec_ready (a : string) (r : Room) : Room :=
  match phase r with
  | Lobby R =>
      let R := toggle a R in
      let start := bool_decide (2 ≤ size (members r) ≤ size R)%nat in
      mkRoom (members r) (if start then Playing else Lobby R) (moves r) (slots r) (empty_since r)
  | _ => r
  end.

Definition spec_move (a : string) (p : Z * Z) (r : Room) : Room :=
  match phase r with
  | Playing => mkRoom (members r) Playing (<[a := p]> (moves r)) (slots r) (empty_since r)
  | _ => r
  end.

Definition spec_rejoin (s : nat) (r : Room) : Room :=
  spec_join s (mkRoom (members r) (phase r) (moves r) (delete (acc s) (slots r)) (empty_since r)).

Definition spec_job (t1 t2 : Z) (j : RoomJob) : Room → Room :=
  match j with
  | JRejoin s => spec_rejoin s
  | JChat _ _ => id
  | JLeave s | JLeaveAck s => spec_leave t1 t2 s
  | JEnter s => spec_enter s
  | JMove a x y => spec_move a (x, y)
  | JReady a => spec_ready a
  end.

(** The end of a tick: slots older than the window are dropped (at [t1]), a
    result on display for more than five seconds gives way to an empty lobby (at
    [t2]), and unless a result is on display the moves are sent. *)
Definition spec_end (window t1 t2 : Z) (r : Room) : Room :=
  let sl := filter (λ p, t1 - p.2 ≤ window) (slots r) in
  match phase r with
  | Result t =>
      mkRoom (members r) (if decide (t2 - t > 5000) then Lobby ∅ else Result t) (moves r) sl
        (empty_since r)
  | p => mkRoom (members r) p ∅ sl (empty_since r)
  end.

(** A tick that starts at [t] and is over by [t']. *)
Inductive spec_tick (window : Z) : list RoomJob → Z → Room → Room → Z → Prop :=
  | tick_job j js t t1 t2 r r' t' :
      t ≤ t1 ≤ t2 →
      spec_tick window js t2 (spec_job t1 t2 j r) r' t' →
      spec_tick window (j :: js) t r r' t'
  | tick_end t t1 t2 r t' :
      t ≤ t1 ≤ t2 → t2 ≤ t' →
      spec_tick window [] t r (spec_end window t1 t2 r) t'.
End spec.

(** ** The abstraction *)

Definition abs_phase (g : GameRoom) : Phase :=
  match m_state g with
  | WAITING => Lobby (list_to_set (m_readyPlayers g))
  | IN_GAME => Playing
  | FINISHED => Result (m_finishedAt g)
  end.

Definition abs (g : GameRoom) : Room :=
  mkRoom (list_to_set (m_members g)) (abs_phase g) (list_to_map (m_pendingMoves g))
    (list_to_map (m_pendingReconnects g)) (mark (m_emptySinceMs g)).

(** *** Containers *)

Section containers.
Context `{Platform}.

Lemma set_us_insert `{Countable A} (x : A) l :
  list_to_set (us_insert x l) =@{gset A} {[x]} ∪ list_to_set l.
Proof. apply set_eq. intros y. rewrite elem_of_union, !elem_of_list_to_set, elem_of_us_insert. set_solver. Qed.

Lemma set_us_erase `{Countable A} (x : A) l :
  list_to_set (us_erase x l) =@{gset A} list_to_set l ∖ {[x]}.
Proof. apply set_eq. intros y. rewrite elem_of_difference, !elem_of_list_to_set, elem_of_us_erase. set_solver. Qed.

Lemma set_us_toggle (a : string) l :
  list_to_set (if us_count a l then us_erase a l else us_insert a l) = toggle a (list_to_set l).
Proof.
  unfold us_count, toggle. case_bool_decide as Ha.
  - rewrite decide_True by (by apply elem_of_list_to_set). apply set_us_erase.
  - rewrite decide_False by (by rewrite elem_of_list_to_set). apply set_us_insert.
Qed.

Lemma set_nil `{Countable A} (l : list A) : list_to_set l =@{gset A} ∅ ↔ l = [].
Proof.
  split; [|by intros ->]. intros E. destruct l as [|x l]; [done|].
  assert (Hx : x ∈@{gset A} ∅) by (rewrite <- E; set_solver). set_solver.
Qed.

Lemma map_um_find `{Countable K} {V} (l : list (K * V)) k :
  (list_to_map l : gmap K V) !! k = um_find k l.
Proof.
  induction l as [|[k' v] l IH]; simpl; [done|]. case_decide as Hk; subst.
  - apply lookup_insert_eq.
  - by rewrite lookup_insert_ne.
Qed.

Lemma map_um_erase `{Countable K} {V} (l : list (K * V)) k :
  list_to_map (um_erase k l) =@{gmap K V} delete k (list_to_map l).
Proof.
  apply map_eq. intros i. rewrite map_um_find, um_find_erase, <- map_um_find. case_decide; subst.
  - by rewrite lookup_delete_eq.
  - by rewrite lookup_delete_ne.
Qed.

Lemma map_um_set `{Countable K} {V} (l : list (K * V)) k v :
  NoDup (um_keys l) → list_to_map (um_set k v l) =@{gmap K V} <[k := v]> (list_to_map l).
Proof.
  intros Hl. apply map_eq. intros i. rewrite map_um_find, um_find_set by done.
  rewrite <- map_um_find. case_decide; subst.
  - by rewrite lookup_insert_eq.
  - by rewrite lookup_insert_ne.
Qed.

Lemma map_um_filter `{Countable K} {V} (P : K * V → Prop) `{∀ p, Decision (P p)} l :
  NoDup (um_keys l) →
  list_to_map (filter P l) =@{gmap K V} filter P (list_to_map l).
Proof.
  intros Hl. induction l as [|[k v] l IH]; [done|]. apply NoDup_cons in Hl as [Hk Hl].
  simpl. rewrite filter_cons, map_filter_insert. case_decide; simpl; rewrite IH by done; [done|].
  rewrite delete_id; [done|]. rewrite map_um_find. by apply um_find_None.
Qed.
End containers.

(** ** The refinement *)

Section refinement.
Context `{Platform, PbRuntime}.
Implicit Types (g : GameRoom) (n : Net).

Lemma abs_new name max : abs (GameRoom_new name max) = Room_new.
Proof. done. Qed.

Lemma abs_size g : room_wf g → size (members (abs g)) = length (m_members g).
Proof. intros Hg. apply (size_list_to_set (C := gset nat)), Hg. Qed.

Lemma abs_join s g :
  abs (set_emptySince 0 (set_members (us_insert s (m_members g)) g)) = spec_join s (abs g).
Proof. unfold abs, spec_join. simpl. by rewrite set_us_insert. Qed.

Lemma HandleEnter_abs this s g n :
  room_wf g →
  abs (HandleEnter this s g n).1 = spec_enter (m_maxPlayers g) s (abs g).
Proof.
  intros Hg. unfold HandleEnter, spec_enter. rewrite abs_size by done.
  case_decide as Hst; simpl.
  { unfold abs_phase. by rewrite Hst. }
  assert (abs_phase g ≠ Playing) by (unfold abs_phase; by destruct (m_state g)).
  case_decide; simpl.
  - rewrite decide_False by lia. by destruct (abs_phase g).
  - rewrite decide_True by lia. rewrite abs_join. by destruct (abs_phase g).
Qed.

Lemma HandleRejoin_abs this s g n :
  abs (HandleRejoin this s g n).1 = spec_rejoin (λ s, GetAccountId s n) s (abs g).
Proof.
  unfold HandleRejoin, spec_rejoin. cbn [fst].
  set (g' := set_reconnects _ g). change (m_members g') with (m_members g').
  rewrite abs_join. f_equal. unfold g', abs. simpl. by rewrite map_um_erase.
Qed.

Lemma HandleLeave_abs s g n :
  room_wf g →
  abs (HandleLeave s g n).1
  = spec_leave (λ s, GetAccountId s n) (steady_ms (n_steady n)) (steady_ms (S (n_steady n))) s (abs g).
Proof.
  intros Hg. unfold spec_leave. change (s ∈ members (abs g)) with (s ∈@{gset nat} list_to_set (m_members g)).
  destruct (decide (s ∈ m_members g)) as [Hs|Hs].
  2:{ rewrite decide_False by (by rewrite elem_of_list_to_set).
      unfold HandleLeave, us_count. by rewrite bool_decide_false. }
  rewrite decide_True by (by apply elem_of_list_to_set).
  rewrite HandleLeave_room by done. pose proof (rw_slots _ Hg) as Hsl.
  unfold abs, abs_phase, without. simpl. rewrite <- set_us_erase.
  destruct (m_state g) eqn:Est; simpl; rewrite ?Est.
  - case_decide as He; simpl.
    + rewrite decide_True by (by rewrite He). rewrite Est. rewrite !map_um_erase, !set_us_erase. done.
    + rewrite decide_False by (by rewrite set_nil). rewrite Est. rewrite !map_um_erase, !set_us_erase. done.
  - simpl. by rewrite map_um_erase, map_um_set.
  - case_decide as He; simpl.
    + rewrite decide_True by (by rewrite He). rewrite Est. by rewrite map_um_erase.
    + rewrite decide_False by (by rewrite set_nil). rewrite Est. by rewrite map_um_erase.
Qed.

Lemma HandleMove_abs a x y g n :
  room_wf g → abs (HandleMove a x y g n).1 = spec_move a (x, y) (abs g).
Proof.
  intros Hg. unfold HandleMove, spec_move. pose proof (rw_moves _ Hg).
  destruct (decide (m_state g = IN_GAME)) as [Hst|Hst].
  2:{ rewrite decide_True by done. simpl. unfold abs_phase. by destruct (m_state g). }
  rewrite decide_False by (by intros []).
  - unfold abs, abs_phase. simpl. rewrite Hst. by rewrite map_um_set.
Qed.

Lemma HandleReady_abs a g n : room_wf g → abs (HandleReady a g n).1 = spec_ready a (abs g).
Proof.
  intros Hg. unfold HandleReady, spec_ready. destruct (decide (m_state g = WAITING)) as [Hst|Hst].
  2:{ rewrite decide_True by done. simpl. unfold abs_phase. by destruct (m_state g). }
  rewrite decide_False by (by intros []).
  simpl. unfold abs_phase. rewrite Hst, <- set_us_toggle.
  set (R := if us_count a _ then _ else _).
  assert (HR : NoDup R). { unfold R. pose proof (rw_ready _ Hg). case_match; eauto with server. }
  rewrite TryStartGame_room. simpl.
  rewrite !(size_list_to_set (C := gset _)) by (done || apply Hg).
  case_decide; [rewrite bool_decide_true by done|rewrite bool_decide_false by done];
    unfold abs, abs_phase; simpl; by rewrite ?Hst.
Qed.

Lemma run_job_abs this j g n :
  room_wf g →
  abs (run_job this j (g, n)).1
  = spec_job (λ s, GetAccountId s n) (m_maxPlayers g)
      (steady_ms (n_steady n)) (steady_ms (S (n_steady n))) j (abs g).
Proof.
  intros Hg. destruct j; cbn [run_job spec_job].
  - apply HandleRejoin_abs.
  - done.
  - by apply HandleLeave_abs.
  - by apply HandleEnter_abs.
  - pose proof (HandleLeave_abs session g n Hg) as Hl. by destruct (HandleLeave session g n).
  - by apply HandleMove_abs.
  - by apply HandleReady_abs.
Qed.
(** *** The clock *)

Lemma sends_steady n n' : sends n n' → n_steady n' = n_steady n.
Proof. intros Hs. apply (sends_clock _ _ Hs). Qed.

Lemma HandleLeave_clock s g n :
  room_wf g →
  n_steady (HandleLeave s g n).2
  = (n_steady n + if decide (s ∈ m_members g) then
                    if decide (m_state g = IN_GAME) then 2
                    else if decide (us_erase s (m_members g) = []) then 1 else 0
                  else 0)%nat.
Proof.
  intros Hg. unfold HandleLeave, us_count. case_bool_decide as Hs.
  all: destruct (decide (s ∈ m_members g)); try done.
  set (nb := Broadcast _ _ _).
  assert (Hnb : n_steady nb = n_steady n).
  { unfold nb. by rewrite (sends_steady _ _ (Broadcast_sends _ _ _)). }
  change (m_state (set_ready _ _)) with (m_state g). case_decide as Hst.
  - unfold leave_game. cbn [NowMs fst snd m_members set_reconnects set_ready set_moves set_members].
    destruct (us_erase s (m_members g)) eqn:E.
    + pose proof (us_erase_length s _ (rw_members _ Hg) Hs) as Hl. rewrite E in Hl.
      pose proof (rw_game _ Hg Hst). simpl in *. lia.
    + unfold HandleGameEnd. cbn [NowMs fst snd].
      rewrite (sends_steady _ _ (BroadcastRoomState_sends _ _)).
      rewrite (sends_steady _ _ (SendRawBroadcast_sends _ _ _ _ _)). simpl. lia.
  - unfold leave_finish. cbn [m_members set_ready set_moves set_members]. case_decide; simpl;
      rewrite (sends_steady _ _ (BroadcastRoomState_sends _ _)); simpl; lia.
Qed.

Lemma run_job_clock this j g n :
  room_wf g →
  match j with
  | JLeave s | JLeaveAck s =>
      n_steady (run_job this j (g, n)).2 = n_steady (HandleLeave s g n).2
  | _ => n_steady (run_job this j (g, n)).2 = n_steady n
  end.
Proof.
  intros Hg. destruct j; cbn [run_job]; try done.
  - unfold HandleRejoin. cbn [snd]. by rewrite (sends_steady _ _ (welcome_sends _ _ _ _)).
  - cbn [snd]. apply sends_steady, Broadcast_sends.
  - unfold HandleEnter. repeat case_decide; cbn [snd];
      [apply sends_steady; eapply Send_sends..|]. by rewrite (sends_steady _ _ (welcome_sends _ _ _ _)).
  - destruct (HandleLeave session g n) as [g' n']. apply sends_steady. eapply Send_sends.
  - unfold HandleMove. by case_decide.
  - unfold HandleReady. case_decide; [done|]. unfold TryStartGame. repeat case_decide; cbn [snd];
      repeat first [rewrite (sends_steady _ _ (BroadcastRoomState_sends _ _))
                   |rewrite (sends_steady _ _ (SendRawBroadcast_sends _ _ _ _ _))]; done.
Qed.

(** One job, at the times it reads. *)
Lemma run_job_spec this j g n :
  room_wf g →
  let k := n_steady n in
  let k' := n_steady (run_job this j (g, n)).2 in
  (k ≤ k')%nat
  ∧ ∃ t1 t2, steady_ms k ≤ t1 ≤ t2 ∧ t2 ≤ steady_ms k'
    ∧ abs (run_job this j (g, n)).1
      = spec_job (λ s, GetAccountId s n) (m_maxPlayers g) t1 t2 j (abs g).
Proof.
  intros Hg k k'. rewrite run_job_abs by done. pose proof (run_job_clock this j g n Hg) as Hk.
  assert (Hleave : ∀ s, j = JLeave s ∨ j = JLeaveAck s →
    (k ≤ k')%nat ∧ ∃ t1 t2, steady_ms k ≤ t1 ≤ t2 ∧ t2 ≤ steady_ms k'
      ∧ spec_leave (λ s, GetAccountId s n) (steady_ms k) (steady_ms (S k)) s (abs g)
        = spec_leave (λ s, GetAccountId s n) t1 t2 s (abs g)).
  { intros s Hj. assert (Hk' : k' = n_steady (HandleLeave s g n).2) by (by destruct Hj; subst j).
    rewrite HandleLeave_clock in Hk' by done.
    split; [rewrite Hk'; lia|]. case_decide as Hs.
    - case_decide as Hst.
      + exists (steady_ms k), (steady_ms (S k)). rewrite Hk'. split_and!; [done|apply steady_mono; lia..|done].
      + exists (steady_ms k), (steady_ms k). rewrite Hk'. split_and!; [done|done|apply steady_mono; lia|].
        unfold spec_leave, abs_phase. simpl. unfold abs_phase. by destruct (m_state g).
    - exists (steady_ms k), (steady_ms k). rewrite Hk'. split_and!; [done|done|apply steady_mono; lia|].
      unfold spec_leave. simpl. by rewrite !decide_False by (by rewrite elem_of_list_to_set). }
  destruct j; cbn [spec_job]; try (apply Hleave; auto);
    (split; [unfold k, k'; by rewrite Hk|]; exists (steady_ms k), (steady_ms k);
     unfold k'; rewrite Hk; done).
Qed.
(** *** Ticks *)

Lemma spec_job_ext acc acc' cap t1 t2 j r :
  (∀ s, acc s = acc' s) → spec_job acc cap t1 t2 j r = spec_job acc' cap t1 t2 j r.
Proof. intros E. destruct j; simpl; unfold spec_leave, spec_rejoin; by rewrite ?E. Qed.

Lemma tick_earlier acc cap w jobs t0 t r r' t' :
  t0 ≤ t → spec_tick acc cap w jobs t r r' t' → spec_tick acc cap w jobs t0 r r' t'.
Proof. intros Ht Hs. destruct Hs; econstructor; eauto; lia. Qed.

Lemma spec_tick_ext acc acc' cap w jobs t r r' t' :
  (∀ s, acc s = acc' s) → spec_tick acc cap w jobs t r r' t' → spec_tick acc' cap w jobs t r r' t'.
Proof.
  intros E. induction 1 as [j js t t1 t2 r r' t' Ht _ IH|]; [|by econstructor].
  econstructor; [exact Ht|]. by rewrite <- (spec_job_ext acc acc').
Qed.

Lemma run_job_account this j g n s : GetAccountId s (run_job this j (g, n)).2 = GetAccountId s n.
Proof.
  pose proof (run_job_effect (λ _, True) this j (g, n) ltac:(done)) as He.
  unfold GetAccountId. by rewrite (plays_field m_accountId _ _ s ltac:(done) (ef_plays _ _ _ _ He)).
Qed.

Lemma run_job_capacity_eq this j g n : m_maxPlayers (run_job this j (g, n)).1 = m_maxPlayers g.
Proof. apply (ef_name _ _ _ _ (run_job_effect (λ _, True) this j (g, n) ltac:(done))). Qed.

Lemma run_jobs_spec this acc w jobs g n r' t' :
  room_wf g → (∀ s, GetAccountId s n = acc s) →
  (let gn' := run_jobs (run_job this) jobs (g, n) in
   spec_tick acc (m_maxPlayers g) w [] (steady_ms (n_steady gn'.2)) (abs gn'.1) r' t') →
  spec_tick acc (m_maxPlayers g) w jobs (steady_ms (n_steady n)) (abs g) r' t'.
Proof.
  revert g n. induction jobs as [|j jobs IH]; intros g n Hg Hacc Hend; [done|].
  destruct (run_job_spec this j g n Hg) as (_ & t1 & t2 & H1 & H2 & E).
  apply (tick_job _ _ _ j jobs _ t1 t2); [done|].
  rewrite <- (spec_job_ext (λ s, GetAccountId s n)) by done. rewrite <- E.
  pose proof (run_job_wf this j (g, n) Hg) as Hg'. pose proof (run_job_capacity_eq this j g n) as Hcap.
  pose proof (run_job_account this j g n) as Hacc'. cbn [run_jobs] in Hend.
  destruct (run_job this j (g, n)) as [g1 n1]. cbn [fst snd] in *. rewrite <- Hcap in *.
  apply (tick_earlier _ _ _ _ _ (steady_ms (n_steady n1))); [done|].
  apply IH; [done| |done]. intros s. rewrite Hacc'. apply Hacc.
Qed.

Lemma ExpireReconnects_spec w g n :
  room_wf g →
  let '(g', n') := ExpireReconnects w g n in
  ∃ t1, steady_ms (n_steady n) ≤ t1 ≤ steady_ms (n_steady n')
    ∧ abs g' = mkRoom (members (abs g)) (phase (abs g)) (moves (abs g))
                 (filter (λ p, t1 - p.2 ≤ w) (slots (abs g))) (empty_since (abs g)).
Proof.
  intros Hg. unfold ExpireReconnects. case_decide as He; simpl; exists (steady_ms (n_steady n)).
  - split; [done|]. unfold abs, abs_phase. simpl. rewrite He. simpl. by rewrite map_filter_empty.
  - split; [split; [done|apply steady_mono; lia]|]. unfold abs, abs_phase. simpl. f_equal.
    rewrite map_um_filter by apply Hg. apply map_filter_ext. intros i x _. simpl. lia.
Qed.

Lemma finish_tick_spec acc cap w g n :
  room_wf g →
  let gn' := finish_tick w g n in
  spec_tick acc cap w [] (steady_ms (n_steady n)) (abs g) (abs gn'.1) (steady_ms (n_steady gn'.2)).
Proof.
  intros Hg. unfold finish_tick. pose proof (ExpireReconnects_spec w g n Hg) as Hex.
  pose proof (ExpireReconnects_wf w g n Hg) as Hg1.
  destruct (ExpireReconnects w g n) as [g1 n1]. cbn [fst] in Hg1. destruct Hex as (t1 & Ht1 & E).
  assert (Hend : ∀ t2 g2 k, steady_ms (n_steady n1) ≤ t2 ≤ steady_ms k →
    abs g2 = spec_end w t1 t2 (abs g) →
    spec_tick acc cap w [] (steady_ms (n_steady n)) (abs g) (abs g2) (steady_ms k)).
  { intros t2 g2 k Ht2 ->. apply (tick_end _ _ _ _ t1 t2); lia. }
  injection E as E1 E2 E3 E4 E5. change (abs_phase g1 = abs_phase g) in E2.
  case_decide as Hst; simpl; [case_decide as Hd|].
  - apply (Hend (steady_ms (n_steady n1))); simpl.
    { rewrite (sends_steady _ _ (BroadcastRoomState_sends _ _)). simpl. split; [done|apply steady_mono; lia]. }
    unfold spec_end. simpl. rewrite <- E2. unfold abs_phase. rewrite Hst, decide_True by lia.
    unfold abs, abs_phase. simpl. pose proof (rw_idle _ Hg1) as Hidle. rewrite E1, E3, E4, E5.
    rewrite Hidle by congruence. done.
  - apply (Hend (steady_ms (n_steady n1))); simpl; [split; [done|apply steady_mono; lia]|].
    unfold spec_end. simpl. rewrite <- E2. unfold abs_phase. rewrite Hst, decide_False by lia.
    unfold abs, abs_phase. by rewrite E1, E3, E4, E5, Hst.
  - assert (Hb : abs (BroadcastPendingMoves g1 n1).1
                 = mkRoom (members (abs g1)) (abs_phase g1) ∅ (slots (abs g1)) (empty_since (abs g1))).
    { unfold BroadcastPendingMoves. case_decide as Hm; simpl; unfold abs, abs_phase; simpl; [|done].
      by rewrite Hm. }
    apply (Hend (steady_ms (n_steady n1))).
    { unfold BroadcastPendingMoves. case_decide; simpl; [done|].
      by rewrite (sends_steady _ _ (BroadcastShared_sends _ _ _)). }
    rewrite Hb. unfold spec_end. simpl. rewrite <- E2, E1, E4, E5. unfold abs_phase.
    by destruct (m_state g1).
Qed.
Lemma run_job_queue this j g n : m_jobQueue (run_job this j (g, n)).1 = m_jobQueue g.
Proof.
  assert (Hleave : ∀ s, m_jobQueue (HandleLeave s g n).1 = m_jobQueue g).
  { intros s. unfold HandleLeave. destruct (us_count _ _); [|done].
    case_decide; [unfold leave_game|]; cbn [NowMs]; repeat case_match; simplify_eq; try done;
      rewrite leave_finish_room; by case_decide. }
  destruct j; cbn [run_job]; try done.
  - unfold HandleEnter. by repeat case_decide.
  - pose proof (Hleave session) as Hl. by destruct (HandleLeave session g n).
  - unfold HandleMove. by case_decide.
  - unfold HandleReady. case_decide; [done|]. rewrite TryStartGame_room. by case_decide.
Qed.

Lemma run_jobs_queue this jobs gn : m_jobQueue (run_jobs (run_job this) jobs gn).1 = m_jobQueue gn.1.
Proof.
  revert gn. induction jobs as [|j jobs IH]; intros [g n]; [done|]. cbn [run_jobs].
  rewrite IH. apply run_job_queue.
Qed.

Lemma finish_tick_queue w g n : m_jobQueue (finish_tick w g n).1 = m_jobQueue g.
Proof.
  unfold finish_tick, ExpireReconnects, BroadcastPendingMoves. cbn [NowMs].
  repeat case_match; simplify_eq/=; by repeat case_decide.
Qed.

Lemma Tick_simulates this w g n :
  room_wf g →
  let gn' := Tick this w g n in
  spec_tick (λ s, GetAccountId s n) (m_maxPlayers g) w (m_jobQueue g)
    (steady_ms (n_steady n)) (abs g) (abs gn'.1) (steady_ms (n_steady gn'.2)).
Proof.
  intros Hg. change (m_maxPlayers g) with (m_maxPlayers (set_jobs [] g)).
  change (abs g) with (abs (set_jobs [] g)).
  assert (Hg0 : room_wf (set_jobs [] g)) by (by destruct Hg; split).
  apply (run_jobs_spec this); [done|done|]. cbv zeta.
  pose proof (FlushJobs_wf this (g, n) Hg) as Hf. unfold FlushJobs, Flush in Hf. cbn [fst snd] in Hf.
  change (Tick this w g n) with
    (let gn := run_jobs (run_job this) (m_jobQueue g) (set_jobs [] g, n) in
     let '(g, n) := gn in finish_tick w g n).
  cbv zeta. destruct (run_jobs _ _ _) as [g1 n1]. by apply finish_tick_spec.
Qed.

Lemma Tick_queue this w g n : m_jobQueue (Tick this w g n).1 = [].
Proof.
  rewrite Tick_split. unfold FlushJobs, Flush. cbn [fst snd].
  pose proof (run_jobs_queue this (m_jobQueue g) (set_jobs [] g, n)) as Hq.
  destruct (run_jobs _ _ _) as [g1 n1]. by rewrite finish_tick_queue.
Qed.

(** C15. A room does what the abstract room does: a tick runs the queued jobs in
    the order of their arrival, each at one time, then drops the slots that are
    too old, turns an old result into an empty lobby and sends the moves; the
    times at which this happens are in order and within the tick.  Pushing a job
    only queues it, and a tick leaves the queue empty. *)
Theorem Tick_refines this w j g n :
  room_wf g →
  (let gn' := Tick this w g n in
   spec_tick (λ s, GetAccountId s n) (m_maxPlayers g) w (m_jobQueue g)
     (steady_ms (n_steady n)) (abs g) (abs gn'.1) (steady_ms (n_steady gn'.2))
   ∧ m_jobQueue gn'.1 = [])
  ∧ abs (PushJob j g) = abs g ∧ m_jobQueue (PushJob j g) = m_jobQueue g ++ [j].
Proof.
  intros Hg. split; [|done]. cbv zeta. split; [by apply Tick_simulates|apply Tick_queue].
Qed.
(** *** Starting a game *)

Lemma tick_enters acc cap w ss js t r r' t' R :
  phase r = Lobby R →
  ss = [] ∨ Z.of_nat (size (list_to_set ss ∪ members r)) ≤ cap →
  spec_tick acc cap w (map JEnter ss ++ js) t r r' t' →
  ∃ t0 r0, spec_tick acc cap w js t0 r0 r' t'
    ∧ phase r0 = Lobby R ∧ members r0 = list_to_set ss ∪ members r.
Proof.
  revert t r. induction ss as [|s ss IH]; intros t r Hp Hcap Ht.
  { exists t, r. split_and!; [done|done|set_solver]. }
  destruct Hcap as [|Hcap]; [done|].
  inversion Ht as [? ? ? t1 t2 ? ? ? Hle Hrest|]; subst. cbn [spec_job] in Hrest.
  assert (phase (spec_enter cap s r) = Lobby R
               ∧ members (spec_enter cap s r) = {[s]} ∪ members r) as [Hp' Hm].
  { unfold spec_enter. rewrite Hp. case_decide as Hlt; [done|]. split; [done|].
    assert (Hsub : members r ⊆ list_to_set (s :: ss) ∪ members r) by set_solver.
    assert (Heq : members r = list_to_set (s :: ss) ∪ members r).
    { apply (set_subseteq_size_eq _ _ Hsub). lia. }
    set_solver. }
  assert (Eq : list_to_set (s :: ss) ∪ members r = list_to_set ss ∪ ({[s]} ∪ members r)).
  { apply leibniz_equiv. set_solver. }
  rewrite Eq in Hcap. rewrite Eq. rewrite <- Hm in Hcap |- *. apply (IH t2); auto.
Qed.

(** Once the game runs, further readies do nothing. *)
Lemma tick_playing acc cap w accs t r r' t' :
  phase r = Playing → spec_tick acc cap w (map JReady accs) t r r' t' →
  phase r' = Playing ∧ members r' = members r.
Proof.
  intros Hp Ht. remember (map JReady accs) as js eqn:E. revert accs E Hp.
  induction Ht as [j js t t1 t2 r r' t' Hle Ht IH|t t1 t2 r t' Hle Hle']; intros accs E Hp.
  - destruct accs as [|a accs]; [done|]. injection E as -> ->.
    cbn [spec_job] in *. assert (Er : spec_ready a r = r) by (unfold spec_ready; by rewrite Hp).
    rewrite Er in *. by apply (IH accs).
  - unfold spec_end. by rewrite Hp.
Qed.

Lemma tick_readies acc cap w accs t r r' t' R :
  phase r = Lobby R → accs ≠ [] → NoDup accs → (∀ a, a ∈ accs → a ∉ R) →
  (2 ≤ size (members r) ≤ size R + length accs)%nat →
  spec_tick acc cap w (map JReady accs) t r r' t' →
  phase r' = Playing ∧ members r' = members r.
Proof.
  revert t r R. induction accs as [|a accs IH]; intros t r R Hp Hne Hnd HR Hsz Ht; [done|].
  apply NoDup_cons in Hnd as [Ha Hnd].
  inversion Ht as [? ? ? t1 t2 ? ? ? Hle Hrest|]; subst. cbn [spec_job] in Hrest.
  assert (Hin : a ∉ R) by (apply HR; by left).
  assert (Hsize : size ({[a]} ∪ R) = S (size R)).
  { rewrite size_union by set_solver. by rewrite size_singleton. }
  unfold spec_ready in Hrest. rewrite Hp in Hrest. unfold toggle in Hrest.
  rewrite decide_False in Hrest by done. simpl in Hsz. case_bool_decide as Hstart.
  - by apply tick_playing in Hrest.
  - apply (IH _ _ ({[a]} ∪ R)) in Hrest; simpl in *; [done|done| |done| |lia].
    + intros ->. simpl in *. lia.
    + intros b Hb. assert (b ∉ R) by (apply HR; by right). set_solver.
Qed.

(** A full lobby starts to play: if the jobs waiting in a lobby are the
    entrances of some sessions, for which there is room, and then the readies of
    accounts that were not ready, at least as many as there are members without
    a ready account, and there are two members, then the next tick starts the
    game with exactly the old members and the new ones. *)
Lemma lobby_starts this w g n ss accs :
  room_wf g → m_state g = WAITING →
  m_jobQueue g = map JEnter ss ++ map JReady accs →
  accs ≠ [] → NoDup accs → (∀ a, a ∈ accs → a ∉ m_readyPlayers g) →
  let M : gset nat := list_to_set (ss ++ m_members g) in
  ss = [] ∨ Z.of_nat (size M) ≤ m_maxPlayers g →
  (2 ≤ size M ≤ length (m_readyPlayers g) + length accs)%nat →
  let g' := (Tick this w g n).1 in
  m_state g' = IN_GAME ∧ ∀ s, s ∈ m_members g' ↔ s ∈ ss ∨ s ∈ m_members g.
Proof.
  intros Hg Hst Hq Hne Hnd Hnew M Hcap Hsz g'.
  pose proof (Tick_simulates this w g n Hg) as Ht. cbv zeta in Ht. rewrite Hq in Ht.
  assert (Hp : phase (abs g) = Lobby (list_to_set (m_readyPlayers g))).
  { unfold abs, abs_phase. simpl. by rewrite Hst. }
  assert (HM : M = list_to_set ss ∪ members (abs g)) by (apply list_to_set_app_L).
  rewrite HM in *.
  apply (tick_enters _ _ _ _ _ _ _ _ _ _ Hp) in Ht as (t0 & r0 & Ht & Hp0 & Hm0); [|done].
  rewrite <- Hm0 in *.
  apply (tick_readies _ _ _ _ _ _ _ _ _ Hp0) in Ht as [Hp' Hm'];
    [|done|done|by setoid_rewrite elem_of_list_to_set
     |by rewrite (size_list_to_set (C := gset string)) by apply Hg].
  unfold abs, abs_phase in Hp', Hm'. simpl in Hp', Hm'. fold g' in Hp', Hm'.
  split; [by destruct (m_state g')|]. intros s.
  rewrite <- (elem_of_list_to_set (C := gset nat)), Hm', Hm0. simpl.
  by rewrite elem_of_union, !elem_of_list_to_set.
Qed.

(** *** One account in two sessions *)

(** The accounts of the members; two members can share one. *)
Definition accounts (acc : nat → string) (ms : gset nat) : gset string := set_map acc ms.
Definition shared (acc : nat → string) (ms : gset nat) : Prop :=
  ∃ s t, s ≠ t ∧ s ∈ ms ∧ t ∈ ms ∧ acc s = acc t.

Lemma accounts_size acc ms : (size (accounts acc ms) ≤ size ms)%nat.
Proof.
  induction ms as [|s ms Hs IH] using set_ind_L; unfold accounts.
  - by rewrite set_map_empty.
  - rewrite (size_union {[s]}), size_singleton by set_solver.
    rewrite set_map_union_L, set_map_singleton_L, size_union_alt, size_singleton.
    assert (size (accounts acc ms ∖ {[acc s]}) ≤ size (accounts acc ms))%nat by (apply subseteq_size; set_solver).
    unfold accounts in *. lia.
Qed.

Lemma accounts_shared acc ms : shared acc ms → (size (accounts acc ms) < size ms)%nat.
Proof.
  intros (s & t & Hst & Hs & Ht & E). pose proof (accounts_size acc (ms ∖ {[s]})) as Hle.
  assert (Eq : accounts acc (ms ∖ {[s]}) = accounts acc ms).
  { unfold accounts. apply set_eq. intros a. rewrite !elem_of_map. split; [set_solver|].
    intros (u & -> & Hu). destruct (decide (u = s)) as [->|]; [exists t; set_solver|exists u; set_solver]. }
  rewrite Eq, size_difference, size_singleton in Hle by set_solver.
  assert (0 < size ms)%nat; [|lia]. assert (size ms ≠ 0)%nat; [|lia]. intros Hz%size_empty_inv. set_solver.
Qed.

(** Players who share an account wait for ever: readiness is counted by account
    and compared with the number of sessions, so a lobby in which two members have the
    same account does not start, however often its members say that they are
    ready. *)
Theorem shared_account_waits acc cap w js t r r' t' R :
  phase r = Lobby R → R ⊆ accounts acc (members r) → shared acc (members r) →
  (∀ j, j ∈ js → match j with
                 | JReady a => a ∈ accounts acc (members r)
                 | JChat _ _ | JMove _ _ _ => True
                 | _ => False
                 end) →
  spec_tick acc cap w js t r r' t' →
  ∃ R', phase r' = Lobby R' ∧ R' ⊆ accounts acc (members r) ∧ members r' = members r.
Proof.
  intros Hp HR Hsh Hjs Ht. revert R Hp HR.
  induction Ht as [j js t t1 t2 r r' t' Hle Ht IH|t t1 t2 r t' Hle Hle']; intros R Hp HR.
  - assert (Hj := Hjs j ltac:(by left)). assert (Htl := λ k Hk, Hjs k ltac:(by right)).
    destruct j as [| | | | |a x y|a]; try done; cbn [spec_job] in *.
    + by apply (IH Hsh Htl R).
    + unfold spec_move in *. rewrite Hp in *. by apply (IH Hsh Htl R).
    + assert (HR' : toggle a R ⊆ accounts acc (members r)) by (unfold toggle; case_decide; set_solver).
      assert (E : bool_decide (2 ≤ size (members r) ≤ size (toggle a R))%nat = false).
      { apply bool_decide_eq_false. pose proof (accounts_shared _ _ Hsh).
        pose proof (subseteq_size _ _ HR'). lia. }
      unfold spec_ready in *. rewrite Hp, E in *. by apply (IH Hsh Htl (toggle a R)).
  - exists R. unfold spec_end. rewrite Hp. done.
Qed.
End refinement.

(** ** Concrete runs *)

Lemma Tick_refines_witness :
  let g := set_jobs [JReady "bob"] demo_lobby in
  let gn' := Tick 0 30000 g demo_players in
  phase (abs gn'.1) = Playing
  ∧ spec_tick (λ s, GetAccountId s demo_players) (m_maxPlayers g) 30000 [JReady "bob"]
      (steady_ms (n_steady demo_players)) (abs g) (abs gn'.1) (steady_ms (n_steady gn'.2)).
Proof.
  cbv zeta. split; [vm_compute; reflexivity|].
  assert (Hg : room_wf (set_jobs [JReady "bob"] demo_lobby)).
  { destruct demo_lobby_wf. by split. }
  exact (proj1 (proj1 (Tick_refines 0 30000 (JReady "bob") _ demo_players Hg))).
Defined.

(** The lobby in which everybody left is ready does not start: the test is made
    when somebody becomes ready, not when somebody leaves. *)
Example all_ready_after_leave :
  let g := set_jobs [JReady "alice"; JReady "bob"; JLeave 3]
             (set_members [1; 2; 3]%nat (GameRoom_new "room1" 16)) in
  let n := upd_session 3 (λ _, demo_player 13 "carol") demo_players in
  let g' := (Tick 0 30000 g n).1 in
  m_members g' = [1; 2]%nat ∧ m_readyPlayers g' = ["bob"; "alice"] ∧ m_state g' = WAITING.
Proof. vm_compute. auto. Qed.
