(* ===== verification/Requests.v ===== *)
(** * From packets to jobs

    What the packets of a client ask of the rooms: [requests] says which jobs a
    packet means for a given room, and the receive path (framing, limits,
    dispatch and the handlers of [Packet/Logic/Logic.cpp]) queues exactly these,
    in the order of the stream. *)
From S2P Require Import Prelude Bytes Platform ObjectPool Packet RecvBuffer Protobuf PbRuntimeDemo PacketPb Session PacketTraits Config JobQueue GameRoom RoomSpec PacketManager SessionManager RoomManager Logic ServerCore ServerConn.
Local Open Scope Z_scope.

Definition add_jobs (js : list RoomJob) (g : GameRoom) : GameRoom := set_jobs (m_jobQueue g ++ js) g.

Lemma add_jobs_nil g : add_jobs [] g = g.
Proof. unfold add_jobs. rewrite app_nil_r. by destruct g. Qed.

Lemma add_jobs_app js ks g : add_jobs ks (add_jobs js g) = add_jobs (js ++ ks) g.
Proof. unfold add_jobs. simpl. by rewrite app_assoc. Qed.

Section requests.
Context `{Platform, PbRuntime}.
Implicit Types (w : World) (s t : nat) (R : RoomManager) (g : GameRoom) (p : list byte).
(** The room that is observed, and its name. *)
Context (r : nat) (nm : string).

Definition when (P : Prop) `{Decision P} (js : list RoomJob) : list RoomJob :=
  if decide P then js else [].

(** ** The specification *)

(** What the packet [p] of a session with account [a] that is in room [own] asks
    of the observed room. *)
Definition requests s (a : string) (own : option nat) p : list RoomJob :=
  if decide (Z.of_nat (length p) < sizeof_PacketHeader) then []
  else
    let id := packetId (header_at 0 p) in
    let payload := drop (Z.to_nat sizeof_PacketHeader) p in
    if decide (id = PacketID_val C_CHAT) then
      match ParseFromArray payload : option Pb_C_CHAT with
      | Some pkt => when (own = Some r) [JChat a (C_CHAT_message pkt)]
      | None => []
      end
    else if decide (id = PacketID_val C_MOVE) then
      match ParseFromArray payload : option Pb_C_MOVE with
      | Some pkt => when (own = Some r) [JMove a (C_MOVE_x pkt) (C_MOVE_y pkt)]
      | None => []
      end
    else if decide (id = PacketID_val C_READY) then when (a ≠ "" ∧ own = Some r) [JReady a]
    else if decide (id = PacketID_val C_ROOM_LEAVE) then when (own = Some r) [JLeaveAck s]
    else if decide (id = PacketID_val C_ROOM_ENTER) then
      match ParseFromArray payload : option Pb_C_ROOM_ENTER with
      | Some pkt =>
          if decide (a = "") then []
          else when (own = Some r) [JLeave s] ++ when (C_ROOM_ENTER_room_name pkt = nm) [JEnter s]
      | None => []
      end
    else [].

(** ** The observed room *)

Record at_room R g : Prop := {
  ar_wf : rm_wf R;
  ar_name : Find nm R = Some r;
  ar_room : deref r R = Some g }.

(** The room and the account of every session stay. *)
Definition same_place w w' : Prop :=
  ∀ t, GetRoom t (net w') = GetRoom t (net w) ∧ GetAccountId t (net w') = GetAccountId t (net w).

#[local] Instance same_place_preorder : PreOrder same_place.
Proof.
  split; [done|]. intros w1 w2 w3 H1 H2 t. destruct (H1 t), (H2 t). split; congruence.
Qed.

Lemma sends_place w n : sends (net w) n → same_place w (with_net n w).
Proof. intros Hs t. split; [apply (sends_room Hs)|apply (sends_account Hs)]. Qed.

Lemma Find_store r0 g0 name R : Find name (store r0 g0 R) = Find name R.
Proof.
  unfold Find, store. simpl. induction (m_rooms R) as [|[k [r' g']] l IH]; [done|]. simpl.
  destruct (decide (r' = r0)) as [->|]; simpl; by case_decide.
Qed.

(** A name belongs to one address. *)
Lemma Find_addr R name name' r' :
  rm_wf R → Find name R = Some r' → Find name' R = Some r' → name = name'.
Proof.
  intros HR. unfold Find.
  destruct (um_find name (m_rooms R)) as [[r1 g1]|] eqn:E1; [|done].
  destruct (um_find name' (m_rooms R)) as [[r2 g2]|] eqn:E2; [|done]. intros [= ->] [= ->].
  apply um_find_Some in E1, E2; [|apply HR..].
  pose proof (rm_addrs _ HR) as Hnd. unfold um_keys in Hnd.
  apply list_elem_of_lookup in E1 as [i Hi], E2 as [j Hj].
  assert (i = j) as <-; [|congruence].
  eapply (NoDup_lookup _ _ _ r'); [exact Hnd| |]; by rewrite !list_lookup_fmap, ?Hi, ?Hj.
Qed.

Lemma push_job_at r0 j w w' g :
  push_job r0 j w = Some w' → at_room (rooms w) g →
  at_room (rooms w') (add_jobs (when (r0 = r) [j]) g) ∧ net w' = net w.
Proof.
  unfold push_job. destruct (room_PushJob r0 j (rooms w)) as [R'|] eqn:E; [|done].
  intros [= <-] [HR Hn Hg]. simpl. split; [|done].
  assert (Hd : is_Some (deref r0 (rooms w))).
  { unfold room_PushJob in E. destruct (deref r0 (rooms w)); [by eexists|done]. }
  destruct (room_PushJob_wf r0 j (rooms w) HR Hd) as (R1 & E1 & HR1).
  rewrite E in E1. injection E1 as <-.
  unfold room_PushJob in E. destruct (deref r0 (rooms w)) as [g0|] eqn:E0; [|done].
  injection E as <-. split; [done|by rewrite Find_store|].
  rewrite deref_store. unfold when. destruct (decide (r0 = r)) as [->|].
  - rewrite Hg in E0. injection E0 as <-. by rewrite Hg.
  - by rewrite add_jobs_nil.
Qed.

Lemma push_job_place r0 j w w' : push_job r0 j w = Some w' → same_place w w'.
Proof. unfold push_job. destruct (room_PushJob r0 j (rooms w)); [|done]. by intros [= <-]. Qed.

Lemma GetOrCreate_at max name R g :
  at_room R g →
  let '(r', R') := GetOrCreate max name R in at_room R' g ∧ (r' = r ↔ name = nm).
Proof.
  intros [HR Hn Hg]. pose proof (GetOrCreate_deref max name R HR) as Hd.
  pose proof (Find_addr R name nm r HR) as Ha. revert Hd Ha.
  unfold GetOrCreate, Find in *. destruct (um_find name (m_rooms R)) as [[r' g']|] eqn:E.
  - intros (HR' & _) Ha. split; [by split|]. split.
    + intros ->. by apply Ha.
    + intros ->. rewrite E in Hn. by injection Hn.
  - intros (HR' & _ & Hd & _) _. assert (name ≠ nm) as Hne by (intros ->; by rewrite E in Hn).
    split; [split; [done| |by apply Hd]|].
    + unfold Find. simpl. unfold um_emplace. rewrite E.
      rewrite um_find_place; [by rewrite decide_False|apply HR|by apply um_find_None].
    + split; [|done]. intros Hr. assert (Hin : r ∈ um_keys (map snd (m_rooms R))).
      { apply dec_stable. intros Hx%um_find_None. unfold deref in Hg. congruence. }
      apply (rm_next _ HR) in Hin. lia.
Qed.

(** ** The handlers *)

(** What a handler does: the jobs [js] in the observed room, and nobody moves. *)
Definition asked (js : list RoomJob) w (o : option World) : Prop :=
  ∀ w' g, o = Some w' → at_room (rooms w) g → at_room (rooms w') (add_jobs js g) ∧ same_place w w'.

Lemma asked_none w w' : rooms w' = rooms w → same_place w w' → asked [] w (Some w').
Proof. intros HR Hs w1 g [= <-] Hg. by rewrite HR, add_jobs_nil. Qed.

Lemma asked_same w : asked [] w (Some w).
Proof. by apply asked_none. Qed.

Lemma asked_reply `{Message M, PacketTraits M} s (m : M) w : asked [] w (Some (reply s m w)).
Proof. apply asked_none; [done|]. apply sends_place, Send_sends. Qed.

Lemma asked_job r0 j w : asked (when (r0 = r) [j]) w (push_job r0 j w).
Proof.
  intros w' g E Hg. split; [by apply (push_job_at _ _ _ _ _ E Hg)|by eapply push_job_place].
Qed.

Lemma asked_bind js ks w o f :
  asked js w o → (∀ w', asked ks w' (f w')) → asked (js ++ ks) w (o ≫= f).
Proof.
  intros Ho Hf w' g E Hg. destruct o as [w1|]; [|done]. simpl in E.
  destruct (Ho w1 g eq_refl Hg) as [Hg1 Hs1]. destruct (Hf w1 w' _ E Hg1) as [Hg2 Hs2].
  rewrite add_jobs_app in Hg2. split; [done|by etrans].
Qed.

(** A job for the room a session is in. *)
Lemma asked_own (own : option nat) j w :
  asked (when (own = Some r) [j]) w
    (match own with Some r0 => push_job r0 j w | None => Some w end).
Proof.
  destruct own as [r0|]; [|unfold when; rewrite decide_False by done; apply asked_same].
  pose proof (asked_job r0 j w) as Ha. unfold when in *.
  destruct (decide (r0 = r)), (decide (Some r0 = Some r)); try done; congruence.
Qed.

Lemma Handle_C_ROOM_ENTER_asked s d w pkt :
  ParseFromArray d = Some pkt → GetAccountId s (net w) ≠ "" →
  asked (when (GetRoom s (net w) = Some r) [JLeave s]
         ++ when (C_ROOM_ENTER_room_name pkt = nm) [JEnter s]) w (Handle_C_ROOM_ENTER s d w).
Proof.
  intros Hp Ha. unfold Handle_C_ROOM_ENTER. rewrite Hp, decide_False by done.
  apply asked_bind; [apply asked_own|]. intros w1 w' g E Hg.
  pose proof (GetOrCreate_at (maxRoomPlayers (cfg w1)) (C_ROOM_ENTER_room_name pkt) _ _ Hg) as Hr.
  destruct (GetOrCreate _ _ _) as [r0 R1]. destruct Hr as [Hg1 Hr].
  destruct (asked_job r0 (JEnter s) (with_rooms R1 w1) w' g E Hg1) as [Hg2 Hs2].
  split; [|exact Hs2]. unfold when in *.
  by destruct (decide (r0 = r)), (decide (C_ROOM_ENTER_room_name pkt = nm)); try done; tauto.
Qed.

Lemma Handle_C_ROOM_LIST_asked s d w : asked [] w (Handle_C_ROOM_LIST s d w).
Proof. apply asked_none; [done|]. apply sends_place, SendRaw_sends. Qed.

Lemma Handle_C_PING_asked s d w : asked [] w (Handle_C_PING s d w).
Proof.
  unfold Handle_C_PING. case_decide; [apply asked_same|]. cbn [UnixTimeMsNow].
  apply asked_none; [done|]. intros t. unfold GetRoom, GetAccountId. simpl.
  by rewrite (sends_room (SendRaw_sends _ _ _ _ _)), (sends_account (SendRaw_sends _ _ _ _ _)).
Qed.

Lemma Handle_C_LOGIN_asked s d w : asked [] w (Handle_C_LOGIN s d w).
Proof.
  unfold Handle_C_LOGIN. destruct (ParseFromArray d); [|apply asked_same].
  case_decide; [apply asked_reply|by apply asked_none].
Qed.

(** The handlers of other packets ask nothing of the rooms. *)
Lemma handlers_asked :
  map_Forall (λ id h,
    id ∉ map PacketID_val [C_CHAT; C_MOVE; C_READY; C_ROOM_LEAVE; C_ROOM_ENTER] →
    ∀ s d w, asked [] w (h s d w)) handlers.
Proof.
  unfold handlers, RegisterHandlers, RegisterHandler.
  repeat (refine (map_Forall_insert_2 _ _ _ _ _ _);
    [intros Hid s d w; first [ apply Handle_C_ROOM_LIST_asked | apply Handle_C_PING_asked
       | apply Handle_C_LOGIN_asked | exfalso; apply Hid; set_solver ]|]).
  refine (map_Forall_empty _).
Qed.

Lemma HandlePacket_asked s p w :
  asked (requests s (GetAccountId s (net w)) (GetRoom s (net w)) p) w (HandlePacket handlers s p w).
Proof.
  unfold HandlePacket, requests. case_decide; [apply asked_same|]. cbv zeta.
  generalize (packetId (header_at 0 p)) (drop (Z.to_nat sizeof_PacketHeader) p). intros id d.
  destruct (decide (id = PacketID_val C_CHAT)) as [->|N1].
  { change (handlers !! PacketID_val C_CHAT) with (Some Handle_C_CHAT). unfold Handle_C_CHAT.
    destruct (ParseFromArray d); [apply asked_own|apply asked_same]. }
  destruct (decide (id = PacketID_val C_MOVE)) as [->|N2].
  { change (handlers !! PacketID_val C_MOVE) with (Some Handle_C_MOVE). unfold Handle_C_MOVE.
    destruct (ParseFromArray d); [apply asked_own|apply asked_same]. }
  destruct (decide (id = PacketID_val C_READY)) as [->|N3].
  { change (handlers !! PacketID_val C_READY) with (Some Handle_C_READY). unfold Handle_C_READY.
    case_decide as Ha; unfold when at 1.
    - rewrite decide_False by tauto. apply asked_same.
    - pose proof (asked_own (GetRoom s (net w)) (JReady (GetAccountId s (net w))) w) as Ho.
      unfold when in *. by destruct (decide (GetRoom s (net w) = Some r)), (decide (_ ∧ _)); try tauto. }
  destruct (decide (id = PacketID_val C_ROOM_LEAVE)) as [->|N4].
  { change (handlers !! PacketID_val C_ROOM_LEAVE) with (Some Handle_C_ROOM_LEAVE).
    unfold Handle_C_ROOM_LEAVE. pose proof (asked_own (GetRoom s (net w)) (JLeaveAck s) w) as Ho.
    destruct (GetRoom s (net w)); [done|]. apply asked_reply. }
  destruct (decide (id = PacketID_val C_ROOM_ENTER)) as [->|N5].
  { change (handlers !! PacketID_val C_ROOM_ENTER) with (Some Handle_C_ROOM_ENTER).
    destruct (ParseFromArray d) as [pkt|] eqn:E.
    - case_decide; [|by apply Handle_C_ROOM_ENTER_asked].
      unfold Handle_C_ROOM_ENTER. rewrite E, decide_True by done. apply asked_reply.
    - unfold Handle_C_ROOM_ENTER. rewrite E. apply asked_same. }
  destruct (handlers !! id) as [h|] eqn:E; [|apply asked_same].
  apply (handlers_asked _ _ E). set_solver.
Qed.

(** ** The receive path *)

(** The connection goes on and nothing more is asked, or it is over and its
    session leaves its room. *)
Definition over_or_not s (own : option nat) (tail : list RoomJob) w : Prop :=
  tail = [] ∨ tail = [JLeave s] ∧ own = Some r ∧ IsDisconnected s (net w) = true.

Lemma HandleDisconnect_asked s w w' g :
  HandleDisconnect s w = Some w' → at_room (rooms w) g →
  ∃ tail, at_room (rooms w') (add_jobs tail g) ∧ over_or_not s (GetRoom s (net w)) tail w'
    ∧ IsDisconnected s (net w') = true.
Proof.
  unfold HandleDisconnect. pose proof (Disconnect_disconnected s (net w)) as Hd.
  pose proof (Disconnect_sends s (net w)) as Hs.
  destruct (Disconnect s (net w)) as [first n]. cbn [snd] in *. destruct first; cbn [negb].
  2:{ intros [= <-] Hg. exists []. rewrite add_jobs_nil. split_and!; [done|by left|done]. }
  set (w1 := with_smgr _ _).
  assert (Ho : GetRoom s (net w1) = GetRoom s (net w)) by apply (sends_room Hs).
  rewrite Ho. destruct (GetRoom s (net w)) as [room|].
  2:{ intros [= <-] Hg. exists []. rewrite add_jobs_nil. split_and!; [done|by left|done]. }
  intros E Hg. destruct (push_job_at _ _ _ _ g E) as [Hg' En]; [done|].
  assert (Hd' : IsDisconnected s (net w') = true).
  { rewrite En. unfold IsDisconnected. simpl. rewrite sess_upd. exact Hd. }
  eexists. split_and!; [exact Hg'| |done]. unfold over_or_not, when.
  destruct (decide (room = r)) as [->|]; [right|left]; done.
Qed.

Lemma PostRecv_asked s w w' g :
  PostRecv s w = Some w' → at_room (rooms w) g →
  ∃ tail, at_room (rooms w') (add_jobs tail g) ∧ over_or_not s (GetRoom s (net w)) tail w'.
Proof.
  unfold PostRecv. destruct (IsDisconnected s (net w)).
  { intros [= <-] Hg. exists []. rewrite add_jobs_nil. split; [done|by left]. }
  destruct (m_recvContext _) as [c|]; [|done]. destruct (GetWriteBufferPtr _) as [off b'].
  destruct (WSARecv s _) as [ok w1] eqn:E. unfold WSARecv in E. injection E as Eok Ew.
  assert (Hg1 : rooms w1 = rooms w ∧ GetRoom s (net w1) = GetRoom s (net w)).
  { subst w1. unfold GetRoom, sess. simpl. split; [done|]. by rewrite !lookup_insert_eq. }
  destruct Hg1 as [ER Eo]. destruct ok.
  - intros [= <-] Hg. exists []. rewrite add_jobs_nil, ER. split; [done|by left].
  - intros E Hg. rewrite <- ER in Hg.
    destruct (HandleDisconnect_asked _ _ _ _ E Hg) as (tail & Hg' & Ho & _).
    exists tail. by rewrite <- Eo.
Qed.

Lemma CheckRateLimit_place s w : same_place w (with_net (CheckRateLimit s (net w)).2 w).
Proof.
  unfold CheckRateLimit. cbn [NowMs]. set (n1 := mkNet _ _ _ _ _ _ _ _ _ _ _).
  destruct (CheckRateLimit_at _ _) as [ok x] eqn:E.
  assert (Hx : m_room x = m_room (sess s n1) ∧ m_accountId x = m_accountId (sess s n1)).
  { unfold CheckRateLimit_at in E. injection E as _ <-. by repeat case_decide. }
  intros t. unfold GetRoom, GetAccountId. cbn [snd net with_net]. rewrite !sess_upd_dec.
  case_decide; [subst; exact Hx|done].
Qed.

Lemma pop_packet_place s size w : same_place w (pop_packet s size w).
Proof.
  intros t. unfold pop_packet, GetRoom, GetAccountId. simpl. rewrite !sess_upd_dec. by case_decide.
Qed.

Lemma serve_asked max s packets w w' g :
  serve max s packets w = Some w' → at_room (rooms w) g →
  ∃ served tail, served `prefix_of` packets
    ∧ at_room (rooms w')
        (add_jobs (concat (map (requests s (GetAccountId s (net w)) (GetRoom s (net w))) served) ++ tail) g)
    ∧ over_or_not s (GetRoom s (net w)) tail w'
    ∧ (IsDisconnected s (net w') = false → served = packets).
Proof.
  revert w g. induction packets as [|p packets IH]; intros w g; cbn [serve].
  { intros E Hg. destruct (PostRecv_asked _ _ _ _ E Hg) as (tail & Hg' & Ho).
    exists [], tail. split_and!; [done..|]. done. }
  assert (Hdis : ∀ w1, rooms w1 = rooms w → same_place w w1 →
    HandleDisconnect s w1 = Some w' → at_room (rooms w) g → ∃ served tail, served `prefix_of` p :: packets
    ∧ at_room (rooms w')
        (add_jobs (concat (map (requests s (GetAccountId s (net w)) (GetRoom s (net w))) served) ++ tail) g)
    ∧ over_or_not s (GetRoom s (net w)) tail w'
    ∧ (IsDisconnected s (net w') = false → served = p :: packets)).
  { intros w1 ER Hs1 E Hg. rewrite <- ER in Hg.
    destruct (HandleDisconnect_asked _ _ _ _ E Hg) as (tail & Hg' & Ho & Hd).
    exists [], tail. rewrite <- (proj1 (Hs1 s)). split_and!; [apply prefix_nil|done..|congruence]. }
  case_decide; [by apply Hdis|].
  pose proof (CheckRateLimit_place s w) as Hp0.
  destruct (CheckRateLimit s (net w)) as [ok n]. cbn [snd] in Hp0. destruct ok; cbn [negb].
  2:{ by apply Hdis. }
  destruct (HandlePacket handlers s p _) as [w2|] eqn:E2; [|done]. cbn [mbind option_bind].
  intros E Hg. set (w1 := on_stats inc_packetsReceived (with_net n w)) in *.
  destruct (HandlePacket_asked s p w1 w2 g E2 Hg) as [Hg2 Hs2].
  set (w3 := pop_packet s (Z.of_nat (length p)) w2) in *.
  assert (Hs : same_place w w3) by (etrans; [exact Hp0|]; etrans; [exact Hs2|apply pop_packet_place]).
  destruct (IH w3 _ E Hg2) as (served & tail & Hpre & Hg' & Ho & Hall).
  destruct (Hs s) as [E1 Ea]. destruct (Hp0 s) as [E1' Ea']. rewrite E1 in Hg', Ho. rewrite Ea in Hg'.
  change (GetRoom s (net w1)) with (GetRoom s (net (with_net n w))) in Hg'.
  change (GetAccountId s (net w1)) with (GetAccountId s (net (with_net n w))) in Hg'.
  rewrite E1', Ea' in Hg'.
  exists (p :: served), tail. split_and!; [by apply prefix_cons| |done|].
  - simpl. rewrite <- app_assoc. by rewrite <- add_jobs_app.
  - intros Hd. by rewrite Hall.
Qed.

Lemma upd_place s f n w :
  sessions n = sessions (net w) →
  (∀ x, m_room (f x) = m_room x ∧ m_accountId (f x) = m_accountId x) →
  same_place w (with_net (upd_session s f n) w).
Proof.
  intros En Hf t. unfold GetRoom, GetAccountId. simpl. rewrite !sess_upd_dec. unfold sess.
  rewrite En. case_decide; [apply Hf|done].
Qed.

Lemma received_place s data w :
  same_place w (received s (Z.of_nat (length data)) (kernel_receive s data w)).
Proof.
  unfold received. cbv zeta. set (w1 := kernel_receive s data w).
  set (w2 := with_net (upd_session s _ (net w1)) w1).
  assert (H1 : same_place w w1) by (apply upd_place; [done|]; intros x; by repeat case_match).
  assert (H2 : same_place w1 w2) by (by apply upd_place).
  assert (H3 : same_place w2 (with_net (UpdateActivity s (net w2)) w2)).
  { unfold UpdateActivity. cbn [NowMs]. by apply upd_place. }
  etrans; [exact H1|]. etrans; [exact H2|]. exact H3.
Qed.

(** *** Other sessions *)

(** Receiving on a session concerns no other session; and nobody is connected
    again. *)
Record elsewhere s w w' : Prop := {
  el_other : ∀ t, t ≠ s →
    GetRoom t (net w') = GetRoom t (net w) ∧ GetAccountId t (net w') = GetAccountId t (net w)
    ∧ m_recvBuffer (sess t (net w')) = m_recvBuffer (sess t (net w));
  el_disc : ∀ t, IsDisconnected t (net w) = true → IsDisconnected t (net w') = true }.

#[local] Instance elsewhere_preorder s : PreOrder (elsewhere s).
Proof.
  split; [by intros w; split|]. intros w1 w2 w3 [A1 A2] [B1 B2]. split; [|auto].
  intros t Ht. destruct (A1 t Ht) as (? & ? & ?), (B1 t Ht) as (? & ? & ?). split_and!; congruence.
Qed.

Lemma upd_elsewhere s f n w :
  sessions n = sessions (net w) →
  (∀ x, m_disconnected x = true → m_disconnected (f x) = true) →
  elsewhere s w (with_net (upd_session s f n) w).
Proof.
  intros En Hf. unfold IsDisconnected, GetRoom, GetAccountId. split; intros t; simpl;
    unfold GetRoom, GetAccountId, IsDisconnected; rewrite !sess_upd_dec; unfold sess; rewrite En.
  - intros Ht. by rewrite decide_False.
  - case_decide; [apply Hf|done].
Qed.

Lemma sends_elsewhere s n w : sends (net w) n → elsewhere s w (with_net n w).
Proof.
  intros Hs. split; intros t.
  - intros _. split_and!; [apply (sends_room Hs)|apply (sends_account Hs)|apply (sends_recvBuffer Hs)].
  - apply (sends_disc _ _ Hs).
Qed.

Lemma same_net_elsewhere s w w' : net w' = net w → elsewhere s w w'.
Proof. intros E. split; by rewrite E. Qed.

Lemma HandleDisconnect_elsewhere s w w' : HandleDisconnect s w = Some w' → elsewhere s w w'.
Proof.
  unfold HandleDisconnect. pose proof (sends_elsewhere s _ w (Disconnect_sends s (net w))) as Hs.
  destruct (Disconnect s (net w)) as [first n]. cbn [snd] in *. destruct first; cbn [negb].
  2:{ by intros [= <-]. }
  set (w1 := with_smgr _ _). assert (H1 : elsewhere s w w1) by (by destruct Hs).
  destruct (GetRoom s (net w1)) as [room|]; [|by intros [= <-]].
  unfold push_job. destruct (room_PushJob _ _ _); [|done]. intros [= <-].
  etrans; [exact H1|].
  assert (H2 : elsewhere s w1 (with_net (upd_session s (SetRoom None) (net w1)) w1))
    by (by apply upd_elsewhere).
  by destruct H2.
Qed.

Lemma PostRecv_elsewhere s w w' : PostRecv s w = Some w' → elsewhere s w w'.
Proof.
  unfold PostRecv. destruct (IsDisconnected s (net w)); [by intros [= <-]|].
  destruct (m_recvContext _) as [c|]; [|done]. destruct (GetWriteBufferPtr _) as [off b'].
  set (w1 := with_net (upd_session s (set_recvBuffer b') (net w)) w).
  set (w2 := with_net (upd_session s (set_recvContext _) (net w1)) w1).
  assert (H1 : elsewhere s w w1) by (by apply upd_elsewhere).
  assert (H12 : elsewhere s w1 w2) by (by apply upd_elsewhere).
  assert (H2 : elsewhere s w w2) by (by etrans).
  destruct (WSARecv s w2) as [ok w3] eqn:E. unfold WSARecv in E. injection E as Eok Ew.
  assert (H3 : elsewhere s w w3) by (subst w3; by destruct H2).
  destruct ok; [by intros [= <-]|]. intros E. etrans; [exact H3|by apply HandleDisconnect_elsewhere].
Qed.

Lemma HandlePacket_elsewhere s p w w' g :
  world_wf w → at_room (rooms w) g → HandlePacket handlers s p w = Some w' →
  elsewhere s w w' ∧ world_wf w'.
Proof.
  intros Hw Hg E. destruct (HandlePacket_safe (λ _, True) s p w I Hw) as (w1 & E1 & Hw1 & Hh).
  rewrite E in E1. injection E1 as <-. split; [|done].
  destruct (HandlePacket_asked s p w w' g E Hg) as [_ Hs].
  split; [|apply (plays_disc _ _ (hs_plays _ _ _ Hh))].
  intros t _. destruct (Hs t) as [? ?]. split_and!; [done..|].
  apply (q_buf _ _ (handles_quiet _ _ _ Hh)).
Qed.

Lemma CheckRateLimit_elsewhere s w : elsewhere s w (with_net (CheckRateLimit s (net w)).2 w).
Proof.
  unfold CheckRateLimit. cbn [NowMs]. set (n1 := mkNet _ _ _ _ _ _ _ _ _ _ _).
  destruct (CheckRateLimit_at _ _) as [ok x] eqn:E. cbn [snd].
  unfold CheckRateLimit_at in E. injection E as _ <-.
  split; intros t; unfold GetRoom, GetAccountId, IsDisconnected; simpl; rewrite !sess_upd_dec.
  - intros Ht. by rewrite decide_False.
  - destruct (decide (s = t)) as [->|]; [|done]. by repeat case_decide.
Qed.

Lemma serve_elsewhere max s packets w w' g :
  world_wf w → at_room (rooms w) g → serve max s packets w = Some w' → elsewhere s w w'.
Proof.
  revert w g. induction packets as [|p packets IH]; intros w g Hw Hg; cbn [serve].
  { apply PostRecv_elsewhere. }
  case_decide.
  { intros E%HandleDisconnect_elsewhere. by destruct E. }
  pose proof (CheckRateLimit_elsewhere s w) as Hlim. destruct (CheckRateLimit_ok s w Hw) as [Hw1 _].
  destruct (CheckRateLimit s (net w)) as [ok n]. cbn [snd] in *. destruct ok; cbn [negb].
  2:{ intros E%HandleDisconnect_elsewhere. etrans; [exact Hlim|]. by destruct E. }
  destruct (stats_ok inc_packetsReceived _ Hw1) as [Hw2 _].
  destruct (HandlePacket handlers s p _) as [w2|] eqn:E2; [|done]. cbn [mbind option_bind]. intros E.
  destruct (HandlePacket_elsewhere s p _ w2 g Hw2 Hg E2) as [Hpk Hw3].
  destruct (HandlePacket_asked s p _ w2 g E2 Hg) as [Hg2 _].
  assert (Hpop : elsewhere s w2 (pop_packet s (Z.of_nat (length p)) w2)) by (by apply upd_elsewhere).
  assert (Hpk' : elsewhere s (with_net n w) w2) by (by destruct Hpk).
  etrans; [exact Hlim|]. etrans; [exact Hpk'|]. etrans; [exact Hpop|].
  eapply IH; [|exact Hg2|exact E]. by apply upd_ok.
Qed.

Lemma received_elsewhere s data w :
  elsewhere s w (received s (Z.of_nat (length data)) (kernel_receive s data w)).
Proof.
  unfold received. cbv zeta. set (w1 := kernel_receive s data w).
  set (w2 := with_net (upd_session s _ (net w1)) w1).
  assert (H1 : elsewhere s w w1) by (apply upd_elsewhere; [done|]; intros x; by repeat case_match).
  assert (H2 : elsewhere s w1 w2) by (by apply upd_elsewhere).
  assert (H3 : elsewhere s w2 (with_net (UpdateActivity s (net w2)) w2)).
  { unfold UpdateActivity. cbn [NowMs]. by apply upd_elsewhere. }
  etrans; [exact H1|]. etrans; [exact H2|]. by destruct H3.
Qed.

(** C4. What a client sends becomes the jobs it asks for.  However the stream is
    cut into receives, a receive queues in every room exactly the jobs that the
    packets it completes ask of that room, in the order of the stream, and
    changes nothing else about the room; if the connection ends on the way, the
    packets after that are dropped and at most the session's leave is added. *)
Theorem HandleRecv_requests s data w g :
  conn_wf w → s ∈ rx_pending (net w) →
  (∃ c, m_recvContext (sess s (net w)) = Some c ∧ Z.of_nat (length data) ≤ wsaBuf_len c) →
  at_room (rooms w) g →
  ∃ w' served tail,
    HandleRecv s (Z.of_nat (length data)) (kernel_receive s data w) = Some w'
    ∧ served `prefix_of` (frames (unread s w ++ data)).1
    ∧ at_room (rooms w')
        (add_jobs (concat (map (requests s (GetAccountId s (net w)) (GetRoom s (net w))) served) ++ tail) g)
    ∧ (tail = [] ∨ tail = [JLeave s] ∧ GetRoom s (net w) = Some r ∧ IsDisconnected s (net w') = true)
    ∧ (IsDisconnected s (net w') = false → served = (frames (unread s w ++ data)).1).
Proof.
  intros Hc Hs Hx Hg. destruct (HandleRecv_ok s data w Hc Hs Hx) as (E & w' & E' & _).
  destruct (received_place s data w s) as [Er Ea].
  rewrite E in E'. destruct (serve_asked _ _ _ _ w' g E') as (served & tail & Hp & Hg' & Ho & Hall).
  { done. }
  rewrite Er, Ea in Hg'. rewrite Er in Ho. exists w', served, tail. by rewrite E.
Qed.

(** ** From readies to a game *)

(** Receives on several sessions, one after the other. *)
Inductive receives : list (nat * list byte) → World → World → Prop :=
  | receives_none w : receives [] w w
  | receives_one s data es w w1 w2 :
      s ∈ rx_pending (net w) →
      (∃ c, m_recvContext (sess s (net w)) = Some c ∧ Z.of_nat (length data) ≤ wsaBuf_len c) →
      HandleRecv s (Z.of_nat (length data)) (kernel_receive s data w) = Some w1 →
      receives es w1 w2 → receives ((s, data) :: es) w w2.

(** The packets a receive completes, and what they ask of the observed room. *)
Definition completed w (e : nat * list byte) : list (list byte) := (frames (unread e.1 w ++ e.2)).1.
Definition asks w (e : nat * list byte) : list RoomJob :=
  concat (map (requests e.1 (GetAccountId e.1 (net w)) (GetRoom e.1 (net w))) (completed w e)).

Lemma HandleRecv_elsewhere s data w w' g :
  conn_wf w → s ∈ rx_pending (net w) →
  (∃ c, m_recvContext (sess s (net w)) = Some c ∧ Z.of_nat (length data) ≤ wsaBuf_len c) →
  at_room (rooms w) g →
  HandleRecv s (Z.of_nat (length data)) (kernel_receive s data w) = Some w' →
  conn_wf w' ∧ elsewhere s w w'.
Proof.
  intros Hc Hs Hx Hg E. destruct (HandleRecv_ok s data w Hc Hs Hx) as (Es & w1 & E1 & Hc1 & _).
  rewrite E in E1. injection E1 as <-. split; [done|]. rewrite E in Es. symmetry in Es.
  etrans; [apply (received_elsewhere s data)|].
  eapply (serve_elsewhere _ _ _ _ _ g); [|exact Hg|exact Es].
  destruct (kernel_receive_ok s data w Hc Hs Hx) as (Hs1 & Hk & _).
  destruct (received_ok s (Z.of_nat (length data)) _ Hs1) as [Hs2 _]; [lia|]. apply Hs2.
Qed.

(** As long as the connection stays, a receive queues what its packets ask. *)
Lemma HandleRecv_queue s data w w' g :
  conn_wf w → s ∈ rx_pending (net w) →
  (∃ c, m_recvContext (sess s (net w)) = Some c ∧ Z.of_nat (length data) ≤ wsaBuf_len c) →
  at_room (rooms w) g →
  HandleRecv s (Z.of_nat (length data)) (kernel_receive s data w) = Some w' →
  ∃ g', at_room (rooms w') g'
    ∧ (IsDisconnected s (net w') = false → g' = add_jobs (asks w (s, data)) g).
Proof.
  intros Hc Hs Hx Hg E. destruct (HandleRecv_ok s data w Hc Hs Hx) as (Es & _).
  rewrite E in Es. symmetry in Es. destruct (received_place s data w s) as [Er Ea].
  destruct (serve_asked _ _ _ _ w' g Es) as (served & tail & _ & Hg' & Ho & Hall); [done|].
  rewrite Er in Hg', Ho. rewrite Ea in Hg'.
  eexists. split; [exact Hg'|]. intros Hd. rewrite (Hall Hd).
  destruct Ho as [->|(_ & _ & Hd')]; [|congruence]. by rewrite app_nil_r.
Qed.

Lemma receives_disc es w w' g t :
  receives es w w' → conn_wf w → at_room (rooms w) g →
  IsDisconnected t (net w) = true → IsDisconnected t (net w') = true.
Proof.
  intros Hr. revert g. induction Hr as [w|s data es w w1 w2 Hs Hx E Hr IH]; intros g Hc Hg Ht; [done|].
  destruct (HandleRecv_elsewhere s data w w1 g Hc Hs Hx Hg E) as [Hc1 Hel].
  destruct (HandleRecv_queue s data w w1 g Hc Hs Hx Hg E) as (g1 & Hg1 & _).
  apply (IH g1); [done..|]. by apply (el_disc _ _ _ Hel).
Qed.

Lemma receives_queue es w w' g :
  receives es w w' → conn_wf w → at_room (rooms w) g → NoDup (map fst es) →
  (∀ s, s ∈ map fst es → IsDisconnected s (net w') = false) →
  conn_wf w' ∧ at_room (rooms w') (add_jobs (concat (map (asks w) es)) g).
Proof.
  intros Hr. revert g. induction Hr as [w|s data es w w1 w2 Hs Hx E Hr IH]; intros g Hc Hg Hnd Hon.
  { simpl. by rewrite add_jobs_nil. }
  cbn [map fst] in Hnd, Hon. apply NoDup_cons in Hnd as [Hns Hnd].
  destruct (HandleRecv_elsewhere s data w w1 g Hc Hs Hx Hg E) as [Hc1 Hel].
  destruct (HandleRecv_queue s data w w1 g Hc Hs Hx Hg E) as (g1 & Hg1 & Hq).
  assert (Hd : IsDisconnected s (net w1) = false).
  { apply not_true_iff_false. intros Hd. pose proof (receives_disc _ _ _ g1 s Hr Hc1 Hg1 Hd) as Hd2.
    rewrite (Hon s) in Hd2; [done|by left]. }
  rewrite (Hq Hd) in Hg1.
  destruct (IH _ Hc1 Hg1 Hnd) as [Hc2 Hg2]; [intros t Ht; apply Hon; by right|].
  split; [done|]. cbn [map concat]. rewrite <- add_jobs_app.
  assert (Heq : map (asks w1) es = map (asks w) es) by (apply map_ext_in; intros [t d] Hin;
    unfold asks, completed, unread; cbn [fst snd]; destruct (el_other _ _ _ Hel t) as (-> & -> & ->); [|done];
    intros ->; apply Hns; apply list_elem_of_In, in_map_iff; by exists (s, d)).
  by rewrite Heq in Hg2.
Qed.

(** *** The tick *)

Lemma tick_rooms_at wnd rs R n R' n' g :
  tick_rooms wnd rs R n = Some (R', n') → NoDup rs → deref r R = Some g → net_wf n →
  Find nm R' = Find nm R
  ∧ if decide (r ∈ rs) then
      ∃ n0, plays n n0 ∧ net_wf n0 ∧ plays (Tick r wnd g n0).2 n'
        ∧ deref r R' = Some (Tick r wnd g n0).1
    else deref r R' = Some g.
Proof.
  revert R n g. induction rs as [|r0 rs IH]; intros R n g; cbn [tick_rooms].
  { intros [= <- <-] _ Hg _. split; [done|]. by rewrite decide_False by (apply not_elem_of_nil). }
  destruct (deref r0 R) as [g0|] eqn:E0; [|done]. cbn [mbind option_bind].
  pose proof (Tick_plays r0 wnd g0 n) as [Hp0 Hw0].
  destruct (Tick r0 wnd g0 n) as [g0' n0] eqn:Et. cbn [snd] in *. intros E [Hr0 Hnd]%NoDup_cons Hg Hn.
  destruct (decide (r0 = r)) as [->|Hne].
  - rewrite Hg in E0. injection E0 as <-.
    destruct (IH (store r g0' R) n0 g0' E Hnd) as [Hf Hd]; [by rewrite deref_store, decide_True, Hg|auto|].
    rewrite Find_store in Hf. split; [done|]. rewrite decide_False in Hd by done.
    rewrite decide_True by (by left). exists n. rewrite Et. split_and!; [done..| |done].
    apply (tick_rooms_plays _ _ _ _ _ _ E).
  - destruct (IH (store r0 g0' R) n0 g E Hnd) as [Hf Hd]; [by rewrite deref_store, decide_False|auto|].
    rewrite Find_store in Hf. split; [done|].
    destruct (decide (r ∈ rs)); [rewrite decide_True by (by right)|by rewrite decide_False by set_solver].
    destruct Hd as (n1 & Hp & Hd). exists n1. split; [by etrans|done].
Qed.

Lemma GameTick_at w g :
  conn_wf w → at_room (rooms w) g →
  ∃ w' n0, GameTick w = Some w' ∧ conn_wf w'
    ∧ at_room (rooms w') (Tick r (reconnectWindowMs (cfg w)) g n0).1
    ∧ plays (net w) n0 ∧ net_wf n0
    ∧ plays (Tick r (reconnectWindowMs (cfg w)) g n0).2 (net w').
Proof.
  intros Hc [HR Hf Hg]. pose proof (cw_world _ Hc) as [_ Hl Hn Hm]. unfold GameTick, TickAll.
  destruct (tick_rooms_ok (reconnectWindowMs (cfg w)) (map (λ e, e.2.1) (m_rooms (rooms w)))
    (rooms w) (net w)) as (R' & n' & E & H1 & H2 & H3 & H4 & _); [done..|intros a; apply deref_member|].
  destruct (tick_rooms_at _ _ _ _ _ _ g E) as [Hf' Hd]; [|done|done|].
  { pose proof (rm_addrs _ HR) as Hnd. unfold um_keys in Hnd. by rewrite map_map in Hnd. }
  assert (Hin : r ∈ map (λ e, e.2.1) (m_rooms (rooms w))).
  { unfold deref in Hg. apply dec_stable. intros Hn'. assert (Hx : um_find r (map snd (m_rooms (rooms w))) = None).
    { apply um_find_None. unfold um_keys. by rewrite map_map. }
    congruence. }
  rewrite decide_True in Hd by done. destruct Hd as (n0 & Hp & Hn0 & Hp' & Hd).
  exists (with_rooms R' (with_net n' w)), n0. rewrite E. split_and!; [done| | |done..].
  - eapply conn_quiet; [exact Hc|by apply plays_quiet|done].
  - split; [done|by etrans; [exact Hf'|]|done].
Qed.

(** The tick of the server as a tick of the abstract room. *)
Lemma GameTick_spec w g :
  conn_wf w → at_room (rooms w) g →
  ∃ w' g' (t' : Z), GameTick w = Some w' ∧ conn_wf w' ∧ at_room (rooms w') g' ∧ m_jobQueue g' = []
    ∧ t' ≤ steady_ms (n_steady (net w'))
    ∧ (plays (net w) (net w') ∧ smgr w' = smgr w ∧ auth w' = auth w ∧ cfg w' = cfg w)
    ∧ spec_tick (λ s, GetAccountId s (net w)) (m_maxPlayers g) (reconnectWindowMs (cfg w))
        (m_jobQueue g) (steady_ms (n_steady (net w))) (abs g) (abs g') t'.
Proof.
  intros Hc Hg. destruct (GameTick_at w g Hc Hg) as (w' & n0 & E & Hc' & Hg' & Hp & _ & Hp').
  assert (Hwf : room_wf g) by apply (rm_room _ (ar_wf _ _ Hg) r), Hg.
  pose proof (Tick_simulates r (reconnectWindowMs (cfg w)) g n0 Hwf) as Hs.
  pose proof (Tick_plays r (reconnectWindowMs (cfg w)) g n0) as [Ht _].
  exists w'. do 2 eexists.
  split_and!; [exact E|done|exact Hg'|apply Tick_queue|apply steady_mono, (plays_clock _ _ Hp')| | | | |].
  { etrans; [exact Hp|]. by etrans. }
  1-3: unfold GameTick in E; destruct (TickAll _ _ _) as [[R n]|]; [|done]; by injection E as <-.
  apply (tick_earlier _ _ _ _ _ (steady_ms (n_steady n0))); [apply steady_mono, (proj1 (plays_clock _ _ Hp))|].
  eapply spec_tick_ext; [|exact Hs]. intros s. by apply (plays_field m_accountId _ _ s).
Qed.

(** The packet of a player who is ready. *)
Definition ready_packet : list byte :=
  header_bytes {| packetSize := 0; packetId := PacketID_val C_READY |}.

Lemma ready_requests s a : a ≠ "" → requests s a (Some r) ready_packet = [JReady a].
Proof.
  intros Ha. unfold requests, ready_packet. rewrite decide_False by (vm_compute; congruence).
  cbv zeta. replace (packetId (header_at 0 _)) with (PacketID_val C_READY) by (vm_compute; reflexivity).
  repeat (rewrite decide_False by done). rewrite decide_True by done. unfold when.
  by rewrite decide_True.
Qed.

(** C5. Players who are ready get their game.  Some members of a waiting room
    whose queue is empty are logged in under different accounts, none of which
    is ready; each sends a ready packet, which arrives in whatever pieces, and
    none is disconnected.  If with them every seat is ready, and there are two
    members, then the next tick of the server succeeds and the room plays, with
    the same members. *)
Theorem readies_start_game es w w1 g :
  conn_wf w → at_room (rooms w) g → m_state g = WAITING → m_jobQueue g = [] →
  receives es w w1 →
  es ≠ [] → NoDup (map fst es) → NoDup (map (λ e, GetAccountId e.1 (net w)) es) →
  (∀ e, e ∈ es →
     completed w e = [ready_packet] ∧ GetRoom e.1 (net w) = Some r
     ∧ GetAccountId e.1 (net w) ≠ "" ∧ GetAccountId e.1 (net w) ∉ m_readyPlayers g
     ∧ IsDisconnected e.1 (net w1) = false) →
  (2 ≤ length (m_members g) ≤ length (m_readyPlayers g) + length es)%nat →
  ∃ w2 g', GameTick w1 = Some w2 ∧ at_room (rooms w2) g' ∧ m_state g' = IN_GAME
    ∧ ∀ s, s ∈ m_members g' ↔ s ∈ m_members g.
Proof.
  intros Hc Hg Hst Hq Hr Hne Hnd Hacc Hes Hsz.
  destruct (receives_queue es w w1 g Hr Hc Hg Hnd) as [Hc1 Hg1].
  { intros s (e & -> & He)%list_elem_of_fmap. by apply Hes. }
  destruct (GameTick_at w1 _ Hc1 Hg1) as (w2 & n0 & E & _ & Hg2 & _).
  exists w2. eexists. split; [exact E|]. split; [exact Hg2|].
  set (accs := map (λ e, GetAccountId e.1 (net w)) es).
  assert (Hasks : concat (map (asks w) es) = map JReady accs).
  { subst accs. clear -Hes. induction es as [|e es IH]; [done|]. cbn [map concat].
    destruct (Hes e) as (Hp & Hroom & Ha & _); [by left|]. unfold asks at 1.
    rewrite Hp, Hroom. cbn [map concat]. rewrite ready_requests by done. simpl. f_equal.
    apply IH. intros e' He'. apply Hes. by right. }
  assert (Hwf : room_wf g) by (apply (rm_room _ (ar_wf _ _ Hg) r), Hg).
  destruct (lobby_starts r (reconnectWindowMs (cfg w1)) (add_jobs (concat (map (asks w) es)) g) n0 [] accs)
    as [Hs Hm]; try done.
  - by destruct Hwf.
  - simpl. by rewrite Hq, Hasks.
  - subst accs. by destruct es.
  - intros a (e & -> & He)%list_elem_of_fmap. by apply Hes.
  - by left.
  - simpl. rewrite size_list_to_set by apply Hwf. subst accs. by rewrite length_map.
  - split; [done|]. intros s. rewrite Hm. simpl. set_solver.
Qed.
End requests.
