(* ===== verification/Clients.v ===== *)
(** * What a client asks for

    The server as its clients see it: a client makes requests, which are values
    of the types of the protocol, and the server performs them.  Framing,
    serialization, receiving in pieces, parsing and the dispatch by id
    ([Packet/RecvBuffer.cpp], [Packet/Logic/Packet.pb.cc],
    [Packet/PacketManager.cpp]) cancel out. *)
From S2P Require Import Prelude Bytes Platform ObjectPool Packet RecvBuffer Protobuf PbRuntimeDemo PacketPb Session PacketTraits Config JobQueue GameRoom PacketManager SessionManager RoomManager Logic ServerCore ServerConn TestClient RoomSpec Requests.
Local Open Scope Z_scope.

Section clients.
Context `{Platform, PbRuntime}.
Implicit Types (w : World) (s : nat).

(** ** Requests *)

(** The packets with a [C_] prefix of [Packet/PacketID.h]; those without a message
    have no payload, a ping has its time stamp. *)
Inductive Request :=
  | Login (m : Pb_C_LOGIN)
  | Chat (m : Pb_C_CHAT)
  | EnterRoom (m : Pb_C_ROOM_ENTER)
  | LeaveRoom
  | MoveTo (m : Pb_C_MOVE)
  | Ping (clientTs : list byte)
  | ListRooms
  | Ready.

Definition raw_packet (id : PacketID) (payload : list byte) : list byte :=
  header_bytes {| packetSize := u16 (Z.of_nat (length payload)); packetId := PacketID_val id |}
  ++ payload.

Definition encode (q : Request) : list byte :=
  match q with
  | Login m => SendPacket C_LOGIN m
  | Chat m => SendPacket C_CHAT m
  | EnterRoom m => SendPacket C_ROOM_ENTER m
  | LeaveRoom => raw_packet C_ROOM_LEAVE []
  | MoveTo m => SendPacket C_MOVE m
  | Ping clientTs => raw_packet C_PING clientTs
  | ListRooms => raw_packet C_ROOM_LIST []
  | Ready => raw_packet C_READY []
  end.

Definition fits {M} `{Message M} (ok : M → Prop) (m : M) : Prop :=
  ok m ∧ Z.of_nat (length (Serialize m)) < 65536.

(** The strings are UTF-8, and the payload has at most 65535 bytes. *)
Definition request_ok (q : Request) : Prop :=
  match q with
  | Login m => fits C_LOGIN_ok m
  | Chat m => fits C_CHAT_ok m
  | EnterRoom m => fits C_ROOM_ENTER_ok m
  | MoveTo m => fits C_MOVE_ok m
  | Ping clientTs => Z.of_nat (length clientTs) < 65536
  | LeaveRoom | ListRooms | Ready => True
  end.

(** ** What the server does about them *)

(** A job for the room of the session, if it is in one. *)
Definition in_room s (job : RoomJob) w : option World :=
  match GetRoom s (net w) with
  | Some r => push_job r job w
  | None => Some w
  end.

Definition perform s (q : Request) w : option World :=
  let account := GetAccountId s (net w) in
  match q with
  | Login m =>
      if decide (C_LOGIN_password m = "") then
        Some (reply s (login_result false
          "session_token이 비어 있습니다. 먼저 session-server에 로그인하세요.") w)
      else Some (with_auth (auth w ++ [(C_LOGIN_password m, s)]) w)
  | Chat m => in_room s (JChat account (C_CHAT_message m)) w
  | EnterRoom m =>
      if decide (account = "") then Some (reply s (enter_ack false "로그인 후 입장해주세요.") w)
      else
        w ← in_room s (JLeave s) w;
        let '(r, R) := GetOrCreate (maxRoomPlayers (cfg w)) (C_ROOM_ENTER_room_name m) (rooms w) in
        push_job r (JEnter s) (with_rooms R w)
  | LeaveRoom =>
      match GetRoom s (net w) with
      | Some r => push_job r (JLeaveAck s) w
      | None => Some (reply s (S_ROOM_LEAVE_set_success false S_ROOM_LEAVE_SharedCtor) w)
      end
  | MoveTo m => in_room s (JMove account (C_MOVE_x m) (C_MOVE_y m)) w
  | Ping clientTs =>
      if decide (length clientTs < 8)%nat then Some w
      else
        let '(now, n) := UnixTimeMsNow (net w) in
        Some (with_net (SendRaw s (PacketID_val S_PONG)
                          (Some (take 8 clientTs ++ le_bytes 8 (u64 now))) 16 n).2 w)
  | ListRooms =>
      let data := room_list_data (GetRoomInfoList (rooms w)) in
      Some (with_net (SendRaw s (PacketID_val S_ROOM_LIST) (Some data)
                        (Z.of_nat (length data)) (net w)).2 w)
  | Ready => if decide (account = "") then Some w else in_room s (JReady account) w
  end.

(** The requests one after the other, each checked for its size and against the
    rate limit of the session; then the server waits for more. *)
Fixpoint perform_all (maxPacketSize : Z) s (qs : list Request) w : option World :=
  match qs with
  | [] => PostRecv s w
  | q :: qs =>
      if decide (Z.of_nat (length (encode q)) > maxPacketSize) then
        HandleDisconnect s (on_stats inc_oversizedRejections w)
      else
        let '(allowed, n) := CheckRateLimit s (net w) in
        if allowed then
          w ← perform s q (on_stats inc_packetsReceived (with_net n w));
          perform_all maxPacketSize s qs (pop_packet s (Z.of_nat (length (encode q))) w)
        else HandleDisconnect s (on_stats inc_rateLimitRejections (with_net n w))
  end.

(** ** One request *)

Lemma raw_packet_frame id payload :
  Z.of_nat (length payload) < 65536 → frames (raw_packet id payload) = ([raw_packet id payload], []).
Proof. intros Hl. pose proof (PacketID_val_range id). apply header_frame; lia. Qed.

Lemma raw_packet_dispatch id payload s w :
  Z.of_nat (length payload) < 65536 →
  HandlePacket handlers s (raw_packet id payload) w
  = match handlers !! PacketID_val id with Some handler => handler s payload w | None => Some w end.
Proof.
  intros Hl. pose proof (PacketID_val_range id). unfold raw_packet. rewrite u16_id by lia.
  by apply HandlePacket_frame.
Qed.

Lemma SendPacket_raw {M} `{Message M} id (m : M) : SendPacket id m = raw_packet id (Serialize m).
Proof. done. Qed.

Lemma encode_frame q : request_ok q → frames (encode q) = ([encode q], []).
Proof. destruct q; intros Hq; first [apply raw_packet_frame, Hq | by apply raw_packet_frame]. Qed.

Context `{!PbRuntimeLaws}.

Lemma mem_read_front k d : mem_read 0 k d = take (Z.to_nat k) d.
Proof. unfold mem_read. by rewrite drop_0. Qed.

Lemma HandlePacket_perform q s w :
  request_ok q → HandlePacket handlers s (encode q) w = perform s q w.
Proof.
  destruct q as [m|m|m| |m|ts| |]; intros Hq; cbn [encode perform].
  all: rewrite ?SendPacket_raw, raw_packet_dispatch by (first [apply Hq | done]).
  - change (handlers !! _) with (Some Handle_C_LOGIN). unfold Handle_C_LOGIN.
    by rewrite Parse_Serialize by apply Hq.
  - change (handlers !! _) with (Some Handle_C_CHAT). unfold Handle_C_CHAT, in_room.
    by rewrite Parse_Serialize by apply Hq.
  - change (handlers !! _) with (Some Handle_C_ROOM_ENTER). unfold Handle_C_ROOM_ENTER, in_room.
    by rewrite Parse_Serialize by apply Hq.
  - change (handlers !! _) with (Some Handle_C_ROOM_LEAVE). unfold Handle_C_ROOM_LEAVE.
    by destruct (GetRoom s (net w)).
  - change (handlers !! _) with (Some Handle_C_MOVE). unfold Handle_C_MOVE, in_room.
    by rewrite Parse_Serialize by apply Hq.
  - change (handlers !! _) with (Some Handle_C_PING). unfold Handle_C_PING, pong_data.
    rewrite mem_read_front. by repeat case_decide; try lia.
  - by change (handlers !! _) with (Some Handle_C_ROOM_LIST).
  - by change (handlers !! _) with (Some Handle_C_READY).
Qed.

(** ** A stream of requests *)

Lemma stream_frames qs part :
  Forall request_ok qs → frames part = ([], part) →
  frames (concat (map encode qs) ++ part) = (map encode qs, part).
Proof.
  intros Hqs Hp. induction Hqs as [|q qs Hq _ IH]; [done|].
  cbn [map concat]. rewrite <- app_assoc, frames_app, encode_frame by done. simpl. by rewrite IH.
Qed.

Lemma serve_perform max s qs w :
  Forall request_ok qs → serve max s (map encode qs) w = perform_all max s qs w.
Proof.
  intros Hqs. revert w. induction Hqs as [|q qs Hq _ IH]; intros w; [done|].
  cbn [map serve perform_all]. case_decide; [done|].
  destruct (CheckRateLimit s (net w)) as [[] n]; cbn [negb]; [|done].
  rewrite HandlePacket_perform by done.
  destruct (perform s q _) as [w1|]; [|done]. apply IH.
Qed.

(** C8. The server performs what its clients ask for.  When the bytes a session
    has received and not yet served spell out, with the ones that arrive, any
    number of requests and an incomplete rest - wherever the stream is cut -,
    then the receive handler performs exactly these requests, in order, each on
    the message the client made, until one of them is too long or over the rate
    limit, which ends the connection.  It never fails. *)
Theorem HandleRecv_performs s data w qs part :
  conn_wf w → s ∈ rx_pending (net w) →
  (∃ c, m_recvContext (sess s (net w)) = Some c ∧ Z.of_nat (length data) ≤ wsaBuf_len c) →
  Forall request_ok qs → frames part = ([], part) →
  unread s w ++ data = concat (map encode qs) ++ part →
  let k := Z.of_nat (length data) in
  let w1 := kernel_receive s data w in
  HandleRecv s k w1 = perform_all (maxPacketSize (cfg w)) s qs (received s k w1)
  ∧ ∃ w', HandleRecv s k w1 = Some w' ∧ conn_wf w'.
Proof.
  intros Hc Hs Hx Hqs Hp Es k w1.
  destruct (HandleRecv_ok s data w Hc Hs Hx) as (E & w' & E' & Hc' & _).
  split; [|by exists w']. fold k w1 in E. rewrite E, Es, stream_frames by done. by apply serve_perform.
Qed.
End clients.

(** ** The room as its clients see it *)

Section following.
Context `{Platform, PbRuntimeLaws}.
Implicit Types (w : World) (s r : nat) (g : GameRoom).

(** What a request of session [s], with account [a] and in room [own], asks of the
    room at [r] with the name [nm]. *)
Definition wants r (nm : string) s (a : string) (own : option nat) (q : Request) : list RoomJob :=
  match q with
  | Chat m => when (own = Some r) [JChat a (C_CHAT_message m)]
  | MoveTo m => when (own = Some r) [JMove a (C_MOVE_x m) (C_MOVE_y m)]
  | Ready => when (a ≠ "" ∧ own = Some r) [JReady a]
  | LeaveRoom => when (own = Some r) [JLeaveAck s]
  | EnterRoom m =>
      if decide (a = "") then []
      else when (own = Some r) [JLeave s] ++ when (C_ROOM_ENTER_room_name m = nm) [JEnter s]
  | Login _ | Ping _ | ListRooms => []
  end.

Lemma requests_raw r nm s a own id payload :
  Z.of_nat (length payload) < 65536 →
  requests r nm s a own (raw_packet id payload)
  = (if decide (PacketID_val id = PacketID_val C_CHAT) then
       match ParseFromArray payload : option Pb_C_CHAT with
       | Some pkt => when (own = Some r) [JChat a (C_CHAT_message pkt)]
       | None => []
       end
     else if decide (PacketID_val id = PacketID_val C_MOVE) then
       match ParseFromArray payload : option Pb_C_MOVE with
       | Some pkt => when (own = Some r) [JMove a (C_MOVE_x pkt) (C_MOVE_y pkt)]
       | None => []
       end
     else if decide (PacketID_val id = PacketID_val C_READY) then
       when (a ≠ "" ∧ own = Some r) [JReady a]
     else if decide (PacketID_val id = PacketID_val C_ROOM_LEAVE) then
       when (own = Some r) [JLeaveAck s]
     else if decide (PacketID_val id = PacketID_val C_ROOM_ENTER) then
       match ParseFromArray payload : option Pb_C_ROOM_ENTER with
       | Some pkt =>
           if decide (a = "") then []
           else when (own = Some r) [JLeave s] ++ when (C_ROOM_ENTER_room_name pkt = nm) [JEnter s]
       | None => []
       end
     else []).
Proof.
  intros Hl. unfold requests, raw_packet. rewrite length_app, length_header_bytes.
  unfold sizeof_PacketHeader. rewrite decide_False by lia.
  rewrite header_at_bytes; [|cbn [packetSize]; rewrite u16_id by lia; lia|apply PacketID_val_range].
  by rewrite drop_app_exact by done.
Qed.

Lemma requests_encode r nm s a own q :
  request_ok q → requests r nm s a own (encode q) = wants r nm s a own q.
Proof.
  destruct q as [m|m|m| |m|ts| |]; intros Hq; cbn [encode wants]; rewrite ?SendPacket_raw;
    rewrite requests_raw by (first [apply Hq | done]);
    repeat first [ rewrite decide_False by done | rewrite decide_True by done ];
    by rewrite ?Parse_Serialize by apply Hq.
Qed.

(** What the requests ask that the receives [es] complete, [qs] of each. *)
Definition wanted r nm w (es : list (nat * list byte)) (qs : nat * list byte → list Request)
    : list RoomJob :=
  concat (map (λ e, concat (map (wants r nm e.1 (GetAccountId e.1 (net w)) (GetRoom e.1 (net w)))
                              (qs e))) es).

Lemma asks_wanted r nm w es qs :
  (∀ e, e ∈ es → completed w e = map encode (qs e) ∧ Forall request_ok (qs e)) →
  concat (map (asks r nm w) es) = wanted r nm w es qs.
Proof.
  unfold wanted. induction es as [|e es IH]; intros Hes; [done|]. cbn [map concat].
  rewrite IH by (intros e' He'; apply Hes; by right). f_equal.
  destruct (Hes e) as [E Hok]; [by left|]. unfold asks. rewrite E, map_map. f_equal.
  apply map_ext_in. intros q Hq%list_elem_of_In.
  apply requests_encode. by eapply Forall_forall.
Qed.

(** C7. A room does what its clients ask for.  Any number of sessions make
    requests, whose packets arrive in whatever pieces and become complete in one
    receive each, and stay connected.  The next tick of the server succeeds, and
    takes the room, as an abstract room and within the time of the tick, through
    the jobs it had and then those the requests ask of it, in order: nothing is
    lost, added or mixed up between the bytes on the wire and the state of the
    room. *)
Theorem rooms_follow_clients r nm es qs w w1 g :
  conn_wf w → at_room r nm (rooms w) g → receives es w w1 → NoDup (map fst es) →
  (∀ t, t ∈ map fst es → IsDisconnected t (net w1) = false) →
  (∀ e, e ∈ es → completed w e = map encode (qs e) ∧ Forall request_ok (qs e)) →
  ∃ w2 g' t', GameTick w1 = Some w2 ∧ conn_wf w2 ∧ at_room r nm (rooms w2) g'
    ∧ m_jobQueue g' = [] ∧ t' ≤ steady_ms (n_steady (net w2))
    ∧ spec_tick (λ s, GetAccountId s (net w1)) (m_maxPlayers g) (reconnectWindowMs (cfg w1))
        (m_jobQueue g ++ wanted r nm w es qs) (steady_ms (n_steady (net w1))) (abs g) (abs g') t'.
Proof.
  intros Hc Hg Hr Hnd Hon Hes.
  destruct (receives_queue r nm es w w1 g Hr Hc Hg Hnd Hon) as [Hc1 Hg1].
  rewrite (asks_wanted r nm w es qs Hes) in Hg1.
  destruct (GameTick_spec r nm w1 _ Hc1 Hg1) as (w2 & g' & t' & E & Hc2 & Hg2 & Hq & Ht & _ & Hs).
  by exists w2, g', t'.
Qed.
End following.

(** ** Chats *)

Section chats.
Context `{Platform, PbRuntime}.
Implicit Types (w : World) (s t r : nat) (g : GameRoom) (n : Net) (frame : list byte).

(** Session [t] is sent [frame], or it is disconnected. *)
Definition heard frame t n n' : Prop :=
  IsDisconnected t n' = true
  ∨ (m_sock (sess t n), frame) ∈ drop (length (wire n)) (wire n').

Lemma heard_around frame t n n1 n2 n' :
  plays n n1 → plays n1 n2 → plays n2 n' → heard frame t n1 n2 → heard frame t n n'.
Proof.
  intros H1 H12 H2 Hh. destruct (IsDisconnected t n1) eqn:Hd1.
  { left. by apply (plays_disc _ _ H2), (plays_disc _ _ H12). }
  destruct Hh as [Hd|Hin]; [left; by apply (plays_disc _ _ H2)|right].
  rewrite <- (plays_sock _ _ H1) by done.
  destruct (plays_wire _ _ H1) as [k1 E1], (plays_wire _ _ H2) as [k2 ->].
  assert (Hle : (length (wire n) ≤ length (wire n1))%nat) by (rewrite E1, length_app; lia).
  destruct (plays_wire _ _ H12) as [k E]. rewrite E, drop_app_length in Hin.
  rewrite E, <- app_assoc, E1, <- app_assoc, drop_app_length. set_solver.
Qed.

Lemma delivered_heard frame ss t n n' :
  delivered frame ss n n' → t ∈ ss → heard frame t n n'.
Proof.
  intros (reached & _ & Hw & _ & Hd) Ht. destruct (decide (t ∈ reached)) as [Hin|Hn]; [right|left; auto].
  rewrite Hw, drop_app_length. apply list_elem_of_fmap. by exists t.
Qed.

(** *** In a room *)

(** Only leaving makes a member leave. *)
Definition stays_in t (j : RoomJob) : Prop := j ≠ JLeave t ∧ j ≠ JLeaveAck t.

Lemma run_job_stays this t j g n :
  room_wf g → stays_in t j → t ∈ m_members g → t ∈ m_members (run_job this j (g, n)).1.
Proof.
  intros Hg [H1 H2] Ht. pose proof (run_job_abs this j g n Hg) as E. apply (f_equal members) in E.
  assert (Hm : t ∈ members (abs (run_job this j (g, n)).1)).
  { rewrite E. assert (Ht' : t ∈ members (abs g)) by (by apply elem_of_list_to_set).
    revert Ht'. generalize (abs g). intros ro Ht'. destruct j; simpl; try done.
    - set_solver.
    - unfold spec_leave. case_decide; [|done]. destruct (phase ro); simpl; set_solver.
    - unfold spec_enter. destruct (phase ro); try case_decide; simpl; set_solver.
    - unfold spec_leave. case_decide; [|done]. destruct (phase ro); simpl; set_solver.
    - unfold spec_move. by destruct (phase ro).
    - unfold spec_ready. by destruct (phase ro). }
  by apply elem_of_list_to_set in Hm.
Qed.

Lemma run_jobs_plays this js g n :
  room_wf g → net_wf n →
  let gn := run_jobs (run_job this) js (g, n) in
  room_wf gn.1 ∧ net_wf gn.2 ∧ plays n gn.2
  ∧ ∀ t, (∀ j, j ∈ js → stays_in t j) → t ∈ m_members g → t ∈ m_members gn.1.
Proof.
  revert g n. induction js as [|j js IH]; intros g n Hg Hn; [done|]. cbn [run_jobs].
  pose proof (run_job_wf this j (g, n) Hg) as Hw.
  assert (He : effect this (λ _, True) (g, n) (run_job this j (g, n))) by (by apply run_job_effect).
  assert (Hs : ∀ t, stays_in t j → t ∈ m_members g → t ∈ m_members (run_job this j (g, n)).1)
    by (intros t; by apply run_job_stays).
  destruct (run_job this j (g, n)) as [g1 n1]. simpl in *.
  destruct (IH g1 n1 Hw) as (H1 & H2 & H3 & H4); [by apply (ef_wf _ _ _ _ He)|].
  split_and!; [done|done|by etrans; [apply (ef_plays _ _ _ _ He)|]|].
  intros t Ht Hin. apply H4; [intros k Hk; apply Ht; by right|]. apply Hs; [apply Ht; by left|done].
Qed.

Context `{!PbRuntimeLaws}.

Definition said (sender message : string) : Pb_S_CHAT :=
  {| S_CHAT_sender := sender; S_CHAT_message := message; S_CHAT_unknown := uf_empty |}.

Lemma Broadcast_delivered `{MessageLaws M ok, !PacketTraits M} (m : M) g n :
  room_wf g → net_wf n → ok m → sizeof_PacketHeader + ByteSizeLong m ≤ MAX_BUF_SIZE →
  delivered (SendPacket (ID (M := M)) m) (m_members g) n (Broadcast m g n).
Proof.
  intros Hg Hn Hm Hs. unfold Broadcast. apply foldl_delivered.
  - intros n0 t. apply Send_sends.
  - intros n0 t. apply SendInternal_wf.
  - intros n0 t Hd. unfold Send, SendInternal. by rewrite Hd.
  - intros n0 t Hn0 Hd. by apply Send_transmitted.
  - apply Hg.
  - done.
Qed.

(** The tick that runs a chat job. *)
Lemma Tick_chat this wnd a msg g n t :
  room_wf g → net_wf n → JChat a msg ∈ m_jobQueue g →
  S_CHAT_ok (said a msg) → sizeof_PacketHeader + ByteSizeLong (said a msg) ≤ MAX_BUF_SIZE →
  (∀ j, j ∈ m_jobQueue g → stays_in t j) → t ∈ m_members g →
  heard (SendPacket S_CHAT (said a msg)) t n (Tick this wnd g n).2.
Proof.
  intros Hg Hn (js & ks & Eq)%list_elem_of_split Hok Hsz Hst Ht.
  rewrite Tick_split. unfold FlushJobs, Flush. cbn [fst snd]. rewrite Eq, run_jobs_app.
  assert (Hg0 : room_wf (set_jobs [] g)) by (by destruct Hg).
  destruct (run_jobs_plays this js (set_jobs [] g) n Hg0 Hn) as (Hg1 & Hn1 & Hp1 & Hm1).
  specialize (Hm1 t). destruct (run_jobs (run_job this) js _) as [g1 n1]. cbn [fst snd] in *.
  cbn [run_jobs run_job]. set (n2 := Broadcast _ g1 n1).
  assert (Hd : delivered (SendPacket S_CHAT (said a msg)) (m_members g1) n1 n2)
    by (by apply (Broadcast_delivered (said a msg) g1 n1)).
  destruct (run_jobs_plays this ks g1 n2 Hg1) as (_ & _ & Hp2 & _); [by apply Broadcast_wf|].
  destruct (run_jobs (run_job this) ks (g1, n2)) as [g3 n3]. cbn [fst snd] in *.
  apply (heard_around _ t n n1 n2); [done|apply sends_plays, Broadcast_sends| |].
  - etrans; [exact Hp2|]. apply (ef_plays _ _ _ _ (finish_tick_effect (λ _, True) this wnd g3 n3)).
  - apply (delivered_heard _ _ _ _ _ Hd), Hm1; [|done].
    intros j Hj. apply Hst. rewrite Eq. set_solver.
Qed.
(** C9. What is said in a room is heard there.  Sessions send whatever they like
    in whatever pieces, and stay connected; one of the packets that are complete
    by then is the chat message of a session that is in the room.  With the next
    tick of the server every member of the room of whom no leave is queued is
    sent the message under the account of the speaker, unless its connection is
    over; and the test client shows what was said. *)
Theorem chats_are_heard r nm es w w1 g s data m :
  conn_wf w → at_room r nm (rooms w) g → receives es w w1 → NoDup (map fst es) →
  (∀ t, t ∈ map fst es → IsDisconnected t (net w1) = false) →
  (s, data) ∈ es → encode (Chat m) ∈ completed w (s, data) → request_ok (Chat m) →
  GetRoom s (net w) = Some r →
  let words := said (GetAccountId s (net w)) (C_CHAT_message m) in
  let frame := SendPacket S_CHAT words in
  S_CHAT_ok words → sizeof_PacketHeader + ByteSizeLong words ≤ MAX_BUF_SIZE →
  (∃ w2, GameTick w1 = Some w2
    ∧ ∀ t, t ∈ m_members g →
        (∀ j, j ∈ m_jobQueue g ++ concat (map (asks r nm w) es) → stays_in t j) →
        heard frame t (net w1) (net w2))
  ∧ RecvLoop [frame] = [ShowChat (Some words)].
Proof.
  intros Hc Hg Hr Hnd Hon Hin Hcomp Hm Hroom words frame Hok Hsz. split.
  - destruct (receives_queue r nm es w w1 g Hr Hc Hg Hnd Hon) as [Hc1 Hg1].
    set (js := concat (map (asks r nm w) es)) in *.
    assert (Hj : JChat (GetAccountId s (net w)) (C_CHAT_message m) ∈ js).
    { unfold js. apply list_elem_of_In, in_concat. exists (asks r nm w (s, data)).
      rewrite <- !list_elem_of_In. split; [apply list_elem_of_fmap; by exists (s, data)|].
      unfold asks. apply list_elem_of_In, in_concat.
      exists (requests r nm s (GetAccountId s (net w)) (GetRoom s (net w)) (encode (Chat m))).
      rewrite <- !list_elem_of_In. split; [apply list_elem_of_fmap; by eexists|].
      rewrite requests_encode by done. simpl. unfold when. rewrite decide_True by done.
      by apply list_elem_of_singleton. }
    destruct (GameTick_at r nm w1 _ Hc1 Hg1) as (w2 & n0 & E & _ & _ & Hp & Hn0 & Hp').
    exists w2. split; [done|]. intros t Ht Hst.
    apply (heard_around _ t _ n0 (Tick r (reconnectWindowMs (cfg w1)) (add_jobs js g) n0).2);
      [done|apply Tick_plays|done|].
    apply Tick_chat; try done.
    + apply (rm_room _ (ar_wf _ _ _ _ Hg1) r), Hg1.
    + simpl. apply elem_of_app. by right.
  - unfold RecvLoop. cbn [map concat]. unfold frame. rewrite SendPacket_packets by done.
    cbn [map app]. unfold show. repeat (rewrite decide_False by done).
    rewrite decide_True by done. by rewrite Parse_Serialize.
Qed.
End chats.
