(* ===== verification/Presence.v ===== *)
(** * Who is there

    How the server learns that somebody has gone, and lets them back in: the
    heartbeat of [Core/ServerCore.cpp] ends the connections that are silent, a
    login is answered by the callback of [Packet/Logic/Logic.cpp], and a player
    who lost the connection during a game finds the way back into the room. *)
From S2P Require Import Prelude Bytes Platform ObjectPool Packet RecvBuffer Protobuf PbRuntimeDemo PacketPb Session PacketTraits Config AuthService JobQueue GameRoom PacketManager SessionManager RoomManager Logic ServerCore ServerConn ServerSafety Accounts Sockets TestClient RoomSpec Requests.
Local Open Scope Z_scope.

(** ** The heartbeat *)

Section heartbeat.
Context `{Platform, PbRuntime}.
Implicit Types (w : World) (s t r : nat) (g : GameRoom) (R : RoomManager).

(** The uptime of the machine that the next reading of the clock yields. *)
Definition time w : Z := steady_ms (n_steady (net w)).

(** For how long nothing has been received from [t] at time [now]. *)
Definition silence t w (now : Z) : Z := now - m_lastActivityMs (sess t (net w)).

(** Rooms only get the leaves of sessions in [P]. *)
Definition only_leaves (P : nat → nat → Prop) R R' : Prop :=
  ∀ r g, deref r R = Some g →
    ∃ ss, deref r R' = Some (add_jobs (map JLeave ss) g) ∧ ∀ s, s ∈ ss → P s r.

Lemma only_leaves_refl P R : only_leaves P R R.
Proof. intros r g Hg. exists []. simpl. rewrite add_jobs_nil. split; [done|]. by intros s ?%elem_of_nil. Qed.

Lemma only_leaves_trans P R1 R2 R3 : only_leaves P R1 R2 → only_leaves P R2 R3 → only_leaves P R1 R3.
Proof.
  intros H1 H2 r g Hg. destruct (H1 r g Hg) as (ss & Hg2 & Hs). destruct (H2 r _ Hg2) as (ts & Hg3 & Ht).
  exists (ss ++ ts). rewrite map_app, <- add_jobs_app. split; [done|].
  intros s [Hin|Hin]%elem_of_app; auto.
Qed.

Lemma only_leaves_mono (P Q : nat → nat → Prop) R R' :
  (∀ s r, P s r → Q s r) → only_leaves P R R' → only_leaves Q R R'.
Proof. intros HPQ HR r g (ss & Hg & Hs)%HR. exists ss. eauto. Qed.

(** The end of one connection, as seen by everybody. *)
Record gone s w w' : Prop := {
  gn_conn : conn_wf w';
  gn_quiet : quiet w w';
  gn_time : time w' = time w;
  gn_last : ∀ t, m_lastActivityMs (sess t (net w')) = m_lastActivityMs (sess t (net w));
  gn_room : ∀ t r, GetRoom t (net w') = Some r → GetRoom t (net w) = Some r;
  gn_disc : IsDisconnected s (net w') = true;
  gn_other : ∀ t, t ≠ s → sess t (net w') = sess t (net w);
  gn_same : IsDisconnected s (net w) = true → w' = w;
  gn_find : IsDisconnected s (net w) = false → ∀ id,
    SessionManager.Find id (smgr w')
    = if decide (id = m_sessionId (sess s (net w))) then None else SessionManager.Find id (smgr w);
  gn_rooms : only_leaves (λ t r, t = s ∧ GetRoom s (net w) = Some r) (rooms w) (rooms w') }.

Lemma HandleDisconnect_again s w : IsDisconnected s (net w) = true → HandleDisconnect s w = Some w.
Proof. intros Hd. unfold HandleDisconnect. rewrite Disconnect_again by done. simpl. by destruct w. Qed.

Lemma HandleDisconnect_other s t w w' :
  HandleDisconnect s w = Some w' → t ≠ s → sess t (net w') = sess t (net w).
Proof.
  intros E Ht. revert E. unfold HandleDisconnect. pose proof (Disconnect_ne s t (net w) Ht) as Hn.
  destruct (Disconnect s (net w)) as [first n]. cbn [snd] in Hn. destruct first; cbn [negb].
  2:{ by intros [= <-]. }
  destruct (GetRoom _ _) as [r|]; [|by intros [= <-]].
  unfold push_job. destruct (room_PushJob _ _ _); [|done]. intros [= <-]. simpl.
  by rewrite sess_upd_ne.
Qed.

(** The end of a connection leaves alone what is not about it. *)
Lemma HandleDisconnect_field {A} (f : Session → A) s w w' t :
  (∀ x, f (core x) = f x) → (∀ x, f (SetRoom None x) = f x) →
  HandleDisconnect s w = Some w' → f (sess t (net w')) = f (sess t (net w)).
Proof.
  intros Hf Hr. unfold HandleDisconnect. pose proof (Disconnect_sends s (net w)) as Hs.
  assert (Hl : f (sess t (Disconnect s (net w)).2) = f (sess t (net w))) by (by apply (sends_field Hs)).
  destruct (Disconnect s (net w)) as [first n]. cbn [snd] in *.
  destruct first; cbn [negb]; [|by intros [= <-]].
  set (w1 := with_smgr _ _). destruct (GetRoom s (net w1)) as [r|]; [|by intros [= <-]].
  unfold push_job. destruct (room_PushJob _ _ _); [|done]. intros [= <-]. simpl.
  rewrite sess_upd_dec, <- Hl. by case_decide; rewrite ?Hr.
Qed.

Lemma HandleDisconnect_steady s w w' :
  HandleDisconnect s w = Some w' → n_steady (net w') = n_steady (net w).
Proof.
  unfold HandleDisconnect. pose proof (Disconnect_sends s (net w)) as Hs.
  destruct (Disconnect s (net w)) as [first n]. cbn [snd] in *. apply sends_clock in Hs as [Hs _].
  destruct first; cbn [negb]; [|by intros [= <-]].
  set (w1 := with_smgr _ _). destruct (GetRoom s (net w1)) as [r|]; [|by intros [= <-]].
  unfold push_job. destruct (room_PushJob _ _ _); [|done]. by intros [= <-].
Qed.

Lemma HandleDisconnect_time s w w' : HandleDisconnect s w = Some w' → time w' = time w.
Proof. intros E. unfold time. by rewrite (HandleDisconnect_steady s w w' E). Qed.

Lemma HandleDisconnect_gone s w : conn_wf w → ∃ w', HandleDisconnect s w = Some w' ∧ gone s w w'.
Proof.
  intros Hc. destruct (IsDisconnected s (net w)) eqn:Hd.
  { exists w. split; [by apply HandleDisconnect_again|]. split; try done; [congruence|apply only_leaves_refl]. }
  destruct (HandleDisconnect_first s w Hc Hd) as (w' & E & Hc' & Hd' & _ & Hf & _ & Hn & Hr).
  exists w'. split; [done|]. destruct (HandleDisconnect_quiet s w w' E) as [Hq _].
  pose proof (HandleDisconnect_time s w w' E) as Ht.
  pose proof (λ t, HandleDisconnect_field m_lastActivityMs s w w' t (λ _, eq_refl) (λ _, eq_refl) E) as Hl.
  pose proof (HandleDisconnect_other s) as Ho. split; try done; [|by intros; eapply Ho|congruence|].
  - intros t r Hr'. destruct (decide (t = s)) as [->|]; [congruence|].
    unfold GetRoom in *. by erewrite <- Ho.
  - destruct (GetRoom s (net w)) as [r|] eqn:Er; [|rewrite Hr; apply only_leaves_refl].
    destruct Hr as (g & Hg & ->). intros a ga Ha. rewrite deref_store. case_decide; [subst a|].
    + rewrite Ha in Hg. injection Hg as <-. rewrite Ha. exists [s]. split; [done|].
      by intros t ->%list_elem_of_singleton.
    + exists []. simpl. rewrite add_jobs_nil. split; [done|]. by intros t ?%elem_of_nil.
Qed.

(** *** The sweep *)

Record swept (timeoutMs : Z) (ss : list nat) w w' : Prop := {
  sw_conn : conn_wf w';
  sw_quiet : quiet w w';
  sw_time : time w ≤ time w';
  sw_last : ∀ t, m_lastActivityMs (sess t (net w')) = m_lastActivityMs (sess t (net w));
  sw_room : ∀ t r, GetRoom t (net w') = Some r → GetRoom t (net w) = Some r;
  sw_live : ∀ t, t ∉ ss ∨ silence t w (time w') ≤ timeoutMs → sess t (net w') = sess t (net w);
  sw_disc : ∀ t, IsDisconnected t (net w) = true → IsDisconnected t (net w') = true;
  sw_dead : ∀ t, t ∈ ss → silence t w (time w) > timeoutMs →
    IsDisconnected t (net w') = true
    ∧ (IsDisconnected t (net w) = false →
       ∀ id, SessionManager.Find id (smgr w) = Some t → SessionManager.Find id (smgr w') = None);
  sw_find : ∀ id t, SessionManager.Find id (smgr w) = Some t →
    t ∉ ss ∨ silence t w (time w') ≤ timeoutMs → SessionManager.Find id (smgr w') = Some t;
  sw_rooms : only_leaves (λ t r, GetRoom t (net w) = Some r ∧ silence t w (time w') > timeoutMs)
    (rooms w) (rooms w') }.

(** Nobody in [ss] has the number of somebody else who is registered. *)
Definition own_ids (ss : list nat) w : Prop :=
  ∀ s t, s ∈ ss → SessionManager.Find (m_sessionId (sess s (net w))) (smgr w) = Some t → s = t.

Lemma quiet_none id w w' :
  quiet w w' → SessionManager.Find id (smgr w) = None → SessionManager.Find id (smgr w') = None.
Proof.
  intros Hq Hn. destruct (SessionManager.Find id (smgr w')) as [t|] eqn:E; [|done].
  apply (q_find _ _ Hq) in E. congruence.
Qed.

Lemma own_ids_quiet ss w w' : quiet w w' → own_ids ss w → own_ids ss w'.
Proof. intros Hq Ho s t Hs. rewrite (q_id _ _ Hq). intros Hf%(q_find _ _ Hq). by apply Ho. Qed.

Lemma swept_trans timeoutMs ss ts w w1 w2 :
  swept timeoutMs ss w w1 → swept timeoutMs ts w1 w2 → swept timeoutMs (ss ++ ts) w w2.
Proof.
  intros H1 H2. assert (Hsil : ∀ t now, silence t w1 now = silence t w now).
  { intros t now. unfold silence. by rewrite (sw_last _ _ _ _ H1). }
  pose proof (sw_time _ _ _ _ H1) as T1. pose proof (sw_time _ _ _ _ H2) as T2.
  assert (Hmono : ∀ t a b, a ≤ b → silence t w a ≤ silence t w b) by (unfold silence; lia).
  assert (Hq : quiet w w2) by (etrans; [apply H1|apply H2]).
  split; [apply H2|done|lia|..].
  - intros t. by rewrite (sw_last _ _ _ _ H2), (sw_last _ _ _ _ H1).
  - intros t r Hr. by apply (sw_room _ _ _ _ H1), (sw_room _ _ _ _ H2).
  - intros t Ht. rewrite (sw_live _ _ _ _ H2), (sw_live _ _ _ _ H1); [done|..].
    + destruct Ht as [Ht|Ht]; [left; set_solver|right]. specialize (Hmono t _ _ T2). lia.
    + destruct Ht as [Ht|Ht]; [left; set_solver|right]. by rewrite Hsil.
  - intros t Hd. by apply (sw_disc _ _ _ _ H2), (sw_disc _ _ _ _ H1).
  - intros t Ht Hs. destruct (decide (t ∈ ss)) as [Hin|Hni].
    + destruct (sw_dead _ _ _ _ H1 t Hin Hs) as [Hd Hf].
      split; [by apply (sw_disc _ _ _ _ H2)|]. intros Hon id Hid.
      eapply quiet_none; [apply H2|]. by apply Hf.
    + assert (Ht' : t ∈ ts) by set_solver.
      destruct (sw_dead _ _ _ _ H2 t Ht') as [Hd Hf].
      { rewrite Hsil. specialize (Hmono t _ _ T1). lia. }
      split; [done|]. intros Hon id Hid.
      assert (Hsess : sess t (net w1) = sess t (net w)).
      { apply (sw_live _ _ _ _ H1). by left. }
      destruct (SessionManager.Find id (smgr w1)) as [t'|] eqn:E.
      * apply Hf; [by unfold IsDisconnected in *; rewrite Hsess|].
        pose proof (q_find _ _ (sw_quiet _ _ _ _ H1) _ _ E). congruence.
      * eapply quiet_none; [apply H2|done].
  - intros id t Hf Ht. apply (sw_find _ _ _ _ H2).
    + apply (sw_find _ _ _ _ H1); [done|].
      destruct Ht as [Ht|Ht]; [left; set_solver|right]. specialize (Hmono t _ _ T2). lia.
    + destruct Ht as [Ht|Ht]; [left; set_solver|right]. by rewrite Hsil.
  - eapply only_leaves_trans.
    + eapply only_leaves_mono; [|exact (sw_rooms _ _ _ _ H1)]. simpl.
      intros t r [Hr Hs]. split; [done|]. specialize (Hmono t _ _ T2). lia.
    + eapply only_leaves_mono; [|exact (sw_rooms _ _ _ _ H2)]. simpl. intros t r [Hr Hs]. rewrite Hsil in Hs. split; [by apply (sw_room _ _ _ _ H1)|done].
Qed.

(** A session that is not silent is left alone ... *)
Lemma clock_swept timeoutMs ss w :
  conn_wf w → (∀ s, s ∈ ss → silence s w (time w) ≤ timeoutMs) →
  swept timeoutMs ss w (with_net (NowMs (net w)).2 w).
Proof.
  intros Hc Hs. destruct (clock_ok w (NowMs (net w)).2 (cw_world _ Hc)) as [Hw Hq]; [done..|].
  split; try done.
  - by eapply conn_quiet.
  - apply steady_mono. simpl. lia.
  - intros t Ht Hbad. specialize (Hs t Ht). lia.
  - apply only_leaves_refl.
Qed.

(** ... and the connection of one that is ends. *)
Lemma gone_swept timeoutMs s w w' :
  gone s w w' → own_ids [s] w → conn_wf w → silence s w (time w) > timeoutMs → swept timeoutMs [s] w w'.
Proof.
  intros [] Ho Hc Hs. split; try done.
  - lia.
  - intros t [Ht|Ht]; apply gn_other0; [by rewrite list_elem_of_singleton in Ht|].
    intros ->. rewrite gn_time0 in Ht. lia.
  - intros t Hd. destruct (decide (t = s)) as [->|Hne]; [done|].
    unfold IsDisconnected. by rewrite gn_other0.
  - intros t ->%list_elem_of_singleton _. split; [done|]. intros Hd id Hid.
    rewrite gn_find0 by done. by rewrite decide_True by (symmetry; by apply (cw_ids _ Hc)).
  - intros id t Hf Ht. destruct (IsDisconnected s (net w)) eqn:Hd; [by rewrite gn_same0|].
    rewrite gn_find0 by done. rewrite decide_False; [done|]. intros ->.
    assert (s = t) as <- by (apply Ho; [by apply list_elem_of_singleton|done]).
    destruct Ht as [Ht|Ht]; [by rewrite list_elem_of_singleton in Ht|]. rewrite gn_time0 in Ht. lia.
  - eapply only_leaves_mono; [|exact gn_rooms0]. simpl. intros t r [-> Hr]. by rewrite gn_time0.
Qed.

Lemma heartbeat_sessions_sweep timeoutMs ss w :
  conn_wf w → own_ids ss w →
  ∃ w', heartbeat_sessions timeoutMs ss w = Some w' ∧ swept timeoutMs ss w w'.
Proof.
  revert w. induction ss as [|s ss IH]; intros w Hc Ho; cbn [heartbeat_sessions].
  { exists w. split; [done|]. split; try done; [by intros t ?%elem_of_nil|apply only_leaves_refl]. }
  unfold IsTimedOut. set (n := (NowMs (net w)).2). change (NowMs (net w)) with (time w, n).
  cbv beta iota zeta. change (sess s n) with (sess s (net w)). fold (silence s w (time w)).
  set (w1 := with_net n w). assert (Hone : ∃ w2,
    (if bool_decide (silence s w (time w) > timeoutMs) then HandleDisconnect s w1 else Some w1) = Some w2
    ∧ swept timeoutMs [s] w w2).
  { case_bool_decide as Hs.
    - assert (H1 : swept timeoutMs [] w w1) by (apply clock_swept; [done|by intros t ?%elem_of_nil]).
      destruct (HandleDisconnect_gone s w1 (sw_conn _ _ _ _ H1)) as (w2 & E & Hg).
      exists w2. split; [done|]. apply (swept_trans timeoutMs [] [s] w w1 w2 H1).
      apply (gone_swept timeoutMs s w1 w2 Hg); [|apply H1|].
      + apply (own_ids_quiet _ w); [apply H1|]. intros a t ->%list_elem_of_singleton. apply Ho. by left.
      + pose proof (sw_time _ _ _ _ H1). unfold silence in *. change (net w1) with n.
        change (sess s n) with (sess s (net w)). lia.
    - exists w1. split; [done|]. apply clock_swept; [done|]. intros t ->%list_elem_of_singleton. lia. }
  destruct Hone as (w2 & -> & H2). cbn [mbind option_bind].
  destruct (IH w2) as (w3 & E & H3); [apply H2| |].
  - apply (own_ids_quiet _ w); [apply H2|]. intros a t Ha. apply Ho. by right.
  - exists w3. split; [done|]. by apply (swept_trans timeoutMs [s] ss w w2 w3).
Qed.

(** C21. The heartbeat ends exactly the connections that are silent, and collects
    exactly the rooms that have been empty for too long, up to the time it takes
    itself.  It never fails.  A registered session from which nothing has been
    received for longer than the limit when it begins is disconnected and taken
    out of the registry; one that is within the limit when it is over keeps its
    connection, its number and everything else.  A room that was empty for too
    long is destroyed; any other room stays, and all that happens to it is that
    the leaves of its silent members are queued. *)
Theorem Heartbeat_sweeps w :
  conn_wf w →
  let limit := heartbeatTimeoutMs (cfg w) in
  let too_empty g now :=
    m_emptySinceMs g > 0 ∧ now - m_emptySinceMs g > idleRoomTimeoutMs (cfg w) in
  ∃ w', Heartbeat w = Some w' ∧ conn_wf w' ∧ time w ≤ time w'
  ∧ (∀ id t, SessionManager.Find id (smgr w) = Some t →
       (silence t w (time w) > limit →
          IsDisconnected t (net w') = true
          ∧ (IsDisconnected t (net w) = false → SessionManager.Find id (smgr w') = None))
       ∧ (silence t w (time w') ≤ limit →
          SessionManager.Find id (smgr w') = Some t ∧ sess t (net w') = sess t (net w)))
  ∧ (∀ r g, deref r (rooms w) = Some g →
       (too_empty g (time w) → deref r (rooms w') = None)
       ∧ (¬ too_empty g (time w') →
          ∃ ss, deref r (rooms w') = Some (add_jobs (map JLeave ss) g)
            ∧ ∀ s, s ∈ ss → GetRoom s (net w) = Some r ∧ silence s w (time w') > limit)).
Proof.
  intros Hc limit too_empty. unfold Heartbeat. fold limit.
  assert (Hids : ∀ id t, SessionManager.Find id (smgr w) = Some t ↔ (id, t) ∈ m_sessions (smgr w)).
  { intros id t. apply um_find_Some, (ww_smgr _ (cw_world _ Hc)). }
  assert (Ho : own_ids (GetAll (smgr w)) w).
  { intros s t ([id s'] & -> & Hs)%list_elem_of_fmap Ht. apply Hids in Hs. simpl in *.
    rewrite (cw_ids _ Hc _ _ Hs) in Ht. congruence. }
  destruct (heartbeat_sessions_sweep limit (GetAll (smgr w)) w Hc Ho) as (w1 & -> & Hs).
  cbn [mbind option_bind]. rewrite (q_cfg _ _ (sw_quiet _ _ _ _ Hs)).
  set (idle := idleRoomTimeoutMs (cfg w)). pose proof (sw_conn _ _ _ _ Hs) as Hc1.
  destruct (cw_world _ Hc1) as [HR Hl Hn Hm].
  pose proof (RemoveIdleRooms_wf idle (rooms w1) (net w1) HR) as HR'.
  pose proof (RemoveIdleRooms_linked idle (rooms w1) (net w1) HR Hl) as Hl'.
  pose proof (λ r, RemoveIdleRooms_deref idle (rooms w1) (net w1) r HR) as Hd.
  assert (En : (RemoveIdleRooms idle (rooms w1) (net w1)).2 = (NowMs (net w1)).2) by done.
  destruct (RemoveIdleRooms idle (rooms w1) (net w1)) as [[removed R'] n']. cbn [fst snd] in *. subst n'.
  set (w' := with_rooms R' (with_net (NowMs (net w1)).2 w1)).
  assert (Hq : quiet w1 w') by (apply plays_quiet; [apply NowMs_plays|done|done]).
  assert (Hw' : world_wf w') by (split; [done..|by destruct Hn|done]).
  assert (Ht : time w1 ≤ time w') by (apply steady_mono; simpl; lia).
  pose proof (sw_time _ _ _ _ Hs) as Ht0.
  exists w'. split; [done|]. split; [by eapply conn_quiet|]. split; [lia|]. split.
  - intros id t Hid. assert (Hin : t ∈ GetAll (smgr w)).
    { apply list_elem_of_fmap. exists (id, t). split; [done|by apply Hids]. }
    split; intros Hsil.
    + destruct (sw_dead _ _ _ _ Hs t Hin Hsil) as [H1 H2]. split; [done|]. intros Hon. by apply H2.
    + assert (Hsil' : silence t w (time w1) ≤ limit) by (unfold silence in *; lia).
      split; [apply (sw_find _ _ _ _ Hs); auto|apply (sw_live _ _ _ _ Hs); auto].
  - intros r g Hg. destruct (sw_rooms _ _ _ _ Hs r g Hg) as (ss & Hg1 & Hss).
    simpl. rewrite Hd, Hg1. unfold is_idle. simpl. split.
    + intros [He Hi]. rewrite decide_True; [done|]. split; [done|]. unfold time in *. lia.
    + intros Hi. rewrite decide_False.
      * exists ss. split; [done|]. intros s [Hr Hx]%Hss. split; [done|]. unfold silence in *. lia.
      * intros [He Hb]. apply Hi. split; [done|]. unfold time in *. lia.
Qed.
End heartbeat.

(** ** Logging in *)

Section login.
Context `{Platform, PbRuntime}.
Implicit Types (w : World) (s t r : nat) (g : GameRoom) (R : RoomManager) (v : Server).

(** The room that is found has a slot for the account. *)
Lemma FindReconnect_slot a R r :
  rm_wf R → FindReconnect a R = Some r →
  ∃ g, deref r R = Some g ∧ HasPendingReconnect a g = true.
Proof.
  intros HR. unfold FindReconnect. destruct (filter _ _) as [|e l] eqn:Ef; [done|]. intros [= <-].
  assert (Hin : e ∈ e :: l) by by left. rewrite <- Ef in Hin.
  apply list_elem_of_filter in Hin as [Hp Hin]. exists e.2.2. split; [|done].
  unfold deref. apply um_find_Some; [apply HR|]. apply list_elem_of_fmap. exists e.
  by destruct e as [? []].
Qed.

(** What the callback says. *)
Definition login_text (valid : bool) (rejoin : option nat) : string :=
  if valid then match rejoin with Some _ => "reconnected" | None => "Login OK." end
  else "유효하지 않은 session_token입니다.".

Context `{!PbRuntimeLaws}.

(** What the callback does. *)
Lemma login_answer v i get token s :
  let w := world v in
  conn_wf w → auth w !! i = Some (token, s) → IsDisconnected s (net w) = false →
  let '(valid, account) := validate get token in
  let rejoin := if valid then FindReconnect account (rooms w) else None in
  let answer := login_result valid (login_text valid rejoin) in
  S_LOGIN_ok answer → sizeof_PacketHeader + ByteSizeLong answer ≤ MAX_BUF_SIZE →
  let n := if valid then upd_session s (SetAccountId account) (net w) else net w in
  let frame := SendPacket S_LOGIN answer in
  ∃ v', handle_event (EvAuth i get) v = Some v' ∧ conn_wf (world v')
    ∧ auth (world v') = delete i (auth w) ∧ smgr (world v') = smgr w ∧ sends n (net (world v'))
    ∧ transmitted s frame n (net (world v')) ∧ RecvLoop [frame] = [ShowLogin (Some answer)]
    ∧ GetAccountId s (net (world v')) = (if valid then account else GetAccountId s (net w))
    ∧ match rejoin with
      | Some r => ∃ g, deref r (rooms w) = Some g ∧ HasPendingReconnect account g = true
                  ∧ rooms (world v') = store r (PushJob (JRejoin s) g) (rooms w)
      | None => rooms (world v') = rooms w
      end.
Proof.
  intros w Hc Hi Hd. destruct (validate get token) as [valid account] eqn:Ev.
  intros rejoin answer Hok Hsz n frame.
  assert (Hread : RecvLoop [frame] = [ShowLogin (Some answer)]).
  { unfold RecvLoop. cbn [map concat]. unfold frame. rewrite SendPacket_packets by done.
    cbn [map app]. unfold show. rewrite decide_True by done. by rewrite Parse_Serialize. }
  set (w1 := with_auth (delete i (auth w)) w).
  assert (Hq1 : quiet w w1) by done.
  assert (Hc1 : conn_wf w1) by (eapply conn_quiet; [done..|destruct (cw_world _ Hc); by split]).
  destruct (login_callback_ok s valid account w1 Hc1) as (w' & E & Hc' & _).
  exists (set_world w' v). cbn [handle_event]. fold w. rewrite Hi, Ev. fold w1. rewrite E.
  split; [done|]. split; [done|]. cbn [world set_world].
  assert (Hsent : ∀ n0, net_wf n0 → IsDisconnected s n0 = false →
    transmitted s frame n0 (Send s answer n0).2) by (intros n0 Hn0 Hd0; by apply Send_transmitted).
  revert E. unfold login_callback. destruct valid.
  - assert (Hn : net_wf n) by (apply net_wf_upd, Hc).
    assert (Hdn : IsDisconnected s n = false).
    { unfold IsDisconnected, n. by rewrite sess_upd. }
    specialize (Hsent n Hn Hdn).
    assert (Hacc : GetAccountId s (Send s answer n).2 = account).
    { unfold GetAccountId. rewrite (sends_account (Send_sends _ _ _)). unfold n. by rewrite sess_upd. }
    change (rooms (with_net _ w1)) with (rooms w).
    fold rejoin. destruct rejoin as [r|] eqn:Er.
    + destruct (FindReconnect_slot account (rooms w) r) as (g & Hg & Hslot); [apply Hc|done|].
      unfold push_job, room_PushJob. cbn [rooms with_net w1 with_auth]. fold w. rewrite Hg.
      cbn [mbind option_bind]. intros [= <-]. split_and!; [done|done|apply Send_sends|done..|]. by exists g.
    + intros [= <-]. split_and!; [done|done|apply Send_sends|done..].
  - intros [= <-]. split_and!; [done|done|apply Send_sends|apply Hsent; [apply Hc|done]|done| |done].
    apply (sends_account (Send_sends s answer (net w))).
Qed.
(** C22. How a login ends.  When the control plane has answered for a queued token,
    the validation is taken off the queue and the session is sent one [S_LOGIN]
    packet, from which the client reads whether it succeeded (unless the socket
    refuses it, which ends the connection).  Only if the token is valid the
    session gets the account, and only if some room keeps a slot for this account
    anything happens to a room: its queue gets one job, which takes the session
    back. *)
Theorem login_answered v i get token s :
  let w := world v in
  conn_wf w → auth w !! i = Some (token, s) → IsDisconnected s (net w) = false →
  let '(valid, account) := validate get token in
  let rejoin := if valid then FindReconnect account (rooms w) else None in
  let answer := login_result valid (login_text valid rejoin) in
  S_LOGIN_ok answer → sizeof_PacketHeader + ByteSizeLong answer ≤ MAX_BUF_SIZE →
  let n := if valid then upd_session s (SetAccountId account) (net w) else net w in
  let frame := SendPacket S_LOGIN answer in
  ∃ v', handle_event (EvAuth i get) v = Some v' ∧ conn_wf (world v')
    ∧ auth (world v') = delete i (auth w)
    ∧ transmitted s frame n (net (world v')) ∧ RecvLoop [frame] = [ShowLogin (Some answer)]
    ∧ GetAccountId s (net (world v')) = (if valid then account else GetAccountId s (net w))
    ∧ match rejoin with
      | Some r => ∃ g, deref r (rooms w) = Some g ∧ HasPendingReconnect account g = true
                  ∧ rooms (world v') = store r (PushJob (JRejoin s) g) (rooms w)
      | None => rooms (world v') = rooms w
      end.
Proof.
  intros w Hc Hi Hd. pose proof (login_answer v i get token s Hc Hi Hd) as Hl. fold w in Hl.
  destruct (validate get token) as [valid account]. intros rejoin answer Hok Hsz n frame.
  destruct (Hl Hok Hsz) as (v' & E & Hc' & Ha & _ & _ & Hrest). by exists v'.
Qed.

(** ** A refused send *)

(** The sessions whose connection is not over. *)
Definition live_sessions v : list nat := filter (λ s, IsDisconnected s (net (world v)) = false) (GetAll (smgr (world v))).

Lemma live_zombie v s :
  server_wf v → zombie s (world v) →
  s ∈ GetAll (smgr (world v)) ∧ (length (live_sessions v) < Count (smgr (world v)))%nat.
Proof.
  intros Hv [Hd Hf]. assert (Hin : s ∈ GetAll (smgr (world v))).
  { apply elem_of_GetAll; [apply (cw_world _ (ServerSafety.sw_conn _ Hv))|by eexists]. }
  split; [done|]. unfold Count. rewrite <- (length_map snd). apply (length_filter_lt _ _ s); [done|congruence].
Qed.

(** C39. A refused send leaves a connection behind that is counted for ever.
    [PostSend] closes the socket and disconnects the session itself, without the
    bookkeeping: the session stays registered, [currentConnections] keeps its
    value, and [HandleDisconnect], which would do the rest, finds it disconnected
    and does nothing.  This happens in the server when a client goes away before
    its login is answered: in every later state the session is in the registry
    though it is disconnected, and the number of connections reported is that of
    the registry, more than there are. *)
Theorem refused_send_leaks c sock v :
  rtc server_step (Server_new c sock) v → ids_left v →
  let w := world v in
  (∀ s a,
     IsDisconnected s (net w) = false → SessionManager.Find (m_sessionId (sess s (net w))) (smgr w) = Some s →
     wsa_send (n_sends (net w)) (m_sock (sess s (net w))) (wsa_bytes (ctx_at a (net w))) = false →
     let w' := with_net (PostSend s a (net w)) w in
     IsDisconnected s (net w') = true ∧ m_sock (sess s (net w')) = None
     ∧ closed (net w') = closed (net w) ++ option_list (m_sock (sess s (net w)))
     ∧ currentConnections (stats (net w')) = currentConnections (stats (net w))
     ∧ SessionManager.Find (m_sessionId (sess s (net w'))) (smgr w') = Some s
     ∧ HandleDisconnect s w' = Some w')
  ∧ ∀ i get token s,
     auth w !! i = Some (token, s) → IsDisconnected s (net w) = false →
     let '(valid, account) := validate get token in
     let rejoin := if valid then FindReconnect account (rooms w) else None in
     let answer := login_result valid (login_text valid rejoin) in
     S_LOGIN_ok answer → sizeof_PacketHeader + ByteSizeLong answer ≤ MAX_BUF_SIZE →
     wsa_send (n_sends (net w)) (m_sock (sess s (net w))) (SendPacket S_LOGIN answer) = false →
     ∃ v1, handle_event (EvAuth i get) v = Some v1
       ∧ IsDisconnected s (net (world v1)) = true
       ∧ currentConnections (stats (net (world v1))) = currentConnections (stats (net w))
       ∧ ∀ v', rtc server_step v1 v' → ids_left v' →
           s ∈ GetAll (smgr (world v')) ∧ IsDisconnected s (net (world v')) = true
           ∧ currentConnections (stats (net (world v'))) = Z.of_nat (Count (smgr (world v')))
           ∧ (length (live_sessions v') < Count (smgr (world v')))%nat.
Proof.
  intros Hr Hk w. pose proof (reachable_accounted _ _ _ Hr) as [Hv Hac]. split.
  - intros s a Hd Hf Hs w'. destruct (PostSend_zombie s a w Hd Hs Hf) as (P1 & P2 & P3 & P4).
    assert (E : ∃ n, PostSend s a (net w) = (Disconnect s n).2 ∧ sess s n = sess s (net w)
                     ∧ closed n = closed (net w)).
    { unfold PostSend. rewrite Hd. unfold WSASend. rewrite Hs. by eexists. }
    destruct E as (n & E & Es & Ec). destruct (Disconnect_first s n) as (_ & P5 & P6 & _);
      [unfold IsDisconnected; by rewrite Es|].
    rewrite Es, Ec, <- E in P6. rewrite <- E in P5. split_and!; try done. simpl. by rewrite P5.
  - intros i get token s Hi Hd. pose proof (login_answer v i get token s (ServerSafety.sw_conn _ Hv) Hi Hd) as Hl.
    fold w in Hl. destruct (validate get token) as [valid account]. intros rejoin answer Hok Hsz Hs.
    destruct (Hl Hok Hsz) as (v1 & E & _ & _ & Hsm & Hsends & Ht & _). clear Hl.
    set (n := if valid then upd_session s (SetAccountId account) (net w) else net w) in *.
    assert (Hn : n_sends n = n_sends (net w) ∧ m_sock (sess s n) = m_sock (sess s (net w))
                 ∧ m_sessionId (sess s n) = m_sessionId (sess s (net w))
                 ∧ stats n = stats (net w)).
    { unfold n. destruct valid; [|done]. by rewrite sess_upd. }
    destruct Hn as (E1 & E2 & E3 & E4). fold rejoin answer in Ht. unfold transmitted in Ht.
    rewrite E1, E2, Hs in Ht.
    destruct Ht as (_ & Hd1 & _). exists v1. split; [done|]. split; [done|]. split.
    { rewrite <- E4. apply (sends_conns _ _ Hsends). }
    assert (Hz : zombie s (world v1)).
    { split; [done|]. rewrite Hsm, (sends_sessionId Hsends), E3.
      destruct (rf_auth _ _ (at_refs _ Hac) token s) as [_ [Hx|Hx]]; [by eapply list_elem_of_lookup_2| |done].
      fold w in Hx. congruence. }
    assert (Hr1 : rtc server_step (Server_new c sock) v1).
    { eapply rtc_r; [exact Hr|]. by apply (step_event (EvAuth i get)). }
    intros v' Hv' Hk'. pose proof (zombie_forever c sock v1 v' s Hr1 Hz Hv') as Hz'.
    assert (Hr' : rtc server_step (Server_new c sock) v') by (by etrans).
    destruct (live_zombie v' s (reachable_wf _ _ _ Hr') Hz') as [Hin Hlt].
    split_and!; [done|apply Hz'|by eapply reachable_count|done].
Qed.
End login.

(** ** Coming back *)

Section reconnect.
Context `{Platform, PbRuntime}.
Implicit Types (w : World) (s t r : nat) (g : GameRoom) (a : string).

Lemma slot_abs a g : HasPendingReconnect a g = true ↔ is_Some (slots (abs g) !! a).
Proof. unfold HasPendingReconnect, um_count. simpl. by rewrite map_um_find, bool_decide_eq_true. Qed.

Lemma member_abs t g : t ∈ members (abs g) ↔ t ∈ m_members g.
Proof. apply elem_of_list_to_set. Qed.

(** A tick with a single job. *)
Lemma tick_single acc cap wnd j (t t' : Z) (r r' : Room) :
  spec_tick acc cap wnd [j] t r r' t' →
  ∃ t1 t2 u1 u2 : Z, t ≤ t1 ≤ t2 ∧ t2 ≤ u1 ≤ u2 ∧ u2 ≤ t'
    ∧ r' = spec_end wnd u1 u2 (spec_job acc cap t1 t2 j r).
Proof.
  inversion 1 as [? ? ? t1 t2 ? ? ? Ht Hrest|]; subst.
  inversion Hrest as [|? u1 u2 ? ? Hu Hu']; subst. by exists t1, t2, u1, u2.
Qed.

Lemma spec_end_members wnd u1 u2 (r : Room) : members (spec_end wnd u1 u2 r) = members r.
Proof. unfold spec_end. by destruct (phase r). Qed.

Lemma spec_end_slots wnd u1 u2 (r : Room) :
  slots (spec_end wnd u1 u2 r) = filter (λ p, u1 - p.2 ≤ wnd) (slots r).
Proof. unfold spec_end. by destruct (phase r). Qed.

(** Leaving a running game keeps a slot. *)
Lemma tick_leave acc cap wnd s (t t' : Z) (r r' : Room) :
  spec_tick acc cap wnd [JLeave s] t r r' t' → phase r = Playing → s ∈ members r →
  members r' = members r ∖ {[s]} ∧ (t' - t ≤ wnd → is_Some (slots r' !! acc s)).
Proof.
  intros (t1 & t2 & u1 & u2 & Ht & Hu & Hu' & ->)%tick_single Hp Hs.
  rewrite spec_end_members, spec_end_slots. simpl. unfold spec_leave. rewrite decide_True by done.
  rewrite Hp. simpl. split; [done|]. intros Hw. exists t1. apply map_lookup_filter_Some.
  split; [apply lookup_insert_eq|]. simpl. lia.
Qed.

Lemma tick_rejoin acc cap wnd s (t t' : Z) (r r' : Room) :
  spec_tick acc cap wnd [JRejoin s] t r r' t' →
  slots r' !! acc s = None ∧ members r' = {[s]} ∪ members r.
Proof.
  intros (t1 & t2 & u1 & u2 & _ & _ & _ & ->)%tick_single.
  rewrite spec_end_members, spec_end_slots. simpl. split; [|done].
  apply map_lookup_filter_None. left. apply lookup_delete_eq.
Qed.

Lemma at_room_push r nm R g j :
  at_room r nm R g → at_room r nm (store r (PushJob j g) R) (PushJob j g).
Proof.
  intros [HR Hf Hg]. split.
  - apply (store_wf r (PushJob j g) g); [done..|]. pose proof (rm_room _ HR _ _ Hg) as Hw. by destruct Hw.
  - by rewrite Find_store.
  - by rewrite deref_store, decide_True, Hg.
Qed.

Lemma FindReconnect_only a R r g :
  rm_wf R → deref r R = Some g → HasPendingReconnect a g = true →
  (∀ r' g', deref r' R = Some g' → HasPendingReconnect a g' = true → r' = r) →
  FindReconnect a R = Some r.
Proof.
  intros HR Hg Hslot Honly. destruct (FindReconnect a R) as [r'|] eqn:E.
  { destruct (FindReconnect_slot a R r' HR E) as (g' & Hg' & Hs'). f_equal. by eapply Honly. }
  exfalso. revert E. unfold FindReconnect. destruct (filter _ _) as [|e l] eqn:Ef; [|done]. intros _.
  unfold deref in Hg. apply um_find_Some in Hg; [|apply HR].
  apply list_elem_of_fmap in Hg as ([name e] & He & Hin). simpl in He. subst e.
  assert (Hf : (name, (r, g)) ∈ filter (λ e, HasPendingReconnect a e.2.2 = true) (m_rooms R))
    by (by apply list_elem_of_filter).
  rewrite Ef in Hf. by apply elem_of_nil in Hf.
Qed.

(** C6. Who loses the connection during a game can come back.  A player is in a
    running game, in a room with no jobs, when the connection ends.  With the
    next tick of the server the player is out of the room, which keeps a slot for
    the account.  If that tick takes at most the reconnection window, and no
    other room keeps a slot for the account, then a session that logs in to the
    account - whichever it is, and whatever the result on display - is taken
    back: with the next tick it is a member, along with those who stayed, and the
    slot is used up.  None of these steps fails. *)
Theorem reconnect_restores r nm s w g :
  conn_wf w → at_room r nm (rooms w) g → m_state g = IN_GAME → m_jobQueue g = [] →
  s ∈ m_members g → GetRoom s (net w) = Some r → IsDisconnected s (net w) = false →
  let a := GetAccountId s (net w) in
  ∃ w1 w2 g2, HandleDisconnect s w = Some w1 ∧ GameTick w1 = Some w2
    ∧ at_room r nm (rooms w2) g2 ∧ (∀ t, t ∈ m_members g2 ↔ t ∈ m_members g ∧ t ≠ s)
    ∧ (time w2 - time w ≤ reconnectWindowMs (cfg w) →
       HasPendingReconnect a g2 = true
       ∧ ((∀ r' g', deref r' (rooms w2) = Some g' → HasPendingReconnect a g' = true → r' = r) →
          ∀ s', ∃ w3 w4 g4, login_callback s' true a w2 = Some w3 ∧ GameTick w3 = Some w4
            ∧ at_room r nm (rooms w4) g4
            ∧ (∀ t, t ∈ m_members g4 ↔ t = s' ∨ t ∈ m_members g2)
            ∧ HasPendingReconnect a g4 = false)).
Proof.
  intros Hc Hg Hst Hq Hs Hr Hd a.
  destruct (HandleDisconnect_first s w Hc Hd) as (w1 & E1 & Hc1 & _ & _ & _ & _ & _ & HR).
  rewrite Hr in HR. destruct HR as (g' & Hg' & ER). rewrite (ar_room _ _ _ _ Hg) in Hg'. injection Hg' as <-.
  pose proof (at_room_push r nm _ g (JLeave s) Hg) as Hg1. rewrite <- ER in Hg1.
  pose proof (HandleDisconnect_time s w w1 E1) as Ht1.
  pose proof (HandleDisconnect_field m_accountId s w w1 s (λ _, eq_refl) (λ _, eq_refl) E1) as Ha1.
  pose proof (q_cfg _ _ (proj1 (HandleDisconnect_quiet s w w1 E1))) as Ecfg.
  destruct (GameTick_spec r nm w1 _ Hc1 Hg1) as (w2 & g2 & t2 & E2 & Hc2 & Hg2 & Hq2 & Ht2 & _ & Hsp).
  exists w1, w2, g2. split; [done|]. split; [done|]. split; [done|].
  simpl in Hsp. rewrite Hq in Hsp.
  destruct (tick_leave _ _ _ _ _ _ _ _ Hsp) as [Hm Hslot].
  { simpl. unfold abs_phase. simpl. by rewrite Hst. }
  { by apply elem_of_list_to_set. }
  change (GetAccountId s (net w1)) with (m_accountId (sess s (net w1))) in Hslot. rewrite Ha1 in Hslot.
  split.
  { intros t. rewrite <- !member_abs, Hm. set_solver. }
  intros Hwin. assert (Hs2 : HasPendingReconnect a g2 = true).
  { apply slot_abs, Hslot. rewrite Ecfg. unfold time in *. lia. }
  split; [done|]. intros Honly s'. pose proof (cw_world _ Hc2) as [HR2 _ _ _].
  destruct (login_callback_ok s' true a w2 Hc2) as (w3 & E3 & Hc3 & _).
  pose proof (FindReconnect_only a (rooms w2) r g2 HR2 (ar_room _ _ _ _ Hg2) Hs2 Honly) as Ef.
  assert (Hw3 : rooms w3 = store r (PushJob (JRejoin s') g2) (rooms w2) ∧ GetAccountId s' (net w3) = a).
  { revert E3. unfold login_callback. change (rooms (with_net _ w2)) with (rooms w2). rewrite Ef.
    unfold push_job, room_PushJob. cbn [rooms with_net]. rewrite (ar_room _ _ _ _ Hg2).
    cbn [mbind option_bind]. intros [= <-]. split; [done|].
    unfold reply. cbn [net with_net with_rooms].
    transitivity (m_accountId (sess s' (upd_session s' (SetAccountId a) (net w2)))).
    - apply (sends_account (Send_sends s' _ _)).
    - by rewrite sess_upd. }
  destruct Hw3 as [ER3 Ha3]. pose proof (at_room_push r nm _ g2 (JRejoin s') Hg2) as Hg3. rewrite <- ER3 in Hg3.
  destruct (GameTick_spec r nm w3 _ Hc3 Hg3) as (w4 & g4 & t4 & E4 & _ & Hg4 & _ & _ & _ & Hsp4).
  simpl in Hsp4. rewrite Hq2 in Hsp4. destruct (tick_rejoin _ _ _ _ _ _ _ _ Hsp4) as [Hno Hm4].
  rewrite Ha3 in Hno. exists w3, w4, g4. split_and!; [done..| |].
  - intros t. rewrite <- !member_abs, Hm4. change (members (abs (PushJob _ g2))) with (members (abs g2)).
    set_solver.
  - apply not_true_iff_false. rewrite slot_abs, Hno. by intros [].
Qed.
End reconnect.
