(* ===== verification/Frames.v ===== *)
(** * What the server leaves alone

    Many facts about the whole server have one shape: everything it does, but for
    a few operations, relates the worlds before and after it in some preorder.
    [Frame] is what such a relation must allow; that it then holds of the
    functions of [Core/ServerCore.cpp], loops included, is proved once. *)
From S2P Require Import Prelude Bytes Platform ObjectPool Packet RecvBuffer Protobuf PbRuntimeDemo PacketPb Session PacketTraits Config AuthService JobQueue GameRoom PacketManager SessionManager RoomManager Logic TrafficPolicy ServerCore ServerConn ServerSafety Accounts.
Local Open Scope Z_scope.

(** Changes of a session that have nothing to do with rooms or disconnecting. *)
Inductive touched (x : Session) : Session → Prop :=
  | touched_buffer b : touched x (set_recvBuffer b x)
  | touched_window p z c : m_recvContext x = Some c →
      touched x (set_recvContext (Some (with_wsaBuf p z c)) x)
  | touched_id i : touched x (SetSessionId i x)
  | touched_rate b k z : touched x (set_rate b k z x)
  | touched_activity z : touched x (set_lastActivity z x)
  | touched_not : touched x x.

#[export] Hint Constructors touched : server.

Class Frame `{Platform} (R : relation World) := {
  frame_preorder :: PreOrder R;
  (** Handlers and rooms. *)
  frame_plays w w' : plays (net w) (net w') → cfg w' = cfg w → R w w';
  (** Everything else but sessions, the configuration and the number of connections;
      the clocks go on. *)
  frame_same w w' :
    sessions (net w') = sessions (net w) →
    totalConnections (stats (net w')) = totalConnections (stats (net w)) →
    (n_steady (net w) ≤ n_steady (net w'))%nat → (n_system (net w) ≤ n_system (net w'))%nat →
    cfg w' = cfg w → R w w';
  frame_touch s f w :
    touched (sess s (net w)) (f (sess s (net w))) → R w (with_net (upd_session s f (net w)) w) }.

Section frame.
Context `{Platform, PbRuntime} (R : relation World) `{!Frame R}.
Implicit Types (w : World) (s t : nat) (v : Server).

Lemma frame_sends w n : sends (net w) n → R w (with_net n w).
Proof. intros Hs. apply frame_plays; [|done]. by apply sends_plays. Qed.

Lemma frame_push_job r j w w' : push_job r j w = Some w' → R w w'.
Proof. unfold push_job. destruct (room_PushJob _ _ _); [|done]. intros [= <-]. by apply frame_same. Qed.

Lemma frame_disconnect s w w' : HandleDisconnect s w = Some w' → R w w'.
Proof.
  unfold HandleDisconnect. pose proof (frame_sends w _ (Disconnect_sends s (net w))) as H1.
  destruct (Disconnect s (net w)) as [first n]. cbn [snd] in H1.
  destruct first; cbn [negb]; [|by intros [= <-]]. set (w1 := with_smgr _ _).
  assert (H2 : R w w1) by (etrans; [exact H1|by apply frame_same]).
  destruct (GetRoom s (net w1)) as [r|]; [|by intros [= <-]].
  intros E. etrans; [exact H2|].
  set (w2 := with_net (upd_session s (SetRoom None) (net w1)) w1).
  assert (H3 : R w1 w2) by (apply frame_plays; [apply SetRoom_plays|done]).
  etrans; [exact H3|]. by eapply frame_push_job.
Qed.

Lemma frame_PostRecv s w w' : PostRecv s w = Some w' → R w w'.
Proof.
  unfold PostRecv. destruct (IsDisconnected s (net w)); [by intros [= <-]|].
  destruct (m_recvContext (sess s (net w))) as [c|] eqn:Ec; [|done].
  destruct (GetWriteBufferPtr _) as [off b'].
  set (w1 := with_net (upd_session s (set_recvBuffer b') (net w)) w).
  assert (H1 : R w w1) by (apply frame_touch; auto with server). set (g := set_recvContext _).
  set (w2 := with_net (upd_session s g (net w1)) w1). assert (H2 : R w1 w2).
  { apply frame_touch. constructor. unfold w1. simpl. by rewrite sess_upd. }
  assert (H3 : R w2 (WSARecv s w2).2) by by apply frame_same.
  destruct (WSARecv s w2) as [ok w3]. cbn [snd] in H3. intros E.
  etrans; [exact H1|]. etrans; [exact H2|]. etrans; [exact H3|].
  destruct ok; [by injection E as <-|]. by eapply frame_disconnect.
Qed.

Lemma frame_clock w : R w (with_net (NowMs (net w)).2 w).
Proof. apply frame_same; try done. simpl. lia. Qed.

Lemma frame_limit s w : R w (with_net (CheckRateLimit s (net w)).2 w).
Proof.
  etrans; [apply frame_clock|]. set (n1 := (NowMs (net w)).2).
  assert (E : touched (sess s n1) (CheckRateLimit_at (steady_ms (n_steady (net w))) (sess s n1)).2).
  { unfold CheckRateLimit_at. cbn [snd]. repeat case_decide; try by constructor.
    by apply (touched_rate (sess s n1)). }
  unfold CheckRateLimit. change (NowMs (net w)) with (steady_ms (n_steady (net w)), n1). cbv beta iota.
  destruct (CheckRateLimit_at _ _) as [ok x]. cbn [snd] in *.
  by apply (frame_touch s (λ _, x) (with_net n1 w)).
Qed.

Lemma frame_serve max s packets rest w w' :
  serving s w → contents (m_recvBuffer (sess s (net w))) = concat packets ++ rest →
  serve max s packets w = Some w' → R w w'.
Proof.
  revert w. induction packets as [|p packets IH]; intros w Hs Hcont; cbn [serve].
  { apply frame_PostRecv. }
  case_decide as Hsz; [intros E; etrans; [|by eapply frame_disconnect]; by apply frame_same|].
  pose proof (frame_limit s w) as H1. destruct (serving_admit s w Hs) as [Hs1 Hq1].
  destruct (CheckRateLimit s (net w)) as [ok n]. cbn [snd] in *. destruct ok; cbn [negb].
  2:{ intros E. etrans; [exact H1|]. etrans; [|by eapply frame_disconnect]. by apply frame_same. }
  destruct (HandlePacket_serving (λ _, True) s p _ I Hs1) as (w2 & -> & Hs2 & Hq2 & Hh).
  cbn [mbind option_bind]. intros E.
  destruct (serving_next s p packets rest w w2 Hcont) as [Hs3 Hcont3]; [etrans; [exact Hq1|exact Hq2]|done|].
  etrans; [exact H1|]. etrans; [by apply (frame_same (with_net n w) (on_stats inc_packetsReceived (with_net n w)))|].
  etrans; [by apply frame_plays; [apply Hh|apply (hs_cfg _ _ _ Hh)]|].
  etrans; [|by eapply IH]. apply frame_touch. auto with server.
Qed.

Lemma frame_receive s data w : R w (kernel_receive s data w).
Proof.
  unfold kernel_receive. set (n1 := mkNet _ _ _ _ _ _ _ _ _ _ _).
  assert (H1 : R w (with_net n1 w)) by by apply frame_same. etrans; [exact H1|].
  apply (frame_touch s _ (with_net n1 w)). repeat case_match; auto with server.
Qed.

Lemma frame_received s (k : Z) w : R w (received s k w).
Proof.
  unfold received. set (g := λ x, set_recvBuffer _ x). set (w1 := with_net (upd_session s g (net w)) w).
  assert (H1 : R w w1) by (apply frame_touch; unfold g; auto with server). etrans; [exact H1|]. cbv zeta.
  pose proof (frame_clock w1) as H2. unfold UpdateActivity. set (n2 := (NowMs (net w1)).2) in *.
  change (NowMs (net w1)) with (steady_ms (n_steady (net w1)), n2). cbv beta iota. etrans; [exact H2|].
  etrans; [by apply (frame_touch s (set_lastActivity (steady_ms (n_steady (net w1)))) (with_net n2 w1)); auto with server|].
  by apply frame_same.
Qed.

Lemma frame_HandleRecv s data w w' :
  conn_wf w → s ∈ rx_pending (net w) →
  (∃ c, m_recvContext (sess s (net w)) = Some c ∧ Z.of_nat (length data) ≤ wsaBuf_len c) →
  HandleRecv s (Z.of_nat (length data)) (kernel_receive s data w) = Some w' → R w w'.
Proof.
  intros Hc Hs Hx. destruct (HandleRecv_ok s data w Hc Hs Hx) as (-> & _).
  destruct (kernel_receive_ok s data w Hc Hs Hx) as (Hs1 & Hlen & Hcont & _).
  pose proof (frame_receive s data w) as H1. set (w1 := kernel_receive s data w) in *.
  destruct (received_ok s (Z.of_nat (length data)) w1 Hs1) as (Hs2 & Hb2 & _); [split; [lia|exact Hlen]|].
  intros E. etrans; [exact H1|]. etrans; [apply frame_received|].
  eapply frame_serve; [exact Hs2| |exact E]. rewrite Hb2, Hcont. apply frames_concat.
Qed.

Lemma frame_sweep timeoutMs ss w w' : heartbeat_sessions timeoutMs ss w = Some w' → R w w'.
Proof.
  revert w. induction ss as [|s ss IH]; intros w; cbn [heartbeat_sessions]; [by intros [= <-]|].
  pose proof (frame_clock w) as H1. unfold IsTimedOut. set (n := (NowMs (net w)).2) in *.
  change (NowMs (net w)) with (steady_ms (n_steady (net w)), n). cbv beta iota.
  destruct (bool_decide _); [|intros E; etrans; [exact H1|by apply IH]].
  destruct (HandleDisconnect s (with_net n w)) as [w2|] eqn:E2; [|done]. cbn [mbind option_bind].
  intros E. etrans; [exact H1|]. etrans; [by eapply frame_disconnect|by apply IH].
Qed.

Lemma frame_Heartbeat w w' : Heartbeat w = Some w' → R w w'.
Proof.
  unfold Heartbeat. destruct (heartbeat_sessions _ _ w) as [w1|] eqn:E; [|done].
  cbn [mbind option_bind]. apply frame_sweep in E. intros [= <-]. etrans; [exact E|].
  apply frame_same; try done. simpl. lia.
Qed.

Lemma frame_GameTick w w' : GameTick w = Some w' → R w w'.
Proof.
  unfold GameTick. destruct (TickAll _ _ _) as [[R' n]|] eqn:E; [|done]. intros [= <-].
  apply frame_plays; [|done]. by eapply tick_rooms_plays.
Qed.

(** A login, if the relation lets the account be set. *)
Lemma frame_login s (valid : bool) account w w' :
  R w (with_net (upd_session s (if valid then SetAccountId account else id) (net w)) w) →
  world_wf w → login_callback s valid account w = Some w' → R w w'.
Proof.
  intros Ha Hw E. destruct (login_callback_safe (λ _, True) s valid account w I Hw)
    as (w1 & E1 & _ & _ & _ & Hh). assert (w1 = w') as -> by congruence.
  etrans; [exact Ha|]. apply frame_plays; [apply Hh|apply (hs_cfg _ _ _ Hh)].
Qed.

(** *** Events *)

Lemma frame_lift v v' o :
  (∀ w', o = Some w' → R (world v) w') → lift o v = Some v' → R (world v) (world v').
Proof. intros Hk. destruct o as [w'|]; [|done]. intros [= <-]. by apply Hk. Qed.

Definition is_login (e : server_event) : bool :=
  match e with EvAuth _ _ => true | _ => false end.

(** Any event but an accept; in a login the account may be set. *)
Lemma frame_event e v v' :
  (is_login e = true → ∀ s a w, R w (with_net (upd_session s (SetAccountId a) (net w)) w)) →
  server_wf v → event_ok e v → handle_event e v = Some v' → is_accept e = false →
  R (world v) (world v').
Proof.
  intros Ha [Hc Hw] He E Hna.
  destruct e as [success associated sock'|s success data|a success| | |i get|resp post];
    cbn [handle_event event_ok] in *; [done|..].
  - destruct He as [Hs Hx]. destruct success; cbn [negb] in E; [case_decide|].
    2:{ eapply frame_lift; [|exact E]. intros w'. by apply frame_HandleRecv. }
    all: eapply frame_lift; [|exact E]; intros w' E'.
    all: etrans; [apply (frame_receive s data)|by eapply frame_disconnect].
  - destruct (send_completed a success v v' E) as (w' & [->|[s E']] & ->); [by apply frame_same|].
    etrans; [by eapply frame_disconnect|by apply frame_same].
  - eapply frame_lift; [|exact E]. apply frame_GameTick.
  - eapply frame_lift; [|exact E]. apply frame_Heartbeat.
  - destruct (auth (world v) !! i) as [[token s]|]; [|by injection E as <-].
    destruct (validate get token) as [valid acc]. eapply frame_lift; [|exact E]. intros w' E'.
    etrans; [by apply (frame_same _ (with_auth (delete i (auth (world v))) (world v)))|].
    eapply frame_login, E'; [|by destruct (cw_world _ Hc)]. destruct valid; [by apply Ha|].
    apply frame_touch. constructor.
  - injection E as <-. destruct (RegistryTurn_clock resp post v) as [_ (j & Hj & ->)]. by apply frame_same.
Qed.
End frame.
