(* ===== verification/Lifetime.v ===== *)
(** * Who keeps a session alive

    A session of [Core/ServerSession.cpp] lives as long as a [shared_ptr] to it
    does.  The contexts of outstanding operations hold one, as the comment in
    [ServerSession.h] promises; and the context that a session receives with,
    which it owns and deletes in its destructor, holds one for ever. *)
From S2P Require Import Prelude Bytes Platform ObjectPool Packet RecvBuffer Protobuf PbRuntimeDemo PacketPb Session PacketTraits Config AuthService JobQueue GameRoom PacketManager SessionManager RoomManager Logic TrafficPolicy ServerCore ServerConn ServerSafety Accounts Sockets TestClient RoomSpec Requests Presence Frames.
Local Open Scope Z_scope.

(** ** What is fixed when a session is opened

    [f] is some data of a session that only its opening sets. *)
Section fixed.
Context `{Platform, PbRuntime} {A : Type} (f : Session → A).
Implicit Types (w : World) (s t k : nat) (v : Server).

Class opening_only : Prop := {
  oo_room : ∀ x, f (outside_room x) = f x;
  oo_buffer : ∀ b x, f (set_recvBuffer b x) = f x;
  oo_window : ∀ p z c x, m_recvContext x = Some c →
    f (set_recvContext (Some (with_wsaBuf p z c)) x) = f x;
  oo_id : ∀ i x, f (SetSessionId i x) = f x;
  oo_rate : ∀ b n z x, f (set_rate b n z x) = f x;
  oo_activity : ∀ z x, f (set_lastActivity z x) = f x }.

Context `{Hf : !opening_only}.

Definition fixed w w' : Prop := ∀ t, f (sess t (net w')) = f (sess t (net w)).

#[local] Instance fixed_preorder : PreOrder fixed.
Proof. split; [by intros w t|]. intros w1 w2 w3 H1 H2 t. by rewrite H2. Qed.

Lemma fixed_same w w' : sessions (net w') = sessions (net w) → fixed w w'.
Proof. intros E t. unfold sess. by rewrite E. Qed.

Lemma fixed_upd s g w :
  f (g (sess s (net w))) = f (sess s (net w)) → fixed w (with_net (upd_session s g (net w)) w).
Proof. intros E t. simpl. rewrite sess_upd_dec. case_decide; [by subst|done]. Qed.

#[export] Instance fixed_frame : Frame fixed.
Proof.
  split; [apply _|..].
  - intros w w' Hp _ t. by apply (plays_field f (net w) (net w')), Hp; apply Hf.
  - intros w w' E _ _ _ _. by apply fixed_same.
  - intros s g w Ht. apply fixed_upd. destruct Ht; [apply Hf..|done]; done.
Qed.

(** Nothing but an accept sets [f], apart from a login. *)
Lemma fixed_event e v v' :
  (is_login e = true → ∀ a x, f (SetAccountId a x) = f x) →
  server_wf v → event_ok e v → handle_event e v = Some v' → is_accept e = false →
  fixed (world v) (world v').
Proof.
  intros Ha. apply (frame_event fixed). intros Hl s a w. by apply fixed_upd, Ha.
Qed.

(** An accept opens at most one session, and otherwise leaves [f] alone. *)
Lemma fixed_accept sock success associated sock' v v' :
  HandleAcceptCompletion sock success associated sock' v = Some v' →
  if success then next_session v' = S (next_session v)
                  ∧ fixed (opened (next_session v) sock (world v)) (world v')
  else next_session v' = next_session v ∧ fixed (world v) (world v').
Proof.
  assert (Hpost : ∀ w v0, fixed w (world v0) → fixed w (world (PostAccept sock' v0))).
  { intros w v0 Hw. etrans; [exact Hw|]. by destruct sock'; apply fixed_same. }
  destruct success.
  2:{ intros [= <-]. split; [by rewrite PostAccept_next|]. by apply Hpost, fixed_same. }
  rewrite HandleAcceptCompletion_stages. cbv zeta. simpl (world (set_next _ _)).
  set (s := next_session v). set (w1 := opened s sock (world v)).
  destruct associated; cbn [negb].
  2:{ intros [= <-]. split; [by rewrite PostAccept_next|]. by apply Hpost, fixed_same. }
  cbn [Add]. set (n := upd_session s _ (net w1)). set (m := {| m_sessions := _ |}).
  set (w2 := with_smgr m (with_net n w1)).
  assert (H2 : fixed w1 w2)
    by exact (fixed_upd s (SetSessionId (m_nextSessionId (smgr w1))) w1 (oo_id _ _)).
  simpl (policy (set_next _ _)). set (w3 := policy_clock _ w2).
  assert (H3 : fixed w1 w3).
  { etrans; [exact H2|]. unfold w3, policy_clock. case_decide; by apply fixed_same. }
  destruct (ConsumeGlobalConnectionToken _ _) as [ok p]. destruct ok; cbn [negb].
  - destruct (PostRecv s (admitted s w3)) as [w5|] eqn:E; [|done]. intros [= <-].
    split; [by rewrite PostAccept_next|]. apply Hpost. etrans; [exact H3|].
    etrans; [|by eapply (frame_PostRecv fixed)]. unfold admitted, InitRateLimit.
    set (n4 := (NowMs (net w3)).2). change (NowMs (net w3)) with (time w3, n4). cbv beta iota.
    apply (fixed_upd s (InitRateLimit_at _ _) (with_net n4 w3)), Hf.
  - intros [= <-]. split; [by rewrite PostAccept_next|]. apply Hpost. etrans; [exact H3|].
    set (w4 := on_stats inc_policyRejections w3).
    assert (H4 : fixed w4 (with_net (Disconnect s (net w4)).2 w4))
      by apply (frame_sends fixed), Disconnect_sends.
    exact H4.
Qed.
End fixed.

(** ** The context of a session *)

Section lifetime.
Context `{Platform, PbRuntime}.
Implicit Types (w : World) (s t k : nat) (v : Server).

(** The kind of the context a session receives with, and whom it keeps alive. *)
Definition receiver (x : Session) : option (EIOType * option nat) :=
  (λ c, (ioType c, ctx_session c)) <$> m_recvContext x.

#[export] Instance receiver_opening_only : opening_only receiver.
Proof.
  split; try (by intros []). intros p z c x E. unfold receiver. simpl. by rewrite E.
Qed.

Lemma opened_receiver s sock w :
  receiver (sess s (net (opened s sock w))) = Some (RECV, Some s)
  ∧ ∀ t, t ≠ s → sess t (net (opened s sock w)) = sess t (net w).
Proof.
  unfold opened, Session_Init, UpdateActivity. set (n1 := upd_session s _ (upd_session s _ _)).
  set (n2 := (NowMs n1).2). change (NowMs n1) with (steady_ms (n_steady n1), n2). cbv beta iota zeta.
  split; [simpl; by rewrite sess_upd|]. intros t Ht. simpl. rewrite !sess_upd_ne by done.
  change (sess t n2) with (sess t n1). unfold n1. by rewrite !sess_upd_ne.
Qed.

(** Every session that was ever opened. *)
Definition held v : Prop :=
  ∀ s, (s < next_session v)%nat → receiver (sess s (net (world v))) = Some (RECV, Some s).

Lemma event_held e v v' :
  server_wf v → event_ok e v → handle_event e v = Some v' → held v →
  held v' ∧ (next_session v ≤ next_session v')%nat.
Proof.
  intros Hv He E Hh. 
  destruct (is_accept e) eqn:Ha.
  - destruct e as [success associated sock'| | | | | |]; try done. cbn [handle_event] in E.
    destruct (accepting v) as [sock|]; [|by injection E as <-; auto].
    pose proof (fixed_accept receiver sock success associated sock' v v' E) as Hx.
    destruct (opened_receiver (next_session v) sock (world v)) as [Ho Hne].
    destruct success; destruct Hx as [En Hx]; (split; [|lia]); intros s Hs; rewrite (Hx s); [|apply Hh; lia].
    destruct (decide (s = next_session v)) as [->|Hn]; [done|]. rewrite Hne by done. apply Hh. lia.
  - destruct (event_keeps e v v' Ha E) as [En _].
    split; [|lia]. intros s Hs. rewrite (fixed_event receiver e v v' (λ _ _ _, eq_refl) Hv He E Ha s). apply Hh. lia.
Qed.

Lemma run_held v v' :
  server_wf v → held v → rtc server_step v v' →
  server_wf v' ∧ held v' ∧ (next_session v ≤ next_session v')%nat.
Proof.
  intros Hv Hh Hr. apply (rtc_invariant server_step
    (λ u, server_wf u ∧ held u ∧ (next_session v ≤ next_session u)%nat) v v'); [done| |done].
  intros v1 v2 (Hv1 & Hh1 & Hle) Hs. destruct Hs as [e v1 v2 He Hk E].
  destruct (event_safe e v1 Hv1 Hk He) as (v3 & E3 & Hv3). assert (v3 = v2) as -> by congruence.
  destruct (event_held e v1 v2 Hv1 He E Hh1). split_and!; [done|done|lia].
Qed.

Lemma Server_new_held c o : held (Server_new c o).
Proof. intros s Hs. destruct o; simpl in Hs; lia. Qed.

(** C13. No session is destroyed while an operation on it is outstanding.  In every
    reachable state the context of every outstanding receive is one for
    receiving that holds a pointer to its own session, and every context in flight is
    one for sending that holds a pointer to an existing session: so the
    completions that [WorkerThread] takes from the port reach the right
    handler with the right session.  The price is that a session keeps itself
    alive through its receive context for ever, so that its destructor, which is
    what deletes this context, never runs. *)
Theorem outstanding_held c o v :
  rtc server_step (Server_new c o) v → let n := net (world v) in
  (∀ s, s ∈ rx_pending n → (s < next_session v)%nat ∧ receiver (sess s n) = Some (RECV, Some s))
  ∧ (∀ a, a ∈ inflight n → ioType (ctx_at a n) = SEND
       ∧ ∃ s, (s < next_session v)%nat ∧ ctx_session (ctx_at a n) = Some s)
  ∧ (∀ s v', (s < next_session v)%nat → rtc server_step v v' →
       receiver (sess s (net (world v'))) = Some (RECV, Some s)).
Proof.
  intros Hr n. destruct (reachable_accounted c o v Hr) as [Hv [_ Hrefs]].
  destruct (run_held _ v (Server_new_wf c o) (Server_new_held c o) Hr) as (_ & Hh & _).
  split_and!.
  - intros s [Hs _]%(rf_recv _ _ Hrefs). split; [done|by apply Hh].
  - intros a Ha. destruct (rf_send _ _ Hrefs a Ha) as (s & [Hs _] & E). split; [|by exists s].
    destruct (ww_net _ (cw_world _ (ServerSafety.sw_conn _ Hv))) as [[_ Hlive _] Hb].
    destruct (proj1 (Hlive a)) as [x Ex]; [apply elem_of_app; by left|]. unfold ctx_at, n. rewrite Ex. by apply (Hb a x).
  - intros s v' Hs Hr'. destruct (run_held v v' Hv Hh Hr') as (_ & Hh' & Hle). apply Hh'. lia.
Qed.
End lifetime.
