(* ===== verification/Authentication.v ===== *)
(** * Who may play

    A session gets an account only from the control plane, by the callback of a
    login; the handlers of [Packet/Logic/Logic.cpp] let nobody into a room who has
    none.  So whatever the clients send, the rooms of [Game/GameRoom.h] only ever
    hold sessions and accounts that the control plane has vouched for. *)
From S2P Require Import Prelude Bytes Strings Platform ObjectPool Packet RecvBuffer Protobuf PbRuntimeDemo PacketPb Session PacketTraits Config AuthService JobQueue GameRoom PacketManager SessionManager RoomManager Logic TrafficPolicy ServerCore ServerConn ServerSafety Accounts Sockets TestClient RoomSpec Requests Presence Frames Lifetime.
From stdpp Require Import fin_sets fin_maps.
Local Open Scope Z_scope.

Section authentication.
Context `{Platform, PbRuntime}.
Implicit Types (w : World) (s t : nat) (a : string) (R : RoomManager) (g : GameRoom) (v : Server).

(** ** Rooms

    [acc] is the account of each session, empty for none; [A] are the accounts
    that have been vouched for. *)
Section rooms.
Context (acc : nat → string) (A : string → Prop).
Hypothesis acc_A : ∀ s, acc s ≠ "" → A (acc s).

(** A job for a room comes from somebody who has logged in. *)
Definition job_vouched (j : RoomJob) : Prop :=
  match j with
  | JRejoin s | JLeave s | JEnter s | JLeaveAck s => acc s ≠ ""
  | JChat a _ | JMove a _ _ | JReady a => A a
  end.

Record vouched (r : Room) : Prop := {
  vd_members : ∀ s, s ∈ members r → acc s ≠ "";
  vd_ready : ∀ ready a, phase r = Lobby ready → a ∈ ready → A a;
  vd_moves : ∀ a, is_Some (moves r !! a) → A a;
  vd_slots : ∀ a, is_Some (slots r !! a) → A a }.

Lemma spec_leave_vouched (t1 t2 : Z) s (r : Room) : vouched r → vouched (spec_leave acc t1 t2 s r).
Proof.
  intros [V1 V2 V3 V4]. unfold spec_leave. case_decide as Hs; [|by split].
  destruct (phase r) as [ready| |since] eqn:Hp; (split; simpl; [set_solver|try done..]).
  - intros R a [= <-] Ha. eapply V2; [done|set_solver].
  - intros a [x [_ Hx]%lookup_delete_Some]. by apply V3; eexists.
  - intros a [x [_ Hx]%lookup_delete_Some]. by apply V3; eexists.
  - intros a [x [[<- _]|[_ Hx]]%lookup_insert_Some]; [by apply acc_A, V1|by apply V4; eexists].
  - intros a [x [_ Hx]%lookup_delete_Some]. by apply V3; eexists.
Qed.

Lemma spec_job_vouched cap (t1 t2 : Z) j (r : Room) :
  job_vouched j → vouched r → vouched (spec_job acc cap t1 t2 j r).
Proof.
  intros Hj Hr. pose proof Hr as [V1 V2 V3 V4].
  destruct j as [s|b m|s|s|s|b x y|b]; simpl in *; [|done|by apply spec_leave_vouched| |by apply spec_leave_vouched|..].
  - split; simpl; [set_solver|done..|]. intros a [x [_ Hx]%lookup_delete_Some]. by apply V4; eexists.
  - unfold spec_enter. destruct (phase r) eqn:Hp; [|done|]; (case_decide; [|done]);
      (split; simpl; [set_solver|by rewrite ?Hp|done..]).
  - unfold spec_move. destruct (phase r) eqn:Hp; [done| |done]. split; simpl; try done.
    intros a [z [[<- _]|[_ Hz]]%lookup_insert_Some]; [done|by apply V3; eexists].
  - unfold spec_ready. destruct (phase r) as [ready| |] eqn:Hp; [|done..].
    split; simpl; try done. intros R a. case_bool_decide; [done|]. intros [= <-] Ha.
    unfold toggle in Ha. assert (a = b ∨ a ∈ ready) as [->|Hin] by (case_decide; set_solver); [done|].
    by eapply V2.
Qed.

Lemma spec_tick_vouched cap wnd js (t t' : Z) (r r' : Room) :
  spec_tick acc cap wnd js t r r' t' → (∀ j, j ∈ js → job_vouched j) → vouched r → vouched r'.
Proof.
  induction 1 as [j js t t1 t2 r r' t' Ht _ IH|t t1 t2 r t' Ht Ht']; intros Hj Hr.
  - apply IH; [set_solver|]. apply spec_job_vouched; [set_solver|done].
  - destruct Hr as [V1 V2 V3 V4].
    assert (Hs : ∀ a, is_Some (filter (λ p : string * Z, t1 - p.2 ≤ wnd) (slots r) !! a) → A a).
    { intros a [x [Hx _]%map_lookup_filter_Some]. by apply V4; eexists. }
    unfold spec_end. destruct (phase r) as [ready| |since] eqn:Hp; split; simpl; try done.
    + by intros a [x Hx].
    + by intros a [x Hx].
    + intros R a. case_decide; [|done]. intros [= <-]. set_solver.
Qed.

(** A room of the server, with its queue. *)
Record room_vouched g : Prop := {
  rv_room : vouched (abs g);
  rv_jobs : ∀ j, j ∈ m_jobQueue g → job_vouched j }.

Definition rooms_vouched R : Prop := ∀ r g, deref r R = Some g → room_vouched g.

Lemma Tick_vouched this wnd g n :
  room_wf g → (∀ s, GetAccountId s n = acc s) → room_vouched g →
  room_vouched (Tick this wnd g n).1.
Proof.
  intros Hg Ha [Hr Hj]. split.
  - eapply spec_tick_vouched; [|exact Hj|exact Hr].
    eapply spec_tick_ext; [exact Ha|by apply Tick_simulates].
  - rewrite Tick_queue. by intros j ?%elem_of_nil.
Qed.

(** ** The world *)

Record vouches w : Prop := {
  vo_acc : ∀ s, GetAccountId s (net w) = acc s;
  vo_rooms : rooms_vouched (rooms w) }.

#[export] Instance account_opening_only : opening_only m_accountId.
Proof. by split. Qed.

Lemma fixed_accounts w w' :
  fixed m_accountId w w' → vouches w → rooms_vouched (rooms w') → vouches w'.
Proof. intros Hf [Ha _] HR. split; [|done]. intros s. etrans; [apply Hf|apply Ha]. Qed.

Lemma vouches_same w w' : fixed m_accountId w w' → rooms w' = rooms w → vouches w → vouches w'.
Proof. intros Hf ER Hv. eapply fixed_accounts; [done..|]. rewrite ER. apply Hv. Qed.

(** Who points to a room has logged in. *)
Lemma room_account s r w :
  world_wf w → rooms_vouched (rooms w) → GetRoom s (net w) = Some r → acc s ≠ "".
Proof.
  intros Hw HR Hr. destruct (ww_linked _ Hw s r Hr) as (g & Hg & Hs).
  apply (vd_members _ (rv_room _ (HR r g Hg))). by apply elem_of_list_to_set.
Qed.

Lemma store_vouched r g R : rooms_vouched R → room_vouched g → rooms_vouched (store r g R).
Proof.
  intros HR Hg a x. rewrite deref_store. case_decide; [|apply HR].
  destruct (deref a R); [|done]. by intros [= <-].
Qed.

Lemma push_vouched r j w w' :
  job_vouched j → push_job r j w = Some w' → rooms_vouched (rooms w) → rooms_vouched (rooms w').
Proof.
  intros Hj. unfold push_job, room_PushJob. destruct (deref r (rooms w)) as [g|] eqn:Hg; [|done].
  intros [= <-] HR. apply store_vouched; [done|]. destruct (HR r g Hg) as [H1 H2]. split; [done|].
  intros k. simpl. unfold Push. rewrite elem_of_app, list_elem_of_singleton. intros [Hk| ->]; auto.
Qed.

Lemma new_room_vouched name max : room_vouched (GameRoom_new name max).
Proof.
  split; [|by intros j ?%elem_of_nil]. rewrite abs_new. split; simpl; try set_solver.
  - by intros a [x ?].
  - by intros a [x ?].
Qed.

Lemma GetOrCreate_vouched max name R :
  rm_wf R → rooms_vouched R → rooms_vouched (GetOrCreate max name R).2.
Proof.
  intros HR Hv r g. by apply (GetOrCreate_all room_vouched); [|apply new_room_vouched|].
Qed.

(** *** The handlers *)

(** What a handler does to the rooms. *)
Definition admits (o : option World) : Prop := ∀ w', o = Some w' → rooms_vouched (rooms w').

Lemma admits_same w : rooms_vouched (rooms w) → admits (Some w).
Proof. by intros HR w' [= <-]. Qed.

Lemma admits_push r j w : job_vouched j → rooms_vouched (rooms w) → admits (push_job r j w).
Proof. intros Hj HR w' E. by eapply push_vouched. Qed.

#[local] Hint Resolve admits_same admits_push : server.

(** A job in the room of the session. *)
Lemma admits_own s (j : nat → RoomJob) w w0 :
  world_wf w → vouches w → (acc s ≠ "" → ∀ r, job_vouched (j r)) → rooms_vouched (rooms w0) →
  admits (match GetRoom s (net w) with Some r => push_job r (j r) w | None => Some w0 end).
Proof.
  intros Hw Hv Hj HR0. destruct (GetRoom s (net w)) as [r|] eqn:Er; [|by apply admits_same].
  apply admits_push; [|apply Hv]. apply Hj. eapply room_account; [done|apply Hv|done].
Qed.

Lemma Handle_C_ROOM_ENTER_admits s d w :
  world_wf w → vouches w → admits (Handle_C_ROOM_ENTER s d w).
Proof.
  intros Hw Hv w'. unfold Handle_C_ROOM_ENTER. destruct (ParseFromArray d) as [pkt|]; [|apply admits_same, Hv].
  case_decide as Ha; [apply admits_same, Hv|]. rewrite (vo_acc _ Hv) in Ha.
  assert (H1 : admits (match GetRoom s (net w) with Some r => push_job r (JLeave s) w | None => Some w end)).
  { apply (admits_own s (λ _, JLeave s)); [done|done|done|apply Hv]. }
  assert (Hs : safe (λ _, True) w (match GetRoom s (net w) with
    | Some r => push_job r (JLeave s) w | None => Some w end)).
  { destruct (GetRoom s (net w)) eqn:Er; [|by apply safe_same].
    apply (safe_push_job _ s); [done|by right|done|by eapply GetRoom_alive]. }
  destruct Hs as (w1 & E1 & Hw1 & _). rewrite E1 in H1 |- *. cbn [mbind option_bind].
  specialize (H1 w1 eq_refl).
  pose proof (GetOrCreate_vouched (maxRoomPlayers (cfg w1)) (C_ROOM_ENTER_room_name pkt) (rooms w1)
    (ww_rooms _ Hw1) H1) as HR.
  destruct (GetOrCreate _ _ _) as [r R]. by apply admits_push.
Qed.

Lemma handlers_admit :
  map_Forall (λ _ h, ∀ s d w, world_wf w → vouches w → admits (h s d w)) handlers.
Proof.
  assert (Hown : ∀ s w, acc s ≠ "" → vouches w → A (GetAccountId s (net w))).
  { intros s w Hs Hv. rewrite (vo_acc _ Hv). by apply acc_A. }
  unfold handlers, RegisterHandlers, RegisterHandler.
  repeat (refine (map_Forall_insert_2 _ _ _ _ _ _); [intros s d w Hw Hv|]); [..|refine (map_Forall_empty _)].
  - unfold Handle_C_READY. case_decide; [apply admits_same, Hv|].
    apply (admits_own s (λ _, JReady (GetAccountId s (net w)))); [done|done|by intros Hs _; apply Hown|apply Hv].
  - apply admits_same, Hv.
  - unfold Handle_C_PING. case_decide; [apply admits_same, Hv|]. apply admits_same, Hv.
  - unfold Handle_C_MOVE. destruct (ParseFromArray d) as [pkt|]; [|apply admits_same, Hv].
    apply (admits_own s (λ _, JMove (GetAccountId s (net w)) (C_MOVE_x pkt) (C_MOVE_y pkt)));
      [done|done|by intros Hs _; apply Hown|apply Hv].
  - unfold Handle_C_ROOM_LEAVE. destruct (GetRoom s (net w)) as [r|] eqn:Er; [|apply admits_same, Hv].
    apply admits_push; [|apply Hv]. eapply room_account; [done|apply Hv|done].
  - by apply Handle_C_ROOM_ENTER_admits.
  - unfold Handle_C_CHAT. destruct (ParseFromArray d) as [pkt|]; [|apply admits_same, Hv].
    destruct (GetRoom s (net w)) as [r|] eqn:Er; [|apply admits_same, Hv].
    apply admits_push; [|apply Hv]. apply Hown; [|done]. eapply room_account; [done|apply Hv|done].
  - unfold Handle_C_LOGIN. destruct (ParseFromArray d) as [pkt|]; [|apply admits_same, Hv].
    case_decide; apply admits_same, Hv.
Qed.

Lemma HandlePacket_admits s d w : world_wf w → vouches w → admits (HandlePacket handlers s d w).
Proof.
  intros Hw Hv. unfold HandlePacket. case_decide; [apply admits_same, Hv|].
  destruct (handlers !! _) as [h|] eqn:E; [|apply admits_same, Hv]. by apply (handlers_admit _ _ E).
Qed.

(** *** Connections *)

Lemma HandleDisconnect_vouches s w w' :
  world_wf w → vouches w → HandleDisconnect s w = Some w' → vouches w'.
Proof.
  intros Hw Hv E. eapply fixed_accounts; [|exact Hv|].
  { by eapply (frame_disconnect (fixed m_accountId)). }
  revert E. unfold HandleDisconnect. pose proof (Disconnect_sends s (net w)) as Hs.
  destruct (Disconnect s (net w)) as [first n]. cbn [snd] in Hs.
  destruct first; cbn [negb]; [|by apply admits_same, Hv]. set (w1 := with_smgr _ _).
  assert (Hr : GetRoom s (net w1) = GetRoom s (net w)) by apply (sends_room Hs). rewrite Hr.
  destruct (GetRoom s (net w)) as [r|] eqn:Er; [|by apply admits_same, Hv].
  apply admits_push; [|apply Hv]. eapply room_account; [done|apply Hv|done].
Qed.

Lemma PostRecv_vouches s w w' :
  world_wf w → vouches w → PostRecv s w = Some w' → vouches w'.
Proof.
  intros Hw Hv E. eapply fixed_accounts; [|exact Hv|].
  { by eapply (frame_PostRecv (fixed m_accountId)). }
  revert E. unfold PostRecv. destruct (IsDisconnected s (net w)); [by apply admits_same, Hv|].
  destruct (m_recvContext _) as [c|]; [|done]. destruct (GetWriteBufferPtr _) as [off b'].
  set (f1 := set_recvBuffer b'). set (w1 := with_net (upd_session s f1 (net w)) w).
  set (f2 := set_recvContext _). set (w2 := with_net (upd_session s f2 (net w1)) w1).
  assert (Hw2 : world_wf w2) by (apply (upd_ok s f2 w1); [by apply (upd_ok s f1 w)|done]).
  assert (Hw3 : world_wf (WSARecv s w2).2) by (by destruct Hw2 as [? ? [] ?]; split; try done).
  assert (Hv3 : vouches (WSARecv s w2).2).
  { apply (vouches_same w); [|done|done]. intros t. simpl.
    change (sess t (mkNet ?a _ _ _ _ _ _ _ _ _ _)) with (sess t (net w2)).
    unfold w2, w1. simpl. rewrite !sess_upd_dec. by case_decide; subst. }
  destruct (WSARecv s w2) as [ok w3]. cbn [snd] in *. destruct ok; [by apply admits_same, Hv3|].
  intros E. by apply (HandleDisconnect_vouches s w3).
Qed.

Lemma serve_vouches max s packets rest w w' :
  serving s w → contents (m_recvBuffer (sess s (net w))) = concat packets ++ rest →
  vouches w → serve max s packets w = Some w' → vouches w'.
Proof.
  revert w. induction packets as [|p packets IH]; intros w Hs Hcont Hv; cbn [serve].
  { apply PostRecv_vouches; [apply Hs|done]. }
  case_decide as Hsz.
  { destruct (stats_ok inc_oversizedRejections w) as [Hw1 _]; [apply Hs|].
    apply HandleDisconnect_vouches; [done|]. by apply (vouches_same w). }
  assert (H1 : vouches (with_net (CheckRateLimit s (net w)).2 w)).
  { by apply (vouches_same w); [apply (frame_limit (fixed m_accountId))|done|]. }
  destruct (serving_admit s w Hs) as [Hs1 Hq1]. destruct (CheckRateLimit_ok s w) as [Hw0 _]; [apply Hs|].
  destruct (CheckRateLimit s (net w)) as [ok n]. cbn [snd] in *. destruct ok; cbn [negb].
  2:{ destruct (stats_ok inc_rateLimitRejections _ Hw0) as [Hw1 _].
      apply HandleDisconnect_vouches; [done|]. by apply (vouches_same (with_net n w)). }
  set (w1 := on_stats inc_packetsReceived (with_net n w)) in *.
  assert (Hv1 : vouches w1) by by apply (vouches_same (with_net n w)).
  destruct (HandlePacket_serving (λ _, True) s p w1 I Hs1) as (w2 & E2 & Hs2 & Hq2 & Hh).
  rewrite E2. cbn [mbind option_bind]. intros E.
  assert (Hv2 : vouches w2).
  { eapply fixed_accounts; [apply frame_plays; [apply Hh|apply (hs_cfg _ _ _ Hh)]|exact Hv1|].
    by apply (HandlePacket_admits s p w1); [apply Hs1|..]. }
  destruct (serving_next s p packets rest w w2 Hcont) as [Hs3 Hcont3]; [etrans; [exact Hq1|exact Hq2]|done|].
  eapply IH; [exact Hs3|exact Hcont3| |exact E].
  apply (vouches_same w2); [by apply (fixed_upd m_accountId)|done|done].
Qed.

Lemma HandleRecv_vouches s data w w' :
  conn_wf w → s ∈ rx_pending (net w) →
  (∃ c, m_recvContext (sess s (net w)) = Some c ∧ Z.of_nat (length data) ≤ wsaBuf_len c) →
  vouches w → HandleRecv s (Z.of_nat (length data)) (kernel_receive s data w) = Some w' → vouches w'.
Proof.
  intros Hc Hs Hx Hv. destruct (HandleRecv_ok s data w Hc Hs Hx) as (-> & _).
  destruct (kernel_receive_ok s data w Hc Hs Hx) as (Hs1 & Hlen & Hcont & _).
  assert (H1 : fixed m_accountId w (kernel_receive s data w)) by apply (frame_receive (fixed m_accountId)).
  set (w1 := kernel_receive s data w) in *.
  destruct (received_ok s (Z.of_nat (length data)) w1 Hs1) as (Hs2 & Hb2 & _); [split; [lia|exact Hlen]|].
  intros E. eapply serve_vouches; [exact Hs2| | |exact E].
  - rewrite Hb2, Hcont. apply frames_concat.
  - apply (vouches_same w1); [apply (frame_received (fixed m_accountId))|done|].
    by apply (vouches_same w).
Qed.

Lemma heartbeat_sessions_vouches timeoutMs ss w w' :
  conn_wf w → vouches w → heartbeat_sessions timeoutMs ss w = Some w' → conn_wf w' ∧ vouches w'.
Proof.
  revert w. induction ss as [|s ss IH]; intros w Hc Hv; cbn [heartbeat_sessions]; [by intros [= <-]|].
  unfold IsTimedOut. set (n := (NowMs (net w)).2). change (NowMs (net w)) with (time w, n).
  cbv beta iota. destruct (conn_clock w n) as [Hc1 _]; [done..|].
  assert (Hv1 : vouches (with_net n w)) by by apply (vouches_same w).
  destruct (bool_decide _); [|by apply IH].
  destruct (HandleDisconnect_safe s (with_net n w) Hc1) as (w2 & E2 & Hc2 & _). rewrite E2.
  cbn [mbind option_bind]. apply IH; [done|]. by apply (HandleDisconnect_vouches s (with_net n w)); [apply Hc1|..].
Qed.

Lemma Heartbeat_vouches w w' : conn_wf w → vouches w → Heartbeat w = Some w' → vouches w'.
Proof.
  intros Hc Hv. unfold Heartbeat. destruct (heartbeat_sessions _ _ w) as [w1|] eqn:E; [|done].
  destruct (heartbeat_sessions_vouches _ _ _ _ Hc Hv E) as [Hc1 [Ha HR]]. cbn [mbind option_bind].
  pose proof (λ r, RemoveIdleRooms_deref (idleRoomTimeoutMs (cfg w1)) (rooms w1) (net w1) r
    (ww_rooms _ (cw_world _ Hc1))) as Hd.
  intros [= <-]. split; [exact Ha|]. intros r g. simpl. rewrite Hd.
  destruct (deref r (rooms w1)) as [g0|] eqn:Eg; [|done]. case_decide; [done|]. intros [= <-]. by eapply HR.
Qed.

Lemma tick_rooms_vouched wnd rs R n R' n' :
  rm_wf R → (∀ s, GetAccountId s n = acc s) → rooms_vouched R →
  tick_rooms wnd rs R n = Some (R', n') → rooms_vouched R'.
Proof.
  revert R n. induction rs as [|r rs IH]; intros R n HR Ha Hv; cbn [tick_rooms]; [by intros [= <- <-]|].
  destruct (deref r R) as [g|] eqn:Hg; [|done]. cbn [mbind option_bind].
  pose proof (Tick_plays r wnd g n) as [Hp _]. pose proof (rm_room _ HR _ _ Hg) as Hw.
  pose proof (Tick_vouched r wnd g n Hw Ha (Hv r g Hg)) as Hv'. pose proof (Tick_wf r wnd g n Hw) as Hw'.
  destruct (Tick r wnd g n) as [g1 n1]. cbn [fst snd] in *. apply IH.
  - by eapply store_wf.
  - intros s. rewrite <- (Ha s). by apply (plays_field m_accountId n n1).
  - by apply store_vouched.
Qed.

Lemma GameTick_vouches w w' : conn_wf w → vouches w → GameTick w = Some w' → vouches w'.
Proof.
  intros Hc Hv E. eapply fixed_accounts; [|exact Hv|].
  { by apply (frame_GameTick (fixed m_accountId)). }
  revert E. unfold GameTick, TickAll. destruct (tick_rooms _ _ _ _) as [[R n]|] eqn:E; [|done].
  intros [= <-]. eapply tick_rooms_vouched; [apply Hc|apply Hv|apply Hv|exact E].
Qed.
(** *** Accepting *)

Lemma PostAccept_vouches o v : vouches (world v) → vouches (world (PostAccept o v)).
Proof. destruct o; [done|by apply vouches_same|done]. Qed.

Lemma opened_vouches s sock w : acc s = "" → vouches w → vouches (opened s sock w).
Proof.
  intros Hs [Ha HR]. split; [|done]. destruct (opened_receiver s sock w) as [_ Hne].
  intros t. destruct (decide (t = s)) as [->|Ht].
  - rewrite Hs. unfold opened, Session_Init, UpdateActivity, GetAccountId. cbn [NowMs with_net net].
    set (n2 := upd_session s (set_sock (Some sock)) _). set (n3 := mkNet _ _ _ _ _ _ _ _ _ _ _).
    rewrite !sess_upd. change (sess s n3) with (sess s n2). unfold n2. by rewrite !sess_upd.
  - rewrite <- Ha. unfold GetAccountId. by rewrite Hne.
Qed.

Lemma admitted_vouches s w : vouches w → vouches (admitted s w).
Proof.
  apply vouches_same; [|done]. unfold admitted, InitRateLimit. set (n := (NowMs (net w)).2).
  change (NowMs (net w)) with (time w, n). cbv beta iota.
  by apply (fixed_upd m_accountId s (InitRateLimit_at _ _) (with_net n w)).
Qed.

Lemma rejected_vouches s id w : vouches w → vouches (rejected s id w).
Proof.
  apply vouches_same; [|done]. set (w1 := on_stats inc_policyRejections w).
  assert (H1 : fixed m_accountId w1 (with_net (Disconnect s (net w1)).2 w1)); [|exact H1].
  apply (frame_sends (fixed m_accountId)), Disconnect_sends.
Qed.

Lemma accept_vouches sock success associated sock' v v' :
  server_wf v → ids_left v → vouches (world v) → acc (next_session v) = "" →
  HandleAcceptCompletion sock success associated sock' v = Some v' → vouches (world v').
Proof.
  intros [Hc Hw] Hk Hv Hs. destruct success.
  2:{ intros [= <-]. apply PostAccept_vouches. by apply (vouches_same (world v)). }
  rewrite HandleAcceptCompletion_stages. cbv zeta. simpl (world (set_next _ _)).
  destruct (opened_ok (next_session v) sock (world v) Hc Hw) as (Hc1 & Hw1 & Hx1 & Hr1).
  pose proof (opened_vouches (next_session v) sock (world v) Hs Hv) as Hv1.
  set (s := next_session v) in *. set (w1 := opened s sock (world v)) in *.
  destruct associated; cbn [negb].
  2:{ intros [= <-]. apply PostAccept_vouches. by apply (vouches_same w1). }
  pose proof (enrolled_ok s w1 Hc1 Hw1 Hk Hr1 Hx1) as He.
  assert (Hv2 : vouches (with_net (SessionManager.Add s (smgr w1) (net w1)).2 w1)).
  { apply (vouches_same w1); [|done|done].
    exact (fixed_upd m_accountId s (SetSessionId (m_nextSessionId (smgr w1))) w1 eq_refl). }
  destruct (SessionManager.Add s (smgr w1) (net w1)) as [[id m] n]. cbn [snd] in Hv2. destruct He as (Hc2 & _ & _ & _).
  set (w2 := with_smgr m (with_net n w1)) in *. simpl (policy (set_next _ _)).
  destruct (policy_clock_ok (policy v) w2 Hc2) as [Hc3 _].
  assert (Hv3 : vouches (policy_clock (policy v) w2)).
  { apply (vouches_same (with_net n w1)); [|done|done]. unfold policy_clock. case_decide; by apply fixed_same. }
  set (w3 := policy_clock _ w2) in *. destruct (admitted_ok s w3 Hc3) as [Hc4 _].
  destruct (ConsumeGlobalConnectionToken _ _) as [ok p]. destruct ok; cbn [negb].
  - destruct (PostRecv s (admitted s w3)) as [w5|] eqn:E; [|done]. intros [= <-].
    apply PostAccept_vouches, (PostRecv_vouches s (admitted s w3)); [apply Hc4| |done].
    by apply admitted_vouches.
  - intros [= <-]. apply PostAccept_vouches. by apply rejected_vouches.
Qed.

(** *** Logging in *)

(** The answer of the control plane to a login; [acc] already knows it. *)
Lemma login_vouches s valid a w w' :
  world_wf w → rooms_vouched (rooms w) →
  (∀ t, t ≠ s ∨ valid = false → GetAccountId t (net w) = acc t) →
  (valid = true → acc s = a ∧ a ≠ "") →
  login_callback s valid a w = Some w' → vouches w'.
Proof.
  intros Hw HR Ha Hs E. split.
  - intros t. destruct (login_callback_safe (λ _, True) s valid a w I Hw)
      as (w1 & E1 & _ & _ & _ & Hh). assert (w1 = w') as -> by congruence.
    pose proof (plays_field m_accountId _ _ t (λ _, eq_refl) (hs_plays _ _ _ Hh)) as Hf.
    unfold GetAccountId. rewrite Hf. simpl. rewrite sess_upd_dec. case_decide as Ht.
    + subst t. destruct valid; simpl; [by symmetry; apply Hs|]. by apply Ha; right.
    + by apply Ha; left.
  - revert E. unfold login_callback. destruct valid; [|by intros [= <-]].
    destruct (Hs eq_refl) as [Ea Hne]. destruct (FindReconnect a _) as [r|].
    + intros (w2 & E2 & E)%bind_Some. injection E as <-.
      eapply (push_vouched r (JRejoin s) _ w2); [|exact E2|exact HR]. simpl. by rewrite Ea.
    + intros E. injection E as <-. exact HR.
Qed.
(** *** Every event but a login *)

Lemma lift_vouches o v v' :
  (∀ w', o = Some w' → vouches w') → lift o v = Some v' → vouches (world v').
Proof. intros Ho. destruct o as [w'|]; [|done]. intros [= <-]. by apply Ho. Qed.

Lemma event_vouches e v v' :
  server_wf v → ids_left v → event_ok e v → is_login e = false → acc (next_session v) = "" →
  vouches (world v) → handle_event e v = Some v' → vouches (world v').
Proof.
  intros Hv Hk He Hl Hs Hvo E. pose proof Hv as [Hc _].
  destruct e as [success associated sock'|s success data|a success| | |i get|resp post];
    cbn [handle_event event_ok] in *; [..|done|].
  - destruct (accepting v); [by eapply accept_vouches|by injection E as <-].
  - destruct He as [Hp Hx]. destruct (kernel_receive_ok s data (world v) Hc Hp Hx) as ([Hc1 _ _] & _).
    destruct success; cbn [negb] in E; [case_decide|].
    2:{ eapply lift_vouches; [|exact E]. intros w'. by apply HandleRecv_vouches. }
    all: eapply lift_vouches; [|exact E]; intros w'; apply HandleDisconnect_vouches; [apply Hc1|].
    all: apply (vouches_same (world v)); [apply (frame_receive (fixed m_accountId))|done|done].
  - destruct (send_completed a success v v' E) as (w' & Hw' & ->).
    apply (vouches_same w'); [by apply fixed_same|done|].
    destruct Hw' as [->|[s E']]; [done|]. eapply HandleDisconnect_vouches, E'; [apply Hc|done].
  - eapply lift_vouches; [|exact E]. intros w'. by apply GameTick_vouches.
  - eapply lift_vouches; [|exact E]. intros w'. by apply Heartbeat_vouches.
  - injection E as <-. destruct (RegistryTurn_clock resp post v) as [_ (j & _ & ->)].
    by apply (vouches_same (world v)).
Qed.
End rooms.
(** More accounts, more logins. *)
Lemma rooms_vouched_mono acc acc' A A' R :
  (∀ s, acc s ≠ "" → acc' s ≠ "") → (∀ a, A a → A' a) → rooms_vouched acc A R → rooms_vouched acc' A' R.
Proof.
  intros Ha HA HR r g Hg. destruct (HR r g Hg) as [[V1 V2 V3 V4] Hj]. split; [split; eauto|].
  intros j Hin. specialize (Hj j Hin). destruct j; simpl in *; auto.
Qed.

(** ** The log of a run *)

(** The sessions that the control plane has given an account, in order. *)
Definition vouched_logins (e : server_event) v : list (nat * string) :=
  match e with
  | EvAuth i get =>
      match auth (world v) !! i with
      | Some (token, s) => let '(valid, a) := validate get token in if valid then [(s, a)] else []
      | None => []
      end
  | _ => []
  end.

(** The account of a session according to a log: the last one it got. *)
Definition account (l : list (nat * string)) s : string :=
  default "" (snd <$> last (filter (λ p, p.1 = s) l)).

Inductive logged (c : ServerConfig) : list (nat * string) → Server → Prop :=
  | logged_start o : logged c [] (Server_new c o)
  | logged_event l e v v' :
      logged c l v → ids_left v → event_ok e v → handle_event e v = Some v' →
      logged c (l ++ vouched_logins e v) v'.

Lemma account_login l s a t :
  account (l ++ [(s, a)]) t = if decide (t = s) then a else account l t.
Proof.
  unfold account. rewrite filter_app. case_decide as Ht.
  - subst. by rewrite filter_cons_True, filter_nil, last_snoc.
  - by rewrite filter_cons_False, filter_nil, app_nil_r.
Qed.

Lemma account_in l s : account l s ≠ "" → (s, account l s) ∈ l.
Proof.
  unfold account. destruct (last _) as [[t a]|] eqn:E; [|done]. intros _. simpl.
  apply last_Some_elem_of, list_elem_of_filter in E as [Ht E]. simpl in Ht. by subst.
Qed.

Lemma account_none l s : (∀ a, (s, a) ∉ l) → account l s = "".
Proof.
  intros Hs. destruct (decide (account l s = "")) as [|Hn]; [done|]. destruct (Hs _ (account_in l s Hn)).
Qed.

Lemma vouched_logins_in e v s a :
  (s, a) ∈ vouched_logins e v →
  vouched_logins e v = [(s, a)] ∧ is_login e = true ∧ (a ≠ "" ∧ no_quote a)
  ∧ ∃ token, (token, s) ∈ auth (world v).
Proof.
  destruct e as [| | | | |i get|]; try by intros ?%elem_of_nil. simpl.
  destruct (auth (world v) !! i) as [[token t]|] eqn:Et; [|by intros ?%elem_of_nil].
  unfold validate. destruct (ok _); [|by intros ?%elem_of_nil].
  destruct (ParseValidateResponse _) as [b|] eqn:Eb; [|by intros ?%elem_of_nil].
  intros [= -> ->]%list_elem_of_singleton. destruct (ParseValidateResponse_sound _ _ Eb) as (Hb & Hq & _).
  split_and!; try done. exists token. by eapply list_elem_of_lookup_2.
Qed.

(** What is so in every state of a run. *)
Record logged_wf l v : Prop := {
  lw_server : server_wf v;
  lw_accounted : accounted v;
  lw_log : ∀ s a, (s, a) ∈ l → (a ≠ "" ∧ no_quote a) ∧ (s < next_session v)%nat;
  lw_vouches : vouches (account l) (λ a, a ∈ l.*2) (world v) }.

Lemma account_vouched l s : account l s ≠ "" → account l s ∈ l.*2.
Proof. intros Hs. apply list_elem_of_fmap. eexists (_, _). split; [|by apply account_in]. done. Qed.

Lemma event_logins e v : is_login e = false → vouched_logins e v = [].
Proof. by destruct e. Qed.

Lemma login_event_vouches l i get v v' :
  server_wf v → vouches (account l) (λ a, a ∈ l.*2) (world v) →
  handle_event (EvAuth i get) v = Some v' →
  let l' := l ++ vouched_logins (EvAuth i get) v in
  vouches (account l') (λ a, a ∈ l'.*2) (world v').
Proof.
  intros [Hc _] [Ha HR] E l'. cbn [handle_event vouched_logins] in *.
  destruct (auth (world v) !! i) as [[token s]|] eqn:Et.
  2:{ injection E as <-. unfold l'. rewrite app_nil_r. by split. }
  pose proof (vouched_logins_in (EvAuth i get) v s) as Hin. cbn [vouched_logins] in Hin. rewrite Et in Hin.
  destruct (validate get token) as [valid a]. specialize (Hin a).
  assert (Hl' : ∀ t, account l' t = if decide (t = s ∧ valid = true) then a else account l t).
  { intros t. unfold l'. destruct valid; [rewrite account_login|rewrite app_nil_r];
      repeat case_decide; naive_solver. }
  assert (Hval : valid = true → a ≠ "") by (intros ->; apply Hin; by left).
  eapply lift_vouches; [|exact E]. intros w'. apply login_vouches.
  - destruct (cw_world _ Hc). by split.
  - eapply rooms_vouched_mono, HR; simpl.
    + intros t Ht. rewrite Hl'. destruct (decide (t = s ∧ valid = true)) as [[_ Hv]|_]; [by apply Hval|exact Ht].
    + intros b Hb. unfold l'. rewrite fmap_app, elem_of_app. by left.
  - intros t Ht. etrans; [apply Ha|]. rewrite Hl', decide_False; [done|]. intros [? ?]. destruct Ht; congruence.
  - intros Hv. split; [|auto]. rewrite Hl'. by rewrite decide_True.
Qed.

Lemma logged_ok c l v : logged c l v → logged_wf l v.
Proof.
  intros Hl. induction Hl as [o|l e v v' Hl [Hv Hac Hlog Hvo] Hk He E].
  { split; [apply Server_new_wf|apply Server_new_accounted|by intros s a ?%elem_of_nil|].
    unfold Server_new. apply PostAccept_vouches. by split. }
  destruct (event_safe e v Hv Hk He) as (v2 & E2 & Hv2). assert (v2 = v') as -> by congruence.
  assert (Hnext : (next_session v ≤ next_session v')%nat).
  { destruct (is_accept e) eqn:Ea; [|by destruct (event_keeps e v v' Ea E) as [-> _]].
    destruct e as [success associated o| | | | | |]; try done. cbn [handle_event] in E.
    destruct (accepting v); [|by injection E as <-].
    pose proof (fixed_accept m_accountId _ _ _ _ _ _ E) as Hx.
    destruct success; destruct Hx; lia. }
  split; [done|by apply (event_accounted e v v')|..].
  - intros s a [Hs|Hs]%elem_of_app.
    + destruct (Hlog s a Hs). split; [done|lia].
    + destruct (vouched_logins_in e v s a Hs) as (_ & _ & Hne & token & Hin). split; [done|].
      destruct Hac as [_ Hr]. destruct (rf_auth _ _ Hr token s Hin) as [? _]. lia.
  - destruct (is_login e) eqn:Hlogin.
    + destruct e; try done. by apply login_event_vouches.
    + rewrite event_logins, app_nil_r by done.
      apply (event_vouches _ _ (account_vouched l) e v v'); try done.
      apply account_none. intros a [_ ?]%Hlog. lia.
Qed.

(** C10. Only who has logged in plays.  [logged c l v] is any run of the server with
    the log [l] of the sessions that an answer of the control plane gave an
    account, each non-empty and without a quote.  In every state of the run a
    session has exactly the account it got last, or none; a session with a room is
    logged in; and in every room the members are sessions that have logged in, the
    accounts that are ready, have moved or have a slot to come back to have been
    vouched for, and so have those in the queued jobs: whatever packets the
    clients send, in whatever order and pieces. *)
Theorem members_authenticated c l v :
  logged c l v →
  (∀ s a, (s, a) ∈ l → a ≠ "" ∧ no_quote a)
  ∧ (∀ s, GetAccountId s (net (world v)) = account l s)
  ∧ (∀ s, is_Some (GetRoom s (net (world v))) → ∃ a, (s, a) ∈ l)
  ∧ ∀ r g, deref r (rooms (world v)) = Some g →
    (∀ s, s ∈ m_members g → ∃ a, (s, a) ∈ l)
    ∧ (∀ ready a, phase (abs g) = Lobby ready → a ∈ ready → a ∈ l.*2)
    ∧ (∀ a, is_Some (moves (abs g) !! a) ∨ is_Some (slots (abs g) !! a) → a ∈ l.*2)
    ∧ ∀ j, j ∈ m_jobQueue g → job_vouched (account l) (λ a, a ∈ l.*2) j.
Proof.
  intros Hl. destruct (logged_ok c l v Hl) as [[Hc _] _ Hlog [Ha HR]].
  assert (Hin : ∀ s, account l s ≠ "" → ∃ a, (s, a) ∈ l) by (intros s Hs; eauto using account_in).
  split_and!; [intros s a Hs; apply (Hlog s a Hs)|exact Ha|..].
  - intros s [r Hr]. eapply Hin, room_account; [apply Hc|done|exact Hr].
  - intros r g Hg. destruct (HR r g Hg) as [[V1 V2 V3 V4] Hj]. split_and!; [|done| |done].
    + intros s Hs. apply Hin, V1. by apply elem_of_list_to_set.
    + intros a [?|?]; auto.
Qed.
End authentication.
