(* ===== verification/Admission.v ===== *)
(** * How many connections are let in

    [ConsumeGlobalConnectionToken] and [RefreshTrafficPolicy] of
    [Core/ServerCore.cpp] in the running server: the number of connections that
    any run admits in any period, whatever clients and the control plane do. *)
From S2P Require Import Prelude Bytes Strings Platform ObjectPool Packet RecvBuffer Protobuf PbRuntimeDemo PacketPb Session PacketTraits Config AuthService HttpClient JobQueue GameRoom PacketManager SessionManager RoomManager Logic TrafficPolicy ServerCore ServerConn ServerSafety Accounts Sockets Frames.
Local Open Scope Z_scope.

(** ** The bucket *)

(** What can still be admitted, in 1/60000 of a connection: the tokens, and what
    the next refill may bring by now, for limits up to [limit]. *)
Definition credit (limit now : Z) (p : Policy) : Z :=
  60000 * Z.max 0 (m_globalConnTokens p)
  + limit * Z.min 60000 (now - m_globalConnLastRefillMs p).

Lemma credit_waits limit now now' p :
  0 ≤ limit → now ≤ now' → credit limit now' p ≤ credit limit now p + limit * (now' - now).
Proof. intros Hl Hn. unfold credit. nia. Qed.

(** A bucket that counts, after at most [k] attempts. *)
Record bucket_of (k now : Z) (p : Policy) : Prop := {
  bo_max : 0 ≤ m_policyMaxConnectionsPerMinuteTotal p ≤ 2147483647;
  bo_high : m_globalConnTokens p ≤ m_policyMaxConnectionsPerMinuteTotal p;
  bo_low : - k ≤ m_globalConnTokens p;
  bo_last : 0 < m_policyMaxConnectionsPerMinuteTotal p → 0 < m_globalConnLastRefillMs p ≤ now }.

Lemma bucket_waits k k' now now' p : k ≤ k' → now ≤ now' → bucket_of k now p → bucket_of k' now' p.
Proof. intros Hk Hn [? ? ? Hl]. split; [done|done|lia|]. intros Hp. specialize (Hl Hp). lia. Qed.

Lemma consume_bucket k now p :
  0 ≤ k < 2147483648 → bucket_of k now p → bucket_of (k + 1) now (ConsumeGlobalConnectionToken now p).2.
Proof.
  intros Hk [Hm Hh Hlow Hl]. unfold ConsumeGlobalConnectionToken.
  case_decide as H0; [split; simpl; lia|]. specialize (Hl ltac:(lia)).
  rewrite decide_False by lia. unfold refillWindowMs.
  case_decide; cbn [snd set_tokens m_globalConnTokens]; rewrite i32_id by lia; split; simpl; lia.
Qed.

Lemma consume_credit limit k now p :
  0 ≤ k < 2147483648 → bucket_of k now p → 0 < m_policyMaxConnectionsPerMinuteTotal p ≤ limit →
  let '(r, p') := ConsumeGlobalConnectionToken now p in
  60000 * (if r then 1 else 0) + credit limit now p' ≤ credit limit now p.
Proof.
  intros Hk [Hm Hh Hlow Hl] Hlim. unfold ConsumeGlobalConnectionToken. specialize (Hl ltac:(lia)).
  rewrite decide_False, decide_False by lia. unfold refillWindowMs, credit.
  case_decide; cbn [set_tokens m_globalConnTokens m_globalConnLastRefillMs]; rewrite i32_id by lia;
    case_bool_decide; nia.
Qed.

(** ** The policy *)

Lemma read_digits_range v s :
  -2147483648 ≤ v ≤ 2147483647 → -2147483648 ≤ (read_digits int_step v s).1 ≤ 2147483647.
Proof.
  revert v. induction s as [|c s IH]; intros v Hv; simpl; [done|].
  destruct (isdigit c); simpl; [|done]. apply IH, i32_range.
Qed.

Lemma TryParseJsonIntByKey_range json key v :
  TryParseJsonIntByKey json key = Some v → -2147483648 ≤ v ≤ 2147483647.
Proof.
  unfold TryParseJsonIntByKey. destruct (json_value json key) as [s|]; [|done]. case_decide; [done|].
  set (ns := match s with String c r => _ | EmptyString => _ end). destruct ns as [neg s'].
  pose proof (read_digits_range 0 s' ltac:(lia)) as Hr. destruct (read_digits int_step 0 s') as [u []]; [|done].
  intros [= <-]. destruct neg; [apply i32_range|exact Hr].
Qed.

(** An answer that is not applied leaves the bucket alone; one that is fills it. *)
Lemma RefreshTrafficPolicy_bucket key resp t1 t2 p :
  let p' := RefreshTrafficPolicy key resp t1 t2 p in
  if bool_decide (key ≠ "") && policy_applies resp
  then 0 ≤ m_policyMaxConnectionsPerMinuteTotal p' ≤ 2147483647
       ∧ m_globalConnTokens p' = m_policyMaxConnectionsPerMinuteTotal p'
       ∧ m_globalConnLastRefillMs p' = t2
  else m_policyMaxConnectionsPerMinuteTotal p' = m_policyMaxConnectionsPerMinuteTotal p
       ∧ m_globalConnTokens p' = m_globalConnTokens p
       ∧ m_globalConnLastRefillMs p' = m_globalConnLastRefillMs p.
Proof.
  unfold RefreshTrafficPolicy, policy_applies. case_decide as Hk.
  { rewrite bool_decide_eq_false_2 by auto. done. }
  rewrite bool_decide_eq_true_2 by done. destruct (ok resp); [|done]. cbn [andb].
  destruct (TryParseJsonIntByKey _ _) as [v|] eqn:E.
  - apply TryParseJsonIntByKey_range in E. case_decide as Hv.
    + rewrite bool_decide_eq_true_2 by done. simpl. lia.
    + rewrite bool_decide_eq_false_2 by done. simpl. destruct (IsJsonNullByKey _ _); simpl; lia.
  - destruct (IsJsonNullByKey _ _); simpl; lia.
Qed.

(** ** The server *)

Section server.
Context `{Platform, PbRuntime}.
Implicit Types (w : World) (s k : nat) (v : Server).

(** The system clock, at its next reading. *)
Definition wall w : Z := system_ms (n_system (net w)).
Definition connections w : Z := totalConnections (stats (net w)).

(** Letting nobody in. *)
Record metered w w' : Prop := {
  mt_total : connections w' = connections w;
  mt_clock : (n_system (net w) ≤ n_system (net w'))%nat;
  mt_cfg : cfg w' = cfg w }.

#[local] Instance metered_preorder : PreOrder metered.
Proof. split; [by intros w|]. intros w1 w2 w3 [] []. split; [congruence|lia|congruence]. Qed.

#[local] Instance metered_frame : Frame metered.
Proof.
  split; [apply _|..].
  - intros w w' Hp Hc. split; [apply Hp|apply (plays_clock _ _ Hp)|done].
  - intros w w' _ Ht _ Hs Hc. by split.
  - intros s f w _. by split.
Qed.

(** *** Accepting *)

(** The outcome for the bucket and the number of connections. *)
Definition let_in (success associated : bool) v : bool * Policy :=
  if success && associated then ConsumeGlobalConnectionToken (wall (world v)) (policy v)
  else (false, policy v).

(** What a completed accept leaves, with [r] and [p] the outcome. *)
Record accepted_as (success r : bool) (p : Policy) v v' : Prop := {
  as_policy : policy v' = p;
  as_total : connections (world v') = (if r then u64 (connections (world v) + 1) else connections (world v));
  as_next : next_session v' = (if success then S (next_session v) else next_session v);
  as_clock : (n_system (net (world v)) ≤ n_system (net (world v')))%nat;
  as_cfg : cfg (world v') = cfg (world v);
  as_refresh : lastPolicyRefreshMs v' = lastPolicyRefreshMs v }.

Lemma PostAccept_as (success r : bool) p o v v1 :
  accepted_as success r p v v1 → accepted_as success r p v (PostAccept o v1).
Proof. intros []. by destruct o. Qed.

Lemma metered_as (success : bool) p v w next acc' :
  metered (world v) w → next = (if success then S (next_session v) else next_session v) →
  accepted_as success false p v
    (mkServer w p next acc' (m_lastControlPlaneStatusCode v) (m_lastControlPlaneReportUnixMs v)
       (prevTotalConnections v) (prevTotalRejections v) (lastPolicyRefreshMs v)).
Proof. intros [] ?. by split. Qed.

Lemma accept_lets_in sock success associated o v v' :
  HandleAcceptCompletion sock success associated o v = Some v' →
  accepted_as success (let_in success associated v).1 (let_in success associated v).2 v v'.
Proof.
  unfold let_in.
  destruct success; cbn [andb].
  2:{ intros [= <-]. by apply PostAccept_as, metered_as. }
  rewrite HandleAcceptCompletion_stages. cbv zeta. simpl (world (set_next _ _)).
  set (s := next_session v). set (w1 := opened s sock (world v)).
  assert (H1 : metered (world v) w1) by by split.
  destruct associated; cbn [negb andb].
  2:{ intros [= <-]. apply PostAccept_as, (metered_as true _ v); [|done]. etrans; [exact H1|by split]. }
  cbn [SessionManager.Add]. set (n := upd_session s _ (net w1)). set (m := {| m_sessions := _ |}).
  set (w2 := with_smgr m (with_net n w1)). assert (H2 : metered w1 w2) by by split.
  simpl (policy (set_next _ _)). set (w3 := policy_clock _ w2).
  assert (H3 : metered w2 w3).
  { unfold w3, policy_clock. case_decide; [by split|]. split; [done| |done]. simpl. lia. }
  assert (H13 : metered (world v) w3) by (etrans; [exact H1|]; etrans; [exact H2|exact H3]).
  change ((UnixTimeMsNow n).1) with (wall (world v)).
  destruct (ConsumeGlobalConnectionToken (wall (world v)) (policy v)) as [r p]. destruct r; cbn [negb].
  - intros (w5 & E & [= <-])%bind_Some.
    apply (frame_PostRecv metered) in E. destruct H13 as [M1 M2 M3], E as [N1 N2 N3].
    apply PostAccept_as. split; try done.
    + change (connections w5 = u64 (connections (world v) + 1)). by rewrite N1, <- M1.
    + simpl in *. lia.
  - intros [= <-]. apply PostAccept_as, (metered_as true _ v); [|done]. etrans; [exact H13|].
    unfold rejected. set (w4 := on_stats inc_policyRejections w3).
    assert (H4 : metered w4 (with_net (Disconnect s (net w4)).2 w4)) by apply (frame_sends metered), Disconnect_sends.
    destruct H4 as [M1 M2 M3]. by split.
Qed.

(** *** The registry thread *)

(** Whether a turn asks for the policy, and whether the answer is applied. *)
Definition due v : bool :=
  bool_decide (wall (world v) - lastPolicyRefreshMs v >= Z.max 1000 (policyRefreshIntervalMs (cfg (world v)))).
Definition pulled (e : server_event) v : bool :=
  match e with
  | EvRegistry resp _ =>
      due v && (bool_decide (gameServerApiKey (cfg (world v)) ≠ "") && policy_applies resp)
  | _ => false
  end.

(** The policy after a turn: as before, or a full bucket since some reading of the clock. *)
Definition refilled (pull : bool) v v' : Prop :=
  if pull
  then 0 ≤ m_policyMaxConnectionsPerMinuteTotal (policy v') ≤ 2147483647
       ∧ m_globalConnTokens (policy v') = m_policyMaxConnectionsPerMinuteTotal (policy v')
       ∧ ∃ j, (n_system (net (world v)) ≤ j ≤ n_system (net (world v')))%nat
              ∧ m_globalConnLastRefillMs (policy v') = system_ms j
  else m_policyMaxConnectionsPerMinuteTotal (policy v') = m_policyMaxConnectionsPerMinuteTotal (policy v)
       ∧ m_globalConnTokens (policy v') = m_globalConnTokens (policy v)
       ∧ m_globalConnLastRefillMs (policy v') = m_globalConnLastRefillMs (policy v).

Lemma refresh_policy_refills resp v :
  refilled (bool_decide (gameServerApiKey (cfg (world v)) ≠ "") && policy_applies resp) v (refresh_policy resp v).
Proof.
  unfold refilled, refresh_policy. cbn [UnixTimeMsNow].
  set (n := n_system (net (world v))).
  pose proof (RefreshTrafficPolicy_bucket (gameServerApiKey (cfg (world v))) resp
    (system_ms n) (system_ms (S n)) (policy v)) as Hb. cbv zeta in Hb.
  case_decide as Hk; [by rewrite bool_decide_eq_false_2 by auto|]. rewrite bool_decide_eq_true_2 in * by done.
  cbn [andb set_policy policy] in *. destruct (policy_applies resp); cbn [andb] in *; [|done].
  destruct Hb as (H1 & H2 & H3). split; [exact H1|]. split; [exact H2|]. exists (S n). split; [|exact H3]. simpl. lia.
Qed.

Lemma RegistryTurn_refills resp post v :
  let v' := (RegistryTurn resp post v).2 in
  refilled (pulled (EvRegistry resp post) v) v v'
  ∧ lastPolicyRefreshMs v' = (if due v then wall (world v) else lastPolicyRefreshMs v).
Proof.
  intros v'. set (n := (UnixTimeMsNow (net (world v))).2). set (v1 := set_world (with_net n (world v)) v).
  pose proof (refresh_policy_refills resp v1) as Hr. pose proof (refresh_policy_clock resp v1) as [_ (j & Hj & Hw)].
  assert (Hn : (n_system (net (world v)) ≤ n_system (net (world v1)))%nat) by (simpl; lia).
  assert (Hr' : refilled (pulled (EvRegistry resp post) v) v (if due v then refresh_policy resp v1 else v1)).
  { unfold pulled. destruct (due v); cbn [andb]; [|done]. unfold refilled in *.
    change (gameServerApiKey (cfg (world v1))) with (gameServerApiKey (cfg (world v))) in Hr.
    destruct (_ && _); [|exact Hr]. destruct Hr as (H1 & H2 & k & Hk & H3). split; [exact H1|].
    split; [exact H2|]. exists k. split; [lia|done]. }
  unfold v', RegistryTurn. cbn [UnixTimeMsNow]. fold n. fold v1.
  change (bool_decide (system_ms _ - _ >= _)) with (due v).
  destruct (due v), (decide (gameServerApiKey (cfg (world v)) = "")); (split; [exact Hr'|done]).
Qed.

(** *** Every event *)

Definition turn_due (e : server_event) v : bool := match e with EvRegistry _ _ => due v | _ => false end.

Lemma refilled_not v v' : policy v' = policy v → refilled false v v'.
Proof. intros E. unfold refilled. by rewrite E. Qed.

Lemma lift_policy o v v' :
  lift o v = Some v' → policy v' = policy v ∧ lastPolicyRefreshMs v' = lastPolicyRefreshMs v.
Proof. destruct o; [|done]. by intros [= <-]. Qed.

Lemma event_refills e v v' :
  is_accept e = false → handle_event e v = Some v' →
  refilled (pulled e v) v v'
  ∧ lastPolicyRefreshMs v' = (if turn_due e v then wall (world v) else lastPolicyRefreshMs v).
Proof.
  intros Ha E.
  assert (Hs : (∀ resp post, e ≠ EvRegistry resp post) →
    policy v' = policy v ∧ lastPolicyRefreshMs v' = lastPolicyRefreshMs v).
  { intros Hne. destruct e as [| |a success| | |i get|resp post]; try done; cbn [handle_event] in E.
    - repeat case_match; by eapply lift_policy.
    - by destruct (send_completed a success v v' E) as (w' & _ & ->).
    - by eapply lift_policy.
    - by eapply lift_policy.
    - destruct (auth (world v) !! i) as [[token s]|]; [|by injection E as <-].
      destruct (validate get token). by eapply lift_policy.
    - by destruct (Hne resp post). }
  destruct e as [| | | | | |resp post]; [done|..].
  6:{ injection E as <-. apply RegistryTurn_refills. }
  all: destruct Hs as [Hp Hl]; [done|]; split; [by apply refilled_not|exact Hl].
Qed.

(** The clock of the system is set, and not set back. *)
Section clock.
Hypothesis clock_pos : ∀ k, 0 < system_ms k.
Hypothesis clock_mono : ∀ i j, (i ≤ j)%nat → system_ms i ≤ system_ms j.

Definition few v : Prop := Z.of_nat (next_session v) ≤ 2147483648.

Record admissible v : Prop := {
  ad_bucket : bucket_of (Z.of_nat (next_session v)) (wall (world v)) (policy v);
  ad_total : 0 ≤ connections (world v) ≤ Z.of_nat (next_session v);
  ad_refresh : lastPolicyRefreshMs v ≤ wall (world v) }.

(** What one event does to the bucket and the number of connections. *)
Record progress (pull turn : bool) v v' : Prop := {
  pr_next : (next_session v ≤ next_session v')%nat;
  pr_time : wall (world v) ≤ wall (world v');
  pr_cfg : cfg (world v') = cfg (world v);
  pr_refresh : lastPolicyRefreshMs v' = (if turn then wall (world v) else lastPolicyRefreshMs v);
  pr_turn : turn = true → due v = true;
  pr_pull : pull = true → turn = true;
  pr_outcome :
    refilled pull v v' ∧ connections (world v') = connections (world v)
    ∨ pull = false ∧ next_session v' = S (next_session v) ∧
      let '(r, p) := ConsumeGlobalConnectionToken (wall (world v)) (policy v) in
      policy v' = p ∧ connections (world v') = (if r then u64 (connections (world v) + 1) else connections (world v)) }.

Lemma event_progress e v v' :
  server_wf v → event_ok e v → handle_event e v = Some v' → progress (pulled e v) (turn_due e v) v v'.
Proof.
  intros Hv He E. assert (Hpt : pulled e v = true → turn_due e v = true) by (destruct e; try done; by intros [? _]%andb_true_iff).
  assert (Htd : turn_due e v = true → due v = true) by by destruct e.
  destruct (is_accept e) eqn:Ha.
  - destruct e as [success associated o| | | | | |]; try done. cbn [handle_event event_ok] in *.
    destruct (accepting v) as [sock|]; [|by destruct He].
    pose proof (accept_lets_in _ _ _ _ _ _ E) as Hl. unfold let_in in Hl.
    destruct success, associated; cbn [andb] in Hl; destruct Hl as [L1 L2 L3 L4 L5 L6]; simpl in L1, L2, L3;
      (split; [lia|by apply clock_mono|exact L5|exact L6|exact Htd|exact Hpt|]).
    + right. split; [done|]. split; [done|]. by destruct (ConsumeGlobalConnectionToken _ _).
    + left. split; [by apply refilled_not|done].
    + left. split; [by apply refilled_not|done].
    + left. split; [by apply refilled_not|done].
  - destruct (event_keeps e v v' Ha E) as [Hn _]. destruct (event_refills e v v' Ha E) as [Hr Hl].
    destruct (frame_event metered e v v') as [M1 M2 M3]; try done.
    split; [lia|by apply clock_mono|done|done|done|done|by left].
Qed.

Lemma progress_admissible pull turn v v' :
  progress pull turn v v' → few v' → admissible v → admissible v'.
Proof.
  intros [P1 P2 P3 P4 P5 P6 P7] Hf [A1 A2 A3]. unfold few in Hf. split.
  - destruct P7 as [[Hr _]|(_ & Hn & Hc)].
    + unfold refilled in Hr. destruct pull.
      * destruct Hr as (H1 & H2 & j & Hj & H3). pose proof (clock_mono j _ (proj2 Hj)). pose proof (clock_pos j).
        unfold wall. split; [lia|lia|lia|]. rewrite H3. lia.
      * destruct Hr as (H1 & H2 & H3). destruct A1 as [B1 B2 B3 B4]. split; rewrite ?H1, ?H2, ?H3; lia.
    + pose proof (consume_bucket (Z.of_nat (next_session v)) _ _ ltac:(lia) A1) as Hb.
      destruct (ConsumeGlobalConnectionToken _ _) as [r p]. destruct Hc as [-> _]. cbn [snd] in Hb.
      by eapply bucket_waits, Hb; lia.
  - destruct P7 as [[_ ->]|(_ & Hn & Hc)]; [lia|]. destruct (ConsumeGlobalConnectionToken _ _) as [r p].
    destruct Hc as [_ ->]. destruct r; [|lia]. unfold u64, wrapU. rewrite Z.mod_small; lia.
  - rewrite P4. destruct turn; lia.
Qed.

(** No event takes more from what can be admitted than it adds connections; time
    and a pull give it back. *)
Lemma progress_credit limit pull turn v v' :
  progress pull turn v v' → few v' → admissible v →
  0 < m_policyMaxConnectionsPerMinuteTotal (policy v) ≤ limit →
  0 < m_policyMaxConnectionsPerMinuteTotal (policy v') ≤ limit →
  60000 * (connections (world v') - connections (world v)) + credit limit (wall (world v')) (policy v')
  ≤ credit limit (wall (world v)) (policy v)
    + limit * ((if pull then 60000 else 0) + (wall (world v') - wall (world v))).
Proof.
  intros [P1 P2 P3 P4 P5 P6 P7] Hf [A1 A2 A3] Hl Hl'. unfold few in Hf.
  pose proof (bo_last _ _ _ A1 ltac:(lia)) as Hlast.
  destruct P7 as [[Hr ->]|(-> & Hn & Hc)].
  - unfold refilled in Hr. destruct pull.
    + destruct Hr as (H1 & H2 & j & Hj & H3).
      pose proof (clock_mono _ j (proj1 Hj)). pose proof (clock_mono j _ (proj2 Hj)).
      unfold credit, wall in *. rewrite H2, H3. nia.
    + destruct Hr as (H1 & H2 & H3). unfold credit. rewrite H2, H3. nia.
  - pose proof (consume_credit limit (Z.of_nat (next_session v)) _ _ ltac:(lia) A1 Hl) as Hb.
    destruct (ConsumeGlobalConnectionToken _ _) as [r p]. destruct Hc as [-> ->].
    pose proof (credit_waits limit _ _ p ltac:(lia) P2) as Hw.
    assert (E : (if r then u64 (connections (world v) + 1) else connections (world v))
                = connections (world v) + (if r then 1 else 0)).
    { destruct r; [|lia]. unfold u64, wrapU. rewrite Z.mod_small; lia. }
    rewrite E. lia.
Qed.

(** ** Runs *)

Lemma Server_new_admissible c o : admissible (Server_new c o).
Proof.
  pose proof (clock_pos 0).
  assert (Hb : bucket_of 0 (system_ms 0) Policy_new) by (by split; simpl; lia).
  destruct o; (split; [exact Hb|done|simpl; unfold wall; simpl; lia]).
Qed.

Lemma reachable_admissible c o v :
  rtc server_step (Server_new c o) v → server_wf v ∧ cfg (world v) = c ∧ (few v → admissible v).
Proof.
  intros Hr. apply (rtc_invariant server_step
    (λ v, server_wf v ∧ cfg (world v) = c ∧ (few v → admissible v)) (Server_new c o)); [| |exact Hr].
  { split; [apply Server_new_wf|]. split; [by destruct o|intros _; apply Server_new_admissible]. }
  intros v1 v2 (Hv & Hc & Ha) Hs. destruct Hs as [e v1 v2 He Hk E].
  destruct (event_safe e v1 Hv Hk He) as (v3 & E3 & Hv3). assert (v3 = v2) as -> by congruence.
  pose proof (event_progress e v1 v2 Hv He E) as Hp. split; [done|].
  split; [by rewrite (pr_cfg _ _ _ _ Hp)|]. intros Hf. apply (progress_admissible _ _ _ _ Hp Hf), Ha. unfold few in *. pose proof (pr_next _ _ _ _ Hp). lia.
Qed.

(** A period in which the control plane asks for a limit, of at most [limit]; the
    number of times its policy is pulled. *)
Inductive policed (limit : Z) v : Z → Server → Prop :=
  | policed_start :
      0 < m_policyMaxConnectionsPerMinuteTotal (policy v) ≤ limit → policed limit v 0 v
  | policed_event (k : Z) e v1 v2 :
      policed limit v k v1 → ids_left v1 → event_ok e v1 → handle_event e v1 = Some v2 →
      0 < m_policyMaxConnectionsPerMinuteTotal (policy v2) ≤ limit →
      policed limit v (k + if pulled e v1 then 1 else 0) v2.

Lemma policed_bound limit v (k : Z) v' :
  server_wf v → (few v → admissible v) → policed limit v k v' →
  let refresh := Z.max 1000 (policyRefreshIntervalMs (cfg (world v))) in
  let since u := Z.min refresh (wall (world u) - lastPolicyRefreshMs u) in
  server_wf v' ∧ cfg (world v') = cfg (world v) ∧ 0 < m_policyMaxConnectionsPerMinuteTotal (policy v') ≤ limit
  ∧ (few v' → few v ∧ admissible v'
     ∧ refresh * k + since v' ≤ since v + (wall (world v') - wall (world v))
     ∧ 60000 * (connections (world v') - connections (world v)) + credit limit (wall (world v')) (policy v')
       ≤ credit limit (wall (world v)) (policy v) + limit * (60000 * k + (wall (world v') - wall (world v)))).
Proof.
  intros Hv Ha Hp refresh since. induction Hp as [Hl|k e v1 v2 Hp (Hv1 & Hc1 & Hl1 & IH) Hk He E Hl].
  { split_and!; [done|done|lia|lia|]. intros Hf. split_and!; [done|by apply Ha|lia|lia]. }
  destruct (event_safe e v1 Hv1 Hk He) as (v3 & E3 & Hv3). assert (v3 = v2) as -> by congruence.
  pose proof (event_progress e v1 v2 Hv1 He E) as Hpr. pose proof Hpr as [P1 P2 P3 P4 P5 P6 _].
  split_and!; [done|congruence|lia|lia|]. intros Hf.
  destruct IH as (Hf0 & Ha1 & Hk1 & Hb1); [unfold few in *; lia|].
  pose proof (progress_credit limit _ _ _ _ Hpr Hf Ha1 Hl1 Hl) as Hb.
  split_and!; [done|by eapply progress_admissible| |].
  - assert (Hdue : turn_due e v1 = true → refresh ≤ wall (world v1) - lastPolicyRefreshMs v1).
    { intros Ht%P5. unfold due in Ht. apply bool_decide_eq_true in Ht. rewrite Hc1 in Ht. unfold refresh. lia. }
    unfold since in *. rewrite P4. destruct (pulled e v1), (turn_due e v1); try (specialize (P6 eq_refl); done);
      try specialize (Hdue eq_refl); lia.
  - destruct (pulled e v1); nia.
Qed.

(** C24. The connection policy holds for the running server.  Consider any period of
    a run during which the control plane asks for a limit per minute of at most
    [limit], and let [k] be the number of times its policy is pulled in the period.
    However many clients connect, and whatever else happens, the number of
    connections that the period adds to [totalConnections] is at most [limit] per
    minute, plus twice [limit] for the bucket at the beginning, plus [limit] for
    every pull, since a pull fills the bucket.  Pulls are at least the configured interval
    apart.  (The system clock is not set back, and the server has seen at most 2^31
    connections, beyond which the count of tokens could wrap.) *)
Theorem connections_policed c o v limit (k : Z) v' :
  rtc server_step (Server_new c o) v → policed limit v k v' → Z.of_nat (next_session v') ≤ 2147483648 →
  let period := wall (world v') - wall (world v) in
  60000 * (connections (world v') - connections (world v)) ≤ limit * (60000 * (2 + k) + period)
  ∧ Z.max 1000 (policyRefreshIntervalMs c) * (k - 1) ≤ period.
Proof.
  intros Hr Hp Hf period. destruct (reachable_admissible c o v Hr) as (Hv & Hc & Ha).
  destruct (policed_bound limit v k v' Hv Ha Hp) as (_ & _ & Hl' & Hb).
  assert (Hl : 0 < m_policyMaxConnectionsPerMinuteTotal (policy v) ≤ limit) by by clear -Hp; induction Hp.
  destruct (Hb Hf) as (Hfv & [A1 A2 A3] & Hk & Hconn). specialize (Ha Hfv). destruct Ha as [B1 B2 B3].
  pose proof (bo_last _ _ _ A1 ltac:(lia)). pose proof (bo_high _ _ _ B1).
  rewrite Hc in Hk. fold period in Hk, Hconn. unfold credit in Hconn. split; [nia|lia].
Qed.
End clock.
End server.
