(* ===== verification/Ranges.v ===== *)
(** * The rate limiter stays in range

    The packet rate limit of [Core/ServerSession.h] calculates with [int] and
    [int64_t].  In every reachable state of the server the limiters of its
    sessions are in a range in which nothing overflows, so that receiving is the
    same with unbounded integers ([serve_with CheckRateLimit_exact]). *)
From S2P Require Import Prelude Bytes Platform ObjectPool Packet RecvBuffer Protobuf PbRuntimeDemo PacketPb Session PacketTraits Config AuthService JobQueue GameRoom PacketManager SessionManager RoomManager Logic TrafficPolicy ServerCore ServerConn ServerSafety TestClient RoomSpec Requests Presence.
Local Open Scope Z_scope.

Section limiter.
Context `{Platform, PbRuntime}.
Implicit Types (w : World) (s t k : nat) (x : Session) (v : Server).

(** ** The limiter without bounds *)

(** [CheckRateLimit] on unbounded integers. *)
Definition CheckRateLimit_exact_at (now : Z) x : bool * Session :=
  let elapsed := now - m_lastRefillMs x in
  let refill := elapsed * (m_rateBurst x / 2) / 1000 in
  let x :=
    if decide (elapsed > 0 ∧ m_rateBurst x > 0 ∧ refill > 0)
    then set_rate (m_rateBurst x) (Z.min (m_rateBurst x) (m_rateTokens x + refill)) now x
    else x in
  (bool_decide (m_rateTokens x > 0),
   set_rate (m_rateBurst x) (m_rateTokens x - 1) (m_lastRefillMs x) x).

Definition CheckRateLimit_exact s (n : Net) : bool * Net :=
  let '(now, n) := NowMs n in
  let '(ok, x) := CheckRateLimit_exact_at now (sess s n) in
  (ok, upd_session s (λ _, x) n).

(** The receive loop, with any limiter. *)
Fixpoint serve_with (limit : nat → Net → bool * Net) (maxPacketSize : Z) s
    (packets : list (list byte)) w : option World :=
  match packets with
  | [] => PostRecv s w
  | p :: packets =>
      if decide (Z.of_nat (length p) > maxPacketSize) then
        HandleDisconnect s (on_stats inc_oversizedRejections w)
      else
        let '(r, n) := limit s (net w) in
        let w := with_net n w in
        if negb r then HandleDisconnect s (on_stats inc_rateLimitRejections w)
        else
          w ← HandlePacket handlers s p (on_stats inc_packetsReceived w);
          serve_with limit maxPacketSize s packets (pop_packet s (Z.of_nat (length p)) w)
  end.

Lemma serve_with_limit max s packets w : serve_with CheckRateLimit max s packets w = serve max s packets w.
Proof.
  revert w. induction packets as [|p packets IH]; intros w; cbn [serve_with serve]; [done|].
  case_decide; [done|]. destruct (CheckRateLimit s (net w)) as [[] n]; cbn [negb]; [|done].
  destruct (HandlePacket _ _ _ _); cbn [mbind option_bind]; auto.
Qed.

(** ** Ranges *)

(** The parameters of the range: the rate and the time of the first reading. *)
Context (r t0 : Z).
Hypothesis rate_range : 1 ≤ r ≤ 500000000.

(** A limiter that has never been started, or one of rate [r]. *)
Definition in_range (now : Z) x : Prop :=
  (m_rateBurst x = 0 ∧ -1 ≤ m_rateTokens x ≤ 0)
  ∨ (m_rateBurst x = 2 * r ∧ -1 ≤ m_rateTokens x ≤ 2 * r ∧ t0 ≤ m_lastRefillMs x ≤ now).

(** A limiter of a connection that receives. *)
Definition running (now : Z) x : Prop :=
  m_rateBurst x = 2 * r ∧ 0 ≤ m_rateTokens x ≤ 2 * r ∧ t0 ≤ m_lastRefillMs x ≤ now.

Lemma running_in_range now x : running now x → in_range now x.
Proof. unfold running, in_range. lia. Qed.

Lemma in_range_mono now now' x : now ≤ now' → in_range now x → in_range now' x.
Proof. unfold in_range. lia. Qed.

Lemma CheckRateLimit_at_range now x :
  running now x → r * (now - t0) ≤ 1000000000000 →
  CheckRateLimit_at now x = CheckRateLimit_exact_at now x
  ∧ let '(ok, x') := CheckRateLimit_at now x in
    in_range now x' ∧ (ok = true → running now x').
Proof.
  intros (Eb & Ht & Hl) Hb. unfold CheckRateLimit_at, CheckRateLimit_exact_at.
  set (e := now - m_lastRefillMs x) in *. rewrite Eb.
  replace (2 * r) with (r * 2) by lia. rewrite Z.quot_mul, Z.div_mul by lia.
  assert (He : 0 ≤ e * r ≤ 1000000000000) by (unfold e in *; nia).
  rewrite (i64_id (e * r)), Z.quot_div_nonneg by lia.
  set (q := e * r / 1000). assert (Hq : 0 ≤ q ≤ 1000000000).
  { unfold q. split; [apply Z.div_pos; lia|]. apply Z.div_le_upper_bound; lia. }
  rewrite (i32_id q), (i32_id (m_rateTokens x + q)) by lia.
  assert (Hx : ∀ y, m_rateBurst y = 2 * r → 0 ≤ m_rateTokens y ≤ 2 * r → t0 ≤ m_lastRefillMs y ≤ now →
    (bool_decide (m_rateTokens y > 0),
     set_rate (m_rateBurst y) (i32 (m_rateTokens y - 1)) (m_lastRefillMs y) y)
    = (bool_decide (m_rateTokens y > 0),
       set_rate (m_rateBurst y) (m_rateTokens y - 1) (m_lastRefillMs y) y)
    ∧ in_range now (set_rate (m_rateBurst y) (i32 (m_rateTokens y - 1)) (m_lastRefillMs y) y)
    ∧ (bool_decide (m_rateTokens y > 0) = true →
       running now (set_rate (m_rateBurst y) (i32 (m_rateTokens y - 1)) (m_lastRefillMs y) y))).
  { intros y Y1 Y2 Y3. rewrite i32_id by lia. split_and!; [done|right; simpl; lia|].
    intros Hp%bool_decide_eq_true. repeat split; simpl; lia. }
  destruct (decide (e > 0 ∧ r * 2 > 0 ∧ q > 0)) as [Hc|Hc].
  - rewrite (decide_True (P:=e > 0 ∧ r * 2 > 0)), (decide_True (P:=q > 0)) by lia.
    apply (Hx (set_rate (r * 2) (Z.min (r * 2) (m_rateTokens x + q)) now x)); simpl; lia.
  - assert (Hno : (if decide (e > 0 ∧ r * 2 > 0)
      then if decide (q > 0) then set_rate (r * 2) (Z.min (r * 2) (m_rateTokens x + q)) now x else x
      else x) = x) by (case_decide; [rewrite decide_False by lia|]; done).
    rewrite Hno. by apply Hx.
Qed.

(** ** The invariant *)

(** A session may be out of tokens only if its connection has ended; [o] is one
    that has just run out. *)
Record limits (o : option nat) w : Prop := {
  lm_cfg : packetRateLimitPerSec (cfg w) = r;
  lm_range : ∀ t, in_range (time w) (sess t (net w));
  lm_spent : ∀ t, o ≠ Some t → m_rateTokens (sess t (net w)) = -1 →
    IsDisconnected t (net w) = true ∧ t ∉ rx_pending (net w);
  lm_pending : ∀ t, t ∈ rx_pending (net w) → m_rateBurst (sess t (net w)) = 2 * r }.

Definition limiter x : Z * Z * Z := (m_rateBurst x, m_rateTokens x, m_lastRefillMs x).

(** Actions that do not ask the limiters; new receives are posted only for
    connections whose limiter is started. *)
Record keeps w w' : Prop := {
  kp_limiter : ∀ t, limiter (sess t (net w')) = limiter (sess t (net w));
  kp_disc : ∀ t, IsDisconnected t (net w) = true → IsDisconnected t (net w') = true;
  kp_pending : ∀ t, t ∈ rx_pending (net w') → t ∈ rx_pending (net w)
    ∨ IsDisconnected t (net w) = false ∧ m_rateBurst (sess t (net w)) = 2 * r;
  kp_time : (n_steady (net w) ≤ n_steady (net w'))%nat;
  kp_cfg : cfg w' = cfg w }.

Lemma limiter_eq x y : limiter x = limiter y →
  m_rateBurst x = m_rateBurst y ∧ m_rateTokens x = m_rateTokens y ∧ m_lastRefillMs x = m_lastRefillMs y.
Proof. by intros [= -> -> ->]. Qed.

#[export] Instance keeps_preorder : PreOrder keeps.
Proof.
  split; [intros w; split; auto|]. intros w1 w2 w3 [A1 A2 A3 A4 A5] [B1 B2 B3 B4 B5].
  split; [intros t; by rewrite B1|eauto| |lia|congruence].
  intros t [Ht|[Hd Hb]]%B3; [by apply A3|]. right.
  destruct (limiter_eq _ _ (A1 t)) as (<- & _). split; [|done].
  apply not_true_iff_false. intros Hd'%A2. congruence.
Qed.

Lemma limiter_range now x y : limiter x = limiter y → in_range now x → in_range now y.
Proof. intros (E1 & E2 & E3)%limiter_eq. unfold in_range. by rewrite E1, E2, E3. Qed.

Lemma keeps_time w w' : keeps w w' → time w ≤ time w'.
Proof. intros Hk. apply steady_mono, Hk. Qed.

Lemma keeps_limits o w w' :
  limits o w → keeps w w' → (∀ s, o = Some s → rx_pending (net w') = rx_pending (net w)) → limits o w'.
Proof.
  intros [L1 L2 L3 L4] Hk Ho. pose proof (keeps_time _ _ Hk). destruct Hk as [K1 K2 K3 K4 K5].
  split; [by rewrite K5| | |].
  - intros t. apply (in_range_mono (time w)); [done|]. eapply limiter_range; [symmetry; apply K1|done].
  - intros t Ht Hs. destruct (limiter_eq _ _ (K1 t)) as (_ & E & _). rewrite E in Hs.
    destruct (L3 t Ht Hs) as [Hd Hp]. split; [by apply K2|]. intros [?|[? _]]%K3; [done|congruence].
  - intros t. destruct (limiter_eq _ _ (K1 t)) as (-> & _). intros [Ht|[_ Hb]]%K3; auto.
Qed.

Lemma keeps_none w w' : limits None w → keeps w w' → limits None w'.
Proof. intros Hl Hk. by eapply keeps_limits. Qed.

(** *** Actions that keep the limiters *)

Lemma plays_keeps w w' : plays (net w) (net w') → cfg w' = cfg w → keeps w w'.
Proof.
  intros Hp Hc. split; [| | |apply Hp|done].
  - intros t. by apply (plays_field limiter (net w) (net w')).
  - intros t. apply (plays_disc _ _ Hp).
  - intros t. rewrite (plays_recv _ _ Hp). by left.
Qed.

Lemma handles_keeps P w w' : handles P w w' → keeps w w'.
Proof. intros []. by apply plays_keeps. Qed.

(** Changing nothing of interest in one session. *)
Lemma upd_keeps s f w :
  (∀ x, limiter (f x) = limiter x ∧ m_disconnected (f x) = m_disconnected x) →
  keeps w (with_net (upd_session s f (net w)) w).
Proof.
  intros Hf. split; try done; [| |by left].
  - intros t. simpl. rewrite sess_upd_dec. case_decide; [|done]. subst. apply Hf.
  - intros t. unfold IsDisconnected. simpl. rewrite sess_upd_dec. case_decide; [|done].
    subst. by rewrite (proj2 (Hf _)).
Qed.

(** Changing nothing of interest at all. *)
Lemma same_keeps w w' :
  sessions (net w') = sessions (net w) → rx_pending (net w') = rx_pending (net w) →
  (n_steady (net w) ≤ n_steady (net w'))%nat → cfg w' = cfg w → keeps w w'.
Proof.
  intros Es Ep Ht Hc. split; try done; unfold IsDisconnected, sess; rewrite ?Es; auto.
  rewrite Ep. by left.
Qed.

Lemma stats_keeps f w : keeps w (on_stats f w).
Proof. by apply same_keeps. Qed.

Lemma HandleDisconnect_keeps s w w' : HandleDisconnect s w = Some w' → keeps w w'.
Proof.
  intros E. destruct (HandleDisconnect_quiet s w w' E) as [Hq _]. split.
  - intros t. by apply (HandleDisconnect_field limiter s).
  - intros t Hd. destruct (decide (t = s)) as [->|Hne].
    + rewrite HandleDisconnect_again in E by done. by injection E as <-.
    + unfold IsDisconnected in *. by rewrite (HandleDisconnect_other s t w w').
  - intros t. rewrite (q_pending _ _ Hq). by left.
  - by rewrite (HandleDisconnect_steady s w w').
  - apply Hq.
Qed.

Lemma PostRecv_keeps s w w' :
  m_rateBurst (sess s (net w)) = 2 * r → PostRecv s w = Some w' → keeps w w'.
Proof.
  intros Hb. unfold PostRecv. destruct (IsDisconnected s (net w)) eqn:Hd; [by intros [= <-]|].
  destruct (m_recvContext _) as [c|]; [|done]. destruct (GetWriteBufferPtr _) as [off b'].
  set (f1 := set_recvBuffer b'). set (w1 := with_net (upd_session s f1 (net w)) w).
  set (f2 := set_recvContext _). set (w2 := with_net (upd_session s f2 (net w1)) w1).
  assert (H12 : keeps w w2).
  { etrans; [apply (upd_keeps s f1 w)|apply (upd_keeps s f2 w1)]; done. }
  assert (H3 : keeps w (WSARecv s w2).2).
  { destruct H12 as [K1 K2 K3 K4 K5]. split; try done. simpl. intros t. case_match; [|apply K3].
    intros [Ht| ->%list_elem_of_singleton]%elem_of_app; [by apply K3|by right]. }
  destruct (WSARecv s w2) as [ok w3]. cbn [snd] in H3. destruct ok; [by intros [= <-]|].
  intros E. etrans; [exact H3|]. by eapply HandleDisconnect_keeps.
Qed.

(** ** Receiving *)

(** The server does not run longer than this before the clock is at its end. *)
Hypothesis uptime : ∀ k, r * (steady_ms k - t0) ≤ 1000000000000.

Definition online s w : Prop := limits None w ∧ running (time w) (sess s (net w)).

Lemma keeps_online s w w' : online s w → keeps w w' → online s w'.
Proof.
  intros [Hl Hr] Hk. split; [by eapply keeps_none|]. pose proof (keeps_time _ _ Hk).
  destruct (limiter_eq _ _ (kp_limiter _ _ Hk s)) as (E1 & E2 & E3).
  unfold running in *. rewrite E1, E2, E3. lia.
Qed.

(** Asking the limiter. *)
Lemma CheckRateLimit_limits s w :
  online s w → s ∉ rx_pending (net w) →
  CheckRateLimit s (net w) = CheckRateLimit_exact s (net w)
  ∧ let '(ok, n) := CheckRateLimit s (net w) in
    if ok then online s (with_net n w) else limits (Some s) (with_net n w).
Proof.
  intros [[L1 L2 L3 L4] Hr] Hs. unfold CheckRateLimit, CheckRateLimit_exact.
  set (n1 := (NowMs (net w)).2). change (NowMs (net w)) with (time w, n1). cbv beta iota.
  change (sess s n1) with (sess s (net w)).
  destruct (CheckRateLimit_at_range (time w) (sess s (net w)) Hr (uptime _)) as [<- Hx].
  split; [done|]. destruct (CheckRateLimit_at _ _) as [ok x]. destruct Hx as [Hi Hok].
  set (w' := with_net _ w). assert (Ht : time w ≤ time w') by (apply steady_mono; simpl; lia).
  assert (Hne : ∀ t, t ≠ s → sess t (net w') = sess t (net w)).
  { intros t Hne. simpl. by rewrite sess_upd_ne. }
  assert (Hsx : sess s (net w') = x) by (simpl; by rewrite sess_upd).
  assert (Hl : limits (Some s) w').
  { split; [done|..].
    - intros t. apply (in_range_mono (time w)); [done|].
      destruct (decide (t = s)) as [->|?]; [by rewrite Hsx|by rewrite Hne].
    - intros t Hts. unfold IsDisconnected. rewrite Hne by congruence. by apply L3.
    - intros t Hp. rewrite Hne; [by apply L4|]. by intros ->. }
  destruct ok; [|done]. assert (Hr' : running (time w') x) by (specialize (Hok eq_refl); unfold running in *; lia).
  split; [|by rewrite Hsx]. destruct Hl as [M1 M2 M3 M4]. split; try done.
  intros t _. destruct (decide (t = s)) as [->|?]; [|by apply M3; congruence].
  rewrite Hsx. destruct Hr'. lia.
Qed.

(** One that is out of tokens is disconnected. *)
Lemma refused_limits s w w' :
  conn_wf w → limits (Some s) w → s ∉ rx_pending (net w) → HandleDisconnect s w = Some w' →
  limits None w'.
Proof.
  intros Hc Hl Hs E. destruct (HandleDisconnect_gone s w Hc) as (w1 & E1 & Hg).
  assert (w1 = w') as -> by congruence. pose proof (q_pending _ _ (gn_quiet _ _ _ Hg)) as Hp.
  destruct (keeps_limits (Some s) w w' Hl) as [L1 L2 L3 L4]; [by eapply HandleDisconnect_keeps|done|].
  split; try done. intros t _ Ht. destruct (decide (t = s)) as [->|Hne]; [|apply L3; congruence].
  split; [apply Hg|by rewrite Hp].
Qed.

Lemma serve_limits max s packets rest w w' :
  serving s w → contents (m_recvBuffer (sess s (net w))) = concat packets ++ rest →
  online s w → serve max s packets w = Some w' →
  serve_with CheckRateLimit_exact max s packets w = serve max s packets w ∧ limits None w'.
Proof.
  revert w. induction packets as [|p packets IH]; intros w Hs Hcont Ho; cbn [serve serve_with].
  { intros E. split; [done|]. eapply keeps_none; [apply Ho|]. by eapply PostRecv_keeps, E; apply Ho. }
  case_decide as Hsz.
  { intros E. split; [done|]. eapply keeps_none; [apply Ho|].
    etrans; [apply stats_keeps|by eapply HandleDisconnect_keeps]. }
  destruct (CheckRateLimit_limits s w Ho (sg_idle _ _ Hs)) as [<- Hl].
  destruct (serving_admit s w Hs) as [Hs1 Hq1]. destruct (CheckRateLimit_ok s w) as [Hw0 Hq0]; [apply Hs|].
  destruct (CheckRateLimit s (net w)) as [ok n]. cbn [snd] in *. destruct ok; cbn [negb].
  - destruct (HandlePacket_serving (λ _, True) s p _ I Hs1) as (w2 & -> & Hs2 & Hq2 & Hh).
    cbn [mbind option_bind]. intros E.
    destruct (serving_next s p packets rest w w2 Hcont) as [Hs3 Hcont3]; [etrans; [exact Hq1|exact Hq2]|done|].
    apply IH; [done..| |done].
    eapply keeps_online; [exact Hl|]. etrans; [apply stats_keeps|].
    etrans; [by eapply handles_keeps|]. by apply upd_keeps.
  - intros E. split; [done|]. set (w1 := on_stats inc_rateLimitRejections _) in *.
    assert (Hc0 : conn_wf (with_net n w)) by (eapply conn_quiet; [apply Hs|done|done]).
    apply (refused_limits s w1); [apply (conn_stats _ _ Hc0)| | |done].
    + eapply keeps_limits; [exact Hl|by apply stats_keeps|done].
    + change (s ∉ rx_pending (net (with_net n w))). rewrite (q_pending _ _ Hq0). apply Hs.
Qed.

(** A session with an outstanding receive. *)
Lemma pending_online s w : limits None w → s ∈ rx_pending (net w) → online s w.
Proof.
  intros Hl Hs. split; [done|]. pose proof (lm_pending _ _ Hl s Hs) as Hb.
  assert (Ht : m_rateTokens (sess s (net w)) ≠ -1).
  { intros Ht. by destruct (lm_spent _ _ Hl s ltac:(done) Ht). }
  destruct (lm_range _ _ Hl s) as [[??]|[??]]; unfold running; lia.
Qed.

Lemma kernel_receive_keeps s data w : keeps w (kernel_receive s data w).
Proof.
  unfold kernel_receive. set (n1 := mkNet _ _ _ _ _ _ _ _ _ _ _).
  assert (H1 : keeps w (with_net n1 w)).
  { split; try done. intros t. simpl. rewrite elem_of_us_erase. tauto. }
  etrans; [exact H1|]. apply (upd_keeps s _ (with_net n1 w)). intros x. by repeat case_match.
Qed.

Lemma received_keeps s d w : keeps w (received s d w).
Proof.
  unfold received. set (f := λ x, set_recvBuffer _ x). set (w1 := with_net (upd_session s f (net w)) w).
  etrans; [by apply (upd_keeps s f w)|]. fold w1. etrans; [|apply stats_keeps]. cbv zeta.
  unfold UpdateActivity. set (n2 := (NowMs (net w1)).2). change (NowMs (net w1)) with (time w1, n2).
  cbv beta iota. etrans; [|by apply (upd_keeps s _ (with_net n2 w1))].
  apply same_keeps; try done. simpl. lia.
Qed.

Lemma HandleRecv_limits s data w w' :
  conn_wf w → s ∈ rx_pending (net w) →
  (∃ c, m_recvContext (sess s (net w)) = Some c ∧ Z.of_nat (length data) ≤ wsaBuf_len c) →
  limits None w → let k := Z.of_nat (length data) in let w1 := kernel_receive s data w in
  HandleRecv s k w1 = Some w' →
  HandleRecv s k w1 = serve_with CheckRateLimit_exact (maxPacketSize (cfg w)) s
                        (frames (unread s w ++ data)).1 (received s k w1)
  ∧ limits None w'.
Proof.
  intros Hc Hs Hx Hl k w1. destruct (HandleRecv_ok s data w Hc Hs Hx) as (E0 & _). fold k w1 in E0.
  destruct (kernel_receive_ok s data w Hc Hs Hx) as (Hs1 & Hlen & Hcont & _). fold k w1 in Hlen.
  destruct (received_ok s k w1 Hs1) as (Hs2 & Hb2 & _); [split; [unfold k; lia|exact Hlen]|].
  intros E. rewrite E0 in E |- *.
  destruct (serve_limits (maxPacketSize (cfg w)) s (frames (unread s w ++ data)).1
    (frames (unread s w ++ data)).2 (received s k w1) w') as [-> Hl']; [done| | |exact E|done].
  - rewrite Hb2. unfold k, w1. rewrite Hcont. apply frames_concat.
  - eapply keeps_online; [by apply pending_online|].
    etrans; [apply kernel_receive_keeps|apply received_keeps].
Qed.

(** ** Accepting *)

Hypothesis first_reading : ∀ k, t0 ≤ steady_ms k.

(** Starting over with a session that has no receive outstanding. *)
Lemma fresh_limits s f w :
  limits None w → s ∉ rx_pending (net w) → (∀ x, running (time w) (f x) ∨ f x = Session_new) →
  limits None (with_net (upd_session s f (net w)) w).
Proof.
  intros [L1 L2 L3 L4] Hs Hf. split; simpl; [done|intros t..]; unfold IsDisconnected; simpl;
    rewrite sess_upd_dec; case_decide; try subst t; auto.
  - destruct (Hf (sess s (net w))) as [Hr| ->]; [exact (running_in_range _ _ Hr)|left; simpl; lia].
  - intros _ Ht. destruct (Hf (sess s (net w))) as [Hr|Hr]; [destruct Hr; lia|by rewrite Hr in Ht].
  - apply L3.
  - intros Ht. by destruct (Hs Ht).
Qed.

Lemma opened_limits s sock w :
  limits None w → s ∉ rx_pending (net w) → limits None (opened s sock w).
Proof.
  intros Hl Hs. unfold opened, Session_Init, UpdateActivity.
  set (n1 := upd_session s (λ _, Session_new) (net w)).
  set (n2 := upd_session s (set_sock (Some sock)) n1).
  set (n3 := (NowMs n2).2). change (NowMs n2) with (steady_ms (n_steady n2), n3). cbv beta iota zeta.
  apply (keeps_none (with_net n1 w)); [by apply fresh_limits; auto|].
  etrans; [by apply (upd_keeps s (set_sock (Some sock)) (with_net n1 w))|].
  etrans; [apply (same_keeps _ (with_net n3 w)); try done; simpl; lia|].
  etrans; [by apply (upd_keeps s (set_lastActivity (steady_ms (n_steady n2))) (with_net n3 w))|].
  by apply (upd_keeps s _ (with_net (upd_session s _ n3) w)).
Qed.

Lemma admitted_limits s w :
  limits None w → s ∉ rx_pending (net w) →
  limits None (admitted s w) ∧ m_rateBurst (sess s (net (admitted s w))) = 2 * r.
Proof.
  intros Hl Hs. unfold admitted, InitRateLimit. set (n1 := (NowMs (net w)).2).
  change (NowMs (net w)) with (time w, n1). cbv beta iota. rewrite (lm_cfg _ _ Hl).
  set (f := InitRateLimit_at (time w) r).
  assert (H1 : keeps w (with_net n1 w)) by (apply same_keeps; try done; simpl; lia).
  pose proof (keeps_time _ _ H1) as Ht. split.
  - eapply keeps_none; [|apply stats_keeps]. apply (fresh_limits s f (with_net n1 w)); [|done|].
    + by eapply keeps_none.
    + intros x. left. unfold f, running. simpl. rewrite i32_id by lia.
      pose proof (first_reading (n_steady (net w))). unfold time in *. lia.
  - simpl. change (sess s (set_stats ?a ?b)) with (sess s b). rewrite sess_upd. simpl. rewrite i32_id; lia.
Qed.

Lemma PostAccept_keeps o v : keeps (world v) (world (PostAccept o v)).
Proof. destruct o; [done|by apply same_keeps|done]. Qed.

Lemma rejected_keeps s id w : keeps w (rejected s id w).
Proof.
  unfold rejected. set (w1 := on_stats _ w). etrans; [apply (stats_keeps inc_policyRejections)|].
  apply plays_keeps; [|done]. apply sends_plays, Disconnect_sends.
Qed.

Lemma HandleAcceptCompletion_limits sock success associated sock' v v' :
  server_wf v → limits None (world v) →
  HandleAcceptCompletion sock success associated sock' v = Some v' → limits None (world v').
Proof.
  intros [Hc Hw] Hl. destruct success.
  2:{ intros [= <-]. eapply keeps_none; [|apply PostAccept_keeps].
      eapply keeps_none; [exact Hl|by apply same_keeps]. }
  rewrite HandleAcceptCompletion_stages. cbv zeta. simpl (world (set_next _ _)).
  destruct (opened_ok (next_session v) sock (world v) Hc Hw) as (_ & Hw1 & _).
  set (s := next_session v) in *. set (w1 := opened s sock (world v)) in *.
  assert (Hout : ∀ w, within s w → s ∉ rx_pending (net w)) by (intros w [Hp _ _] ?%Hp; lia).
  assert (Hl1 : limits None w1) by (by apply opened_limits; [|apply Hout]).
  destruct associated; cbn [negb].
  2:{ intros [= <-]. eapply keeps_none; [|apply PostAccept_keeps].
      eapply keeps_none; [exact Hl1|by apply same_keeps]. }
  cbn [Add]. set (n := upd_session s _ (net w1)). set (m := {| m_sessions := _ |}).
  set (w2 := with_smgr m (with_net n w1)). assert (H2 : keeps w1 w2).
  { etrans; [by apply (upd_keeps s (SetSessionId (m_nextSessionId (smgr w1))) w1)|by apply same_keeps]. }
  simpl (policy (set_next _ _)). set (w3 := policy_clock _ w2).
  assert (H3 : keeps w2 w3) by (unfold w3, policy_clock; case_decide; by apply same_keeps).
  assert (Hl3 : limits None w3) by (eapply keeps_none; [exact Hl1|by etrans]).
  assert (Hs3 : s ∉ rx_pending (net w3)).
  { unfold w3, policy_clock. case_decide; apply (Hout _ Hw1). }
  destruct (ConsumeGlobalConnectionToken _ _) as [ok p]. destruct ok; cbn [negb].
  - destruct (admitted_limits s w3 Hl3 Hs3) as [Hl4 Hb4].
    destruct (PostRecv s (admitted s w3)) as [w5|] eqn:E; [|done]. intros [= <-].
    eapply keeps_none; [|apply PostAccept_keeps]. eapply keeps_none; [exact Hl4|].
    by eapply PostRecv_keeps.
  - intros [= <-]. eapply keeps_none; [|apply PostAccept_keeps].
    eapply keeps_none; [exact Hl3|apply rejected_keeps].
Qed.

(** ** The other events *)

Lemma GameTick_keeps w w' : GameTick w = Some w' → keeps w w'.
Proof.
  unfold GameTick. destruct (TickAll _ _ _) as [[R n]|] eqn:E; [|done]. intros [= <-].
  apply plays_keeps; [|done]. by eapply tick_rooms_plays.
Qed.

Lemma heartbeat_sessions_keeps timeoutMs ss w w' :
  heartbeat_sessions timeoutMs ss w = Some w' → keeps w w'.
Proof.
  revert w. induction ss as [|s ss IH]; intros w; cbn [heartbeat_sessions]; [by intros [= <-]|].
  unfold IsTimedOut. set (n := (NowMs (net w)).2). change (NowMs (net w)) with (time w, n).
  cbv beta iota. assert (H1 : keeps w (with_net n w)) by (apply plays_keeps; [apply NowMs_plays|done]).
  destruct (bool_decide _); [|intros E; etrans; [exact H1|by apply IH]].
  destruct (HandleDisconnect s (with_net n w)) as [w2|] eqn:E2; [|done]. cbn [mbind option_bind].
  intros E. etrans; [exact H1|]. etrans; [by eapply HandleDisconnect_keeps|by apply IH].
Qed.

Lemma Heartbeat_keeps w w' : Heartbeat w = Some w' → keeps w w'.
Proof.
  unfold Heartbeat. destruct (heartbeat_sessions _ _ w) as [w1|] eqn:E; [|done].
  cbn [mbind option_bind]. apply heartbeat_sessions_keeps in E.
  set (idle := idleRoomTimeoutMs _).
  assert (Hp : plays (net w1) (RemoveIdleRooms idle (rooms w1) (net w1)).2) by apply NowMs_plays.
  destruct (RemoveIdleRooms _ _ _) as [[removed R] n]. intros [= <-]. etrans; [exact E|]. by apply plays_keeps.
Qed.

Lemma login_callback_keeps s valid account w w' :
  world_wf w → login_callback s valid account w = Some w' → keeps w w'.
Proof.
  intros Hw E. destruct (login_callback_safe (λ _, True) s valid account w I Hw)
    as (w1 & E1 & _ & _ & _ & Hh). assert (w1 = w') as -> by congruence.
  etrans; [|by eapply handles_keeps]. apply upd_keeps. intros x. by destruct valid.
Qed.

Lemma clock_only_keeps v v' : clock_only v v' → keeps (world v) (world v').
Proof. intros [_ (j & _ & ->)]. by apply same_keeps. Qed.

Lemma lift_limits v v' o :
  (∀ w', o = Some w' → keeps (world v) w') → lift o v = Some v' → keeps (world v) (world v').
Proof. intros Hk. destruct o as [w'|]; [|done]. intros [= <-]. by apply Hk. Qed.

Lemma event_limits e v v' :
  server_wf v → event_ok e v → handle_event e v = Some v' →
  limits None (world v) → limits None (world v').
Proof.
  intros Hv He E Hl. pose proof Hv as [Hc _].
  destruct e as [success associated sock'|s success data|a success| | |i get|resp post];
    cbn [handle_event event_ok] in *.
  - destruct (accepting v); [by eapply HandleAcceptCompletion_limits|by injection E as <-].
  - destruct He as [Hs Hx]. destruct success; cbn [negb] in E; [case_decide|].
    2:{ destruct (HandleRecv _ _ _) as [w'|] eqn:E'; [|done]. injection E as <-.
        by eapply (HandleRecv_limits s data (world v) w'). }
    all: eapply keeps_none; [exact Hl|]; eapply lift_limits; [|exact E]; intros w' E'.
    all: etrans; [apply kernel_receive_keeps|by eapply HandleDisconnect_keeps].
  - eapply keeps_none; [exact Hl|].
    destruct (send_completed a success v v' E) as (w' & [->|[s E']] & ->); [by apply same_keeps|].
    etrans; [by eapply HandleDisconnect_keeps|by apply same_keeps].
  - eapply keeps_none; [exact Hl|]. eapply lift_limits; [|exact E]. apply GameTick_keeps.
  - eapply keeps_none; [exact Hl|]. eapply lift_limits; [|exact E]. apply Heartbeat_keeps.
  - destruct (auth (world v) !! i) as [[token s]|]; [|by injection E as <-].
    destruct (validate get token) as [valid acc]. eapply keeps_none; [exact Hl|].
    eapply lift_limits; [|exact E]. intros w' E'.
    etrans; [by apply (same_keeps _ (with_auth (delete i (auth (world v))) (world v)))|].
    eapply login_callback_keeps, E'. destruct (cw_world _ Hc). by split.
  - injection E as <-. eapply keeps_none; [exact Hl|]. apply clock_only_keeps, RegistryTurn_clock.
Qed.
End limiter.

Section server.
Context `{Platform, PbRuntime}.
Implicit Types (w : World) (s t k : nat) (v : Server).

Lemma Server_new_limits c o (r : Z) :
  packetRateLimitPerSec c = r → 1 ≤ r ≤ 500000000 → limits r (steady_ms 0) None (world (Server_new c o)).
Proof.
  intros Hr Hrange. unfold Server_new. eapply keeps_none; [done| |apply PostAccept_keeps]. split.
  - done.
  - intros t. left. change (sess t _) with Session_new. simpl. lia.
  - intros t _. by change (sess t _) with Session_new.
  - intros t Ht. by apply elem_of_nil in Ht.
Qed.

Lemma steady_first k : steady_ms 0 ≤ steady_ms k.
Proof. apply steady_mono. lia. Qed.

Lemma reachable_limits c o v (r : Z) :
  packetRateLimitPerSec c = r → 1 ≤ r ≤ 500000000 →
  (∀ k, r * (steady_ms k - steady_ms 0) ≤ 1000000000000) →
  rtc server_step (Server_new c o) v → server_wf v ∧ limits r (steady_ms 0) None (world v).
Proof.
  intros Hr Hrange Hup Hrun.
  apply (rtc_invariant server_step (λ v, server_wf v ∧ limits r (steady_ms 0) None (world v))
    (Server_new c o)); [split; [apply Server_new_wf|by apply Server_new_limits]| |done].
  intros v1 v2 [Hv Hl] Hs. destruct Hs as [e v1 v2 He Hk E].
  destruct (event_safe e v1 Hv Hk He) as (v' & E' & Hv'). assert (v' = v2) as -> by congruence.
  split; [done|]. by apply (event_limits r (steady_ms 0) Hrange Hup steady_first e v1 v2).
Qed.

(** C23. The packet rate limit never overflows.  Let the rate be positive and at most
    500000000, and let the server run for at most 10^12 / rate ms (115 days for the
    default rate of 100).  Then in every reachable state no session has
    more tokens than the burst or less than -1, and only one whose connection has
    ended has less than 0.  Whenever a receive completes, the limiter of
    its session is started with the configured rate and refilled at a time in the past, and what
    [HandleRecv] does is what it would do with unbounded integers: every packet is
    admitted or refused as the limiter of mathematics says. *)
Theorem limiter_in_range c o v :
  let r := packetRateLimitPerSec c in let w := world v in
  1 ≤ r ≤ 500000000 → (∀ k, r * (steady_ms k - steady_ms 0) ≤ 1000000000000) →
  rtc server_step (Server_new c o) v →
  (∀ t, let x := sess t (net w) in
    -1 ≤ m_rateTokens x ≤ 2 * r ∧ (m_rateTokens x < 0 → IsDisconnected t (net w) = true))
  ∧ ∀ s data, event_ok (EvRecv s true data) v →
    let x := sess s (net w) in let k := Z.of_nat (length data) in let w1 := kernel_receive s data w in
    (m_rateBurst x = 2 * r ∧ 0 ≤ m_rateTokens x ∧ steady_ms 0 ≤ m_lastRefillMs x ≤ time w)
    ∧ HandleRecv s k w1
      = serve_with CheckRateLimit_exact (maxPacketSize (cfg w)) s
          (frames (unread s w ++ data)).1 (received s k w1).
Proof.
  intros r w Hr Hup Hrun. destruct (reachable_limits c o v r eq_refl Hr Hup Hrun) as [[Hc Hw] Hl]. fold w in Hc, Hl. split.
  - intros t x. assert (Hx : -1 ≤ m_rateTokens x ≤ 2 * r).
    { destruct (lm_range _ _ _ _ Hl t) as [[??]|[??]]; unfold x; lia. }
    split; [done|]. intros Ht. apply (lm_spent _ _ _ _ Hl t); [done|]. fold w x. lia.
  - intros s data [Hs Hx] x k w1. split.
    + destruct (pending_online r (steady_ms 0) Hr s w Hl Hs) as [_ Hrun']. unfold running in Hrun'.
      unfold x. lia.
    + destruct (HandleRecv_ok s data w Hc Hs Hx) as (_ & w' & E & _).
      by apply (HandleRecv_limits r (steady_ms 0) Hr Hup s data w w').
Qed.
End server.
