(* ===== verification/RoomRaces.v ===== *)
(** * The threads that share the rooms

    Workers queue jobs in rooms, one thread ticks them, and the heartbeat thread
    destroys the idle ones; all of them hold plain pointers.  Here their steps
    are interleaved: the mutex of [Game/RoomManager.cpp] makes the look-ups and
    the collection critical sections, and the queue of a room has its own lock
    ([JobQueue]), so one step is one such section, one queued job, or the end of
    the tick of one room.  An access to a destroyed room is a fault. *)
From S2P Require Import Prelude Platform ObjectPool Session Protobuf PbRuntimeDemo PacketTraits JobQueue GameRoom RoomManager RoomSpec.
Local Open Scope Z_scope.

(** ** State *)

(** Where a worker got its pointer: from [ServerSession::GetRoom] at some time, or
    from [GetOrCreate] or [FindReconnect]. *)
Inductive Source := FromSession (t : Z) | FromRegistry.

(** A worker between looking a room up and [PushJob]. *)
Inductive EnterPc := WIdle | WHold (r : nat) (j : RoomJob) (src : Source).

(** [TickAll]: the rooms that are left, and in one of them the jobs that were
    taken from the queue. *)
Inductive TickPc := TIdle | TRooms (rs : list nat) | TJobs (r : nat) (js : list RoomJob) (rs : list nat).

(** [RemoveIdleRooms], which holds the mutex: the rooms that are left, and one
    that has been found idle. *)
Inductive BeatPc := BIdle | BScan (now : Z) (rs : list nat) | BErase (now : Z) (r : nat) (rs : list nat).

Record Race := mkRace {
  registry : RoomManager;
  shared : Net;
  workers : nat → EnterPc;
  tick : TickPc;
  beat : BeatPc;
  fault : bool }.

Definition Race_new (R : RoomManager) (n : Net) : Race := mkRace R n (λ _, WIdle) TIdle BIdle false.

Section races.
Context `{Platform, PbRuntime}.
(** The configuration. *)
Context (idleMs reconnectWindowMs maxRoomPlayers : Z).
Implicit Types (R : RoomManager) (n : Net) (r t s : nat) (x : Race).

(** ** Steps *)

Definition set_worker t (p : EnterPc) x : Race :=
  mkRace (registry x) (shared x) (<[t := p]> (workers x)) (tick x) (beat x) (fault x).
Definition set_tick (p : TickPc) x : Race :=
  mkRace (registry x) (shared x) (workers x) p (beat x) (fault x).
Definition set_beat (p : BeatPc) x : Race :=
  mkRace (registry x) (shared x) (workers x) (tick x) p (fault x).
Definition set_registry R x : Race := mkRace R (shared x) (workers x) (tick x) (beat x) (fault x).
Definition set_shared n x : Race := mkRace (registry x) n (workers x) (tick x) (beat x) (fault x).
Definition set_fault x : Race := mkRace (registry x) (shared x) (workers x) (tick x) (beat x) true.

Definition clock n : Z := steady_ms (n_steady n).
Definition addresses R : list nat := map (λ e, e.2.1) (m_rooms R).
Definition erase r R : RoomManager := set_rooms (filter (λ e, e.2.1 ≠ r) (m_rooms R)) R.
Definition put r (gn : GameRoom * Net) x : Race := set_shared gn.2 (set_registry (store r gn.1 (registry x)) x).

(** The room the next step of a thread goes through. *)
Inductive touches x : nat → Prop :=
  | touches_worker t r j src : workers x t = WHold r j src → touches x r
  | touches_room r rs : tick x = TRooms (r :: rs) → touches x r
  | touches_jobs r js rs : tick x = TJobs r js rs → touches x r.

Inductive race_step : Race → Race → Prop :=
  (** Workers: [Handle_C_CHAT] and the others, [HandleDisconnect]. *)
  | worker_session x t s r j :
      workers x t = WIdle → GetRoom s (shared x) = Some r →
      race_step x (set_worker t (WHold r j (FromSession (clock (shared x)))) x)
  | worker_clear x t s r src :
      workers x t = WHold r (JLeave s) src →
      race_step x (set_shared (upd_session s (SetRoom None) (shared x)) x)
  (** [Handle_C_ROOM_ENTER], and the callback of a login. *)
  | worker_enter x t name s r R :
      workers x t = WIdle → beat x = BIdle →
      GetOrCreate maxRoomPlayers name (registry x) = (r, R) →
      race_step x (set_worker t (WHold r (JEnter s) FromRegistry) (set_registry R x))
  | worker_reconnect x t acc s r :
      workers x t = WIdle → beat x = BIdle → FindReconnect acc (registry x) = Some r →
      race_step x (set_worker t (WHold r (JRejoin s) FromRegistry) x)
  | worker_push x t r j src R :
      workers x t = WHold r j src → room_PushJob r j (registry x) = Some R →
      race_step x (set_worker t WIdle (set_registry R x))
  (** Whatever else they send, and the time that passes. *)
  | worker_sends x n :
      sends (shared x) n → net_wf n → race_step x (set_shared n x)
  | time_passes x : race_step x (set_shared (NowMs (shared x)).2 x)
  (** [TickAll]. *)
  | tick_begin x :
      tick x = TIdle → beat x = BIdle → race_step x (set_tick (TRooms (addresses (registry x))) x)
  | tick_take x r rs g :
      tick x = TRooms (r :: rs) → deref r (registry x) = Some g →
      race_step x (set_tick (TJobs r (m_jobQueue g) rs)
                     (set_registry (store r (set_jobs [] g) (registry x)) x))
  | tick_job x r j js rs g :
      tick x = TJobs r (j :: js) rs → deref r (registry x) = Some g →
      race_step x (set_tick (TJobs r js rs) (put r (run_job r j (g, shared x)) x))
  | tick_finish x r rs g :
      tick x = TJobs r [] rs → deref r (registry x) = Some g →
      race_step x (set_tick (TRooms rs) (put r (finish_tick reconnectWindowMs g (shared x)) x))
  | tick_end x : tick x = TRooms [] → race_step x (set_tick TIdle x)
  (** [RemoveIdleRooms]. *)
  | beat_begin x :
      beat x = BIdle →
      race_step x (set_beat (BScan (clock (shared x)) (addresses (registry x)))
                     (set_shared (NowMs (shared x)).2 x))
  | beat_keep x now r rs g :
      beat x = BScan now (r :: rs) → deref r (registry x) = Some g →
      ¬ (m_emptySinceMs g > 0 ∧ now - m_emptySinceMs g > idleMs) →
      race_step x (set_beat (BScan now rs) x)
  | beat_pick x now r rs g :
      beat x = BScan now (r :: rs) → deref r (registry x) = Some g →
      m_emptySinceMs g > 0 ∧ now - m_emptySinceMs g > idleMs →
      race_step x (set_beat (BErase now r rs) x)
  | beat_erase x now r rs :
      beat x = BErase now r rs →
      race_step x (set_beat (BScan now rs) (set_registry (erase r (registry x)) x))
  | beat_end x now : beat x = BScan now [] → race_step x (set_beat BIdle x)
  (** A thread goes through the pointer to a destroyed room. *)
  | dangling x r : touches x r → deref r (registry x) = None → race_step x (set_fault x).

(** ** Runs without overlap *)

(** The collection does not overlap with [TickAll] nor with a look-up whose job is
    not queued yet. *)
Definition calm x : Prop :=
  beat x ≠ BIdle → tick x = TIdle ∧ ∀ t r j, workers x t ≠ WHold r j FromRegistry.

(** A worker uses the room of a session within the time after which a room is
    idle. *)
Definition timely x : Prop :=
  ∀ t r j since, workers x t = WHold r j (FromSession since) → clock (shared x) - since ≤ idleMs.

Definition calm_step x x' : Prop := race_step x x' ∧ calm x' ∧ timely x'.

(** ** The invariant *)

Record rooms_ok R n : Prop := {
  ro_wf : rm_wf R;
  ro_linked : linked R n;
  ro_net : net_wf n }.

(** The room of a worker exists; if it has become empty, then after the worker
    read a session's pointer to it. *)
Definition hold_ok R n (p : EnterPc) : Prop :=
  match p with
  | WIdle => True
  | WHold r _ src =>
      ∃ g, deref r R = Some g
        ∧ match src with
          | FromSession since =>
              since ≤ clock n ∧ (m_emptySinceMs g = 0 ∨ since ≤ m_emptySinceMs g)
          | FromRegistry => True
          end
  end.

Definition rooms_left (p : TickPc) : list nat :=
  match p with TIdle => [] | TRooms rs => rs | TJobs r _ rs => r :: rs end.

Definition beat_ok R n (p : BeatPc) : Prop :=
  match p with
  | BIdle => True
  | BScan now _ => now ≤ clock n
  | BErase now r _ =>
      now ≤ clock n
      ∧ ∃ g, deref r R = Some g ∧ m_emptySinceMs g > 0 ∧ now - m_emptySinceMs g > idleMs
  end.

Record race_inv x : Prop := {
  ri_rooms : rooms_ok (registry x) (shared x);
  ri_hold : ∀ t, hold_ok (registry x) (shared x) (workers x t);
  ri_tick : ∀ r, r ∈ rooms_left (tick x) → is_Some (deref r (registry x));
  ri_beat : beat_ok (registry x) (shared x) (beat x);
  ri_calm : calm x;
  ri_timely : timely x;
  ri_fault : fault x = false }.

(** What every step does to the rooms that stay: they stay as empty as they
    were, or ([tk]) the tick thread has somebody enter or leave. *)
Record moved (tk : Prop) R n R' n' : Prop := {
  mv_ok : rooms_ok R' n';
  mv_clock : clock n ≤ clock n';
  mv_room : ∀ r g, deref r R = Some g →
    ∃ g', deref r R' = Some g'
      ∧ (m_emptySinceMs g' = m_emptySinceMs g
         ∨ tk ∧ (m_emptySinceMs g' = 0 ∨ clock n ≤ m_emptySinceMs g')) }.

Lemma moved_same (tk : Prop) R n n' : rooms_ok R n' → clock n ≤ clock n' → moved tk R n R n'.
Proof. intros Ho Hc. split; [done..|]. intros r g Hg. exists g. auto. Qed.

Lemma moved_hold (tk : Prop) R n R' n' p : moved tk R n R' n' → hold_ok R n p → hold_ok R' n' p.
Proof.
  intros [_ Hc Hr]. destruct p as [|r j src]; [done|]. intros (g & Hg & Hsrc).
  destruct (Hr r g Hg) as (g' & Hg' & He). exists g'. split; [done|].
  destruct src as [since|]; [|done]. destruct Hsrc as [Hle Hsrc]. split; [lia|].
  destruct He as [->|[_ [->|He]]]; [done|by left|right; lia].
Qed.

Lemma moved_tick (tk : Prop) R n R' n' (rs : list nat) :
  moved tk R n R' n' → (∀ r, r ∈ rs → is_Some (deref r R)) → ∀ r, r ∈ rs → is_Some (deref r R').
Proof. intros [_ _ Hr] Hrs r [g Hg]%Hrs. destruct (Hr r g Hg) as (g' & -> & _). by eexists. Qed.

Lemma moved_beat (tk : Prop) R n R' n' p :
  (tk → p = BIdle) → moved tk R n R' n' → beat_ok R n p → beat_ok R' n' p.
Proof.
  intros Htk [_ Hc Hr]. destruct p as [|now rs|now r rs]; simpl; [done|lia|].
  intros (Hn & g & Hg & Hi). split; [lia|]. destruct (Hr r g Hg) as (g' & Hg' & [He|[Ht _]]).
  - exists g'. by rewrite He.
  - by specialize (Htk Ht).
Qed.

(** *** The moves *)

Lemma store_moved (tk : Prop) r g gn' R n :
  deref r R = Some g → effect r (λ _, True) (g, n) gn' → room_wf gn'.1 →
  clock n ≤ clock gn'.2 →
  m_emptySinceMs gn'.1 = m_emptySinceMs g
  ∨ tk ∧ (m_emptySinceMs gn'.1 = 0 ∨ clock n ≤ m_emptySinceMs gn'.1) →
  rooms_ok R n → moved tk R n (store r gn'.1 R) gn'.2.
Proof.
  intros Hg Hef Hw Hc He [HR Hl Hn]. split; [split| |].
  - by eapply store_wf.
  - by eapply effect_linked.
  - by apply (ef_wf _ _ _ _ Hef).
  - done.
  - intros a x Hx. rewrite deref_store. case_decide; [|by eauto]. subst a. rewrite Hx.
    rewrite Hg in Hx. injection Hx as <-. by eexists.
Qed.

(** A job marks a room as occupied, or as empty from now on. *)
Lemma spec_job_empty acc cap (t1 t2 : Z) j (r : Room) :
  empty_since (spec_job acc cap t1 t2 j r) = empty_since r
  ∨ empty_since (spec_job acc cap t1 t2 j r) = None
  ∨ empty_since (spec_job acc cap t1 t2 j r) = mark t1.
Proof.
  destruct j; simpl; auto.
  - unfold spec_leave. case_decide; [|auto]. destruct (phase r); simpl; auto; case_decide; auto.
  - unfold spec_enter. destruct (phase r); auto; case_decide; auto.
  - unfold spec_leave. case_decide; [|auto]. destruct (phase r); simpl; auto; case_decide; auto.
  - unfold spec_move. by destruct (phase r); auto.
  - unfold spec_ready. by destruct (phase r); auto.
Qed.

Lemma mark_inj z z' : mark z = mark z' → z = z'.
Proof. unfold mark. repeat case_decide; congruence. Qed.

Lemma run_job_moved r g j R n :
  deref r R = Some g → rooms_ok R n →
  moved True R n (store r (run_job r j (g, n)).1 R) (run_job r j (g, n)).2.
Proof.
  intros Hg Ho. assert (Hw : room_wf g) by (by apply (rm_room _ (ro_wf _ _ Ho) r)).
  destruct (run_job_spec r j g n Hw) as (Hk & _).
  apply (store_moved True r g); [done|by apply run_job_effect|by apply run_job_wf|by apply steady_mono| |done].
  pose proof (run_job_abs r j g n Hw) as Habs. apply (f_equal empty_since) in Habs.
  destruct (spec_job_empty (λ s, GetAccountId s n) (m_maxPlayers g) (steady_ms (n_steady n))
    (steady_ms (S (n_steady n))) j (abs g)) as [E|[E|E]]; rewrite E in Habs.
  - left. by apply mark_inj.
  - right. split; [done|]. left. by apply (mark_inj _ 0).
  - right. split; [done|]. right. apply mark_inj in Habs. unfold clock. lia.
Qed.

Lemma finish_tick_moved r g R n :
  deref r R = Some g → rooms_ok R n →
  moved False R n (store r (finish_tick reconnectWindowMs g n).1 R)
    (finish_tick reconnectWindowMs g n).2.
Proof.
  intros Hg Ho. assert (Hw : room_wf g) by (by apply (rm_room _ (ro_wf _ _ Ho) r)).
  assert (Hc : (n_steady n ≤ n_steady (finish_tick reconnectWindowMs g n).2)%nat
    ∧ m_emptySinceMs (finish_tick reconnectWindowMs g n).1 = m_emptySinceMs g).
  { unfold finish_tick, ExpireReconnects, BroadcastPendingMoves. cbn [NowMs].
    repeat (case_decide; simpl);
      rewrite ?(sends_steady _ _ (BroadcastRoomState_sends _ _)),
        ?(sends_steady _ _ (BroadcastShared_sends _ _ _)); simpl; split; (lia || done). }
  destruct Hc as [Hk He].
  apply (store_moved False r g); [done|by apply finish_tick_effect|by apply finish_tick_wf
    |by apply steady_mono|by left|done].
Qed.

Lemma set_jobs_moved r g js R n :
  deref r R = Some g → rooms_ok R n →
  moved False R n (store r (set_jobs js g) R) n.
Proof.
  intros Hg Ho. assert (Hw : room_wf g) by (by apply (rm_room _ (ro_wf _ _ Ho) r)).
  apply (store_moved False r g (set_jobs js g, n)); [done| |by destruct Hw|done|by left|done].
  apply effect_jobs. auto.
Qed.

Lemma GetOrCreate_moved name R n r R' :
  GetOrCreate maxRoomPlayers name R = (r, R') → rooms_ok R n →
  moved False R n R' n ∧ is_Some (deref r R').
Proof.
  intros E [HR Hl Hn]. pose proof (GetOrCreate_deref maxRoomPlayers name R HR) as Hd.
  rewrite E in Hd. destruct Hd as (HR' & Hr & Hext & _). split; [|done].
  split; [split; [done| |done]|done|].
  - intros s a Ha. destruct (Hl s a Ha) as (g & Hg & Hs). eauto.
  - intros a g Hg. exists g. eauto.
Qed.

Lemma sends_moved R n n' : sends n n' → net_wf n' → rooms_ok R n → moved False R n R n'.
Proof.
  intros Hs Hn [HR Hl _]. apply moved_same; [split; [done| |done]|].
  - intros s r. rewrite (sends_room Hs). apply Hl.
  - unfold clock. by rewrite (sends_steady _ _ Hs).
Qed.

Lemma clock_moved R n : rooms_ok R n → moved False R n R (NowMs n).2.
Proof.
  intros [HR Hl [Hp Hb]]. apply moved_same; [by split|]. apply steady_mono. simpl. lia.
Qed.

Lemma clear_moved s R n : rooms_ok R n → moved False R n R (upd_session s (SetRoom None) n).
Proof.
  intros [HR Hl Hn]. apply moved_same; [split; [done| |by apply net_wf_upd]|done].
  intros t r. rewrite sess_upd_dec. case_decide; [done|]. apply Hl.
Qed.

Lemma inv_moved (tk : Prop) x R n ws p b :
  race_inv x → moved tk (registry x) (shared x) R n → (tk → beat x = BIdle) →
  (∀ t, ws t = workers x t ∨ hold_ok R n (ws t)) →
  (∀ r, r ∈ rooms_left p → r ∈ rooms_left (tick x) ∨ is_Some (deref r R)) →
  b = beat x ∨ beat_ok R n b →
  calm (mkRace R n ws p b (fault x)) → timely (mkRace R n ws p b (fault x)) →
  race_inv (mkRace R n ws p b (fault x)).
Proof.
  intros [] Hm Htk Hws Hp Hb Hc Ht. split; simpl; try done.
  - apply Hm.
  - intros t. destruct (Hws t) as [->|]; [|done]. by eapply moved_hold.
  - intros r [Hr|Hr]%Hp; [|done]. by eapply moved_tick.
  - destruct Hb as [->|]; [|done]. by eapply moved_beat.
Qed.

(** *** The collection *)

Lemma deref_erase r a R : rm_wf R → deref a (erase r R) = if decide (a = r) then None else deref a R.
Proof.
  intros HR. unfold erase, deref. simpl. pose proof (rm_addrs _ HR) as Hnd. clear HR.
  induction (m_rooms R) as [|[name [b g]] l IH]; [by case_decide|]. simpl in Hnd.
  apply NoDup_cons in Hnd as [Hb Hnd]. specialize (IH Hnd). rewrite filter_cons. simpl.
  destruct (decide (b ≠ r)) as [Hbr|Hbr]; simpl.
  - destruct (decide (b = a)) as [->|]; [by rewrite decide_False|done].
  - apply dec_stable in Hbr as ->. rewrite IH. destruct (decide (a = r)) as [->|]; [done|].
    by rewrite decide_False by congruence.
Qed.

Lemma erase_ok r R n :
  rooms_ok R n → (∀ s, m_room (sess s n) ≠ Some r) → rooms_ok (erase r R) n.
Proof.
  intros [HR Hl Hn] Hno. split; [|intros s a Ha|done].
  - assert (Hsub : m_rooms (erase r R) `sublist_of` m_rooms R) by apply sublist_filter.
    split.
    + eapply sublist_NoDup; [apply HR|]. by apply fmap_sublist.
    + eapply sublist_NoDup; [apply (rm_addrs _ HR)|]. by do 2 apply fmap_sublist.
    + intros a Ha. apply (rm_next _ HR). eapply elem_of_sublist; [exact Ha|].
      by do 2 apply fmap_sublist.
    + intros a g. rewrite deref_erase by done. case_decide; [done|]. apply HR.
  - rewrite deref_erase by done. rewrite decide_False; [by apply Hl|]. intros ->. by eapply Hno.
Qed.

(** An idle room can go: it has no members, and whoever held a pointer to it
    has used it. *)
Lemma inv_erase x now r rs :
  race_inv x → beat x = BErase now r rs →
  calm (set_beat (BScan now rs) (set_registry (erase r (registry x)) x)) →
  race_inv (set_beat (BScan now rs) (set_registry (erase r (registry x)) x)).
Proof.
  intros [Ho Hh Ht Hb Hc Htm Hf] Eb Hc'. rewrite Eb in Hb. destruct Hb as (Hnow & g & Hg & He & Hi).
  pose proof (ro_wf _ _ Ho) as HR.
  assert (Hm : m_members g = []) by (apply (rw_empty _ (rm_room _ HR _ _ Hg)); lia).
  destruct Hc as [Hct Hcw]; [congruence|]. split; simpl; try done.
  - apply erase_ok; [done|]. intros s Hs. destruct (ro_linked _ _ Ho s r Hs) as (g' & Hg' & Hin).
    assert (g' = g) as -> by congruence. rewrite Hm in Hin. by apply elem_of_nil in Hin.
  - intros t. specialize (Hh t). destruct (workers x t) as [|a j src] eqn:Ew; [done|].
    destruct Hh as (g' & Hg' & Hsrc). exists g'. split; [|done].
    rewrite deref_erase, decide_False; [done| |done]. intros ->.
    assert (g' = g) as -> by congruence.
    destruct src as [since|]; [|by destruct (Hcw t r j)].
    specialize (Htm t r j since Ew). destruct Hsrc as [_ [?|?]]; lia.
  - intros a Ha. rewrite Hct in Ha. by apply elem_of_nil in Ha.
Qed.

Lemma touches_alive x r : race_inv x → touches x r → is_Some (deref r (registry x)).
Proof.
  intros Hi Ht. destruct Ht as [t r j src E|r rs E|r js rs E].
  - pose proof (ri_hold _ Hi t) as Hh. rewrite E in Hh. destruct Hh as (g & -> & _). by eexists.
  - apply (ri_tick _ Hi). rewrite E. by left.
  - apply (ri_tick _ Hi). rewrite E. by left.
Qed.

Lemma inv_worker x R n t p :
  race_inv x → moved False (registry x) (shared x) R n → hold_ok R n p →
  let x' := mkRace R n (<[t := p]> (workers x)) (tick x) (beat x) (fault x) in
  calm x' → timely x' → race_inv x'.
Proof.
  intros Hi Hm Hp x' Hc Ht. apply (inv_moved False); auto; [done|].
  intros u. destruct (decide (u = t)) as [->|]; [right; by rewrite fn_lookup_insert|].
  left. by rewrite fn_lookup_insert_ne.
Qed.

Lemma inv_tick (tk : Prop) x R n p :
  race_inv x → moved tk (registry x) (shared x) R n → (tk → beat x = BIdle) →
  (∀ r, r ∈ rooms_left p → r ∈ rooms_left (tick x) ∨ is_Some (deref r R)) →
  let x' := mkRace R n (workers x) p (beat x) (fault x) in calm x' → timely x' → race_inv x'.
Proof. intros Hi Hm Htk Hp x' Hc Ht. apply (inv_moved tk); auto. Qed.

Lemma inv_beat x n b :
  race_inv x → moved False (registry x) (shared x) (registry x) n → beat_ok (registry x) n b →
  let x' := mkRace (registry x) n (workers x) (tick x) b (fault x) in calm x' → timely x' → race_inv x'.
Proof. intros Hi Hm Hb x' Hc Ht. apply (inv_moved False); auto. done. Qed.

Lemma occupied s r R n :
  rooms_ok R n → GetRoom s n = Some r → ∃ g, deref r R = Some g ∧ m_emptySinceMs g = 0.
Proof.
  intros [HR Hl _] Hr. destruct (Hl s r Hr) as (g & Hg & Hs). exists g. split; [done|].
  destruct (decide (m_emptySinceMs g = 0)) as [|He]; [done|].
  apply (rw_empty _ (rm_room _ HR _ _ Hg)) in He. rewrite He in Hs. by apply elem_of_nil in Hs.
Qed.

Lemma step_inv x x' : race_inv x → calm_step x x' → race_inv x'.
Proof.
  intros Hi (Hs & Hc & Ht). pose proof (ri_rooms _ Hi) as Ho.
  assert (Hbusy : tick x ≠ TIdle → beat x = BIdle).
  { intros Hn. destruct (beat x) eqn:E; [done|..]; destruct (ri_calm _ Hi); congruence. }
  assert (Hsame : moved False (registry x) (shared x) (registry x) (shared x)).
  { by apply moved_same. }
  destruct Hs as [x t s r j Ew Hr|x t s r src Ew|x t name s r R Ew Eb E|x t acc s r Ew Eb E
    |x t r j src R Ew E|x n Hs Hn|x|x Et Eb|x r rs g Et Hg|x r j js rs g Et Hg|x r rs g Et Hg|x Et
    |x Eb|x now r rs g Eb Hg Hk|x now r rs g Eb Hg Hk|x now r rs Eb|x now Eb|x r Htc Hd].
  - apply (inv_worker x); [done..| |done|done]. destruct (occupied s r _ _ Ho Hr) as (g & Hg & He).
    exists g. split; [done|]. split; [done|by left].
  - apply (inv_tick False x); [done|by apply clear_moved|done|by left|done|done].
  - destruct (GetOrCreate_moved name _ (shared x) r R E Ho) as [Hm [g Hg]].
    apply (inv_worker x); [done..| |done|done]. by exists g.
  - apply (inv_worker x); [done..| |done|done].
    destruct (FindReconnect_alive _ _ _ E) as [g Hg]. by exists g.
  - unfold room_PushJob in E. destruct (deref r (registry x)) as [g|] eqn:Hg; [|done].
    injection E as <-. apply (inv_worker x); [done|by apply (set_jobs_moved r g)|done..].
  - apply (inv_tick False x); [done|by apply sends_moved|done|by left|done|done].
  - apply (inv_tick False x); [done|by apply clock_moved|done|by left|done|done].
  - apply (inv_tick False x); [done..| |done|done]. intros r Hr. right. by apply deref_member.
  - apply (inv_tick False x); [done|by apply (set_jobs_moved r g)|done| |done|done].
    rewrite Et. by left.
  - apply (inv_tick True x); [done|by apply run_job_moved| | |done|done]; rewrite Et in *; [auto|by left].
  - apply (inv_tick False x); [done|by apply finish_tick_moved|done| |done|done].
    rewrite Et. intros a Ha. left. by right.
  - apply (inv_tick False x); [done..| |done|done]. intros r Hr. by apply elem_of_nil in Hr.
  - apply (inv_beat x); [done|by apply clock_moved| |done|done]. apply steady_mono. simpl. lia.
  - apply (inv_beat x); [done..| |done|done]. pose proof (ri_beat _ Hi) as Hb. by rewrite Eb in Hb.
  - apply (inv_beat x); [done..| |done|done]. pose proof (ri_beat _ Hi) as Hb. rewrite Eb in Hb.
    split; [done|]. by exists g.
  - by apply inv_erase.
  - by apply (inv_beat x).
  - destruct (touches_alive x r Hi Htc). congruence.
Qed.

(** C16. The rooms are safe to share as long as collections do not overlap with
    ticks and look-ups.  Any number of workers, the tick thread and the heartbeat
    thread interleave step by step.  In every run in which no collection is under
    way while the tick thread is in [TickAll] or a worker has looked a room up in
    the registry without having queued its job, and in which a worker that has
    read the room of a session uses it within the idle time, no thread ever goes
    through the pointer of a destroyed room - not even in one more step that
    breaks these rules - and no session is left with such a pointer. *)
Theorem calm_rooms_alive R n x :
  rm_wf R → linked R n → net_wf n → rtc calm_step (Race_new R n) x →
  fault x = false
  ∧ (∀ r, touches x r → is_Some (deref r (registry x)))
  ∧ (∀ s r, GetRoom s (shared x) = Some r → ∃ g, deref r (registry x) = Some g ∧ s ∈ m_members g)
  ∧ ∀ x', race_step x x' → fault x' = false.
Proof.
  intros HR Hl Hn Hr. assert (Hi : race_inv x).
  { revert Hr. apply rtc_invariant; [|by apply step_inv].
    split; simpl; try done. intros r Hr. by apply elem_of_nil in Hr. }
  split_and!; [apply Hi|intros r; by apply touches_alive|apply (ro_linked _ _ (ri_rooms _ Hi))|].
  intros x' Hs. destruct Hs as [| | | | | | | | | | | | | | | | |x r Htc Hd]; try apply (ri_fault _ Hi).
  destruct (touches_alive x r Hi Htc). congruence.
Qed.

(** ** One thread alone *)

Lemma store_store r g g' R : store r g' (store r g R) = store r g' R.
Proof.
  unfold store, set_rooms. simpl. f_equal. rewrite map_map. apply map_ext. intros e.
  destruct (decide (e.2.1 = r)); simpl; by case_decide.
Qed.

Lemma store_same r g R : NoDup (addresses R) → deref r R = Some g → store r g R = R.
Proof.
  unfold addresses, deref, store, set_rooms. destruct R as [l k]. simpl. intros Hnd Hg. f_equal.
  induction l as [|[name [a x]] l IH]; [done|]. simpl in *. apply NoDup_cons in Hnd as [Ha Hnd].
  destruct (decide (a = r)) as [->|]; f_equal; try by apply IH; try congruence.
  - congruence.
  - clear IH Hg. induction l as [|[name' [b y]] l IH]; [done|]. simpl in *.
    apply not_elem_of_cons in Ha as [Hb Ha]. apply NoDup_cons in Hnd as [_ Hnd].
    rewrite decide_False by done. f_equal. by apply IH.
Qed.

Lemma addresses_store r g R : addresses (store r g R) = addresses R.
Proof. pose proof (addrs_store r g R) as E. unfold um_keys in E. by rewrite !map_map in E. Qed.

Lemma jobs_alone x r js rs g :
  NoDup (addresses (registry x)) → tick x = TJobs r js rs → deref r (registry x) = Some g →
  rtc race_step x
    (set_tick (TJobs r [] rs) (put r (run_jobs (run_job r) js (g, shared x)) x)).
Proof.
  revert x g. induction js as [|j js IH]; intros x g Hnd Et Hg.
  - unfold put, set_tick, set_registry, set_shared. simpl. rewrite store_same by done.
    rewrite <- Et. by destruct x.
  - eapply rtc_l; [by apply tick_job|]. cbn [run_jobs].
    destruct (run_job r j (g, shared x)) as [g1 n1] eqn:E.
    etrans; [apply (IH _ g1)|].
    + simpl. by rewrite addresses_store.
    + done.
    + simpl. by rewrite deref_store, decide_True, Hg.
    + unfold put, set_tick, set_registry, set_shared. simpl. by rewrite store_store.
Qed.

(** What [TickAll] does when no other thread interferes is [tick_rooms]. *)
Lemma TickAll_alone x rs R n :
  NoDup (addresses (registry x)) → tick x = TRooms rs →
  tick_rooms reconnectWindowMs rs (registry x) (shared x) = Some (R, n) →
  rtc race_step x (set_tick TIdle (set_shared n (set_registry R x))).
Proof.
  revert x. induction rs as [|r rs IH]; intros x Hnd Et; cbn [tick_rooms].
  { intros [= <- <-]. apply rtc_once. pose proof (tick_end x Et) as Hs. by destruct x. }
  destruct (deref r (registry x)) as [g|] eqn:Hg; [|done]. cbn [mbind option_bind].
  rewrite Tick_split. unfold FlushJobs, Flush. cbn [fst snd].
  destruct (run_jobs (run_job r) (m_jobQueue g) (set_jobs [] g, shared x)) as [g1 n1] eqn:E1.
  destruct (finish_tick reconnectWindowMs g1 n1) as [g2 n2] eqn:E2. intros E.
  eapply rtc_l; [by apply tick_take|]. set (x1 := set_tick _ _).
  assert (Hd1 : deref r (registry x1) = Some (set_jobs [] g)).
  { simpl. by rewrite deref_store, decide_True, Hg. }
  etrans.
  { apply (jobs_alone x1 r (m_jobQueue g) rs (set_jobs [] g)); [|done|done].
    simpl. by rewrite addresses_store. }
  change (shared x1) with (shared x). rewrite E1. set (x2 := set_tick _ _).
  assert (Hd2 : deref r (registry x2) = Some g1).
  { simpl. by rewrite store_store, deref_store, decide_True, Hg. }
  eapply rtc_l; [by apply (tick_finish x2 r rs g1)|]. change (shared x2) with n1. rewrite E2.
  set (x3 := set_tick _ _).
  assert (E3 : registry x3 = store r g2 (registry x)) by (simpl; by rewrite !store_store).
  etrans; [apply (IH x3); [|done|by rewrite E3]|done].
  rewrite E3. by rewrite addresses_store.
Qed.

(** And the collection alone is [RemoveIdleRooms]. *)
Lemma filter_others (l : list (string * (nat * GameRoom))) r :
  r ∉ map (λ e, e.2.1) l → filter (λ e, e.2.1 ≠ r) l = l.
Proof.
  induction l as [|e l IH]; [done|]. simpl. intros [Hr Hl]%not_elem_of_cons.
  rewrite filter_cons_True by done. by rewrite IH.
Qed.

Lemma scan_alone x now pre suf :
  NoDup (addresses (registry x)) → m_rooms (registry x) = pre ++ suf →
  beat x = BScan now (map (λ e, e.2.1) suf) →
  rtc race_step x
    (set_beat BIdle (set_registry
       (set_rooms (pre ++ filter (λ e, ¬ is_idle now idleMs e) suf) (registry x)) x)).
Proof.
  revert x pre. induction suf as [|[name [r g]] suf IH]; intros x pre Hnd Em Eb.
  - rewrite app_nil_r in Em. simpl. rewrite app_nil_r. apply rtc_once.
    pose proof (beat_end x now Eb) as Hs. replace (set_rooms pre (registry x)) with (registry x); [|].
    + by destruct x.
    + rewrite <- Em. by destruct (registry x).
  - assert (Hg : deref r (registry x) = Some g).
    { unfold deref. apply um_find_Some.
      - unfold um_keys. by rewrite map_map.
      - apply list_elem_of_fmap. exists (name, (r, g)). split; [done|]. rewrite Em. set_solver. }
    rewrite filter_cons. destruct (decide (¬ is_idle now idleMs (name, (r, g)))) as [Hi|Hi].
    + eapply rtc_l; [by apply (beat_keep x now r (map (λ e, e.2.1) suf) g)|].
      etrans; [apply (IH _ (pre ++ [(name, (r, g))])); [done|by rewrite <- app_assoc|done]|].
      by rewrite <- app_assoc.
    + apply dec_stable in Hi. eapply rtc_l; [by apply (beat_pick x now r (map (λ e, e.2.1) suf) g)|].
      eapply rtc_l; [by apply beat_erase|].
      assert (Ee : m_rooms (erase r (registry x)) = pre ++ suf).
      { unfold addresses in Hnd. rewrite Em, map_app in Hnd. simpl in Hnd.
        apply NoDup_app in Hnd as (_ & Hpre & [Hsuf _]%NoDup_cons).
        unfold erase. simpl. rewrite Em, filter_app, filter_cons_False by (simpl; tauto).
        rewrite !filter_others; [done|done|]. intros Hr. apply (Hpre r Hr). by left. }
      etrans; [apply (IH _ pre); [|exact Ee|done]|done].
      unfold addresses in *. simpl. eapply sublist_NoDup; [exact Hnd|].
      apply fmap_sublist, sublist_filter.
Qed.

Lemma RemoveIdleRooms_alone x :
  NoDup (addresses (registry x)) → beat x = BIdle →
  let '(_, R, n) := RemoveIdleRooms idleMs (registry x) (shared x) in
  rtc race_step x (set_shared n (set_registry R x)).
Proof.
  intros Hnd Eb. unfold RemoveIdleRooms. cbn [NowMs]. eapply rtc_l; [by apply beat_begin|].
  set (x1 := set_beat _ _). etrans.
  { by apply (scan_alone x1 (clock (shared x)) [] (m_rooms (registry x))). }
  unfold set_beat, set_registry, set_shared. simpl. by rewrite <- Eb.
Qed.
End races.

(** ** The races *)

(** A room that has been empty for 100 ms, where rooms are idle after 5. *)
Definition idle_room : GameRoom := set_emptySince 900 (GameRoom_new "lobby" 16).
Definition idle_rooms : RoomManager :=
  {| m_rooms := [("lobby"%string, (0%nat, idle_room))]; next_room := 1 |}.

Definition racing : Race → Race → Prop := race_step 5 30000 16.

(** The heartbeat destroys a room that [TickAll] has collected: the tick thread
    goes through the pointer. *)
Example tick_of_destroyed :
  ∃ x, rtc racing (Race_new idle_rooms Net_new) x ∧ fault x = true.
Proof.
  eexists. split.
  - eapply rtc_l; [by apply tick_begin|].
    eapply rtc_l; [by apply beat_begin|].
    eapply rtc_l; [eapply beat_pick; [reflexivity|reflexivity|done]|].
    eapply rtc_l; [by eapply beat_erase|].
    eapply rtc_l; [eapply dangling; [by eapply touches_room|done]|]. apply rtc_refl.
  - done.
Qed.

(** A worker enters a room that is destroyed before its job is queued. *)
Example enter_destroyed :
  ∃ x, rtc racing (Race_new idle_rooms Net_new) x ∧ fault x = true.
Proof.
  eexists. split.
  - eapply rtc_l; [by apply (worker_enter _ _ _ _ 0 "lobby" 1)|].
    eapply rtc_l; [by apply beat_begin|].
    eapply rtc_l; [eapply beat_pick; [reflexivity|reflexivity|done]|].
    eapply rtc_l; [by eapply beat_erase|].
    eapply rtc_l; [eapply dangling; [by eapply (touches_worker _ 0)|done]|]. apply rtc_refl.
  - done.
Qed.

(** A session enters a room between the look at it and its destruction: it is told
    that it is in, and keeps the pointer. *)
Example entered_destroyed :
  let R := set_rooms [("lobby"%string, (0%nat, set_jobs [JEnter 1] idle_room))] idle_rooms in
  ∃ x, rtc racing (Race_new R Net_new) x
    ∧ GetRoom 1 (shared x) = Some 0%nat ∧ deref 0 (registry x) = None.
Proof.
  eexists. split.
  - eapply rtc_l; [by apply tick_begin|].
    eapply rtc_l; [by eapply tick_take|].
    eapply rtc_l; [by apply beat_begin|].
    eapply rtc_l; [eapply beat_pick; [reflexivity|reflexivity|done]|].
    eapply rtc_l; [by eapply tick_job|].
    eapply rtc_l; [by eapply beat_erase|]. apply rtc_refl.
  - split; vm_compute; reflexivity.
Qed.

(** Without overlap: while a worker holds the pointer of a session's room, another
    room is destroyed; then its job is queued, and taken by the next tick. *)
Definition busy_rooms : RoomManager :=
  {| m_rooms := [("arena"%string, (1%nat, set_members [1%nat] (GameRoom_new "arena" 16)));
                 ("lobby"%string, (0%nat, idle_room))];
     next_room := 2 |}.
Definition busy_net : Net := upd_session 1 (SetRoom (Some 1%nat)) Net_new.

Ltac calmly :=
  split;
  [first [ by intros [] | intros _; split; [reflexivity|]; intros [|t] r j; discriminate ]
  |intros [|t] r j since; [|discriminate];
   first [ discriminate | intros [= <- <- <-]; vm_compute; discriminate ]].

Lemma calm_rooms_alive_witness :
  ∃ x, rtc (calm_step 50 30000 16) (Race_new busy_rooms busy_net) x
    ∧ fault x = false ∧ GetRoom 1 (shared x) = Some 1%nat
    ∧ map fst (m_rooms (registry x)) = ["arena"%string]
    ∧ tick x = TJobs 1 [JReady "alice"] [].
Proof.
  assert (∃ x, rtc (calm_step 50 30000 16) (Race_new busy_rooms busy_net) x
    ∧ GetRoom 1 (shared x) = Some 1%nat ∧ map fst (m_rooms (registry x)) = ["arena"%string]
    ∧ tick x = TJobs 1 [JReady "alice"] [])
    as (x & Hr & Hx).
  { eexists. split.
    - eapply rtc_l; [split; [by apply (worker_session _ _ _ _ 0 1 1 (JReady "alice"))|calmly]|].
      eapply rtc_l; [split; [by apply beat_begin|calmly]|].
      eapply rtc_l; [split; [eapply beat_keep; [reflexivity|reflexivity|by vm_compute; intros []]|calmly]|].
      eapply rtc_l; [split; [eapply beat_pick; [reflexivity|reflexivity|done]|calmly]|].
      eapply rtc_l; [split; [by eapply beat_erase|calmly]|].
      eapply rtc_l; [split; [by eapply beat_end|calmly]|].
      eapply rtc_l; [split; [by eapply (worker_push _ _ _ _ 0)|calmly]|].
      eapply rtc_l; [split; [by apply tick_begin|calmly]|].
      eapply rtc_l; [split; [by eapply tick_take|calmly]|]. apply rtc_refl.
    - split_and!; vm_compute; reflexivity. }
  exists x. split; [exact Hr|]. split; [|exact Hx].
  destruct (calm_rooms_alive 50 30000 16 busy_rooms busy_net x) as [Hf _]; [| | |exact Hr|exact Hf].
  - split; [apply (bool_decide_unpack _); vm_compute; reflexivity..| |].
    + intros r [->|[->|[]%elem_of_nil]%elem_of_cons]%elem_of_cons; simpl; lia.
    + intros r g. unfold deref. simpl. repeat case_decide; intros [= <-];
        split; try apply NoDup_nil_2; try apply NoDup_singleton; done.
  - intros s r. unfold busy_net. rewrite sess_upd_dec. case_decide; [|done].
    subst. intros [= <-]. eexists. split; [reflexivity|]. by apply list_elem_of_singleton.
  - apply net_wf_upd, net_wf_new.
Defined.
