(* ===== verification/Scenarios.v ===== *)
(** * Runs of the server

    Concrete runs on the demonstration platform: what a client sees, the
    behaviours noted as findings, and the witnesses of the theorems about the
    whole server. *)
From S2P Require Import Prelude Bytes Strings Platform ObjectPool Packet RecvBuffer Protobuf PbRuntimeDemo PacketPb Session PacketTraits JobQueue Config AuthService GameRoom PacketManager SessionManager RoomManager Logic TrafficPolicy ServerCore ServerConn ServerSafety Accounts Sockets TestClient RoomSpec Requests Clients Presence Lifetime Authentication Admission Ranges.
Local Open Scope Z_scope.

Fixpoint run `{Platform, PbRuntime} (events : list server_event) (v : Server) : option Server :=
  match events with
  | [] => Some v
  | e :: events => v ← handle_event e v; run events v
  end.

(** The frame of a message a client sends. *)
Definition client_frame `{Message M} (id : PacketID) (m : M) : list byte :=
  let payload := default [] (SerializeToArray m (ByteSizeLong m)) in
  header_bytes {| packetSize := Z.of_nat (length payload); packetId := PacketID_val id |} ++ payload.

Definition login_frame (token : string) : list byte :=
  client_frame C_LOGIN (C_LOGIN_set_password token C_LOGIN_SharedCtor).
Definition enter_frame (room : string) : list byte :=
  client_frame C_ROOM_ENTER (C_ROOM_ENTER_set_room_name room C_ROOM_ENTER_SharedCtor).
(** A session server for which the token [t] belongs to account [t]. *)
Definition demo_auth (path : string) : Response :=
  {| statusCode := 200; body := valid_body (str_drop 21 path) |}.

Definition demo_start : Server := Server_new ServerConfig_default (AcceptPosted 100).
Definition arrive (sock' : Z) : server_event := EvAccept true true (AcceptPosted sock').
Definition logged_in : list server_event :=
  [arrive 101; EvRecv 0 true (login_frame "alice"); EvAuth 0 demo_auth].

Definition first_room (v : Server) : GameRoom :=
  match m_rooms (rooms (world v)) with (_, (_, g)) :: _ => g | [] => GameRoom_new "" 0 end.

Example alice_logs_in :
  (λ v, (GetAccountId 0 (net (world v)), length (wire (net (world v)))))
    <$> run logged_in demo_start = Some ("alice"%string, 1%nat).
Proof. vm_compute. reflexivity. Qed.

(** ** Runs are reachable *)

#[export] Instance event_ok_dec `{Platform} e v : Decision (event_ok e v).
Proof.
  destruct e as [ | s success data | | | | | ]; simpl; try apply _.
  destruct (m_recvContext (sess s (net (world v)))) as [c|].
  - destruct (decide (s ∈ rx_pending (net (world v)) ∧ Z.of_nat (length data) ≤ wsaBuf_len c))
      as [[Hs Hl]|Hn].
    + left. split; [done|]. by exists c.
    + right. intros [Hs (c' & [= <-] & Hl)]. by apply Hn.
  - right. by intros [_ (c & [=] & _)].
Defined.

#[export] Instance ids_left_dec v : Decision (ids_left v).
Proof. unfold ids_left. apply _. Defined.

Fixpoint run_okb `{Platform, PbRuntime} (events : list server_event) (v : Server) : bool :=
  match events with
  | [] => bool_decide (ids_left v)
  | e :: events =>
      bool_decide (event_ok e v) && bool_decide (ids_left v)
      && match handle_event e v with Some v' => run_okb events v' | None => false end
  end.

Lemma run_reachable `{Platform, PbRuntime} events v :
  run_okb events v = true →
  ∃ v', run events v = Some v' ∧ rtc server_step v v' ∧ ids_left v'.
Proof.
  revert v. induction events as [|e events IH]; intros v; simpl.
  { intros Hk%bool_decide_eq_true. by exists v. }
  rewrite !andb_true_iff, !bool_decide_eq_true. intros [[He Hk] Hr].
  destruct (handle_event e v) as [v1|] eqn:E; [|done]. simpl.
  destruct (IH v1 Hr) as (v2 & E2 & Hr2 & Hk2). exists v2. split_and!; [done| |done].
  eapply rtc_l; [|done]. by econstructor.
Qed.

Definition demo_logged : Server := default demo_start (run logged_in demo_start).

Lemma demo_logged_reachable : rtc server_step demo_start demo_logged ∧ ids_left demo_logged.
Proof.
  destruct (run_reachable logged_in demo_start) as (v & E & Hr); [vm_compute; reflexivity|].
  unfold demo_logged. by rewrite E.
Qed.

Lemma demo_logged_wf : conn_wf (world demo_logged).
Proof. apply (reachable_wf ServerConfig_default (AcceptPosted 100)), demo_logged_reachable. Qed.

(** ** Witnesses *)

Lemma server_never_stuck_witness :
  is_Some (handle_event EvHeartbeat demo_logged)
  ∧ is_Some (handle_event (EvRecv 0 true (enter_frame "lobby")) demo_logged).
Proof.
  pose proof (server_never_stuck ServerConfig_default (AcceptPosted 100) demo_logged
    (proj1 demo_logged_reachable) (proj2 demo_logged_reachable)) as (H & _).
  split; apply H; [done|compute_done].
Defined.

Lemma HandleRecv_serves_witness :
  let data := take 5 (enter_frame "lobby") in
  let w1 := kernel_receive 0 data (world demo_logged) in
  HandleRecv 0 5 w1
  = serve 4096 0 (frames (unread 0 (world demo_logged) ++ data)).1 (received 0 5 w1)
  ∧ (frames (unread 0 (world demo_logged) ++ data)).1 = [].
Proof.
  intros data w1. split; [|vm_compute; reflexivity].
  pose proof (HandleRecv_serves 0 data (world demo_logged) demo_logged_wf) as H.
  destruct H as [H _]; [compute_done| |exact H].
  eexists. split; [vm_compute; reflexivity|]. vm_compute. discriminate.
Defined.

(** A platform whose sends fail. *)
Definition BrokenPlatform : Platform := {|
  place := @place DemoPlatform; place_perm := @place_perm DemoPlatform;
  steady_ms := demo_clock; steady_mono := demo_clock_mono;
  system_ms := @system_ms DemoPlatform; wsa_send _ _ _ := false; wsa_recv _ := true |}.

Lemma connections_counted_witness :
  currentConnections (stats (net (world demo_logged))) = 1
  ∧ currentConnections (stats (net (world demo_logged))) = Z.of_nat (Count (smgr (world demo_logged))).
Proof.
  split; [vm_compute; reflexivity|].
  apply (connections_counted ServerConfig_default (AcceptPosted 100) demo_logged);
    apply demo_logged_reachable.
Defined.

(** Runs keep track of the sockets. *)
Lemma run_served `{Platform, PbRuntime} c l events v :
  served c l v → run_okb events v = true →
  ∃ v', run events v = Some v' ∧ served c (l ++ concat (map handed_in events)) v'.
Proof.
  revert l v. induction events as [|e events IH]; intros l v Hs; simpl.
  { intros _. exists v. by rewrite app_nil_r. }
  rewrite !andb_true_iff, !bool_decide_eq_true. intros [[He Hk] Hr].
  destruct (handle_event e v) as [v1|] eqn:E; [|done]. simpl. rewrite app_assoc.
  apply IH; [|done]. by eapply served_event.
Qed.

(** The first client comes and goes; a second one comes, and no further accept
    can be posted. *)
Lemma sockets_conserved_witness :
  let events := [arrive 101; EvRecv 0 true (login_frame "alice"); EvRecv 0 true [];
                 EvAccept true true (AcceptRefused 102)] in
  ∃ v, run events demo_start = Some v ∧ closed (net (world v)) = [100; 102]
    ∧ sockets (GetAll (smgr (world v))) (net (world v)) = [101]
    ∧ closed (net (world v)) ++ sockets (GetAll (smgr (world v))) (net (world v))
      ++ option_list (accepting v) ≡ₚ [100; 101; 102].
Proof.
  intros events.
  destruct (run_served ServerConfig_default [100] events demo_start) as (v & E & Hs).
  - apply (served_start ServerConfig_default (AcceptPosted 100)).
  - vm_compute. reflexivity.
  - exists v. split; [exact E|]. pose proof (proj1 (sockets_conserved _ _ _ Hs)) as Hp.
    vm_compute in E. injection E as <-. split_and!; [vm_compute; reflexivity..|exact Hp].
Defined.

(** The login answer is in flight; a ping is answered with another context. *)
Lemma inflight_untouched_witness :
  let e := EvRecv 0 true (header_bytes {| packetSize := 8; packetId := 13 |} ++ replicate 8 x01) in
  let v' := default demo_logged (handle_event e demo_logged) in
  inflight (net (world v')) = [0; 1]%nat
  ∧ ctx_at 0 (net (world v')) = ctx_at 0 (net (world demo_logged)).
Proof.
  intros e v'. split; [vm_compute; reflexivity|].
  destruct (inflight_untouched ServerConfig_default (AcceptPosted 100) demo_logged e v' 0) as [_ Hk].
  - apply demo_logged_reachable.
  - apply demo_logged_reachable.
  - compute_done.
  - vm_compute. reflexivity.
  - compute_done.
  - apply Hk. intros [ok Hok]. discriminate.
Defined.

(** Runs keep the log of the logins. *)
Fixpoint logins `{Platform, PbRuntime} (events : list server_event) (v : Server) : list (nat * string) :=
  match events with
  | [] => []
  | e :: events => vouched_logins e v ++ match handle_event e v with
                                         | Some v' => logins events v'
                                         | None => []
                                         end
  end.

Lemma run_logged `{Platform, PbRuntime} c l events v :
  logged c l v → run_okb events v = true →
  ∃ v', run events v = Some v' ∧ logged c (l ++ logins events v) v'.
Proof.
  revert l v. induction events as [|e events IH]; intros l v Hl; simpl.
  { intros _. exists v. by rewrite app_nil_r. }
  rewrite !andb_true_iff, !bool_decide_eq_true. intros [[He Hk] Hr].
  destruct (handle_event e v) as [v1|] eqn:E; [|done]. simpl. rewrite app_assoc.
  apply IH; [|done]. by eapply logged_event.
Qed.

(** Alice logs in and enters the lobby; a second client, who has no account, asks
    for the same, chats and gets ready, in vain. *)
Lemma members_authenticated_witness :
  let chat := client_frame C_CHAT (C_CHAT_set_message "hi" C_CHAT_SharedCtor) in
  let ready := header_bytes {| packetSize := 0; packetId := PacketID_val C_READY |} in
  let events := logged_in ++ [arrive 102; EvRecv 0 true (enter_frame "lobby");
                              EvRecv 1 true (enter_frame "lobby" ++ chat ++ ready); EvGameTick] in
  ∃ v g, run events demo_start = Some v ∧ deref 0 (rooms (world v)) = Some g
    ∧ logins events demo_start = [(0%nat, "alice"%string)]
    ∧ m_members g = [0%nat] ∧ ∀ s, s ∈ m_members g → ∃ a, (s, a) ∈ logins events demo_start.
Proof.
  intros chat ready events.
  destruct (run_logged ServerConfig_default [] events demo_start) as (v & E & Hl).
  - apply (logged_start ServerConfig_default (AcceptPosted 100)).
  - vm_compute. reflexivity.
  - rewrite app_nil_l in Hl. assert (El : logins events demo_start = [(0%nat, "alice"%string)]) by vm_equal.
    assert (E2 : deref 0 (rooms (world v)) = Some (first_room v) ∧ m_members (first_room v) = [0%nat]).
    { vm_compute in E. injection E as <-. split; vm_compute; reflexivity. }
    destruct E2 as [Eg Em]. destruct (members_authenticated _ _ _ Hl) as (_ & _ & _ & Hroom).
    exists v, (first_room v). split; [exact E|]. split; [exact Eg|]. split; [exact El|].
    split; [exact Em|]. exact (proj1 (Hroom 0%nat (first_room v) Eg)).
Defined.

(** The answer to the login is refused; neither the completion of the receive nor
    the heartbeat helps. *)
Definition validating_broken : Server :=
  default demo_start (run (H := BrokenPlatform) [arrive 101; EvRecv 0 true (login_frame "alice")] demo_start).
Definition zombie_start : Server :=
  default demo_start (handle_event (H := BrokenPlatform) (EvAuth 0 demo_auth) validating_broken).
Definition zombie_later : Server :=
  default demo_start (run (H := BrokenPlatform) [EvRecv 0 false []; EvHeartbeat] zombie_start).

Lemma refused_send_leaks_witness :
  0%nat ∈ GetAll (smgr (world zombie_later)) ∧ IsDisconnected 0 (net (world zombie_later)) = true
  ∧ currentConnections (stats (net (world zombie_later))) = 1 ∧ live_sessions zombie_later = [].
Proof.
  destruct (run_reachable (H := BrokenPlatform) [arrive 101; EvRecv 0 true (login_frame "alice")] demo_start)
    as (v & E & Hr & Hk); [vm_compute; reflexivity|].
  assert (Ev : v = validating_broken) by (unfold validating_broken; rewrite E; done). subst v.
  destruct (refused_send_leaks (H := BrokenPlatform) ServerConfig_default (AcceptPosted 100)
    validating_broken Hr Hk) as [_ Hl].
  specialize (Hl 0%nat demo_auth "alice" 0%nat).
  assert (Ea : validate demo_auth "alice" = (true, "alice"%string)) by (vm_compute; reflexivity).
  assert (Ef : FindReconnect "alice" (rooms (world validating_broken)) = None) by (vm_compute; reflexivity).
  rewrite Ea in Hl. cbv zeta in Hl. rewrite Ef in Hl. destruct Hl as (v1 & E1 & _ & _ & Hl).
  - vm_compute. reflexivity.
  - vm_compute. reflexivity.
  - split; [split|reflexivity]; [vm_compute; discriminate|vm_compute; reflexivity].
  - vm_compute. discriminate.
  - reflexivity.
  - assert (Ev : v1 = zombie_start) by (unfold zombie_start; rewrite E1; done). subst v1.
    destruct (run_reachable (H := BrokenPlatform) [EvRecv 0 false []; EvHeartbeat] zombie_start)
      as (v' & E' & Hr' & Hk'); [vm_compute; reflexivity|].
    assert (Ev : v' = zombie_later) by (unfold zombie_later; rewrite E'; done). subst v'.
    destruct (Hl zombie_later Hr' Hk') as (H1 & H2 & H3 & _).
    split; [exact H1|]. split; [exact H2|]. split; [rewrite H3|]; vm_compute; reflexivity.
Defined.

(** ** What clients see *)

(** Two players log in, enter a room and get ready: both are sent the start. *)
Definition bob_logged_in : list server_event :=
  [arrive 102; EvRecv 1 true (login_frame "bob"); EvAuth 0 demo_auth].
Definition both_ready : list server_event :=
  [EvRecv 0 true (enter_frame "lobby" ++ ready_packet);
   EvRecv 1 true (take 3 (enter_frame "lobby"));
   EvGameTick;
   EvRecv 1 true (drop 3 (enter_frame "lobby"));
   EvGameTick;
   EvRecv 0 true ready_packet; EvRecv 1 true ready_packet; EvGameTick].

(** The packet ids sent on a socket. *)
Definition ids_sent (sock : Z) (v : Server) : list Z :=
  map (λ e, packetId (header_at 0 e.2)) (filter (λ e, e.1 = Some sock) (wire (net (world v)))).

Example two_players_start :
  (λ v, (m_state (first_room v), m_members (first_room v), ids_sent 100 v, ids_sent 101 v))
    <$> run (logged_in ++ bob_logged_in ++ both_ready) demo_start
  = Some (IN_GAME, [1; 0]%nat,
          map PacketID_val [S_LOGIN; S_ROOM_ENTER; S_ROOM_STATE; S_ROOM_USER_ENTERED; S_ROOM_STATE;
                            S_ROOM_STATE; S_ROOM_STATE; S_GAME_START; S_ROOM_STATE],
          map PacketID_val [S_LOGIN; S_ROOM_ENTER; S_ROOM_STATE; S_ROOM_STATE; S_ROOM_STATE;
                            S_GAME_START; S_ROOM_STATE]).
Proof. vm_compute. reflexivity. Qed.

(** *** Both are in the lobby *)

Definition both_in_lobby : Server :=
  default demo_start (run (logged_in ++ bob_logged_in ++ take 5 both_ready) demo_start).

Lemma both_in_lobby_wf : conn_wf (world both_in_lobby).
Proof.
  apply (reachable_wf ServerConfig_default (AcceptPosted 100)).
  destruct (run_reachable (logged_in ++ bob_logged_in ++ take 5 both_ready) demo_start)
    as (v & E & Hr & _); [vm_compute; reflexivity|].
  unfold both_in_lobby. by rewrite E.
Qed.

Lemma both_in_lobby_room : at_room 0 "lobby" (rooms (world both_in_lobby)) (first_room both_in_lobby).
Proof. split; [apply both_in_lobby_wf|vm_compute; reflexivity..]. Qed.

Lemma HandleRecv_requests_witness :
  let data := ready_packet ++ client_frame C_CHAT (C_CHAT_set_message "hi" C_CHAT_SharedCtor) in
  let k := Z.of_nat (length data) in
  ∃ w' served tail,
    HandleRecv 0 k (kernel_receive 0 data (world both_in_lobby)) = Some w'
    ∧ served `prefix_of` (frames (unread 0 (world both_in_lobby) ++ data)).1
    ∧ at_room 0 "lobby" (rooms w')
        (add_jobs (concat (map (requests 0 "lobby" 0 "alice" (Some 0%nat)) served) ++ tail)
           (first_room both_in_lobby)).
Proof.
  intros data k.
  destruct (HandleRecv_requests 0 "lobby" 0 data (world both_in_lobby) (first_room both_in_lobby))
    as (w' & served & tail & E & Hp & Hg & _).
  - exact both_in_lobby_wf.
  - compute_done.
  - eexists. split; [vm_compute; reflexivity|]. vm_compute. discriminate.
  - exact both_in_lobby_room.
  - exists w', served, tail. split; [exact E|]. split; [exact Hp|exact Hg].
Defined.

Definition hi : Pb_C_CHAT := C_CHAT_set_message "hi" C_CHAT_SharedCtor.

Lemma hi_ok : request_ok (Chat hi).
Proof. split; [split; vm_compute; [split; [discriminate|reflexivity]|reflexivity]|vm_compute; reflexivity]. Qed.

(** A ready and a chat packet and the beginning of a third one. *)
Lemma HandleRecv_performs_witness :
  let data := encode Ready ++ encode (Chat hi) ++ take 3 (encode ListRooms) in
  let k := Z.of_nat (length data) in
  let w1 := kernel_receive 0 data (world both_in_lobby) in
  HandleRecv 0 k w1 = perform_all 4096 0 [Ready; Chat hi] (received 0 k w1)
  ∧ ∃ w', HandleRecv 0 k w1 = Some w' ∧ conn_wf w'.
Proof.
  intros data k w1.
  apply (HandleRecv_performs 0 data (world both_in_lobby) [Ready; Chat hi] (take 3 (encode ListRooms))).
  - exact both_in_lobby_wf.
  - compute_done.
  - eexists. split; [vm_compute; reflexivity|]. vm_compute. discriminate.
  - repeat constructor; try apply hi_ok.
  - vm_compute. reflexivity.
  - vm_compute. reflexivity.
Defined.

Definition receive_ready (s : nat) (w : World) : World :=
  default w (HandleRecv s 4 (kernel_receive s ready_packet w)).
Definition demo_ready : World := receive_ready 1 (receive_ready 0 (world both_in_lobby)).

Lemma demo_receives :
  receives [(0%nat, ready_packet); (1%nat, ready_packet)] (world both_in_lobby) demo_ready.
Proof.
  eapply receives_one with (w1 := receive_ready 0 (world both_in_lobby)).
  - compute_done.
  - eexists. split; [vm_compute; reflexivity|]. vm_compute. discriminate.
  - vm_compute. reflexivity.
  - eapply receives_one with (w1 := demo_ready); [compute_done| |vm_compute; reflexivity|constructor].
    eexists. split; [vm_compute; reflexivity|]. vm_compute. discriminate.
Qed.

Lemma readies_start_game_witness :
  ∃ w2 g', GameTick demo_ready = Some w2 ∧ at_room 0 "lobby" (rooms w2) g' ∧ m_state g' = IN_GAME
    ∧ 1%nat ∈ m_members g'.
Proof.
  destruct (readies_start_game 0 "lobby" [(0%nat, ready_packet); (1%nat, ready_packet)]
    (world both_in_lobby) demo_ready (first_room both_in_lobby)) as (w2 & g' & E & Hg & Hs & Hm).
  - exact both_in_lobby_wf.
  - exact both_in_lobby_room.
  - vm_compute. reflexivity.
  - vm_compute. reflexivity.
  - exact demo_receives.
  - discriminate.
  - compute_done.
  - compute_done.
  - intros e [->|[->|[]%elem_of_nil]%elem_of_cons]%elem_of_cons;
      (split; [vm_compute; reflexivity|]; split; [vm_compute; reflexivity|]; split; [compute_done|];
       split; [compute_done|]; vm_compute; reflexivity).
  - split; apply (bool_decide_unpack _); vm_compute; reflexivity.
  - exists w2, g'. split; [exact E|]. split; [exact Hg|]. split; [exact Hs|].
    rewrite Hm. compute_done.
Defined.

(** Bob says hi, and Alice gets ready. *)
Definition receive_chat (s : nat) (w : World) : World :=
  default w (HandleRecv s 8 (kernel_receive s (encode (Chat hi)) w)).
Definition chatty : World := receive_ready 0 (receive_chat 1 (world both_in_lobby)).

Lemma chatty_receives :
  receives [(1%nat, encode (Chat hi)); (0%nat, ready_packet)] (world both_in_lobby) chatty.
Proof.
  eapply receives_one with (w1 := receive_chat 1 (world both_in_lobby)).
  - compute_done.
  - eexists. split; [vm_compute; reflexivity|]. vm_compute. discriminate.
  - vm_compute. reflexivity.
  - eapply receives_one with (w1 := chatty); [compute_done| |vm_compute; reflexivity|constructor].
    eexists. split; [vm_compute; reflexivity|]. vm_compute. discriminate.
Qed.

Lemma chatty_jobs :
  m_jobQueue (first_room both_in_lobby)
  ++ concat (map (asks 0 "lobby" (world both_in_lobby)) [(1%nat, encode (Chat hi)); (0%nat, ready_packet)])
  = [JChat "bob" "hi"; JReady "alice"].
Proof. vm_compute. reflexivity. Qed.

Lemma rooms_follow_clients_witness :
  ∃ w2 g' t', GameTick chatty = Some w2 ∧ at_room 0 "lobby" (rooms w2) g'
    ∧ spec_tick (λ s, GetAccountId s (net chatty)) 16 (reconnectWindowMs (cfg chatty))
        [JChat "bob" "hi"; JReady "alice"] (steady_ms (n_steady (net chatty)))
        (abs (first_room both_in_lobby)) (abs g') t'.
Proof.
  destruct (rooms_follow_clients 0 "lobby" [(1%nat, encode (Chat hi)); (0%nat, ready_packet)]
    (λ e, if decide (e.1 = 1%nat) then [Chat hi] else [Ready])
    (world both_in_lobby) chatty (first_room both_in_lobby)) as (w2 & g' & t' & E & _ & Hg & _ & _ & Hs).
  - exact both_in_lobby_wf.
  - exact both_in_lobby_room.
  - exact chatty_receives.
  - compute_done.
  - intros t [->|[->|[]%elem_of_nil]%elem_of_cons]%elem_of_cons; vm_compute; reflexivity.
  - intros e [->|[->|[]%elem_of_nil]%elem_of_cons]%elem_of_cons;
      (split; [vm_compute; reflexivity|]); constructor; first [exact hi_ok | constructor].
  - exists w2, g', t'. split; [exact E|]. split; [exact Hg|]. exact Hs.
Defined.

Lemma chats_are_heard_witness :
  ∃ w2, GameTick chatty = Some w2
    ∧ heard (SendPacket S_CHAT (said "bob" "hi")) 0 (net chatty) (net w2)
    ∧ IsDisconnected 0 (net w2) = false.
Proof.
  destruct (chats_are_heard 0 "lobby" [(1%nat, encode (Chat hi)); (0%nat, ready_packet)]
    (world both_in_lobby) chatty (first_room both_in_lobby) 1 (encode (Chat hi)) hi)
    as ((w2 & E & Hh) & _).
  - exact both_in_lobby_wf.
  - exact both_in_lobby_room.
  - exact chatty_receives.
  - compute_done.
  - intros t [->|[->|[]%elem_of_nil]%elem_of_cons]%elem_of_cons; vm_compute; reflexivity.
  - by left.
  - compute_done.
  - exact hi_ok.
  - vm_compute. reflexivity.
  - split_and!; [split; vm_compute; (discriminate || reflexivity)..|reflexivity].
  - vm_compute. discriminate.
  - exists w2. split; [exact E|]. split.
    + apply (Hh 0%nat); [compute_done|]. rewrite chatty_jobs. intros j Hj.
      apply elem_of_cons in Hj as [->|Hj%list_elem_of_singleton]; [by split|subst j; by split].
    + vm_compute in E. injection E as <-. vm_compute. reflexivity.
Defined.

(** ** Going and coming back *)

(** A server on which sessions may be silent for 50 ms: Bob has just sent
    something, Alice has not. *)
Definition impatient : ServerConfig :=
  Apply None {["heartbeat_timeout_ms"%string := "50"%string]} ServerConfig_default.
Definition impatient_start : Server := Server_new impatient (AcceptPosted 100).
Definition impatient_lobby : Server :=
  default impatient_start
    (run (logged_in ++ bob_logged_in ++ take 5 both_ready ++ [EvRecv 1 true ready_packet]) impatient_start).

Lemma impatient_lobby_wf : conn_wf (world impatient_lobby).
Proof.
  apply (reachable_wf impatient (AcceptPosted 100)).
  destruct (run_reachable (logged_in ++ bob_logged_in ++ take 5 both_ready ++ [EvRecv 1 true ready_packet])
    impatient_start) as (v & E & Hr & _); [vm_compute; reflexivity|].
  unfold impatient_lobby. by rewrite E.
Qed.

Lemma Heartbeat_sweeps_witness :
  ∃ w', Heartbeat (world impatient_lobby) = Some w'
    ∧ SessionManager.Find 1 (smgr w') = None ∧ SessionManager.Find 2 (smgr w') = Some 1%nat
    ∧ IsDisconnected 0 (net w') = true.
Proof.
  destruct (Heartbeat_sweeps (world impatient_lobby) impatient_lobby_wf) as (w' & E & _ & _ & Hs & _).
  destruct (Hs 1 0%nat) as [Hdead _]; [vm_compute; reflexivity|].
  destruct Hdead as [Hd Hf]; [vm_compute; reflexivity|].
  destruct (Hs 2 1%nat) as [_ Hlive]; [vm_compute; reflexivity|].
  exists w'. split; [exact E|]. split; [apply Hf; vm_compute; reflexivity|]. split; [|exact Hd].
  apply Hlive. vm_compute in E. injection E as <-. vm_compute. discriminate.
Defined.

(** Alice's token is being validated. *)
Definition validating : Server :=
  default demo_start (run [arrive 101; EvRecv 0 true (login_frame "alice")] demo_start).

Lemma validating_wf : conn_wf (world validating).
Proof.
  apply (reachable_wf ServerConfig_default (AcceptPosted 100)).
  destruct (run_reachable [arrive 101; EvRecv 0 true (login_frame "alice")] demo_start)
    as (v & E & Hr & _); [vm_compute; reflexivity|].
  unfold validating. by rewrite E.
Qed.

Lemma login_answered_witness :
  ∃ v', handle_event (EvAuth 0 demo_auth) validating = Some v' ∧ auth (world v') = []
    ∧ GetAccountId 0 (net (world v')) = "alice"%string ∧ rooms (world v') = RoomManager_new.
Proof.
  pose proof (login_answered validating 0 demo_auth "alice" 0 validating_wf) as Hl.
  assert (Ev : validate demo_auth "alice" = (true, "alice"%string)) by (vm_compute; reflexivity).
  rewrite Ev in Hl.
  destruct Hl as (v' & E & _ & Ha & _ & _ & Hacc & Hr).
  - vm_compute. reflexivity.
  - vm_compute. reflexivity.
  - split; [split; vm_compute; (discriminate || reflexivity)|reflexivity].
  - vm_compute. discriminate.
  - exists v'. split; [exact E|]. split; [rewrite Ha; vm_compute; reflexivity|]. split; [exact Hacc|].
    assert (Ef : FindReconnect "alice" (rooms (world validating)) = None) by (vm_compute; reflexivity).
    cbv zeta in Hr. rewrite Ef in Hr. rewrite Hr. vm_compute. reflexivity.
Defined.

(** The game runs, and Alice loses the connection. *)
Definition playing : Server :=
  default demo_start (run (logged_in ++ bob_logged_in ++ both_ready) demo_start).

Lemma playing_wf : conn_wf (world playing).
Proof.
  apply (reachable_wf ServerConfig_default (AcceptPosted 100)).
  destruct (run_reachable (logged_in ++ bob_logged_in ++ both_ready) demo_start)
    as (v & E & Hr & _); [vm_compute; reflexivity|].
  unfold playing. by rewrite E.
Qed.

Lemma reconnect_restores_witness :
  ∃ w1 w2 w3 w4 g4, HandleDisconnect 0 (world playing) = Some w1 ∧ GameTick w1 = Some w2
    ∧ login_callback 5 true "alice" w2 = Some w3 ∧ GameTick w3 = Some w4
    ∧ at_room 0 "lobby" (rooms w4) g4 ∧ 5%nat ∈ m_members g4 ∧ 1%nat ∈ m_members g4.
Proof.
  destruct (reconnect_restores 0 "lobby" 0 (world playing) (first_room playing))
    as (w1 & w2 & g2 & E1 & E2 & Hg2 & Hm2 & Hback).
  - exact playing_wf.
  - split; [apply playing_wf|vm_compute; reflexivity..].
  - vm_compute. reflexivity.
  - vm_compute. reflexivity.
  - compute_done.
  - vm_compute. reflexivity.
  - vm_compute. reflexivity.
  - destruct Hback as [_ Hback].
    { clear -E1 E2. vm_compute in E1. injection E1 as <-. vm_compute in E2. injection E2 as <-.
      vm_compute. discriminate. }
    destruct (Hback) with (s' := 5%nat) as (w3 & w4 & g4 & E3 & E4 & Hg4 & Hm4 & _).
    { clear -E1 E2. vm_compute in E1. injection E1 as <-. vm_compute in E2. injection E2 as <-.
      intros r' g' Hg' _. unfold deref in Hg'. simpl in Hg'. by case_decide. }
    exists w1, w2, w3, w4, g4. split_and!; [exact E1|exact E2|exact E3|exact E4|exact Hg4|..].
    + apply Hm4. by left.
    + apply Hm4. right. apply Hm2. split; [compute_done|discriminate].
Defined.

(** ** Findings *)

(** A client that leaves between its [C_ROOM_ENTER] and the next tick stays in
    the room: at the time of the disconnect it has no room, so no leave is
    queued, and the queued enter does not ask whether it is still connected.
    Nothing removes it any more, and the room is never empty again. *)
Example ghost_member :
  (λ v, (m_members (first_room v), IsDisconnected 0 (net (world v)), Count (smgr (world v)),
         m_emptySinceMs (first_room v)))
    <$> run (logged_in ++ [EvRecv 0 true (enter_frame "lobby"); EvRecv 0 true []; EvGameTick;
                           EvGameTick]) demo_start
  = Some ([0%nat], true, 0%nat, 0).
Proof. vm_compute. reflexivity. Qed.

(** A client that goes from one room to another can lose its room pointer: the
    leave queued in the old room clears it whenever it runs, here after the new
    room has set it. *)
Example lost_room_pointer :
  (λ v, (map (λ e, (e.1, m_members e.2.2)) (m_rooms (rooms (world v))), GetRoom 0 (net (world v))))
    <$> run (logged_in ++ [EvRecv 0 true (enter_frame "a"); EvGameTick;
                           EvRecv 0 true (enter_frame "b"); EvGameTick]) demo_start
  = Some ([("b"%string, [0%nat]); ("a"%string, [])], None).
Proof. vm_compute. reflexivity. Qed.

(** Nothing keeps two sessions from having one account.  If both are in a lobby,
    the readiness of the second takes back that of the first, and the game does
    not start ([shared_account_waits]). *)
Example one_account_twice :
  (λ v, (m_state (first_room v), length (m_members (first_room v)), m_readyPlayers (first_room v)))
    <$> run (logged_in ++ [arrive 102; EvRecv 1 true (login_frame "alice"); EvAuth 0 demo_auth;
             EvRecv 0 true (enter_frame "lobby"); EvRecv 1 true (enter_frame "lobby"); EvGameTick;
             EvRecv 0 true ready_packet; EvRecv 1 true ready_packet; EvGameTick]) demo_start
  = Some (WAITING, 2%nat, []).
Proof. vm_compute. reflexivity. Qed.

(** A session may log in again while it is in a room.  The room goes on counting
    the old account as ready, also after the player has left: here Bob starts a game
    with Dave, who is not ready. *)
Example readiness_outlives_account :
  let leave := header_bytes {| packetSize := 0; packetId := PacketID_val C_ROOM_LEAVE |} in
  (λ v, (m_state (first_room v), map (λ s, GetAccountId s (net (world v))) (m_members (first_room v))))
    <$> run (logged_in ++ [arrive 102; EvRecv 0 true (enter_frame "lobby"); EvGameTick;
             EvRecv 0 true (ready_packet ++ login_frame "carol"); EvAuth 0 demo_auth; EvRecv 0 true leave; EvGameTick;
             arrive 103; EvRecv 1 true (login_frame "bob"); EvAuth 0 demo_auth;
             EvRecv 2 true (login_frame "dave"); EvAuth 0 demo_auth;
             EvRecv 1 true (enter_frame "lobby"); EvRecv 2 true (enter_frame "lobby"); EvGameTick;
             EvRecv 1 true ready_packet; EvGameTick]) demo_start
  = Some (IN_GAME, ["dave"%string; "bob"%string]).
Proof. vm_compute. reflexivity. Qed.

(** [Handle_C_ROOM_ENTER] is not atomic: if the heartbeat thread collects the
    idle room between [GetOrCreate] and [PushJob], the job is pushed to a
    destroyed room. *)
Example enter_after_collection :
  let '(r, R) := GetOrCreate 16 "old" demo_rooms in
  let '(removed, R', _) := RemoveIdleRooms 500 R demo_players in
  removed = 1 ∧ room_PushJob r (JEnter 3) R' = None.
Proof. vm_compute. done. Qed.

(** A packet as long as the receive buffer or longer never completes: the
    window posted for its rest is empty, and the completion of an empty receive
    ends the connection, not counted as oversized. *)
Example long_packet_window :
  let v := run (logged_in ++ [EvRecv 0 true
    (header_bytes {| packetSize := 9000; packetId := 3 |} ++ replicate 8188 x00)]) demo_start in
  (λ v, (wsaBuf_len <$> m_recvContext (sess 0 (net (world v))),
         totalOversizedPacketRejections (stats (net (world v))))) <$> v = Some (Some 0, 0).
Proof. vm_compute. reflexivity. Qed.

(** The test client's conversation with the server: it is logged in and enters
    the room; its movement is not sent out because no game is running, and its
    chat line comes back from the next tick. *)
Example test_client_talks :
  let v := run ([arrive 101] ++ concat (map (λ p, [EvRecv 0 true p; EvAuth 0 demo_auth; EvGameTick])
                                          (TestClient.main_packets "A"))) demo_start in
  (λ v, TestClient.RecvLoop (map snd (wire (net (world v))))) <$> v
  = Some [TestClient.ShowLogin (Some (S_LOGIN_set_message "Login OK."
            (S_LOGIN_set_success true S_LOGIN_SharedCtor)));
          TestClient.ShowRoomEnter (Some (S_ROOM_ENTER_set_room_name "room1"
            (enter_ack true "입장 성공")));
          TestClient.ShowUnknown (PacketID_val S_ROOM_STATE);
          TestClient.ShowChat (Some (S_CHAT_set_message "hello from A"
            (S_CHAT_set_sender "pw" S_CHAT_SharedCtor)))].
Proof. cbv zeta. vm_equal. Qed.

(** While its receive and the answer to its login are outstanding, the contexts
    of both hold the session. *)
Lemma outstanding_held_witness :
  let n := net (world demo_logged) in
  (rx_pending n, inflight n) = ([0%nat], [0%nat])
  ∧ receiver (sess 0 n) = Some (RECV, Some 0%nat)
  ∧ ioType (ctx_at 0 n) = SEND ∧ ∃ s, (s < next_session demo_logged)%nat ∧ ctx_session (ctx_at 0 n) = Some s.
Proof.
  intros n. destruct (outstanding_held ServerConfig_default (AcceptPosted 100) demo_logged
    (proj1 demo_logged_reachable)) as (Hrecv & Hsend & _).
  split; [vm_compute; reflexivity|]. split; [apply Hrecv|apply Hsend].
  - compute_done.
  - compute_done.
Defined.

(** A platform whose clock ends after a day, on which the rate limiter of the
    default configuration stays in range. *)
Section day.

#[local] Instance DayPlatform : Platform := {
  place _ x l := x :: l;
  place_perm _ x l := Permutation_refl (x :: l);
  steady_ms i := Z.min 86401000 (1000 + 10 * Z.of_nat i);
  steady_mono i j Hij := Z.min_le_compat_l _ _ _ (demo_clock_mono i j Hij);
  system_ms i := 1700000000000 + 10 * Z.of_nat i;
  wsa_send _ _ _ := true;
  wsa_recv _ := true }.

Definition day_start : Server := Server_new ServerConfig_default (AcceptPosted 100).
Definition day_logged : Server :=
  default day_start (run [arrive 101; EvRecv 0 true (login_frame "alice")] day_start).

Lemma day_logged_reachable : rtc server_step day_start day_logged.
Proof.
  destruct (run_reachable [arrive 101; EvRecv 0 true (login_frame "alice")] day_start)
    as (v & E & Hr & _); [vm_compute; reflexivity|]. unfold day_logged. by rewrite E.
Qed.

Lemma day_uptime k :
  packetRateLimitPerSec ServerConfig_default * (steady_ms k - steady_ms 0) ≤ 1000000000000.
Proof.
  change (100 * (Z.min 86401000 (1000 + 10 * Z.of_nat k) - 1000) ≤ 1000000000000). lia.
Qed.

Lemma limiter_in_range_witness :
  let w := world day_logged in let data := enter_frame "lobby" in
  let k := Z.of_nat (length data) in let w1 := kernel_receive 0 data w in
  m_rateTokens (sess 0 (net w)) = 199
  ∧ HandleRecv 0 k w1
    = serve_with CheckRateLimit_exact (maxPacketSize (cfg w)) 0 (frames (unread 0 w ++ data)).1
        (received 0 k w1).
Proof.
  split; [vm_compute; reflexivity|].
  refine (proj2 (proj2 (limiter_in_range ServerConfig_default (AcceptPosted 100) day_logged
    _ day_uptime day_logged_reachable) 0%nat (enter_frame "lobby") _)).
  - vm_compute. split; discriminate.
  - compute_done.
Defined.
End day.

(** A platform whose system clock goes on by ten seconds per reading, and a server
    with a control plane that allows two connections a minute. *)
Section minutes.

#[local] Instance SlowPlatform : Platform := {
  place _ x l := x :: l;
  place_perm _ x l := Permutation_refl (x :: l);
  steady_ms := demo_clock;
  steady_mono := demo_clock_mono;
  system_ms i := 1700000000000 + 10000 * Z.of_nat i;
  wsa_send _ _ _ := true;
  wsa_recv _ := true }.

Lemma slow_pos k : 0 < system_ms k.
Proof. change (0 < 1700000000000 + 10000 * Z.of_nat k). lia. Qed.
Lemma slow_mono i j : (i ≤ j)%nat → system_ms i ≤ system_ms j.
Proof.
  intros Hij. change (1700000000000 + 10000 * Z.of_nat i ≤ 1700000000000 + 10000 * Z.of_nat j). lia.
Qed.

Definition keyed : ServerConfig := (Load (Some "key"%string) (Some []) ∅ ServerConfig_default).2.
Definition ask_policy : server_event :=
  EvRegistry (mkResponse 200 (policy_body "{" "" "2" "}")) (λ _, mkResponse 200 "").

Definition keyed_start : Server := Server_new keyed (AcceptPosted 100).
Definition limited : Server := default keyed_start (run [ask_policy] keyed_start).

(** Runs in which the limit stays in force, with the number of pulls. *)
Fixpoint pulls (events : list server_event) (v : Server) : Z :=
  match events with
  | [] => 0
  | e :: events => (if pulled e v then 1 else 0)
                   + match handle_event e v with Some v' => pulls events v' | None => 0 end
  end.
Fixpoint limit_okb (limit : Z) (events : list server_event) (v : Server) : bool :=
  bool_decide (0 < m_policyMaxConnectionsPerMinuteTotal (policy v) ≤ limit)
  && match events with
     | [] => true
     | e :: events => match handle_event e v with Some v' => limit_okb limit events v' | None => false end
     end.

Lemma run_policed limit events v0 (k : Z) v :
  policed limit v0 k v → run_okb events v = true → limit_okb limit events v = true →
  ∃ v', run events v = Some v' ∧ policed limit v0 (k + pulls events v) v'.
Proof.
  revert k v. induction events as [|e events IH]; intros k v Hp; simpl.
  { intros _ _. exists v. by rewrite Z.add_0_r. }
  rewrite !andb_true_iff, !bool_decide_eq_true. intros [[He Hk] Hr] [_ Hl].
  destruct (handle_event e v) as [v1|] eqn:E; [|done]. simpl. rewrite Z.add_assoc.
  apply IH; [|done..]. apply (policed_event _ _ _ _ v); [done..|].
  destruct events; simpl in Hl; apply andb_true_iff in Hl as [Hl _]; by apply bool_decide_eq_true in Hl.
Qed.

(** Of three clients two are let in; another one is after the next pull. *)
Lemma connections_policed_witness :
  let events := [arrive 101; arrive 102; arrive 103; ask_policy; arrive 104] in
  ∃ v', run events limited = Some v' ∧ pulls events limited = 1
    ∧ connections (world v') - connections (world limited) = 3
    ∧ wall (world v') - wall (world limited) = 70000
    ∧ 60000 * (connections (world v') - connections (world limited)) ≤ 2 * (60000 * (2 + 1) + 70000).
Proof.
  intros events.
  destruct (run_reachable [ask_policy] keyed_start) as (v & E & Hr & _); [vm_compute; reflexivity|].
  assert (Ev : v = limited) by (unfold limited; by rewrite E). subst v.
  destruct (run_policed 2 events limited 0 limited) as (v' & E' & Hp).
  - apply policed_start. compute_done.
  - vm_compute. reflexivity.
  - vm_compute. reflexivity.
  - exists v'. assert (Ek : pulls events limited = 1) by vm_equal.
    assert (Hn : Z.of_nat (next_session v') ≤ 2147483648 ∧ connections (world v') - connections (world limited) = 3
                 ∧ wall (world v') - wall (world limited) = 70000).
    { vm_compute in E'. injection E' as <-. split_and!; vm_compute; congruence. }
    destruct Hn as (Hn & H3 & H7). split; [exact E'|]. split; [exact Ek|]. split; [exact H3|]. split; [exact H7|].
    rewrite Ek in Hp. rewrite <- H7. change (0 + 1) with 1 in Hp.
    apply (connections_policed slow_pos slow_mono keyed (AcceptPosted 100) limited 2 1 v' Hr Hp Hn).
Defined.
End minutes.
